(* ===== verification/_CoqProject ===== *)
-Q . S2P
Prelude.v
Prog.v
Protocol.v
Kernel.v
World.v
Machine.v
Lock.v
SimKernel.v
Timespec.v
Clock.v
Errno.v
Attr.v
Mutex.v
MutexPool.v
Semaphore.v
SemaphorePool.v
Barrier.v
Cond.v
CondSpec.v
CondTimed.v
Monitor.v
Mqueue.v
MqueueSpec.v
MqueuePool.v
MqueueLock.v
MqueueErrno.v
Thread.v
ThreadPool.v
Timer.v
TimerRun.v
TimerPreempt.v
Api.v
