(* ===== verification/Prelude.v ===== *)
(** * A verification of libposix

    libposix implements a part of the POSIX threads, clocks, timers and
    message queues on the hyperC kernel ([src/src/*.c], headers in
    [src/include]).  This library models every function of the sources in
    Rocq and proves what they guarantee, and what they do not.

    ** Files

    - [Prelude]: machine integers, error numbers, tactics, and [tally], sums
      over the threads of a pool.
    - [Prog]: C functions as trees of atomic actions ([prog]), run alone
      ([run]) or interleaved ([pool_step], [reach]); invariants of single
      actions ([keeps]); a logic for interleaved programs ([typed]); every
      pool terminates ([pool_wf]).
    - [Kernel]: the interface of the kernel, [Class Kernel], and what the
      library relies on, one class of laws per service.
    - [World]: the structures of [hcos_types.h], [signal.h] and
      [posix_timer.c], the memory that holds them, fields as references.
    - [Machine]: programs refine an abstract machine of program points.
      [Protocol]: programs follow a protocol of stages, for calls whose
      program points need no names.
    - [Lock]: critical sections, as an invariant over the threads of a pool.
    - [SimKernel]: a concrete kernel that satisfies all the laws, for the
      witnesses.
    - [Timespec]: [utils.c].
    - [Clock]: [posix_clock.c], [posix_unistd.c], [sched_yield].
    - [Errno]: a judgement that follows what a call stores in [errno].
    - [Attr]: the attribute functions of [posix_pthread.c] and
      [posix_pthread_mutex.c], [pthread_equal], [sched_get_priority_max].
    - [Mutex]: [posix_pthread_mutex.c].  [MutexPool]: critical sections of
      any number of tasks under one mutex.
    - [Semaphore]: [posix_semaphore.c] and [sem_getvalue].
      [SemaphorePool]: any number of tasks on one semaphore.
    - [Barrier]: [posix_pthread_barrier.c].
    - [Cond]: [posix_pthread_cond.c].  [CondSpec]: an abstract condition
      variable and the simulation of the code by it.  [CondTimed]: the same
      with deadlines.  [Monitor]: data under a mutex with condition
      variables.
    - [Mqueue]: [posix_mqueue.c].  [MqueueSpec]: abstract queues and the
      refinement of every operation.  [MqueuePool]: concurrent use of
      one queue.  [MqueueLock]: any concurrent operations and the module's
      lock.  [MqueueErrno]: their results and [errno] in the worlds that
      executions reach.
    - [Thread]: creation, joining and termination in [posix_pthread.c].
      [ThreadPool]: threads that end, two joiners of one thread.
    - [Timer]: [posix_timer.c].  [TimerRun]: a timer while time passes.
      [TimerPreempt]: calls that a running timer interrupts.
    - [Api]: all the functions as one type of calls, and their convention
      for [errno].

    The parts call each other as in C: all deadlines go through [Timespec]
    and [Clock]; [Cond] calls [Mutex]; [Timer] calls [Thread] for its
    notification threads; everything that allocates uses the hooks of
    [hcos_posix.h], which are fields of the world ([with_hooks] is
    [hcos_posix_init]).

    ** How the code is modelled

    A function has the name of its C function.  Definitions that touch no
    shared memory are pure: they return the C result with the values stored
    through output parameters, [None] when they perform a signed overflow; a
    pointer that the code tests against null is an [option].  The others are
    [prog]s: each load, store, kernel call, allocation and [errno]
    assignment is one action on the [world], so that the pools of [Barrier],
    [MutexPool], [SemaphorePool], [CondSpec], [CondTimed], [Monitor],
    [MqueuePool], [MqueueLock], [ThreadPool] and [Api] interleave
    tasks at every shared access.  The world has a
    typed memory from addresses to objects; accessing an address that does
    not (or no longer) hold an object of the right type is the fault
    [BadPointer], and null dereferences, buffer overflows, signed overflows
    and failed assertions are faults too.  The one local that is read
    uninitialised, [sleep_ticks] of [pthread_mutex_timedlock], holds the value
    [garbage] of the world, the same in every call: what is proved for every
    [garbage] holds whatever the local happens to be, and the theorems that
    need it to be [WAIT] say so.  A kernel call answers with the list of its
    possible results, empty when the caller blocks; [run] gives the list of
    all outcomes of a call.  [c : caller] is the calling task.

    Integers have the widths of the target of the Makefile
    (arm-none-eabi, ILP32) and of newlib's error numbers and flags;
    [time_t] has [time_bits] bits.  No definition uses fuel: the code has no
    loop except the traversals of the queue list, which are structural
    recursions.

    ** What is proved

    - [Timespec], [Clock]: conversion of times to ticks rounds up, exactly
      where the ticks divide the second and never to a shorter time
      elsewhere, with the precise results and undefined cases for all times;
      deadlines round-trip; the sleeping functions.
    - [Barrier]: for any number of tasks and any interleaving, nobody passes
      before the threshold, nothing deadlocks, exactly the threshold of tasks
      pass and at most one is the serial thread.
    - [SemaphorePool]: the value accounts for the posts and the successful
      waits, and only a wait on an exhausted semaphore is ever blocked, so that
      all calls return when the tokens suffice.
    - [MutexPool]: critical sections are executed one after the other in
      effect, exclude each other and all return, when the uninitialised
      timeout of [pthread_mutex_lock] happens to be [WAIT]; otherwise they
      may not ([lock_may_not_exclude]).
    - [Cond], [CondSpec]: for any number of waiting, signalling and
      broadcasting tasks and any interleaving, the code refines an abstract
      condition variable, nothing faults, no wake-up is lost and none is
      invented; but a wake-up can be stolen.
    - [CondTimed]: with deadlines, a thread that times out can be counted off
      twice ([cond_timeout_race]); timed waits, waits, signals and broadcasts
      still refine an abstract condition variable that allows for it, until a
      broadcast holds the lock while [waiting] is negative.
    - [Monitor]: the proof rule for clients of both: critical sections that
      are verified one by one, with waits in them, are correct together.
    - [Mqueue], [MqueueSpec]: every operation refines abstract queues; queues
      are first in first out and bounded, with their errors; but [mq_open]
      never lists a queue, for all programs that use the module, so that
      what executions see of the module are its refusals ([MqueueErrno]).
    - [MqueuePool]: given a queue on the list, all the operations on it, run
      concurrently, are linearizable and block only on a full or empty queue,
      as long as a descriptor stays open.  No execution has such a queue as
      the module stands; the theorems are about the code of the operations.
    - [MqueueLock]: whatever operations run together, the list of queues is
      changed under the module's lock only and every call gives the lock
      back, but for an [mq_open] without memory; the first calls race to
      initialise the lock ([mq_init_race]).
    - [TimerRun]: after [timer_settime], exactly the notifications that are
      due, at every tick.  [TimerPreempt]: [timer_settime], with a relative
      or an absolute time, is atomic although expirations interrupt it;
      [timer_gettime] is not.
    - [ThreadPool]: threads that end release what they own, or leave it to
      the joiner; but two tasks can join one thread, one of them after its
      release, and a detached thread releases the stack it runs on.
    - [Api]: which functions report errors in [errno], to which numbers, and
      that all others leave it alone, for any tasks interleaved in any way.
    - [Attr]: the attribute functions are those of a record of independent
      attributes.
    - [Thread], [Timer], [Mutex], [Semaphore]: the results and
      effects of each operation, errors and releases of memory included.

    Theorems with a number C1, C2, ... are the main properties, by
    importance; other theorems complete the account of a component.  Each
    one with hypotheses has a witness, an instance on [SimKernel].  Several theorems
    state defects of the code: joins that do not wait, locks whose failure is
    dropped, queues that are never linked, names that overflow.

    ** What is not modelled

    The kernel and the C library, which are not in the repository: the
    kernel is a parameter with laws, of the C library only what the calls
    mean.  Scheduling priorities do not restrict the interleavings.  The tick
    counter may advance between any two actions in the pools of
    [SemaphorePool], [CondTimed], [Monitor], [MqueuePool] and [MqueueLock]
    ([clocked_step]) and in those of [Api], and it is constant in the other
    pools, where no call has a deadline; in [TimerRun] it advances between
    calls, and the kernel calls [timer_do] at the tick for which its timer is
    armed; in [TimerPreempt] this happens between any two actions of a call,
    and [timer_do] runs to its end in between, as it does in an interrupt.
    Expirations do not interrupt the calls of the other pools.  The stack a
    task runs on is not modelled: the stack of a thread is a block of memory
    that the library allocates and releases, and nothing faults when a task
    goes on running on a released one.
    The application's thread function is a parameter, and its timer callback
    an effect.  The traversal of the queue list is one action when a
    descriptor is looked up, and one action per queue when a name is.

    Every function of [src/src] and every inline function of the headers is
    translated.  The lines that no definition translates are licence
    notices, comments, prototypes, type names, constants without a use, and
    the fields of [struct tm] that no function of the library reads. *)
From stdpp Require Export base option list gmap strings.
From stdpp Require Import options.
From Stdlib Require Export ZArith Lia.
#[export] Set Default Goal Selector "1".
#[global] Open Scope Z_scope.

(** ** Machine integers

    The build targets [arm-none-eabi] (Makefile), an ILP32 target: [int],
    [long], [unsigned] and pointers have 32 bits, [short] has 16 and
    [long long] / [int64_t] have 64.  Unsigned arithmetic wraps; a
    conversion to a narrower type keeps the low bits (GCC's choice for the
    signed case); signed arithmetic that leaves its range is undefined, and
    a pure function that performs it returns [None]. *)

Definition UINT_MAX : Z := 2 ^ 32 - 1.

(** Conversion to an unsigned type of [w] bits. *)
Definition wrapu (w z : Z) : Z := z mod 2 ^ w.

(** Conversion to a signed type of [w] bits. *)
Definition wraps (w z : Z) : Z :=
  (z + 2 ^ (w - 1)) mod 2 ^ w - 2 ^ (w - 1).

Definition in_u (w z : Z) : bool := (0 <=? z) && (z <? 2 ^ w).
Definition in_s (w z : Z) : bool := (- 2 ^ (w - 1) <=? z) && (z <? 2 ^ (w - 1)).

(** The result of a signed operation of [w] bits, [None] on overflow. *)
Definition sgn (w z : Z) : option Z := if in_s w z then Some z else None.

(** ** Error numbers and flags

    The values of newlib's [errno.h] and [fcntl.h], the C library of the
    target. *)
Definition EPERM : Z := 1.
Definition ENOENT : Z := 2.
Definition EBADF : Z := 9.
Definition EAGAIN : Z := 11.
Definition ENOMEM : Z := 12.
Definition EBUSY : Z := 16.
Definition EEXIST : Z := 17.
Definition EINVAL : Z := 22.
Definition EDEADLK : Z := 45.
Definition ENAMETOOLONG : Z := 91.
Definition ETIMEDOUT : Z := 116.
Definition EMSGSIZE : Z := 122.
Definition ENOTSUP : Z := 134.
Definition O_CREAT : Z := 0x200.
Definition O_EXCL : Z := 0x800.
Definition O_NONBLOCK : Z := 0x4000.

(** A C condition on an integer flag word: [flags & mask] is not zero. *)
Definition has_flag (flags mask : Z) : bool := negb (Z.land flags mask =? 0).

(** ** Automation *)

(** [bool_lia] turns the boolean comparisons of the context and of the goal
    into propositions and calls [lia]. *)
Ltac bool_lia :=
  repeat match goal with
         | H : andb _ _ = true |- _ => apply andb_prop in H as [? ?]
         | H : andb _ _ = false |- _ => apply andb_false_iff in H
         | H : orb _ _ = true |- _ => apply orb_prop in H
         | H : orb _ _ = false |- _ => apply orb_false_elim in H as [? ?]
         | H : negb _ = true |- _ => apply negb_true_iff in H
         | H : negb _ = false |- _ => apply negb_false_iff in H
         | H : (_ <? _) = true |- _ => apply Z.ltb_lt in H
         | H : (_ <? _) = false |- _ => apply Z.ltb_ge in H
         | H : (_ <=? _) = true |- _ => apply Z.leb_le in H
         | H : (_ <=? _) = false |- _ => apply Z.leb_gt in H
         | H : (_ =? _) = true |- _ => apply Z.eqb_eq in H
         | H : (_ =? _) = false |- _ => apply Z.eqb_neq in H
         end; try lia.

(** [case_if] destructs the outermost boolean test of the goal. *)
Ltac case_if :=
  match goal with
  | |- context [if ?b then _ else _] =>
      lazymatch type of b with bool => let E := fresh "E" in destruct b eqn:E end
  end.

Ltac case_ifs := repeat case_if.

(** [test b] evaluates a boolean test to the value [lia] finds for it. *)
Ltac test_true b := replace b with true by (symmetry; bool_lia || (apply Z.eqb_eq; lia) || (apply Z.ltb_lt; lia) || (apply Z.leb_le; lia)).
Ltac test_false b := replace b with false by (symmetry; (apply Z.eqb_neq; lia) || (apply Z.ltb_ge; lia) || (apply Z.leb_gt; lia)).

Create HintDb cint.

Lemma in_s_spec w z : in_s w z = true <-> - 2 ^ (w - 1) <= z < 2 ^ (w - 1).
Proof. unfold in_s. rewrite andb_true_iff, Z.leb_le, Z.ltb_lt. done. Qed.

Lemma in_u_spec w z : in_u w z = true <-> 0 <= z < 2 ^ w.
Proof. unfold in_u. rewrite andb_true_iff, Z.leb_le, Z.ltb_lt. done. Qed.

Lemma sgn_in w z : - 2 ^ (w - 1) <= z < 2 ^ (w - 1) -> sgn w z = Some z.
Proof. intros H. unfold sgn. apply in_s_spec in H. by rewrite H. Qed.

Lemma sgn_Some w z r : sgn w z = Some r -> r = z /\ - 2 ^ (w - 1) <= z < 2 ^ (w - 1).
Proof.
  unfold sgn. destruct (in_s w z) eqn:E; intros [=]. subst.
  by apply in_s_spec in E.
Qed.

Lemma wrapu_small w z : 0 <= z < 2 ^ w -> wrapu w z = z.
Proof. intros. apply Z.mod_small. done. Qed.

Lemma wrapu_range w z : 0 <= w -> 0 <= wrapu w z < 2 ^ w.
Proof. intros. apply Z.mod_pos_bound. lia. Qed.

Lemma wraps_small w z : 0 < w -> - 2 ^ (w - 1) <= z < 2 ^ (w - 1) -> wraps w z = z.
Proof.
  intros Hw H. unfold wraps.
  assert (2 ^ w = 2 * 2 ^ (w - 1)) as E.
  { rewrite <- Z.pow_succ_r by lia. f_equal. lia. }
  rewrite Z.mod_small; lia.
Qed.

Lemma pow2_le a b : a <= b -> 0 <= a -> 2 ^ a <= 2 ^ b.
Proof. intros. apply Z.pow_le_mono_r; lia. Qed.

#[export] Hint Resolve sgn_in wrapu_small wrapu_range wraps_small pow2_le : cint.

(** ** Sums over a list, the counting argument of the concurrent components *)

Fixpoint tally {A} (f : A -> Z) (l : list A) : Z :=
  match l with
  | [] => 0
  | x :: l' => f x + tally f l'
  end.

Lemma tally_insert {A} (f : A -> Z) (l : list A) (i : nat) (x y : A) :
  l !! i = Some x -> tally f (<[i:=y]> l) = tally f l - f x + f y.
Proof.
  revert i. induction l as [|z l IH]; intros [|i]; simpl; intros H; simplify_eq.
  - lia.
  - rewrite (IH i H). lia.
Qed.

Lemma tally_app {A} (f : A -> Z) (l k : list A) : tally f (l ++ k) = tally f l + tally f k.
Proof. induction l as [|x l IH]; simpl; [done|]. rewrite IH. lia. Qed.

Lemma tally_nonneg {A} (f : A -> Z) (l : list A) :
  (forall x, 0 <= f x) -> 0 <= tally f l.
Proof. intros H. induction l as [|x l IH]; simpl; [lia|]. specialize (H x). lia. Qed.

Lemma tally_le {A} (f g : A -> Z) (l : list A) :
  (forall x, f x <= g x) -> tally f l <= tally g l.
Proof. intros H. induction l as [|x l IH]; simpl; [lia|]. specialize (H x). lia. Qed.

Lemma tally_ext_in {A} (f g : A -> Z) (l : list A) :
  (forall x, x ∈ l -> f x = g x) -> tally f l = tally g l.
Proof.
  induction l as [|x l IH]; simpl; intros H; [done|].
  rewrite IH, (H x); set_solver.
Qed.

Lemma tally_add {A} (f g : A -> Z) (l : list A) :
  tally (fun x => f x + g x) l = tally f l + tally g l.
Proof. induction l as [|x l IH]; simpl; lia. Qed.

Lemma tally_lookup {A} (f : A -> Z) (l : list A) (i : nat) (x : A) :
  (forall y, 0 <= f y) -> l !! i = Some x -> f x <= tally f l.
Proof.
  intros Hf. revert i. induction l as [|z l IH]; intros [|i]; simpl; intros H; simplify_eq.
  - pose proof (tally_nonneg f l Hf). lia.
  - specialize (IH i H). specialize (Hf z). lia.
Qed.

Lemma tally_pos {A} (f : A -> Z) (l : list A) :
  (forall y, 0 <= f y) -> 0 < tally f l -> exists i x, l !! i = Some x /\ 0 < f x.
Proof.
  intros Hf. induction l as [|z l IH]; simpl; intros H; [lia|].
  destruct (decide (0 < f z)) as [Hz|Hz].
  - by exists 0%nat, z.
  - destruct IH as (i & x & ? & ?); [lia|]. by exists (S i), x.
Qed.

Lemma tally_replicate {A} (f : A -> Z) (n : nat) (x : A) :
  tally f (replicate n x) = Z.of_nat n * f x.
Proof. induction n as [|n IH]; simpl replicate; simpl tally; [lia|]. rewrite IH. lia. Qed.

Lemma tally_const1 {A} (l : list A) : tally (fun _ => 1) l = Z.of_nat (length l).
Proof. induction l as [|x l IH]; simpl length; simpl tally; lia. Qed.

(** Two positions that each carry weight. *)
Lemma tally_two {A} (f : A -> Z) (l : list A) (i j : nat) (x y : A) :
  (forall z, 0 <= f z) -> i <> j -> l !! i = Some x -> l !! j = Some y ->
  f x + f y <= tally f l.
Proof.
  intros Hf. revert i j.
  induction l as [|z l IH]; intros [|i] [|j]; simpl; intros Hij Hi Hj; simplify_eq.
  - pose proof (tally_lookup f l j y Hf Hj). lia.
  - pose proof (tally_lookup f l i x Hf Hi). lia.
  - specialize (IH i j ltac:(lia) Hi Hj). specialize (Hf z). lia.
Qed.

Lemma tally_imap {A B} (f : B -> Z) (g : nat -> A -> B) (h : A -> Z) (l : list A) :
  (forall i x, f (g i x) = h x) -> tally f (imap g l) = tally h l.
Proof.
  revert g. induction l as [|x l IH]; intros g H; [done|].
  simpl. rewrite H, IH; [done|]. intros i y. apply H.
Qed.

Lemma tally_zero {A} (f : A -> Z) (l : list A) :
  (forall x, x ∈ l -> f x = 0) -> tally f l = 0.
Proof.
  intros H. rewrite (tally_ext_in f (fun _ => 0)) by done.
  clear H. induction l; simpl; lia.
Qed.

Lemma tally_map {A B} (f : B -> Z) (g : A -> B) (l : list A) : tally f (map g l) = tally (fun x => f (g x)) l.
Proof. induction l as [|x l IH]; simpl; [done|]. by rewrite IH. Qed.

(** Comparing a list with a function of its positions. *)
Lemma tally_seq {A} (f : A -> Z) (g : nat -> Z) (l : list A) (k : nat) :
  (forall i x, l !! i = Some x -> g (k + i)%nat <= f x) -> tally g (seq k (length l)) <= tally f l.
Proof.
  revert k. induction l as [|x l IH]; intros k H; simpl; [lia|].
  pose proof (H 0%nat x eq_refl) as Hx. rewrite Nat.add_0_r in Hx.
  assert (tally g (seq (S k) (length l)) <= tally f l); [|lia].
  apply IH. intros i y Hi. rewrite Nat.add_succ_comm. by apply (H (S i)).
Qed.

Lemma tally_seq_lt {A} (f : A -> Z) (g : nat -> Z) (l : list A) (k i : nat) (x : A) :
  (forall j y, l !! j = Some y -> g (k + j)%nat <= f y) -> l !! i = Some x -> g (k + i)%nat < f x ->
  tally g (seq k (length l)) < tally f l.
Proof.
  revert k i. induction l as [|y l IH]; intros k i H Hi Hlt; [done|].
  assert (forall j z, l !! j = Some z -> g (S k + j)%nat <= f z) as Htl.
  { intros j z Hj. rewrite Nat.add_succ_comm. by apply (H (S j)). }
  pose proof (H 0%nat y eq_refl) as Hy. rewrite Nat.add_0_r in Hy. simpl. destruct i as [|i].
  - injection Hi as ->. rewrite Nat.add_0_r in Hlt. pose proof (tally_seq f g l (S k) Htl). lia.
  - assert (tally g (seq (S k) (length l)) < tally f l); [|lia].
    apply (IH (S k) i); [done|done|by rewrite Nat.add_succ_comm].
Qed.

(** ** Histories

    A history is a list of events, each on behalf of a task; [events_of i h]
    are those of task [i], in order. *)
Definition events_of {E : Type} (i : nat) (h : list (nat * E)) : list E :=
  flat_map (fun x => if decide (x.1 = i) then [x.2] else []) h.

Lemma events_of_app {E} i (h h' : list (nat * E)) : events_of i (h ++ h') = events_of i h ++ events_of i h'.
Proof. apply flat_map_app. Qed.

Lemma events_of_self {E} i (es : list E) : events_of i (map (pair i) es) = es.
Proof. induction es as [|e es IH]; [done|]. simpl. rewrite decide_True by done. simpl. by f_equal. Qed.

Lemma events_of_other {E} i j (es : list E) : i <> j -> events_of j (map (pair i) es) = [].
Proof. intros H. induction es as [|e es IH]; [done|]. simpl. by rewrite decide_False by done. Qed.
