(* ===== verification/Prog.v ===== *)
(** Stateful C code as data: a function of the library is a [prog], a tree
    whose nodes are the atomic actions (one shared-memory access or one call
    of the kernel) and whose branches are their answers.  The same [prog] has
    two semantics: [run] executes it alone and returns the list of its
    possible outcomes, and [pool_step] interleaves the actions of the threads
    of a pool.  The file holds both, with their lemmas: the equations of
    [run], the invariant rule and the termination of every pool. *)
From S2P Require Import Prelude.

(** The undefined behaviours the model tracks. *)
Inductive fault :=
| NullDeref        (** access through a null pointer *)
| BadPointer       (** access to memory that is not (or no longer) an object of that type *)
| SignedOverflow   (** signed arithmetic out of range, or a division by zero *)
| BufferOverflow   (** write past the end of an array *)
| AssertFail.      (** a failed [_assert] *)

#[export] Instance fault_eq_dec : EqDecision fault.
Proof. solve_decision. Defined.

Inductive outcome (W A : Type) :=
| Done (a : A) (w : W)
| Fault (f : fault).
Arguments Done {W A}.
Arguments Fault {W A}.

(** An atomic action: the outcomes it may have in a world.  No outcome at
    all means that the caller stays blocked in this world. *)
Definition action (W A : Type) : Type := W -> list (outcome W A).

Inductive prog (W R : Type) : Type :=
| Ret (r : R)
| Act {A : Type} (a : action W A) (k : A -> prog W R).
Arguments Ret {W R}.
Arguments Act {W R A}.

Fixpoint bind {W A B} (p : prog W A) (f : A -> prog W B) : prog W B :=
  match p with
  | Ret r => f r
  | Act a k => Act a (fun x => bind (k x) f)
  end.

Definition act {W A} (a : action W A) : prog W A := Act a Ret.

Declare Scope prog_scope.
Delimit Scope prog_scope with prog.
Notation "'let*' x := p 'in' q" := (bind p (fun x => q))
  (at level 10, x pattern, p at level 100, q at level 200) : prog_scope.
Notation "p ;; q" := (bind p (fun _ => q))
  (at level 100, q at level 200, right associativity) : prog_scope.
#[global] Open Scope prog_scope.

(** ** Running a function alone *)

Definition obind {W A B} (f : A -> W -> list (outcome W B)) (o : outcome W A)
  : list (outcome W B) :=
  match o with
  | Done x w => f x w
  | Fault e => [Fault e]
  end.

Fixpoint run {W R} (p : prog W R) (w : W) : list (outcome W R) :=
  match p with
  | Ret r => [Done r w]
  | Act a k => flat_map (obind (fun x w' => run (k x) w')) (a w)
  end.

Lemma run_bind {W A B} (p : prog W A) (f : A -> prog W B) (w : W) :
  run (bind p f) w = flat_map (obind (fun x w' => run (f x) w')) (run p w).
Proof.
  revert w. induction p as [r|X a k IH]; intros w; simpl.
  - by rewrite app_nil_r.
  - induction (a w) as [|o os IHo]; simpl; [done|].
    rewrite IHo, flat_map_app. f_equal.
    destruct o as [x w'|e]; simpl; [apply IH | by rewrite ?app_nil_r].
Qed.

Lemma run_bind_ret {W R} (p : prog W R) (w : W) : run (bind p Ret) w = run p w.
Proof.
  rewrite run_bind. induction (run p w) as [|[x v|e] os IH]; simpl; [done|by f_equal..].
Qed.

Lemma run_act {W A B} (a : action W A) (k : A -> prog W B) (w w' : W) (x : A) :
  a w = [Done x w'] -> run (bind (act a) k) w = run (k x) w'.
Proof. intros H. simpl. rewrite H. simpl. by rewrite app_nil_r. Qed.

Lemma run_act_fault {W A B} (a : action W A) (k : A -> prog W B) (w : W) (e : fault) :
  a w = [Fault e] -> run (bind (act a) k) w = [Fault e].
Proof. intros H. simpl. by rewrite H. Qed.

Lemma run_act_block {W A B} (a : action W A) (k : A -> prog W B) (w : W) :
  a w = [] -> run (bind (act a) k) w = [].
Proof. intros H. simpl. by rewrite H. Qed.

Lemma run_assoc {W A B C} (p : prog W A) (f : A -> prog W B) (g : B -> prog W C) (w : W) :
  run (bind (bind p f) g) w = run (bind p (fun x => bind (f x) g)) w.
Proof.
  rewrite !run_bind, flat_map_concat_map, !flat_map_concat_map.
  induction (run p w) as [|[x v|e] os IH]; simpl; [done| |by f_equal].
  rewrite map_app, concat_app, IH. f_equal. by rewrite run_bind, flat_map_concat_map.
Qed.

Lemma run_bind_ext {W A B} (p : prog W A) (f g : A -> prog W B) (w : W) :
  (forall x v, run (f x) v = run (g x) v) -> run (bind p f) w = run (bind p g) w.
Proof.
  intros H. rewrite !run_bind. apply flat_map_ext. intros [x v|e]; simpl; [apply H|done].
Qed.

(** A subroutine with one outcome. *)
Lemma run_call {W A B} (p : prog W A) (k : A -> prog W B) (w w' : W) (x : A) :
  run p w = [Done x w'] -> run (bind p k) w = run (k x) w'.
Proof. intros H. rewrite run_bind, H. simpl. by rewrite app_nil_r. Qed.

Lemma run_call_fault {W A B} (p : prog W A) (k : A -> prog W B) (w : W) (e : fault) :
  run p w = [Fault e] -> run (bind p k) w = [Fault e].
Proof. intros H. rewrite run_bind, H. done. Qed.

Lemma run_call_block {W A B} (p : prog W A) (k : A -> prog W B) (w : W) :
  run p w = [] -> run (bind p k) w = [].
Proof. intros H. rewrite run_bind, H. done. Qed.

(** [ensures p w Q]: run alone from [w], [p] neither faults nor blocks, and
    every result it can have satisfies [Q]. *)
Definition all_done {W R} (os : list (outcome W R)) (Q : R -> W -> Prop) : Prop :=
  os <> [] /\ forall o, o ∈ os -> match o with Done r w' => Q r w' | Fault _ => False end.

Definition ensures {W R} (p : prog W R) (w : W) (Q : R -> W -> Prop) : Prop :=
  all_done (run p w) Q.

Lemma ensures_one {W R} (p : prog W R) (w w' : W) (r : R) (Q : R -> W -> Prop) :
  run p w = [Done r w'] -> Q r w' -> ensures p w Q.
Proof.
  intros H HQ. unfold ensures. rewrite H. split; [done|].
  intros o Ho. apply list_elem_of_singleton in Ho. by subst.
Qed.

(** ** Interleaving *)

(** The residual programs one action of [p] may lead to. *)
Definition pstep {W R} (p : prog W R) (w : W) : list (outcome W (prog W R)) :=
  match p with
  | Ret _ => []
  | Act a k => map (fun o => match o with Done x w' => Done (k x) w' | Fault e => Fault e end) (a w)
  end.

Definition pool (W R : Type) : Type := list (prog W R) * W.

Inductive pool_step {W R} : pool W R -> pool W R -> Prop :=
| PoolStep ts w i p p' w' :
    ts !! i = Some p ->
    Done p' w' ∈ pstep p w ->
    pool_step (ts, w) (<[i:=p']> ts, w').

(** A thread of the pool is about to run into undefined behaviour. *)
Definition pool_faults {W R} (c : pool W R) (e : fault) : Prop :=
  exists i p, c.1 !! i = Some p /\ Fault e ∈ pstep p c.2.

Inductive reach {A : Type} (step : A -> A -> Prop) (x : A) : A -> Prop :=
| ReachRefl : reach step x x
| ReachStep y z : reach step x y -> step y z -> reach step x z.

Lemma reach_inv {A : Type} (step : A -> A -> Prop) (I : A -> Prop) (x y : A) :
  I x -> (forall a b, I a -> step a b -> I b) -> reach step x y -> I y.
Proof. intros Hx Hs H. induction H; eauto. Qed.

Lemma reach_trans {A : Type} (step : A -> A -> Prop) (x y z : A) :
  reach step x y -> reach step y z -> reach step x z.
Proof. intros H1 H2. induction H2; eauto using @reach. Qed.

Definition stuck {A : Type} (step : A -> A -> Prop) (x : A) : Prop :=
  forall y, ~ step x y.

(** A schedule is the list of the threads that take the next steps; each
    takes the first successful outcome of its next action. *)
Definition pick {W A} (os : list (outcome W A)) : option (A * W) :=
  match os with
  | Done x w :: _ => Some (x, w)
  | _ => None
  end.

Fixpoint sched {W R} (order : list nat) (c : pool W R) : option (pool W R) :=
  match order with
  | [] => Some c
  | i :: order' =>
      match c.1 !! i with
      | Some p =>
          match pick (pstep p c.2) with
          | Some (p', w') => sched order' (<[i:=p']> c.1, w')
          | None => None
          end
      | None => None
      end
  end.

Lemma sched_reach {W R} (order : list nat) (c d : pool W R) :
  sched order c = Some d -> reach pool_step c d.
Proof.
  revert c. induction order as [|i order IH]; intros [ts w]; simpl.
  - intros [=]. subst. constructor.
  - destruct (ts !! i) as [p|] eqn:Hi; [|done].
    destruct (pick (pstep p w)) as [[p' w']|] eqn:Hp; [|done].
    intros H. eapply reach_trans; [|by eapply IH].
    eapply ReachStep; [constructor|]. econstructor; [done|].
    destruct (pstep p w) as [|[x v|e] os]; simplify_eq/=.
    set_solver.
Qed.

(** A schedule of which only a summary of the last state is evaluated. *)
Lemma sched_summary {W R B} (f : pool W R -> B) (order : list nat) (c : pool W R) (b : B) :
  option_map f (sched order c) = Some b -> exists d, reach pool_step c d /\ f d = b.
Proof.
  destruct (sched order c) as [d|] eqn:E; simpl; intros [=]. exists d.
  split; [by apply (sched_reach order)|done].
Qed.

Lemma sched_app {W R} (o1 o2 : list nat) (c : pool W R) : sched (o1 ++ o2) c = sched o1 c ≫= sched o2.
Proof. revert c. induction o1 as [|i o1 IH]; intros c; simpl; [done|]. by repeat case_match. Qed.

(** Only the scheduled threads move. *)
Lemma sched_others {W R} (order : list nat) (c d : pool W R) i :
  sched order c = Some d -> i ∉ order -> d.1 !! i = c.1 !! i.
Proof.
  revert c. induction order as [|j order IH]; intros c; simpl; [by intros [= ->]|].
  intros H [Hij Hi]%not_elem_of_cons. repeat case_match; simplify_eq. rewrite (IH _ H Hi). simpl.
  by rewrite list_lookup_insert_ne.
Qed.

(** Two summaries along one schedule. *)
Lemma sched_summaries {W R B} (f : pool W R -> B) (o1 o2 : list nat) (c : pool W R) (b1 b2 : B) :
  option_map f (sched o1 c) = Some b1 -> option_map f (sched (o1 ++ o2) c) = Some b2 ->
  exists d d', reach pool_step c d /\ f d = b1 /\ reach pool_step d d' /\ f d' = b2
    /\ forall i, i ∉ o2 -> d'.1 !! i = d.1 !! i.
Proof.
  rewrite sched_app. destruct (sched o1 c) as [d|] eqn:E1; simpl; [|done].
  destruct (sched o2 d) as [d'|] eqn:E2; simpl; [|done]. intros [=] [=]. exists d, d'.
  split; [by eapply sched_reach|]. split; [done|]. split; [by eapply sched_reach|]. split; [done|].
  intros i. by apply sched_others.
Qed.

(** The next action of thread [i] may be undefined behaviour. *)
Definition faults_now {W R} (i : nat) (e : fault) (c : pool W R) : bool :=
  match c.1 !! i with
  | Some p => existsb (fun o => match o with Fault e' => bool_decide (e' = e) | Done _ _ => false end) (pstep p c.2)
  | None => false
  end.

Lemma faults_now_sound {W R} (i : nat) (e : fault) (c : pool W R) :
  faults_now i e c = true -> pool_faults c e.
Proof.
  unfold faults_now. destruct (c.1 !! i) as [p|] eqn:Hi; [|done].
  intros ([x v|e'] & Hin & He)%existsb_exists; [done|].
  apply bool_decide_eq_true in He as ->. exists i, p. split; [done|]. by apply list_elem_of_In.
Qed.

(** What thread [i] has returned. *)
Definition result_of {W R} (i : nat) (c : pool W R) : option R :=
  match c.1 !! i with
  | Some (Ret r) => Some r
  | _ => None
  end.

(** The results of all threads, [None] for those that have not returned. *)
Definition results {W R} (c : pool W R) : list (option R) :=
  map (fun q => match q with Ret r => Some r | Act _ _ => None end) c.1.

Lemma results_lookup {W R} (c : pool W R) i r : results c !! i = Some (Some r) -> c.1 !! i = Some (Ret r).
Proof.
  unfold results. change (map ?f ?l) with (f <$> l). rewrite list_lookup_fmap.
  destruct (c.1 !! i) as [[r'|]|]; simpl; congruence.
Qed.

Lemma results_all {W R} (c : pool W R) (rs : list R) :
  results c = map Some rs -> forall i q, c.1 !! i = Some q -> exists r, q = Ret r.
Proof.
  intros H i q Hi. apply (f_equal (fun l => l !! i)) in H. unfold results in H.
  change (map ?f ?l) with (f <$> l) in H. rewrite !list_lookup_fmap, Hi in H.
  destruct q as [r|]; [by exists r|]. by destruct (rs !! i).
Qed.

Lemma result_of_Some {W R} (i : nat) (c : pool W R) (r : R) :
  result_of i c = Some r -> c.1 !! i = Some (Ret r).
Proof. unfold result_of. destruct (c.1 !! i) as [[r'|]|]; congruence. Qed.

(** ** The steps of one program

    [solo] is the small-step reading of [run]. *)
Definition solo_step {W R} (x y : prog W R * W) : Prop := Done y.1 y.2 ∈ pstep x.1 x.2.

Definition solo {W R} (p : prog W R) (w : W) (p' : prog W R) (w' : W) : Prop :=
  reach solo_step (p, w) (p', w').

Lemma elem_of_obind {W A B} (f : A -> W -> list (outcome W B)) os o :
  o ∈ flat_map (obind f) os <-> exists o', o' ∈ os /\ o ∈ obind f o'.
Proof.
  rewrite list_elem_of_In, in_flat_map. by setoid_rewrite list_elem_of_In.
Qed.

(** The outcomes of [p] are the outcomes of its steps. *)
Lemma run_pstep {W R} (p p' : prog W R) (w w' : W) o :
  Done p' w' ∈ pstep p w -> o ∈ run p' w' -> o ∈ run p w.
Proof.
  destruct p as [r|A a k]; simpl; [set_solver|].
  intros ([x v|e] & Hx & Ha)%list_elem_of_fmap; simplify_eq.
  intros Ho. apply elem_of_obind. by exists (Done x v).
Qed.

Lemma solo_run {W R} (p p' : prog W R) (w w' : W) o :
  solo p w p' w' -> o ∈ run p' w' -> o ∈ run p w.
Proof.
  unfold solo. intros H. remember (p, w) as x eqn:Ex. remember (p', w') as y eqn:Ey.
  revert p' w' Ey. induction H as [|[p1 w1] z H IH Hs]; intros p' w' Ey; subst; [by simplify_eq|].
  intros Ho. apply (IH p1 w1 eq_refl). by eapply run_pstep.
Qed.

Lemma solo_trans {W R} (p1 p2 p3 : prog W R) (w1 w2 w3 : W) :
  solo p1 w1 p2 w2 -> solo p2 w2 p3 w3 -> solo p1 w1 p3 w3.
Proof. apply reach_trans. Qed.

Lemma run_solo {W R} (p : prog W R) (w w' : W) (r : R) :
  Done r w' ∈ run p w -> solo p w (Ret r) w'.
Proof.
  revert w. induction p as [r'|A a k IH]; intros w H; simpl in H.
  - apply list_elem_of_singleton in H. simplify_eq. constructor.
  - apply elem_of_obind in H as ([x v|e] & Ha & H); simpl in H.
    + apply (solo_trans _ (k x) _ _ v); [|by apply IH].
      eapply ReachStep; [constructor|]. apply list_elem_of_fmap. by exists (Done x v).
    + by apply list_elem_of_singleton in H.
Qed.

Lemma run_seq {W A B} (p : prog W A) (f : A -> prog W B) w x w' o :
  Done x w' ∈ run p w -> o ∈ run (f x) w' -> o ∈ run (bind p f) w.
Proof. intros Hp Ho. rewrite run_bind. apply elem_of_obind. by exists (Done x w'). Qed.

(** ** Invariants of single actions

    [keeps I p]: every action of [p] preserves [I], whatever the answers of
    the other actions are.  [I] then holds at the end of [p] run alone, and
    in every state of a pool of such programs. *)
Definition keeps_action {W A} (I : W -> Prop) (a : action W A) : Prop :=
  forall w x w', I w -> Done x w' ∈ a w -> I w'.

Inductive keeps {W R} (I : W -> Prop) : prog W R -> Prop :=
| KeepsRet r : keeps I (Ret r)
| KeepsAct A (a : action W A) k :
    keeps_action I a -> (forall x, keeps I (k x)) -> keeps I (Act a k).

Lemma keeps_bind {W A B} (I : W -> Prop) (p : prog W A) (f : A -> prog W B) :
  keeps I p -> (forall x, keeps I (f x)) -> keeps I (bind p f).
Proof. intros Hp Hf. induction Hp; simpl; [done|]. by constructor. Qed.

Lemma keeps_act {W A} (I : W -> Prop) (a : action W A) : keeps_action I a -> keeps I (act a).
Proof. intros H. constructor; [done|]. intros x. constructor. Qed.

Lemma keeps_step {W R} (I : W -> Prop) (p p' : prog W R) (w w' : W) :
  keeps I p -> I w -> Done p' w' ∈ pstep p w -> keeps I p' /\ I w'.
Proof.
  intros Hp Hw H. destruct Hp as [r|A a k Ha Hk]; simpl in H; [set_solver|].
  apply list_elem_of_fmap in H as ([x v|e] & Hx & Hin); simplify_eq.
  split; [apply Hk|]. by apply (Ha w x v Hw Hin).
Qed.

Lemma keeps_pool {W R} (I : W -> Prop) (ts : list (prog W R)) (w : W) (c : pool W R) :
  Forall (keeps I) ts -> I w -> reach pool_step (ts, w) c -> Forall (keeps I) c.1 /\ I c.2.
Proof.
  intros Hts Hw H.
  apply (reach_inv pool_step (fun c => Forall (keeps I) c.1 /\ I c.2) (ts, w) c) in H; [done|done|].
  intros x y [H1 H2] Hs. destruct Hs as [us v i p p' v' Hi Hp]. simpl in *.
  destruct (keeps_step I p p' v v') as [Hk Hv]; [by eapply Forall_lookup_1|done..|].
  split; [by apply Forall_insert|done].
Qed.

(** ** A logic for interleaved programs

    [typed I F Q p]: in worlds that satisfy [I], every action of [p] keeps
    [I], the only undefined behaviours are those of [F], and the results
    satisfy [Q].  Unlike in [keeps], what an action answers is restricted to
    what it can answer in a world that satisfies [I], so that the values read
    from memory bring their invariant along.  [I] must hold at every step:
    the judgement is sound in any pool of such programs. *)
Fixpoint typed {W R} (I : W -> Prop) (F : fault -> Prop) (Q : R -> Prop) (p : prog W R) : Prop :=
  match p with
  | Ret r => Q r
  | Act a k => forall w o, I w -> o ∈ a w ->
      match o with
      | Done x w' => I w' /\ typed I F Q (k x)
      | Fault e => F e
      end
  end.

Section typed.
Context {W : Type} (I : W -> Prop) (F : fault -> Prop).

Lemma typed_bind {A B} (Q : A -> Prop) (Q' : B -> Prop) (p : prog W A) (f : A -> prog W B) :
  typed I F Q p -> (forall x, Q x -> typed I F Q' (f x)) -> typed I F Q' (bind p f).
Proof.
  intros Hp Hf. induction p as [r|X a k IH]; simpl in *; [by apply Hf|].
  intros w o Hw Ho. specialize (Hp w o Hw Ho). destruct o as [x v|e]; [|done].
  destruct Hp. split; [done|by apply IH].
Qed.

Lemma typed_weaken {A} (Q Q' : A -> Prop) (p : prog W A) :
  (forall x, Q x -> Q' x) -> typed I F Q p -> typed I F Q' p.
Proof.
  intros HQ Hp. induction p as [r|X a k IH]; simpl in *; [by apply HQ|].
  intros w o Hw Ho. specialize (Hp w o Hw Ho). destruct o as [x v|e]; [|done].
  destruct Hp. split; [done|by apply IH].
Qed.

(** The result of [p] does not matter. *)
Lemma typed_then {A B} (Q : B -> Prop) (p : prog W A) (f : A -> prog W B) :
  typed I F (fun _ => True) p -> (forall x, typed I F Q (f x)) -> typed I F Q (bind p f).
Proof. intros Hp Hf. eapply typed_bind; [exact Hp|]. by intros x _. Qed.

(** Only what is done and returned matters, not how it is composed. *)
Lemma typed_assoc {A B C} (Q : C -> Prop) (p : prog W A) (f : A -> prog W B) (g : B -> prog W C) :
  typed I F Q (bind p (fun x => bind (f x) g)) -> typed I F Q (bind (bind p f) g).
Proof.
  induction p as [r|X a k IH]; simpl; [done|].
  intros H w o Hw Ho. specialize (H w o Hw Ho). destruct o as [x v|e]; [|done].
  destruct H. split; [done|by apply IH].
Qed.

Lemma typed_act {A B} (Q : B -> Prop) (a : action W A) (k : A -> prog W B) :
  (forall w x w', I w -> Done x w' ∈ a w -> I w' /\ typed I F Q (k x)) ->
  (forall w e, I w -> Fault e ∈ a w -> F e) -> typed I F Q (bind (act a) k).
Proof. intros Ha Hf. simpl. intros w [x v|e] Hw Ho; [by apply (Ha w x v)|by apply (Hf w)]. Qed.

Lemma typed_step {A} (Q : A -> Prop) (p p' : prog W A) w w' :
  typed I F Q p -> I w -> Done p' w' ∈ pstep p w -> typed I F Q p' /\ I w'.
Proof.
  destruct p as [r|X a k]; simpl; intros Hp Hw H; [by apply not_elem_of_nil in H|].
  apply list_elem_of_fmap in H as ([x v|e] & Hx & Hin); simplify_eq.
  by destruct (Hp w (Done x v) Hw Hin).
Qed.

Lemma typed_no_fault {A} (Q : A -> Prop) (p : prog W A) w e :
  typed I F Q p -> I w -> Fault e ∈ pstep p w -> F e.
Proof.
  destruct p as [r|X a k]; simpl; intros Hp Hw H; [by apply not_elem_of_nil in H|].
  apply list_elem_of_fmap in H as ([x v|e'] & Hx & Hin); simplify_eq.
  by apply (Hp w (Fault e') Hw Hin).
Qed.

(** The judgement is sound: in a pool, *)
Lemma typed_pool {A} (Q : A -> Prop) (ts : list (prog W A)) w c :
  Forall (typed I F Q) ts -> I w -> reach pool_step (ts, w) c ->
  I c.2 /\ Forall (typed I F Q) c.1 /\ (forall e, pool_faults c e -> F e)
  /\ forall i r, c.1 !! i = Some (Ret r) -> Q r.
Proof.
  intros Hts Hw H.
  assert (Forall (typed I F Q) c.1 /\ I c.2) as [Hc Hc2].
  { apply (reach_inv pool_step (fun c => Forall (typed I F Q) c.1 /\ I c.2) (ts, w) c) in H; [done|done|].
    intros x y Hx Hs. destruct Hs as [us v i p p' v' Hi Hp]. destruct Hx as [H1 H2]. simpl in *.
    pose proof (Forall_lookup_1 _ _ _ _ H1 Hi) as Ht.
    destruct (typed_step Q p p' v v' Ht H2 Hp). split; [by apply Forall_insert|done]. }
  split; [done|]. split; [done|]. split.
  - intros e (i & p & Hi & Hp). by apply (typed_no_fault Q p c.2), Hp; [apply (Forall_lookup_1 _ _ _ _ Hc Hi)|].
  - intros i r Hi. apply (Forall_lookup_1 _ _ _ _ Hc Hi).
Qed.

(** and alone. *)
Lemma typed_run {A} (Q : A -> Prop) (p : prog W A) w o :
  typed I F Q p -> I w -> o ∈ run p w ->
  match o with Done r w' => Q r /\ I w' | Fault e => F e end.
Proof.
  revert w. induction p as [r|X a k IH]; intros w Hp Hw Ho; simpl in Hp, Ho.
  - by apply list_elem_of_singleton in Ho as ->.
  - apply elem_of_obind in Ho as ([x v|e] & Ha & Ho); simpl in Ho.
    + destruct (Hp w _ Hw Ha). by apply (IH x v).
    + apply list_elem_of_singleton in Ho as ->. by apply (Hp w _ Hw Ha).
Qed.
End typed.

(** ** Every execution of a pool is finite *)

Definition child {W R} (p' p : prog W R) : Prop :=
  match p with
  | Ret _ => False
  | Act a k => exists x, p' = k x
  end.

Lemma child_wf {W R} (p : prog W R) : Acc child p.
Proof.
  induction p as [r|X a k IH]; constructor; intros p' Hp'; simpl in Hp'; [done|].
  destruct Hp' as [x ->]. apply IH.
Qed.

Lemma pstep_child {W R} (p p' : prog W R) (w w' : W) :
  Done p' w' ∈ pstep p w -> child p' p.
Proof.
  destruct p as [r|X a k]; simpl; [set_solver|].
  intros H. apply list_elem_of_fmap in H as ([x v|e] & Hx & _); simplify_eq. by exists x.
Qed.

Definition children {W R} (ts' ts : list (prog W R)) : Prop :=
  exists i p p', ts !! i = Some p /\ child p' p /\ ts' = <[i:=p']> ts.

Lemma children_wf {W R} (ts : list (prog W R)) : Acc children ts.
Proof.
  induction ts as [|p ts IHts].
  - constructor. intros ts' (i & p & p' & Hi & _). done.
  - revert ts IHts. induction (child_wf p) as [p _ IHp].
    intros ts IHts. induction IHts as [ts Hts IHts].
    constructor. intros ts' ([|i] & q & q' & Hi & Hc & ->); simpl in *; simplify_eq.
    + apply IHp; [done|]. by constructor.
    + apply IHts. by exists i, q, q'.
Qed.

Lemma pool_wf {W R} (c : pool W R) : Acc (fun d c => pool_step c d) c.
Proof.
  destruct c as [ts w]. revert w. induction (children_wf ts) as [ts _ IH].
  intros w. constructor. intros d Hd. inversion Hd; subst.
  apply IH. exists i, p, p'. eauto using pstep_child.
Qed.
