(* ===== verification/Protocol.v ===== *)
(** Programs that follow a protocol.  A component describes what its calls
    may do to the shared state as a transition system of [stage]s, without
    naming their program points: [follows] says that every action of a
    program is a move of its stage, that it blocks only where the stage
    allows it, that it has no undefined behaviour but the ones admitted, and
    that it ends in a stage that explains its result.  A pool of such programs
    is then explained by the list of their stages. *)
From S2P Require Import Prelude Prog.

Section protocol.
Context {W R stage : Type}.
Context (good : nat -> stage -> W -> Prop).                (** what task [i] knows of the shared state *)
Context (moves : nat -> stage -> W -> stage -> W -> Prop). (** what task [i] may do *)
Context (waits : nat -> stage -> W -> Prop).               (** where it may block *)
Context (faults : nat -> fault -> Prop).                   (** the undefined behaviour admitted *)
Context (ends : nat -> stage -> R -> Prop).                (** the results it may return *)

Fixpoint follows (i : nat) (p : prog W R) (st : stage) : Prop :=
  match p with
  | Ret r => ends i st r
  | Act a k => forall w, good i st w ->
      (a w = [] -> waits i st w)
      /\ (forall e, Fault e ∈ a w -> faults i e)
      /\ forall x w', Done x w' ∈ a w -> exists st', moves i st w st' w' /\ follows i (k x) st'
  end.

Lemma follows_act {A} i (a : action W A) (k : A -> prog W R) st :
  (forall w, good i st w -> a w = [] -> waits i st w) ->
  (forall w e, good i st w -> Fault e ∈ a w -> faults i e) ->
  (forall w x w', good i st w -> Done x w' ∈ a w -> exists st', moves i st w st' w' /\ follows i (k x) st') ->
  follows i (bind (act a) k) st.
Proof.
  intros Hw Hf Hm. simpl. intros w Hg. split; [by apply Hw|]. split; [intros e; by apply Hf|].
  intros x w'. by apply Hm.
Qed.

Lemma follows_assoc {A B} i (p : prog W A) (f : A -> prog W B) (g : B -> prog W R) st :
  follows i (bind p (fun x => bind (f x) g)) st -> follows i (bind (bind p f) g) st.
Proof.
  revert st. induction p as [r|X a k IH]; intros st; simpl; [done|]. intros H w Hg.
  destruct (H w Hg) as (Hw & Hf & Hm). split; [done|]. split; [done|]. intros x w' Hx.
  destruct (Hm x w' Hx) as (st' & Hmv & Hk). exists st'. split; [done|by apply IH].
Qed.

Lemma follows_last i (p : prog W R) st : follows i (bind p Ret) st -> follows i p st.
Proof.
  revert st. induction p as [r|X a k IH]; intros st; simpl; [done|]. intros H w Hg.
  destruct (H w Hg) as (Hw & Hf & Hm). split; [done|]. split; [done|]. intros x w' Hx.
  destruct (Hm x w' Hx) as (st' & Hmv & Hk). exists st'. split; [done|by apply IH].
Qed.

Lemma follows_step i p st w p' w' :
  follows i p st -> good i st w -> Done p' w' ∈ pstep p w ->
  exists st', moves i st w st' w' /\ follows i p' st'.
Proof.
  destruct p as [r|X a k]; simpl; intros Hp Hg H; [by apply not_elem_of_nil in H|].
  apply list_elem_of_fmap in H as ([x v|e] & Hx & Hin); simplify_eq. by apply (Hp w Hg).
Qed.

Lemma follows_no_fault i p st w e :
  follows i p st -> good i st w -> Fault e ∈ pstep p w -> faults i e.
Proof.
  destruct p as [r|X a k]; simpl; intros Hp Hg H; [by apply not_elem_of_nil in H|].
  apply list_elem_of_fmap in H as ([x v|e'] & Hx & Hin); simplify_eq.
  destruct (Hp w Hg) as (_ & Hf & _). by apply Hf.
Qed.

(** ** Pools *)

(** Each task knows what its stage tells. *)
Definition known (sts : list stage) (w : W) : Prop := forall i st, sts !! i = Some st -> good i st w.

(** Each program of [ts] follows the protocol from its stage in [sts]. *)
Definition staged (ts : list (prog W R)) (sts : list stage) : Prop :=
  length ts = length sts
  /\ forall i p st, ts !! i = Some p -> sts !! i = Some st -> follows i p st.

Lemma staged_lookup ts sts i p :
  staged ts sts -> ts !! i = Some p -> exists st, sts !! i = Some st /\ follows i p st.
Proof.
  intros [Hl Hf] Hi. destruct (lookup_lt_is_Some_2 sts i) as [st Hst].
  - rewrite <- Hl. by eapply lookup_lt_Some.
  - exists st. split; [done|by apply (Hf i p)].
Qed.

(** A step of the pool is a move of one task, if that task knows what it
    should. *)
Lemma staged_pick ts sts w c :
  staged ts sts -> pool_step (ts, w) c ->
  exists i p' st, c.1 = <[i:=p']> ts /\ sts !! i = Some st
    /\ (good i st w -> exists st', moves i st w st' c.2 /\ staged c.1 (<[i:=st']> sts)).
Proof.
  intros Hst H. inversion H as [ts' w0 i p p' w' Hi Hp]; subst. simpl.
  destruct (staged_lookup ts sts i p Hst Hi) as (st & Hsti & Hf).
  exists i, p', st. split; [done|]. split; [done|]. intros Hg.
  destruct (follows_step i p st w p' w' Hf Hg Hp) as (st' & Hmv & Hf').
  exists st'. split; [done|]. destruct Hst as [Hl Hall].
  split; [by rewrite !length_insert|]. intros j q sj.
  rewrite !list_lookup_insert_Some. intros [(<- & <- & _)|[Hne Hq]] [(Hij & <- & _)|[Hne' Hs]]; try done.
  by apply (Hall j).
Qed.

Lemma staged_mover ts sts w c :
  staged ts sts -> known sts w -> pool_step (ts, w) c ->
  exists i p' st st', c.1 = <[i:=p']> ts /\ sts !! i = Some st /\ moves i st w st' c.2
    /\ staged c.1 (<[i:=st']> sts).
Proof.
  intros Hst Hg H. destruct (staged_pick ts sts w c Hst H) as (i & p' & st & Hc & Hi & Hm).
  destruct (Hm (Hg i st Hi)) as (st' & Hmv & Hs). by exists i, p', st, st'.
Qed.

Lemma staged_step ts sts w c :
  staged ts sts -> known sts w -> pool_step (ts, w) c ->
  exists i st st', sts !! i = Some st /\ moves i st w st' c.2 /\ staged c.1 (<[i:=st']> sts).
Proof. intros Hst Hk H. destruct (staged_mover ts sts w c Hst Hk H) as (i & _ & st & st' & _ & H'). by exists i, st, st'. Qed.

Lemma staged_faults ts sts w e :
  staged ts sts -> known sts w -> pool_faults (ts, w) e -> exists i, faults i e.
Proof.
  intros Hst Hg (i & p & Hi & Hp). destruct (staged_lookup ts sts i p Hst Hi) as (st & Hst' & Hf).
  exists i. eapply follows_no_fault; [done|by apply Hg|done].
Qed.

(** Where the pool is stuck and no task is about to fault, each task has
    returned or waits where its stage allows it. *)
Lemma staged_stuck ts sts w i p st :
  staged ts sts -> known sts w -> stuck pool_step (ts, w) -> (forall e, ~ pool_faults (ts, w) e) ->
  ts !! i = Some p -> sts !! i = Some st ->
  waits i st w \/ exists r, p = Ret r /\ ends i st r.
Proof.
  intros [_ Hf] Hg Hstuck Hno Hi Hst. specialize (Hf i p st Hi Hst).
  destruct p as [r|X a k]; [right; by exists r|left]. simpl in Hf. apply (Hf w (Hg i st Hst)).
  destruct (a w) as [|[x v|e] os] eqn:E; [done|exfalso..].
  - apply (Hstuck (<[i:=k x]> ts, v)). econstructor; [exact Hi|]. simpl. rewrite E. by left.
  - apply (Hno e). exists i, (Act a k). split; [done|]. simpl. rewrite E. by left.
Qed.
End protocol.
