(* ===== verification/Kernel.v ===== *)
(** The interface to the hyperC kernel (headers [hcos/*.h], which are not
    part of this repository).  [Platform] holds the build constants,
    [Kernel] the data types and the calls the library uses, as parameters
    without a definition.  What the library relies on is stated by one class
    of laws per service ([MutLaws], [SemLaws], ...): a theorem assumes only
    the services it needs.  [SimKernel.v] gives a concrete kernel for which
    all the laws hold. *)
From S2P Require Import Prelude.

(** ** Build constants *)

Class Platform := {
  tmr_hz : Z;         (** ticks per second, [hcos/tmr.h], an [unsigned] *)
  time_bits : Z;      (** width of the C library's signed [time_t] *)
  CFG_TPRI_NUM : Z;   (** number of task priorities, [hcos/cfg.h] *)
  WAIT : Z;           (** the timeout that blocks forever *)
  WAIT_NO : Z         (** the timeout that does not block *)
}.

(** [NANOSECONDS_PER_TICK] of [time.h] divides by [tmr_hz] and the comment in
    [timespec2ticks] asks for at least one nanosecond per tick. *)
Class PlatformOk `(P : Platform) : Prop := {
  tmr_hz_range : 0 < tmr_hz <= 1000000000;
  time_bits_range : 32 <= time_bits <= 64;
  CFG_TPRI_NUM_range : 2 <= CFG_TPRI_NUM <= 32768;
  WAIT_NO_zero : WAIT_NO = 0;
  WAIT_range : 0 < WAIT <= UINT_MAX
}.

Definition NANOSECONDS_PER_SECOND : Z := 1000000000.

Definition NANOSECONDS_PER_TICK `{Platform} : Z :=
  Z.quot NANOSECONDS_PER_SECOND tmr_hz.

(** The objects the library allocates through the application's hooks. *)
Inductive posix_obj_t :=
| POSIX_TIMER
| POSIX_THREAD
| POSIX_STACK
| POSIX_MQUEUE
| POSIX_MQUEUE_BUF.

(** ** Kernel services

    A call that may block or time out returns the list of its possible
    results, empty when the caller stays blocked; a result is the call's
    return value (0 for success) with the new state of the object.  Tasks are
    named by the address of their control block ([_task_cur]); [mut_own] is
    the [own] field, 0 when the mutex is free. *)
Class Kernel := {
  (** [hcos/mut.h] *)
  mut_t : Type;
  mut_zero : mut_t;
  mut_init : mut_t;
  mut_own : mut_t -> Z;
  mut_lock : Z -> Z -> mut_t -> list (Z * mut_t);
  mut_unlock : Z -> mut_t -> mut_t;
  (** [hcos/sem.h] *)
  sem_t : Type;
  sem_zero : sem_t;
  sem_init : Z -> sem_t;
  sem_val : sem_t -> Z;
  sem_post : sem_t -> sem_t;
  sem_post_n : Z -> sem_t -> sem_t;
  sem_get : Z -> sem_t -> list (Z * sem_t);
  (** [hcos/tmr.h]: [tmr_on timer ticks] at time [now] *)
  tmr_t : Type;
  tmr_zero : tmr_t;
  tmr_init : Z -> tmr_t;
  tmr_on : Z -> Z -> tmr_t -> tmr_t;
  tmr_of : tmr_t -> tmr_t;
  tmr_active : tmr_t -> bool;
  tmr_expire : tmr_t -> Z;
  (** [hcos/task.h]: [task_init prio stack stack_sz priv] *)
  task_t : Type;
  task_zero : task_t;
  task_init : Z -> Z -> Z -> Z -> list (Z * task_t);
  task_pri : Z -> task_t -> task_t;
  (** [hcos/mq.h]: a queue of messages of [mq_isz] words *)
  mq_t : Type;
  mq_zero : mq_t;
  mq_init : Z -> Z -> Z -> mq_t;
  mq_sz : mq_t -> Z;
  mq_isz : mq_t -> Z;
  mq_n : mq_t -> Z;
  mq_put : Z -> list Z -> mq_t -> list (Z * mq_t);
  mq_get : Z -> mq_t -> list (Z * list Z * mq_t);
  (** the intrusive lists: [ll_elems] is the traversal order of [ll_for_each] *)
  ll_t : Type;
  ll_zero : ll_t;
  ll_init : ll_t;
  ll_elems : ll_t -> list Z;
  lle_t : Type;
  lle_zero : lle_t;
  lle_init : lle_t;
  lle_del : Z -> ll_t -> ll_t;
  (** the application's allocation hook: function, kind, size, addresses in
      use; the result is 0 when there is no memory *)
  alloc_call : Z -> posix_obj_t -> Z -> gset Z -> Z;
  (** [sizeof] of the structures that embed kernel objects *)
  sizeof_obj : posix_obj_t -> Z
}.

(** ** Laws *)

(** [mut_held m me]: [me] has acquired [m] once.  A free mutex is acquired at once.  A mutex another task holds is never
    acquired: the call fails and changes nothing, stays blocked with [WAIT],
    and does not block with a zero timeout.  The owner's unlock after one
    acquisition frees the mutex.  Nothing is said about relocking. *)
Class MutLaws `(P : Platform) `(K : Kernel) : Type := {
  mut_held : mut_t -> Z -> Prop;
  mut_init_free : mut_own mut_init = 0;
  mut_held_own m me : mut_held m me -> mut_own m = me;
  mut_lock_free m me t :
    me <> 0 -> mut_own m = 0 -> exists m', mut_lock me t m = [(0, m')] /\ mut_held m' me;
  mut_lock_busy m me t r m' :
    mut_own m <> 0 -> mut_own m <> me -> (r, m') ∈ mut_lock me t m -> r <> 0 /\ m' = m;
  mut_lock_wait m me : mut_own m <> 0 -> mut_own m <> me -> mut_lock me WAIT m = [];
  mut_lock_nowait m me : mut_own m <> 0 -> mut_own m <> me -> mut_lock me 0 m <> [];
  mut_unlock_held m me : mut_held m me -> mut_own (mut_unlock me m) = 0
}.

(** A counting semaphore. *)
Class SemLaws `(P : Platform) `(K : Kernel) : Prop := {
  sem_init_val v : 0 <= v -> sem_val (sem_init v) = v;
  sem_post_val s : sem_val (sem_post s) = sem_val s + 1;
  sem_post_n_val s n : 0 <= n -> sem_val (sem_post_n n s) = sem_val s + n;
  sem_get_avail s t : 0 < sem_val s ->
    exists s', sem_get t s = [(0, s')] /\ sem_val s' = sem_val s - 1;
  sem_get_empty s t r s' : sem_val s = 0 -> (r, s') ∈ sem_get t s -> r <> 0 /\ s' = s;
  sem_get_wait s : sem_val s = 0 -> sem_get WAIT s = [];
  sem_get_nowait s t : sem_val s = 0 -> t <> WAIT -> sem_get t s <> []
}.

(** A one-shot timer. *)
Class TmrLaws `(K : Kernel) : Prop := {
  tmr_init_off a : tmr_active (tmr_init a) = false;
  tmr_on_active n now t : tmr_active (tmr_on n now t) = true;
  tmr_on_expire n now t : tmr_expire (tmr_on n now t) = wrapu 32 (now + n);
  tmr_of_off t : tmr_active (tmr_of t) = false
}.

(** A bounded first-in first-out queue. *)
Class MqLaws `(K : Kernel) : Type := {
  mq_items : mq_t -> list (list Z);
  mq_n_items q : mq_n q = Z.of_nat (length (mq_items q));
  mq_put_room q t m : mq_n q < mq_sz q ->
    exists q', mq_put t m q = [(0, q')] /\ mq_items q' = mq_items q ++ [m]
               /\ mq_sz q' = mq_sz q /\ mq_isz q' = mq_isz q;
  mq_put_full q m : mq_n q = mq_sz q -> exists r, r <> 0 /\ mq_put 0 m q = [(r, q)];
  mq_get_item q t m ms : mq_items q = m :: ms ->
    exists q', mq_get t q = [(0, m, q')] /\ mq_items q' = ms
               /\ mq_sz q' = mq_sz q /\ mq_isz q' = mq_isz q;
  mq_get_none q : mq_items q = [] -> exists r m, r <> 0 /\ mq_get 0 q = [(r, m, q)];
  mq_init_items n b sz : mq_items (mq_init n b sz) = [] /\ mq_isz (mq_init n b sz) = n
}.

(** With [WAIT], a transfer on a full or empty queue stays blocked. *)
Class MqWaitLaws `(P : Platform) `(K : Kernel) (QL : MqLaws K) : Prop := {
  mq_put_wait q m : mq_n q = mq_sz q -> mq_put WAIT m q = [];
  mq_get_wait q : mq_items q = [] -> mq_get WAIT q = []
}.

(** Whatever the timeout, a transfer on a full or empty queue does not
    succeed, and changes nothing. *)
Class MqBusyLaws `(K : Kernel) (QL : MqLaws K) : Prop := {
  mq_put_busy q t m r q' : mq_n q = mq_sz q -> (r, q') ∈ mq_put t m q -> r <> 0 /\ q' = q;
  mq_get_busy q t r m q' : mq_items q = [] -> (r, m, q') ∈ mq_get t q -> r <> 0 /\ q' = q
}.

Class LlLaws `(K : Kernel) : Prop := {
  ll_init_nil : ll_elems ll_init = [];
  lle_del_elems p l : NoDup (ll_elems l) ->
    ll_elems (lle_del p l) = filter (fun q => q <> p) (ll_elems l)
}.

(** A successful allocation is a fresh, word-aligned address of 32 bits. *)
Class AllocLaws `(K : Kernel) : Prop := {
  alloc_fresh f ty n used : alloc_call f ty n used <> 0 ->
    ~ (alloc_call f ty n used ∈ used) /\ 0 < alloc_call f ty n used < UINT_MAX
    /\ Z.modulo (alloc_call f ty n used) 4 = 0
}.
