(* ===== verification/World.v ===== *)
(** The data of the library: the structures of [include/hcos_types.h],
    [include/signal.h], [include/time.h] and [src/posix_timer.c], and the
    [world] they live in, a typed memory with the global variables of the
    library and of the kernel it reads.  A structure field is a [ref];
    [load], [store] and [kcall] (a kernel call on a kernel object that is
    embedded in a structure) are the atomic actions on it. *)
From S2P Require Import Prelude Prog Kernel.

Record timespec := mk_timespec { tv_sec : Z; tv_nsec : Z }.

Record itimerspec := mk_itimerspec { it_interval : timespec; it_value : timespec }.

Record pthread_attr_t := mk_attr { stack_sz : Z; status : Z }.

Record pthread_mutexattr_t := mk_mutexattr { type : Z }.

(** [sigev_signo] is ignored by the code, and of the union [sigev_value] only
    [sival_ptr] is used. *)
Record sigevent := mk_sigevent {
  sigev_notify : Z;
  sigev_value : Z;
  sigev_notify_function : Z;
  sigev_notify_attributes : option pthread_attr_t
}.

Section structures.
Context `{K : Kernel}.

Record pthread_barrier_t := mk_barrier {
  cur_thread : Z;
  threshold : Z;
  b_sem : sem_t;
  b_mux : mut_t
}.

Record pthread_mutex_t := mk_mutex {
  m_inited : Z;
  m_mux : mut_t;
  m_attr : pthread_mutexattr_t
}.

Record pthread_cond_t := mk_cond {
  c_inited : Z;
  c_mux : mut_t;
  c_cond : sem_t;
  waiting : Z
}.

Record mqd_internal_t := mk_mqd {
  q : mq_t;
  buf : Z;
  name : string;
  flags : Z;
  ll : lle_t;
  open_count : Z;
  pending_unlink : Z
}.

(** [fun] is a keyword of Rocq: the entry point is [fun_]. *)
Record pthread_internal_t := mk_thread {
  attr : pthread_attr_t;
  fun_ : Z;
  fun_arg : Z;
  task : task_t;
  stack : Z;
  barrier : sem_t;
  joined : sem_t;
  t_mux : mut_t;
  t_ret : Z
}.

Record timer_internal_t := mk_timer {
  ost : tmr_t;
  event : sigevent;
  period : Z
}.

(** A memory object; [ORaw] is allocated memory no structure was written to. *)
Inductive obj :=
| ORaw (size : Z)
| OSem (s : sem_t)
| OMutex (m : pthread_mutex_t)
| OCond (c : pthread_cond_t)
| OBarrier (b : pthread_barrier_t)
| OThread (t : pthread_internal_t)
| OTimer (t : timer_internal_t)
| OMqd (m : mqd_internal_t).

(** What a call of the kernel or of the application does outside the
    library's state, recorded in order. *)
Inductive effect :=
| ESleep (ticks : Z)              (** [task_sleep] *)
| EYield                          (** [task_yield] *)
| ESpawn (thread : Z)             (** a successful [task_init] for this thread *)
| ENotify (fn arg : Z).           (** a call of [sigev_notify_function] *)

Record world := mk_world {
  mem : gmap Z obj;
  errnos : gmap Z Z;              (** [errno], one per task *)
  tmr_ticks : Z;                  (** the kernel's tick counter, an [unsigned] *)
  idle_sum : Z;                   (** [core_idle()->load.sum] *)
  garbage : Z;                    (** what an uninitialised local holds *)
  hcos_posix_alloc : Z;           (** allocation hook, 0 when not installed *)
  hcos_posix_free : Z;
  allq : ll_t;                    (** statics of [posix_mqueue.c] *)
  allq_mux : mut_t;
  inited : Z;
  effects : list effect
}.

(** The calling task: [_task_cur] and its [priv] pointer. *)
Record caller := mk_caller { task_cur : Z; priv : Z }.

(** ** Updates of the world *)

Definition with_mem (f : gmap Z obj -> gmap Z obj) (w : world) : world :=
  mk_world (f (mem w)) (errnos w) (tmr_ticks w) (idle_sum w) (garbage w)
    (hcos_posix_alloc w) (hcos_posix_free w) (allq w) (allq_mux w) (inited w) (effects w).

Definition with_errno (me v : Z) (w : world) : world :=
  mk_world (mem w) (<[me:=v]> (errnos w)) (tmr_ticks w) (idle_sum w) (garbage w)
    (hcos_posix_alloc w) (hcos_posix_free w) (allq w) (allq_mux w) (inited w) (effects w).

Definition with_hooks (a f : Z) (w : world) : world :=
  mk_world (mem w) (errnos w) (tmr_ticks w) (idle_sum w) (garbage w)
    a f (allq w) (allq_mux w) (inited w) (effects w).

Definition with_allq (l : ll_t) (w : world) : world :=
  mk_world (mem w) (errnos w) (tmr_ticks w) (idle_sum w) (garbage w)
    (hcos_posix_alloc w) (hcos_posix_free w) l (allq_mux w) (inited w) (effects w).

Definition with_allq_mux (m : mut_t) (w : world) : world :=
  mk_world (mem w) (errnos w) (tmr_ticks w) (idle_sum w) (garbage w)
    (hcos_posix_alloc w) (hcos_posix_free w) (allq w) m (inited w) (effects w).

Definition with_inited (i : Z) (w : world) : world :=
  mk_world (mem w) (errnos w) (tmr_ticks w) (idle_sum w) (garbage w)
    (hcos_posix_alloc w) (hcos_posix_free w) (allq w) (allq_mux w) i (effects w).

Definition with_ticks (n : Z) (w : world) : world :=
  mk_world (mem w) (errnos w) n (idle_sum w) (garbage w)
    (hcos_posix_alloc w) (hcos_posix_free w) (allq w) (allq_mux w) (inited w) (effects w).

Definition with_effect (e : effect) (w : world) : world :=
  mk_world (mem w) (errnos w) (tmr_ticks w) (idle_sum w) (garbage w)
    (hcos_posix_alloc w) (hcos_posix_free w) (allq w) (allq_mux w) (inited w) (effects w ++ [e]).

Definition errno_of (me : Z) (w : world) : Z := default 0 (errnos w !! me).

(** ** References *)

Record ref (T : Type) := Ref {
  rget : world -> option T;
  rset : T -> world -> world
}.
End structures.
Arguments Ref {K T}.
Arguments rget {K T}.
Arguments rset {K T}.

(** The structures an object may be. *)
Class Kind `{K : Kernel} (S : Type) := {
  to_obj : S -> obj;
  of_obj : obj -> option S;
  of_to_obj s : of_obj (to_obj s) = Some s;
  to_of_obj o s : of_obj o = Some s -> to_obj s = o
}.

#[export] Hint Mode Kind - ! : typeclass_instances.

Section kinds.
Context `{K : Kernel}.

#[export] Instance sem_kind : Kind sem_t :=
  {| to_obj := OSem; of_obj o := match o with OSem s => Some s | _ => None end;
     of_to_obj _ := eq_refl; to_of_obj := ltac:(by intros [] ? [= <-]) |}.
#[export] Instance mutex_kind : Kind pthread_mutex_t :=
  {| to_obj := OMutex; of_obj o := match o with OMutex s => Some s | _ => None end;
     of_to_obj _ := eq_refl; to_of_obj := ltac:(by intros [] ? [= <-]) |}.
#[export] Instance cond_kind : Kind pthread_cond_t :=
  {| to_obj := OCond; of_obj o := match o with OCond s => Some s | _ => None end;
     of_to_obj _ := eq_refl; to_of_obj := ltac:(by intros [] ? [= <-]) |}.
#[export] Instance barrier_kind : Kind pthread_barrier_t :=
  {| to_obj := OBarrier; of_obj o := match o with OBarrier s => Some s | _ => None end;
     of_to_obj _ := eq_refl; to_of_obj := ltac:(by intros [] ? [= <-]) |}.
#[export] Instance thread_kind : Kind pthread_internal_t :=
  {| to_obj := OThread; of_obj o := match o with OThread s => Some s | _ => None end;
     of_to_obj _ := eq_refl; to_of_obj := ltac:(by intros [] ? [= <-]) |}.
#[export] Instance timer_kind : Kind timer_internal_t :=
  {| to_obj := OTimer; of_obj o := match o with OTimer s => Some s | _ => None end;
     of_to_obj _ := eq_refl; to_of_obj := ltac:(by intros [] ? [= <-]) |}.
#[export] Instance mqd_kind : Kind mqd_internal_t :=
  {| to_obj := OMqd; of_obj o := match o with OMqd s => Some s | _ => None end;
     of_to_obj _ := eq_refl; to_of_obj := ltac:(by intros [] ? [= <-]) |}.

(** [at_ p w]: the structure at address [p]; [put p s w] writes one. *)
Definition at_ {S} `{!Kind S} (p : Z) (w : world) : option S :=
  match mem w !! p with Some o => of_obj o | None => None end.

Definition put {S} `{!Kind S} (p : Z) (s : S) (w : world) : world :=
  with_mem <[p := to_obj s]> w.

(** The field of the structure at [p] that [g] reads and [st] writes. *)
Definition fld {S T} `{!Kind S} (p : Z) (g : S -> T) (st : T -> S -> S) : ref T :=
  Ref (fun w => match at_ p w with Some s => Some (g s) | None => None end)
      (fun v w => match at_ p w with Some s => put p (st v s) w | None => w end).

(** ** Atomic actions *)

Definition load {T} (r : ref T) : prog world T :=
  act (fun w => match rget r w with
                | Some v => [Done v w]
                | None => [Fault BadPointer]
                end).

Definition store {T} (r : ref T) (v : T) : prog world unit :=
  act (fun w => match rget r w with
                | Some _ => [Done tt (rset r v w)]
                | None => [Fault BadPointer]
                end).

(** A kernel call that may have several results, or block. *)
Definition kcall {T A} (r : ref T) (f : T -> list (A * T)) : prog world A :=
  act (fun w => match rget r w with
                | Some o => map (fun x => Done x.1 (rset r x.2 w)) (f o)
                | None => [Fault BadPointer]
                end).

(** A kernel call that always completes and returns nothing of interest. *)
Definition kmod {T} (r : ref T) (f : T -> T) : prog world unit :=
  kcall r (fun o => [(tt, f o)]).

(** Reading and writing the globals. *)
Definition get {A} (f : world -> A) : prog world A := act (fun w => [Done (f w) w]).

Definition modify (f : world -> world) : prog world unit := act (fun w => [Done tt (f w)]).

Definition raise {A} (e : fault) : prog world A := act (fun _ => [Fault e]).

(** A pure computation whose [None] is undefined behaviour. *)
Definition lift {A} (o : option A) : prog world A :=
  match o with
  | Some x => Ret x
  | None => raise SignedOverflow
  end.

Definition set_errno (c : caller) (v : Z) : prog world unit := modify (with_errno (task_cur c) v).

Definition emit (e : effect) : prog world unit := modify (with_effect e).

(** [hcos_posix_alloc(ty, size)]: a call of the hook.  The memory it returns
    is raw. *)
Definition posix_alloc (ty : posix_obj_t) (size : Z) : prog world Z :=
  act (fun w =>
    if hcos_posix_alloc w =? 0 then [Fault NullDeref]
    else let p := alloc_call (hcos_posix_alloc w) ty size (dom (mem w)) in
         if p =? 0 then [Done 0 w]
         else [Done p (with_mem <[p := ORaw size]> w)]).

(** [hcos_posix_free(ty, p)]: releasing an address that is not allocated is
    the application's undefined behaviour. *)
Definition posix_free (ty : posix_obj_t) (p : Z) : prog world unit :=
  act (fun w =>
    if hcos_posix_free w =? 0 then [Fault NullDeref]
    else match mem w !! p with
         | Some _ => [Done tt (with_mem (delete p) w)]
         | None => [Fault BadPointer]
         end).

(** [memset(p, 0, sizeof(S))] on freshly allocated memory: the structure [s]
    whose fields are zero.  A null [p] is undefined. *)
Definition memset_zero {S} `{!Kind S} (p : Z) (s : S) : prog world unit :=
  act (fun w =>
    if p =? 0 then [Fault NullDeref]
    else match mem w !! p with
         | Some _ => [Done tt (put p s w)]
         | None => [Fault BadPointer]
         end).
End kinds.

(** ** Lemmas on the memory *)

Section world_lemmas.
Context `{K : Kernel} {S : Type} `{!Kind S}.
Implicit Types (w : world) (s : S) (p : Z).

Lemma at_put p s w : at_ p (put p s w) = Some s.
Proof. unfold at_, put. simpl. rewrite lookup_insert_eq. apply of_to_obj. Qed.

Lemma at_put_ne {S'} `{!Kind S'} p p' (s' : S') w :
  p <> p' -> at_ (S:=S) p (put p' s' w) = at_ p w.
Proof. intros H. unfold at_, put. simpl. by rewrite lookup_insert_ne by done. Qed.

Lemma put_put p s s' w : put p s (put p s' w) = put p s w.
Proof.
  unfold put, with_mem. simpl. by rewrite insert_insert_eq.
Qed.

Lemma at_with_errno p me v w : at_ (S:=S) p (with_errno me v w) = at_ p w.
Proof. done. Qed.

Lemma at_with_effect p e w : at_ (S:=S) p (with_effect e w) = at_ p w.
Proof. done. Qed.

Lemma put_comm {S'} `{!Kind S'} p p' (s' : S') s w :
  p <> p' -> put p s (put p' s' w) = put p' s' (put p s w).
Proof. intros H. unfold put, with_mem. simpl. by rewrite insert_insert_ne by done. Qed.

Lemma put_same p s w : at_ p w = Some s -> put p s w = w.
Proof.
  unfold at_, put, with_mem. destruct (mem w !! p) eqn:E; [|done].
  intros ->%to_of_obj. rewrite insert_id by done. by destruct w.
Qed.

(** ** Running the actions on a field *)

Context {T : Type} (g : S -> T) (st : T -> S -> S).

Lemma run_load {R} p s w (k : T -> prog world R) :
  at_ p w = Some s -> run (bind (load (fld p g st)) k) w = run (k (g s)) w.
Proof. intros H. apply run_act. simpl. by rewrite H. Qed.

Lemma run_store {R} p s v w (k : unit -> prog world R) :
  at_ p w = Some s ->
  run (bind (store (fld p g st) v) k) w = run (k tt) (put p (st v s) w).
Proof. intros H. apply run_act. simpl. by rewrite H. Qed.

Lemma run_kcall {A R} p s (f : T -> list (A * T)) a o w (k : A -> prog world R) :
  at_ p w = Some s -> f (g s) = [(a, o)] ->
  run (bind (kcall (fld p g st) f) k) w = run (k a) (put p (st o s) w).
Proof. intros H Hf. apply run_act. simpl. by rewrite H, Hf. Qed.

Lemma run_kcall_block {A R} p s (f : T -> list (A * T)) w (k : A -> prog world R) :
  at_ p w = Some s -> f (g s) = [] -> run (bind (kcall (fld p g st) f) k) w = [].
Proof. intros H Hf. apply run_act_block. simpl. by rewrite H, Hf. Qed.

Lemma run_kmod {R} p s (f : T -> T) w (k : unit -> prog world R) :
  at_ p w = Some s ->
  run (bind (kmod (fld p g st) f) k) w = run (k tt) (put p (st (f (g s)) s) w).
Proof. intros H. by eapply run_kcall. Qed.

Lemma run_load_bad {R} p w (k : T -> prog world R) :
  at_ (S:=S) p w = None -> run (bind (load (fld p g st)) k) w = [Fault BadPointer].
Proof. intros H. apply run_act_fault. simpl. by rewrite H. Qed.

Lemma run_kcall_bad {A R} p (f : T -> list (A * T)) w (k : A -> prog world R) :
  at_ (S:=S) p w = None -> run (bind (kcall (fld p g st) f) k) w = [Fault BadPointer].
Proof. intros H. apply run_act_fault. simpl. by rewrite H. Qed.

(** *** and stepping them in a pool *)

Lemma pstep_load {R} p s w (k : T -> prog world R) :
  at_ p w = Some s -> pstep (bind (load (fld p g st)) k) w = [Done (k (g s)) w].
Proof. intros H. simpl. by rewrite H. Qed.

Lemma pstep_store {R} p s v w (k : unit -> prog world R) :
  at_ p w = Some s ->
  pstep (bind (store (fld p g st) v) k) w = [Done (k tt) (put p (st v s) w)].
Proof. intros H. simpl. by rewrite H. Qed.

Lemma pstep_kcall {A R} p s (f : T -> list (A * T)) w (k : A -> prog world R) :
  at_ p w = Some s ->
  pstep (bind (kcall (fld p g st) f) k) w
  = map (fun x => Done (k x.1) (put p (st x.2 s) w)) (f (g s)).
Proof.
  intros H. simpl. rewrite H, map_map. apply map_ext. intros [a o]. done.
Qed.
End world_lemmas.

Lemma run_get `{K : Kernel} {A R} (f : world -> A) w (k : A -> prog world R) :
  run (bind (get f) k) w = run (k (f w)) w.
Proof. by apply run_act. Qed.

Lemma run_modify `{K : Kernel} {R} f w (k : unit -> prog world R) :
  run (bind (modify f) k) w = run (k tt) (f w).
Proof. by apply run_act. Qed.

Lemma run_set_errno `{K : Kernel} {R} c v w (k : unit -> prog world R) :
  run (bind (set_errno c v) k) w = run (k tt) (with_errno (task_cur c) v w).
Proof. by apply run_act. Qed.

Lemma run_emit `{K : Kernel} {R} e w (k : unit -> prog world R) :
  run (bind (emit e) k) w = run (k tt) (with_effect e w).
Proof. by apply run_act. Qed.

Lemma errno_set `{K : Kernel} me v w : errno_of me (with_errno me v w) = v.
Proof. unfold errno_of. simpl. by rewrite lookup_insert_eq. Qed.

Lemma at_errno `{K : Kernel} {S : Type} `{!Kind S} p me v w (s : S) :
  at_ (S:=S) p w = Some s -> at_ p (with_errno me v w) = Some s.
Proof. done. Qed.

Create HintDb world.
Create Rewrite HintDb world.
#[export] Hint Rewrite @at_put @put_put @at_with_errno @at_with_effect @errno_set @app_nil_r : world.
#[export] Hint Rewrite @run_get @run_modify @run_set_errno @run_emit : world.
#[export] Hint Resolve at_put at_errno : world.

(** [step] runs the next action of the goal [run (bind a k) w = _]; the
    structure the action works on is found in the context or was just
    written.  [kstep H] runs a kernel call whose result [H] gives. *)
Ltac find_at := first [ eassumption | apply at_put | solve [ eauto with world ] ].

Ltac step_one :=
  first
    [ rewrite run_get | rewrite run_modify | rewrite run_set_errno | rewrite run_emit
    | erewrite run_load by find_at
    | erewrite run_store by find_at
    | erewrite run_kmod by find_at ].

Ltac step :=
  repeat match goal with
         | |- context [run (bind (bind ?p ?f) ?g) ?w] => rewrite (run_assoc p f g w); cbn beta iota
         end;
  step_one; rewrite ?put_put; cbn beta iota.

Ltac steps := repeat step.

Ltac kstep H := erewrite run_kcall by (find_at || exact H || (simpl; exact H)); rewrite ?put_put; cbn beta iota.

(** ** Memory management *)

Section alloc_lemmas.
Context `{K : Kernel}.
Implicit Types w : world.

(** What the hook answers in [w]. *)
Definition alloc_answer w ty n : Z := alloc_call (hcos_posix_alloc w) ty n (dom (mem w)).

Lemma run_alloc {R} w ty n (k : Z -> prog world R) :
  hcos_posix_alloc w <> 0 -> alloc_answer w ty n <> 0 ->
  run (bind (posix_alloc ty n) k) w
  = run (k (alloc_answer w ty n)) (with_mem <[alloc_answer w ty n := ORaw n]> w).
Proof.
  intros Hh Ha. apply run_act. unfold alloc_answer in *. test_false (hcos_posix_alloc w =? 0).
  cbv zeta. by test_false (alloc_call (hcos_posix_alloc w) ty n (dom (mem w)) =? 0).
Qed.

Lemma run_alloc_none {R} w ty n (k : Z -> prog world R) :
  hcos_posix_alloc w <> 0 -> alloc_answer w ty n = 0 ->
  run (bind (posix_alloc ty n) k) w = run (k 0) w.
Proof.
  intros Hh Ha. apply run_act. unfold alloc_answer in *. test_false (hcos_posix_alloc w =? 0).
  cbv zeta. by rewrite Ha.
Qed.

Lemma run_memset {S R} `{!Kind S} w p (s : S) o (k : unit -> prog world R) :
  p <> 0 -> mem w !! p = Some o -> run (bind (memset_zero p s) k) w = run (k tt) (put p s w).
Proof. intros Hp Hm. apply run_act. test_false (p =? 0). by rewrite Hm. Qed.

Lemma run_free {R} w ty p o (k : unit -> prog world R) :
  hcos_posix_free w <> 0 -> mem w !! p = Some o ->
  run (bind (posix_free ty p) k) w = run (k tt) (with_mem (delete p) w).
Proof. intros Hh Hm. apply run_act. test_false (hcos_posix_free w =? 0). by rewrite Hm. Qed.

Lemma put_raw {S} `{!Kind S} p (s : S) n w : put p s (with_mem <[p := ORaw n]> w) = put p s w.
Proof. unfold put, with_mem. simpl. by rewrite insert_insert_eq. Qed.

Lemma put_mem_comm {S} `{!Kind S} p p' (s : S) o w :
  p <> p' -> with_mem <[p' := o]> (put p s w) = put p s (with_mem <[p' := o]> w).
Proof. intros H. unfold put, with_mem. simpl. by rewrite insert_insert_ne by done. Qed.

(** Releasing what was just allocated restores the world. *)
Lemma free_fresh {S} `{!Kind S} p (s : S) w :
  mem w !! p = None -> with_mem (delete p) (put p s w) = w.
Proof. intros H. unfold put, with_mem. simpl. rewrite delete_insert_id by done. by destruct w. Qed.

Lemma at_mem {S} `{!Kind S} p w (s : S) : at_ p w = Some s -> exists o, mem w !! p = Some o.
Proof. unfold at_. destruct (mem w !! p); [eauto|done]. Qed.

Lemma at_ne {S} `{!Kind S} p p' f w (s : S) :
  p <> p' -> at_ p w = Some s -> at_ p (with_mem <[p' := f]> w) = Some s.
Proof. intros H. unfold at_. simpl. by rewrite lookup_insert_ne by done. Qed.

Lemma answer_fresh w ty n (L : AllocLaws K) :
  alloc_answer w ty n <> 0 -> mem w !! alloc_answer w ty n = None.
Proof. intros H. apply not_elem_of_dom. by apply alloc_fresh. Qed.
End alloc_lemmas.

(** ** Functions with several outcomes *)

Lemma ensures_run {W R} (p p' : prog W R) w w' (Q : R -> W -> Prop) :
  run p w = run p' w' -> ensures p' w' Q -> ensures p w Q.
Proof. unfold ensures. by intros ->. Qed.

Lemma ensures_ret {W R} (r : R) (w : W) (Q : R -> W -> Prop) : Q r w -> ensures (Ret r) w Q.
Proof. by apply ensures_one. Qed.

Lemma ensures_bind {W A B} (p : prog W A) (f : A -> prog W B) w (Q : B -> W -> Prop) :
  ensures p w (fun x w' => ensures (f x) w' Q) -> ensures (bind p f) w Q.
Proof.
  unfold ensures, all_done. rewrite run_bind. intros [Hne Hall]. split.
  - destruct (run p w) as [|o os]; [done|]. simpl.
    specialize (Hall o ltac:(set_solver)). destruct o as [x w'|e]; [|done]. simpl.
    destruct Hall as [H _]. destruct (run (f x) w'); [done|]. done.
  - intros o Ho. apply list_elem_of_In, in_flat_map in Ho as (o' & Ho' & Ho).
    apply list_elem_of_In in Ho'. specialize (Hall o' Ho').
    destruct o' as [x w'|e]; [|done]. simpl in Ho. apply list_elem_of_In in Ho.
    by apply Hall.
Qed.

Lemma ensures_weaken {W R} (p : prog W R) w (Q Q' : R -> W -> Prop) :
  ensures p w Q -> (forall r w', Q r w' -> Q' r w') -> ensures p w Q'.
Proof.
  intros [H1 H2] HQ. split; [done|]. intros o Ho. specialize (H2 o Ho).
  destruct o; auto.
Qed.

Lemma ensures_kcall `{K : Kernel} {S T A : Type} `{!Kind S} (g : S -> T) (st : T -> S -> S)
    p s (f : T -> list (A * T)) w (Q : A -> world -> Prop) :
  at_ p w = Some s -> f (g s) <> [] ->
  (forall a o, (a, o) ∈ f (g s) -> Q a (put p (st o s) w)) ->
  ensures (kcall (fld p g st) f) w Q.
Proof.
  intros H Hne Hall. unfold ensures, all_done. simpl. rewrite H. split.
  - by destruct (f (g s)) as [|[a o] l].
  - intros o Ho. apply list_elem_of_In, in_flat_map in Ho as (x & Hx & Ho).
    apply in_map_iff in Hx as ([a t] & <- & Hx). apply list_elem_of_In in Hx.
    simpl in Ho. destruct Ho as [<-|[]]. by apply Hall.
Qed.

(** [estep] runs the next deterministic action of a goal [ensures _ _ _]. *)
Ltac estep :=
  unfold ensures; step;
  match goal with |- all_done (run ?p ?w) ?Q => change (ensures p w Q) end.

(** ** Invariants of the actions *)

Section keeps_lemmas.
Context `{K : Kernel}.
Implicit Types I : world -> Prop.

Lemma keeps_get {A} I (f : world -> A) : keeps I (get f).
Proof. apply keeps_act. intros w x w' Hw H. apply list_elem_of_singleton in H. by simplify_eq. Qed.

Lemma keeps_modify I f : (forall w, I w -> I (f w)) -> keeps I (modify f).
Proof.
  intros HI. apply keeps_act. intros w x w' Hw H. apply list_elem_of_singleton in H.
  simplify_eq. auto.
Qed.

Lemma keeps_raise {A} I e : keeps I (raise e : prog world A).
Proof. apply keeps_act. intros w x w' Hw H. by apply list_elem_of_singleton in H. Qed.

Lemma keeps_lift {A} I (o : option A) : keeps I (lift o).
Proof. destruct o; [constructor|apply keeps_raise]. Qed.

Lemma keeps_load {T} I (r : ref T) : keeps I (load r).
Proof.
  apply keeps_act. intros w x w' Hw H. destruct (rget r w); [|by apply list_elem_of_singleton in H].
  apply list_elem_of_singleton in H. by simplify_eq.
Qed.

Lemma keeps_store {T} I (r : ref T) v : (forall w, I w -> I (rset r v w)) -> keeps I (store r v).
Proof.
  intros HI. apply keeps_act. intros w x w' Hw H. destruct (rget r w); [|by apply list_elem_of_singleton in H].
  apply list_elem_of_singleton in H. simplify_eq. auto.
Qed.

Lemma keeps_kcall {T A} I (r : ref T) (f : T -> list (A * T)) :
  (forall v w, I w -> I (rset r v w)) -> keeps I (kcall r f).
Proof.
  intros HI. apply keeps_act. intros w x w' Hw H. destruct (rget r w); [|by apply list_elem_of_singleton in H].
  apply list_elem_of_fmap in H as (y & Hy & _). simplify_eq. auto.
Qed.

Lemma keeps_kmod {T} I (r : ref T) (f : T -> T) :
  (forall v w, I w -> I (rset r v w)) -> keeps I (kmod r f).
Proof. apply keeps_kcall. Qed.

Lemma keeps_mem_act {A} I (a : action world A) :
  (forall w x w', Done x w' ∈ a w -> exists f, w' = with_mem f w) ->
  (forall f w, I w -> I (with_mem f w)) -> keeps I (act a).
Proof. intros Ha HI. apply keeps_act. intros w x w' Hw H. destruct (Ha w x w' H) as [f ->]. auto. Qed.

Lemma with_mem_id w : with_mem (fun m => m) w = w.
Proof. by destruct w. Qed.

Lemma keeps_alloc I ty n : (forall f w, I w -> I (with_mem f w)) -> keeps I (posix_alloc ty n).
Proof.
  intros HI. apply keeps_mem_act; [|done]. intros w x w' H. simpl in H.
  destruct (hcos_posix_alloc w =? 0); [by apply list_elem_of_singleton in H|].
  destruct (alloc_call _ _ _ _ =? 0); apply list_elem_of_singleton in H; simplify_eq; [|by eexists].
  exists (fun m => m). by rewrite with_mem_id.
Qed.

Lemma keeps_free I ty p : (forall f w, I w -> I (with_mem f w)) -> keeps I (posix_free ty p).
Proof.
  intros HI. apply keeps_mem_act; [|done]. intros w x w' H. simpl in H.
  case_match; [by apply list_elem_of_singleton in H|]. destruct (mem w !! p); apply list_elem_of_singleton in H; simplify_eq.
  by eexists.
Qed.

Lemma keeps_memset {S} `{!Kind S} I p (s : S) :
  (forall f w, I w -> I (with_mem f w)) -> keeps I (memset_zero p s).
Proof.
  intros HI. apply keeps_mem_act; [|done]. intros w x w' H. simpl in H.
  case_match; [by apply list_elem_of_singleton in H|]. destruct (mem w !! p); apply list_elem_of_singleton in H; simplify_eq.
  by eexists.
Qed.

(** Writing a field is an update of the memory. *)
Lemma rset_fld {S T} `{!Kind S} I p (g : S -> T) st v w :
  (forall f w, I w -> I (with_mem f w)) -> I w -> I (rset (fld p g st) v w).
Proof. intros HI Hw. simpl. destruct (at_ p w); [by apply HI|done]. Qed.
End keeps_lemmas.

(** [keeps_tac] proves [keeps I p] for an [I] on the part of the world that
    the actions of [p] do not change. *)
Ltac keeps_one :=
  lazymatch goal with
  | |- keeps _ (match ?x with _ => _ end) => destruct x
  | |- keeps _ (bind _ _) => apply keeps_bind; [|intros ?]
  | |- keeps _ (Ret _) => constructor
  | |- keeps _ (get _) => apply keeps_get
  | |- keeps _ (load _) => apply keeps_load
  | |- keeps _ (lift _) => apply keeps_lift
  | |- keeps _ (raise _) => apply keeps_raise
  | |- keeps _ (modify _) => apply keeps_modify
  | |- keeps _ (set_errno _ _) => apply keeps_modify
  | |- keeps _ (emit _) => apply keeps_modify
  | |- keeps _ (store _ _) => apply keeps_store
  | |- keeps _ (kcall _ _) => apply keeps_kcall
  | |- keeps _ (kmod _ _) => apply keeps_kmod
  | |- keeps _ (posix_alloc _ _) => apply keeps_alloc
  | |- keeps _ (posix_free _ _) => apply keeps_free
  | |- keeps _ (memset_zero _ _) => apply keeps_memset
  end.

Ltac keeps_tac := repeat keeps_one.

(** ** The actions in the logic of pools *)

Section typed_lemmas.
Context `{K : Kernel} (I : world -> Prop) (F : fault -> Prop) {R : Type} (Q : R -> Prop).

Lemma typed_get {A} (f : world -> A) k :
  (forall w, I w -> typed I F Q (k (f w))) -> typed I F Q (bind (get f) k).
Proof.
  intros H. apply typed_act.
  - intros w x w' Hw Hx. apply list_elem_of_singleton in Hx. simplify_eq. auto.
  - by intros w e _ ?%list_elem_of_singleton.
Qed.

Lemma typed_modify f k :
  (forall w, I w -> I (f w)) -> typed I F Q (k tt) -> typed I F Q (bind (modify f) k).
Proof.
  intros H Hk. apply typed_act.
  - intros w x w' Hw Hx. apply list_elem_of_singleton in Hx. simplify_eq. auto.
  - by intros w e _ ?%list_elem_of_singleton.
Qed.

Lemma typed_raise {A} (e : fault) (k : A -> prog world R) : F e -> typed I F Q (bind (raise e) k).
Proof.
  intros H. apply typed_act.
  - by intros w x w' _ ?%list_elem_of_singleton.
  - intros w e' _ He. apply list_elem_of_singleton in He. by simplify_eq.
Qed.

Lemma typed_lift {A} (o : option A) k :
  (forall x, o = Some x -> typed I F Q (k x)) -> (o = None -> F SignedOverflow) ->
  typed I F Q (bind (lift o) k).
Proof. intros HQ HF. destruct o as [x|]; [by apply HQ|by apply typed_raise, HF]. Qed.

Lemma typed_load {T} (r : ref T) k :
  (forall w v, I w -> rget r w = Some v -> typed I F Q (k v)) ->
  (forall w, I w -> rget r w = None -> F BadPointer) -> typed I F Q (bind (load r) k).
Proof.
  intros HQ HF. apply typed_act; intros w x; destruct (rget r w) as [v|] eqn:E; [| |intros _|].
  - intros w' Hw Hx. apply list_elem_of_singleton in Hx. simplify_eq. eauto.
  - by intros w' _ ?%list_elem_of_singleton.
  - by intros ?%list_elem_of_singleton.
  - intros Hw Hx. apply list_elem_of_singleton in Hx. simplify_eq. eauto.
Qed.

Lemma typed_kcall {T A} (r : ref T) (f : T -> list (A * T)) k :
  (forall w o a v, I w -> rget r w = Some o -> (a, v) ∈ f o -> I (rset r v w) /\ typed I F Q (k a)) ->
  (forall w, I w -> rget r w = None -> F BadPointer) -> typed I F Q (bind (kcall r f) k).
Proof.
  intros HQ HF. apply typed_act; intros w x; destruct (rget r w) as [o|] eqn:E; [| |intros _|].
  - intros w' Hw Hx. apply list_elem_of_fmap in Hx as ([a v] & Hx & Hin). simplify_eq/=.
    by apply (HQ w o a v).
  - by intros w' _ ?%list_elem_of_singleton.
  - by intros (y & ? & _)%list_elem_of_fmap.
  - intros Hw Hx. apply list_elem_of_singleton in Hx. simplify_eq. eauto.
Qed.

Lemma typed_store {T} (r : ref T) v k :
  (forall w o, I w -> rget r w = Some o -> I (rset r v w)) -> typed I F Q (k tt) ->
  (forall w, I w -> rget r w = None -> F BadPointer) -> typed I F Q (bind (store r v) k).
Proof.
  intros HI Hk HF. apply typed_act; intros w x; destruct (rget r w) as [o|] eqn:E; [| |intros _|].
  - intros w' Hw Hx. apply list_elem_of_singleton in Hx. simplify_eq. eauto.
  - by intros w' _ ?%list_elem_of_singleton.
  - by intros ?%list_elem_of_singleton.
  - intros Hw Hx. apply list_elem_of_singleton in Hx. simplify_eq. eauto.
Qed.

Lemma typed_kmod {T} (r : ref T) (f : T -> T) k :
  (forall w o, I w -> rget r w = Some o -> I (rset r (f o) w)) -> typed I F Q (k tt) ->
  (forall w, I w -> rget r w = None -> F BadPointer) -> typed I F Q (bind (kmod r f) k).
Proof.
  intros HQ Hk HF. apply typed_kcall; [|done]. intros w o a v Hw Ho Hin.
  apply list_elem_of_singleton in Hin. simplify_eq. eauto.
Qed.
End typed_lemmas.

(** The last action of a program, as the start of one that returns its
    result. *)
Lemma typed_last {W R} (I : W -> Prop) (F : fault -> Prop) (Q : R -> Prop) (p : prog W R) :
  typed I F Q (bind p Ret) -> typed I F Q p.
Proof.
  induction p as [r|A a k IH]; simpl; [done|]. intros H w o Hw Ho. specialize (H w o Hw Ho).
  destruct o as [x v|e]; [|done]. destruct H. split; [done|by apply IH].
Qed.
