(* ===== verification/Machine.v ===== *)
(** From interleaved code to an abstract machine.  A component describes the
    program points of its functions ([PC]), the code that remains at each one
    and the transitions of a program point on the shared state [S] that the
    world holds; if every action of the code is a transition ([code_next]),
    then the pool of threads refines the machine, and invariants proved of
    the machine hold of the code. *)
From S2P Require Import Prelude Prog.

Class Machine (W R PC S : Type) := {
  view : W -> option S;                    (** the shared state in the world *)
  update : S -> W -> W;
  view_update s w : view (update s w) = Some s;
  residual : nat -> PC -> prog W R;        (** the code of thread [i] at a program point *)
  transitions : nat -> PC -> S -> list ((PC * S) + fault);
  code_next i p s w : view w = Some s ->
    pstep (residual i p) w
    = map (fun o => match o with
                    | inl x => Done (residual i x.1) (update x.2 w)
                    | inr e => Fault e
                    end) (transitions i p s)
}.

Section machine.
Context {W R PC S : Type} `{M : Machine W R PC S}.

Definition mstate : Type := list PC * S.

Inductive mstep : mstate -> mstate -> Prop :=
| MStep ps s i p p' s' :
    ps !! i = Some p ->
    inl (p', s') ∈ transitions i p s ->
    mstep (ps, s) (<[i:=p']> ps, s').

(** The pool whose threads are at the program points [ps]. *)
Definition threads (ps : list PC) : list (prog W R) := imap residual ps.

Lemma threads_lookup ps i q :
  threads ps !! i = Some q <-> exists p, ps !! i = Some p /\ q = residual i p.
Proof.
  unfold threads. rewrite list_lookup_imap.
  destruct (ps !! i) as [p|] eqn:E; simpl; split.
  - intros [=]. eauto.
  - intros (p' & [= <-] & ->). done.
  - done.
  - by intros (p' & ? & _).
Qed.

Lemma threads_insert ps i p p' :
  ps !! i = Some p -> <[i:=residual i p']> (threads ps) = threads (<[i:=p']> ps).
Proof.
  intros Hi. apply list_eq. intros j. unfold threads.
  pose proof (lookup_lt_Some _ _ _ Hi) as Hlt.
  destruct (decide (i = j)) as [->|Hne].
  - rewrite list_lookup_insert_eq by (by rewrite length_imap).
    rewrite list_lookup_imap, list_lookup_insert_eq by done. done.
  - rewrite list_lookup_insert_ne, !list_lookup_imap, list_lookup_insert_ne by done. done.
Qed.

Lemma step_refines ps s w c :
  view w = Some s -> pool_step (threads ps, w) c ->
  exists ps' s', mstep (ps, s) (ps', s') /\ c.1 = threads ps' /\ view c.2 = Some s'.
Proof.
  intros Hv Hs. inversion Hs as [ts w0 i q q' w' Hi Hq]; subst.
  apply threads_lookup in Hi as (p & Hi & ->).
  rewrite (code_next i p s w Hv) in Hq.
  apply list_elem_of_fmap in Hq as ([[p' s']|e] & Heq & Hn); simplify_eq/=.
  exists (<[i:=p']> ps), s'. split; [by econstructor|].
  rewrite (threads_insert ps i p p' Hi). split; [done|apply view_update].
Qed.

(** The refinement theorem of the library: every reachable pool is the image
    of a reachable state of the machine. *)
Lemma pool_refines ps s w c :
  view w = Some s -> reach pool_step (threads ps, w) c ->
  exists ps' s', reach mstep (ps, s) (ps', s') /\ c.1 = threads ps' /\ view c.2 = Some s'.
Proof.
  intros Hv H. induction H as [|d c H IH Hs].
  - exists ps, s. split; [constructor|done].
  - destruct (IH) as (ps1 & s1 & Hr & E1 & Hv1). destruct d as [ts1 w1]. simpl in *; subst.
    destruct (step_refines ps1 s1 w1 c Hv1 Hs) as (ps2 & s2 & Hm & E2 & Hv2).
    exists ps2, s2. split; [by eapply ReachStep|done].
Qed.

(** and its code runs into undefined behaviour only where the machine says
    so, *)
Lemma pool_no_fault ps s w e :
  view w = Some s ->
  (forall i p, ps !! i = Some p -> ~ (inr e ∈ transitions i p s)) ->
  ~ pool_faults (threads ps, w) e.
Proof.
  intros Hv Hno (i & q & Hi & Hf). apply threads_lookup in Hi as (p & Hi & ->). simpl in Hf.
  rewrite (code_next i p s w Hv) in Hf.
  apply list_elem_of_fmap in Hf as ([x|e'] & Heq & Hn); simplify_eq. by eapply Hno.
Qed.

(** and it is stuck only where the machine is. *)
Lemma stuck_machine ps s w i p :
  view w = Some s -> stuck pool_step (threads ps, w) -> ps !! i = Some p ->
  forall x, ~ (inl x ∈ transitions i p s).
Proof.
  intros Hv Hst Hi [p' s'] Hx.
  eapply (Hst (<[i:=residual i p']> (threads ps), update s' w)). econstructor.
  - apply threads_lookup. eauto.
  - rewrite (code_next i p s w Hv). apply list_elem_of_fmap. by exists (inl (p', s')).
Qed.
End machine.
