(* ===== verification/Lock.v ===== *)
(** Critical sections.  The threads of a pool are at program points; [in_cs]
    tells those at which a thread holds a given kernel mutex.  [lock_inv]
    ties the mutex to the threads: at most one of them is inside and it owns
    the mutex.  The lemmas are the transitions of this invariant, used by the
    barriers and the condition variables. *)
From S2P Require Import Prelude Prog Kernel World.

Section lock.
Context `{P : Platform} `{K : Kernel} (L : MutLaws P K).
Context (who : nat -> caller) {PC : Type} (in_cs : PC -> Z).
Hypothesis who_task : forall i, task_cur (who i) <> 0.
Hypothesis who_inj : forall i j, task_cur (who i) = task_cur (who j) -> i = j.
Hypothesis in_cs_bit : forall p, in_cs p = 0 \/ in_cs p = 1.
Implicit Types (ps : list PC) (m : mut_t).

Definition lock_inv ps m : Prop :=
  mut_own m = 0 /\ tally in_cs ps = 0
  \/ exists i p, ps !! i = Some p /\ in_cs p = 1 /\ tally in_cs ps = 1
       /\ mut_held m (task_cur (who i)).

Lemma in_cs_nonneg p : 0 <= in_cs p.
Proof. destruct (in_cs_bit p); lia. Qed.

(** A thread that is inside is alone and owns the mutex. *)
Lemma lock_alone ps m i p :
  lock_inv ps m -> ps !! i = Some p -> in_cs p = 1 ->
  tally in_cs ps = 1 /\ mut_held m (task_cur (who i))
  /\ forall j q, j <> i -> ps !! j = Some q -> in_cs q = 0.
Proof.
  intros HI Hi Hp. destruct HI as [[_ H0]|(k & q & Hk & Hq & H1 & Hh)].
  - pose proof (tally_lookup in_cs ps i p in_cs_nonneg Hi). lia.
  - assert (forall j r, j <> i -> ps !! j = Some r -> in_cs r = 0) as Hj.
    { intros j r Hne Hr. pose proof (tally_two in_cs ps i j p r in_cs_nonneg ltac:(lia) Hi Hr).
      pose proof (in_cs_nonneg r). lia. }
    destruct (decide (k = i)) as [->|Hne]; [done|].
    rewrite (Hj k q Hne Hk) in Hq. lia.
Qed.

Lemma lock_keep ps m i p p' :
  lock_inv ps m -> ps !! i = Some p -> in_cs p' = in_cs p -> lock_inv (<[i:=p']> ps) m.
Proof.
  intros HI Hi Hp. unfold lock_inv. rewrite (tally_insert in_cs ps i p p' Hi), Hp.
  destruct HI as [[? ?]|(k & q & Hk & Hq & ? & ?)]; [left; split; [done|lia]|right].
  destruct (decide (k = i)) as [->|Hne].
  - exists i, p'. simplify_eq.
    rewrite list_lookup_insert_eq by (by eapply lookup_lt_Some).
    repeat split; try done; lia.
  - exists k, q. rewrite list_lookup_insert_ne by done. repeat split; try done; lia.
Qed.

Lemma lock_acquire ps m i p p' t r m' :
  lock_inv ps m -> ps !! i = Some p -> in_cs p = 0 -> in_cs p' = 1 -> t = WAIT ->
  (r, m') ∈ mut_lock (task_cur (who i)) t m ->
  r = 0 /\ tally in_cs ps = 0 /\ lock_inv (<[i:=p']> ps) m'.
Proof.
  intros HI Hi Hp Hp' -> Hin. destruct HI as [[H0 Ht]|(k & q & Hk & Hq & Ht & Hh)].
  - destruct (mut_lock_free m (task_cur (who i)) WAIT (who_task i) H0) as (x & Hx & Hheld).
    rewrite Hx in Hin. apply list_elem_of_singleton in Hin. simplify_eq.
    split; [done|]. split; [done|]. right. exists i, p'.
    rewrite list_lookup_insert_eq by (by eapply lookup_lt_Some).
    rewrite (tally_insert in_cs ps i p p' Hi). repeat split; try done; lia.
  - exfalso. pose proof (mut_held_own m _ Hh) as Ho.
    assert (k <> i) as Hne by (intros ->; simplify_eq; lia).
    rewrite mut_lock_wait in Hin; [set_solver|rewrite Ho; apply who_task|].
    rewrite Ho. intros E. by apply Hne, who_inj.
Qed.

Lemma lock_release ps m i p p' :
  lock_inv ps m -> ps !! i = Some p -> in_cs p = 1 -> in_cs p' = 0 ->
  lock_inv (<[i:=p']> ps) (mut_unlock (task_cur (who i)) m).
Proof.
  intros HI Hi Hp Hp'. destruct (lock_alone ps m i p HI Hi Hp) as (Ht & Hh & _).
  left. split; [by apply mut_unlock_held|]. rewrite (tally_insert in_cs ps i p p' Hi). lia.
Qed.

(** Who is outside does not own the mutex, *)
Lemma lock_outsider ps m i p :
  lock_inv ps m -> ps !! i = Some p -> in_cs p = 0 -> mut_own m <> task_cur (who i).
Proof.
  intros [[H0 _]|(j & q & Hj & Hq & _ & Hh)] Hi Hp.
  - rewrite H0. intros E. by apply (who_task i).
  - apply mut_held_own in Hh as ->. intros E%who_inj. subst j. simplify_eq. lia.
Qed.

(** and nobody is inside if nobody owns it. *)
Lemma lock_nobody ps m : lock_inv ps m -> mut_own m = 0 -> tally in_cs ps = 0.
Proof.
  intros [[_ H0]|(j & q & _ & _ & _ & Hh)] Hf; [done|].
  apply mut_held_own in Hh. rewrite Hf in Hh. by destruct (who_task j).
Qed.

(** Somebody is inside, or the mutex can be locked. *)
Lemma lock_progress ps m i :
  lock_inv ps m ->
  (exists j q, ps !! j = Some q /\ in_cs q = 1) \/ mut_lock (task_cur (who i)) WAIT m <> [].
Proof.
  intros [[H0 _]|(k & q & Hk & Hq & _)]; [right|left; eauto].
  by destruct (mut_lock_free m (task_cur (who i)) WAIT (who_task i) H0) as (x & -> & _).
Qed.
End lock.
