(* ===== verification/SimKernel.v ===== *)
(** A concrete kernel for which every law of [Kernel.v] holds.  It is used by
    the witnesses only: no definition of the library depends on it.  Mutexes
    are an owner with a nesting depth, semaphores a count, queues a list of
    messages; the allocation hooks [1], [2] and [3] are an allocator with
    memory, one without, and one without memory for buffers and stacks. *)
From S2P Require Import Prelude Kernel World.

#[local] Instance sim_platform : Platform :=
  {| tmr_hz := 1000; time_bits := 64; CFG_TPRI_NUM := 8; WAIT := UINT_MAX; WAIT_NO := 0 |}.

#[local] Instance sim_platform_ok : PlatformOk sim_platform.
Proof. split; vm_compute; intuition congruence. Qed.

Record sim_mq := SimMq { sim_sz : Z; sim_isz : Z; sim_items : list (list Z) }.

Definition sim_lock (me t : Z) (m : Z * nat) : list (Z * (Z * nat)) :=
  if m.1 =? 0 then [(0, (me, 1%nat))]
  else if m.1 =? me then [(0, (me, S m.2))]
  else if t =? WAIT then [] else [(1, m)].

Definition sim_unlock (me : Z) (m : Z * nat) : Z * nat :=
  match m.2 with
  | S (S d) => (m.1, S d)
  | _ => (0, 0%nat)
  end.

Definition sim_sem_get (t s : Z) : list (Z * Z) :=
  if 0 <? s then [(0, s - 1)] else if t =? WAIT then [] else [(1, s)].

Definition sim_put (t : Z) (m : list Z) (q : sim_mq) : list (Z * sim_mq) :=
  if Z.of_nat (length (sim_items q)) <? sim_sz q
  then [(0, SimMq (sim_sz q) (sim_isz q) (sim_items q ++ [m]))]
  else if t =? WAIT then [] else [(1, q)].

Definition sim_get (t : Z) (q : sim_mq) : list (Z * list Z * sim_mq) :=
  match sim_items q with
  | m :: ms => [(0, m, SimMq (sim_sz q) (sim_isz q) ms)]
  | [] => if t =? WAIT then [] else [(1, [], q)]
  end.

Definition sim_fresh (used : gset Z) : Z := 4 * (1 + set_fold Z.max 0 used).

Definition sim_alloc (f : Z) (ty : posix_obj_t) (n : Z) (used : gset Z) : Z :=
  let a := sim_fresh used in
  if a <? UINT_MAX then
    match f, ty with
    | 1, _ => a
    | 3, (POSIX_STACK | POSIX_MQUEUE_BUF) => 0
    | 3, _ => a
    | _, _ => 0
    end
  else 0.

#[local] Instance sim_kernel : Kernel := {|
  mut_t := Z * nat; mut_zero := (0, 0%nat); mut_init := (0, 0%nat); mut_own := fst;
  mut_lock := sim_lock; mut_unlock := sim_unlock;
  sem_t := Z; sem_zero := 0; Kernel.sem_init v := v; sem_val s := s;
  sem_post s := s + 1; sem_post_n n s := s + n; sem_get := sim_sem_get;
  tmr_t := bool * Z; tmr_zero := (false, 0); tmr_init _ := (false, 0);
  tmr_on n now _ := (true, wrapu 32 (now + n)); tmr_of t := (false, t.2);
  tmr_active := fst; tmr_expire := snd;
  task_t := Z; task_zero := 0; task_init p _ _ _ := [(0, p)]; task_pri p _ := p;
  mq_t := sim_mq; mq_zero := SimMq 0 0 [];
  mq_init n b sz := SimMq (Z.quot sz n) n [];
  mq_sz := sim_sz; mq_isz := sim_isz; mq_n q := Z.of_nat (length (sim_items q));
  mq_put := sim_put; mq_get := sim_get;
  ll_t := list Z; ll_zero := []; ll_init := []; ll_elems l := l;
  lle_t := unit; lle_zero := tt; lle_init := tt;
  lle_del p l := filter (fun q => q <> p) l;
  alloc_call := sim_alloc;
  sizeof_obj ty := match ty with POSIX_THREAD => 64 | POSIX_TIMER => 48 | _ => 80 end
|}.

#[local] Instance sim_mut_laws : MutLaws sim_platform sim_kernel.
Proof.
  refine {| mut_held m me := m = (me, 1%nat) |}; simpl; unfold sim_lock, sim_unlock.
  - done.
  - by intros m me ->.
  - intros m me t Hme ->. eauto.
  - intros m me t r m' H0 Hme. test_false (m.1 =? 0). test_false (m.1 =? me). simpl.
    destruct (t =? UINT_MAX); [set_solver|].
    intros [= -> ->]%list_elem_of_singleton. done.
  - intros m me H0 Hme. test_false (m.1 =? 0). by test_false (m.1 =? me).
  - intros m me H0 Hme. test_false (m.1 =? 0). by test_false (m.1 =? me).
  - by intros m me ->.
Defined.

#[local] Instance sim_sem_laws : SemLaws sim_platform sim_kernel.
Proof.
  split; simpl; unfold sim_sem_get.
  - done.
  - done.
  - done.
  - intros s t H. test_true (0 <? s). eauto.
  - intros s t r s' -> . simpl. destruct (t =? UINT_MAX); [set_solver|].
    intros [= -> ->]%list_elem_of_singleton. done.
  - by intros s ->.
  - intros s t -> H. simpl. simpl in H. by test_false (t =? UINT_MAX).
Qed.

#[local] Instance sim_tmr_laws : TmrLaws sim_kernel.
Proof. done. Qed.

#[local] Instance sim_mq_laws : MqLaws sim_kernel.
Proof.
  refine {| mq_items := sim_items |}; simpl; unfold sim_put, sim_get.
  - done.
  - intros q t m H. test_true (Z.of_nat (length (sim_items q)) <? sim_sz q). by eexists.
  - intros q m H. test_false (Z.of_nat (length (sim_items q)) <? sim_sz q). by exists 1.
  - intros q t m ms ->. by eexists.
  - intros q ->. by exists 1, [].
  - done.
Defined.

#[local] Instance sim_mq_wait_laws : MqWaitLaws sim_platform sim_kernel sim_mq_laws.
Proof.
  split; simpl; unfold sim_put, sim_get.
  - intros q m H. by test_false (Z.of_nat (length (sim_items q)) <? sim_sz q).
  - by intros q ->.
Qed.

#[local] Instance sim_mq_busy_laws : MqBusyLaws sim_kernel sim_mq_laws.
Proof.
  split; simpl; unfold sim_put, sim_get.
  - intros q t m r q' H. test_false (Z.of_nat (length (sim_items q)) <? sim_sz q).
    destruct (t =? WAIT); [by intros ?%not_elem_of_nil|].
    intros [= -> ->]%list_elem_of_singleton. done.
  - intros q t r m q' ->. destruct (t =? WAIT); [by intros ?%not_elem_of_nil|].
    intros [= -> -> ->]%list_elem_of_singleton. done.
Qed.

#[local] Instance sim_ll_laws : LlLaws sim_kernel.
Proof. done. Qed.

Lemma sim_fresh_above (used : gset Z) x : x ∈ used -> x < sim_fresh used.
Proof.
  unfold sim_fresh.
  assert (0 <= set_fold Z.max 0 used /\ forall y, y ∈ used -> y <= set_fold Z.max 0 used) as [H0 H].
  { apply (set_fold_ind_L (fun r X => 0 <= r /\ forall y, y ∈ X -> y <= r)); [set_solver by lia|].
    intros y X r Hy [Hr IH]. split; [lia|].
    intros z [->%elem_of_singleton|Hz]%elem_of_union; [lia|]. specialize (IH z Hz). lia. }
  intros Hx. specialize (H x Hx). lia.
Qed.

Lemma sim_fresh_pos (used : gset Z) : 0 < sim_fresh used.
Proof.
  unfold sim_fresh. assert (0 <= set_fold Z.max 0 used); [|lia].
  apply (set_fold_ind_L (fun r _ => 0 <= r)); lia.
Qed.

#[local] Instance sim_alloc_laws : AllocLaws sim_kernel.
Proof.
  split. intros f ty n used H.
  assert (sim_alloc f ty n used = sim_fresh used /\ sim_fresh used < UINT_MAX) as [E Hb].
  { simpl in H. unfold sim_alloc in *. destruct (sim_fresh used <? UINT_MAX) eqn:Hb; [|done].
    split; [|bool_lia]. destruct f as [|[[|[]|]|[]|]|]; try done; by destruct ty. }
  simpl. rewrite E. pose proof (sim_fresh_pos used). repeat split; [|lia..|].
  - intros Hu%sim_fresh_above. lia.
  - unfold sim_fresh. by rewrite Z.mul_comm, Z.mod_mul.
Qed.

(** [Import Sim] makes the instances available to a section of witnesses. *)
Module Sim.
#[export] Existing Instances sim_platform sim_platform_ok sim_kernel sim_mut_laws
  sim_sem_laws sim_tmr_laws sim_mq_laws sim_mq_wait_laws sim_mq_busy_laws
  sim_ll_laws sim_alloc_laws.
End Sim.

(** The world of the witnesses: 1500 ticks after the start, with the memory
    [m], the allocator [1] installed and [0] in every uninitialised local. *)
Definition sim_world (m : gmap Z (@obj sim_kernel)) : @world sim_kernel :=
  @mk_world sim_kernel m ∅ 1500 400 0 1 1 [] (0, 0%nat) 0 [].

(** Two tasks. *)
Definition task_a : caller := mk_caller 11 100.
Definition task_b : caller := mk_caller 22 200.

(** Any number of tasks. *)
Definition sim_who (i : nat) : caller := mk_caller (Z.of_nat i + 1) 0.

Lemma sim_who_task i : task_cur (sim_who i) <> 0.
Proof. simpl. lia. Qed.

Lemma sim_who_inj i j : task_cur (sim_who i) = task_cur (sim_who j) -> i = j.
Proof. simpl. lia. Qed.
