(* ===== verification/Timespec.v ===== *)
(** The time conversions of [src/utils.c]: validation, comparison and
    subtraction of [struct timespec] values, their conversion to kernel ticks
    and the conversion of nanoseconds back.  A pointer parameter is an
    [option], [None] for a null pointer; a function returns [None] when it
    performs a signed overflow, and otherwise its return value with what its
    output parameter points to. *)
From S2P Require Import Prelude Kernel World SimKernel.

Section timespec.
Context `{P : Platform}.

Definition zero_timespec : timespec := mk_timespec 0 0.

(** [validate_timespec]: a valid timespec has [0 <= tv_nsec < 1000000000]. *)
Definition validate_timespec (time_spec : option timespec) : Z :=
  match time_spec with
  | None => 0
  | Some t =>
      if (0 <=? tv_nsec t) && (tv_nsec t <? NANOSECONDS_PER_SECOND) then 1 else 0
  end.

Definition timespec_cmp (x y : option timespec) : Z :=
  match x, y with
  | None, None => 0
  | _, None => 1
  | None, _ => -1
  | Some x, Some y =>
      if tv_sec y <? tv_sec x then 1
      else if tv_sec x <? tv_sec y then -1
      else if tv_nsec y <? tv_nsec x then 1
      else if tv_nsec x <? tv_nsec y then -1
      else 0
  end.

Definition timespec_sub (x y result : option timespec) : option (Z * option timespec) :=
  match result, x, y with
  | Some _, Some x', Some y' =>
      let cmp := timespec_cmp x y in
      if cmp =? -1 then Some (1, result)
      else if cmp =? 0 then Some (0, Some (mk_timespec 0 0))
      else
        sec ← sgn time_bits (tv_sec x' - tv_sec y');
        nsec ← sgn 32 (tv_nsec x' - tv_nsec y');
        '(sec, nsec) ←
          (if nsec <? 0
           then sec ← sgn time_bits (sec - 1);
                nsec ← sgn 32 (nsec + NANOSECONDS_PER_SECOND);
                Some (sec, nsec)
           else Some (sec, nsec));
        Some (if nsec <? 0 then -1 else 0, Some (mk_timespec sec nsec))
  | _, _, _ => Some (-1, result)
  end.

Definition timespec2ticks (time_spec : option timespec) (result : option Z)
  : option (Z * option Z) :=
  match time_spec, result with
  | Some t, Some _ =>
      if validate_timespec time_spec =? 0 then Some (EINVAL, result)
      else
        total ← sgn 64 (tmr_hz * tv_sec t);
        nanos ← sgn 32 (Z.quot (tv_nsec t) NANOSECONDS_PER_TICK
                        + (if Z.rem (tv_nsec t) NANOSECONDS_PER_TICK =? 0 then 0 else 1));
        total ← sgn 64 (total + nanos);
        let ret := if total <? 0 then EINVAL
                   else if UINT_MAX <? total then EINVAL
                   else 0 in
        Some (ret, Some (wrapu 32 total))
  | _, _ => Some (EINVAL, result)
  end.

Definition abs_timespec2ticks (abs_time cur_time : option timespec) (result : option Z)
  : option (Z * option Z) :=
  match abs_time, cur_time, result with
  | Some _, Some _, Some _ =>
      '(r, diff) ← timespec_sub abs_time cur_time (Some zero_timespec);
      let ret := if r =? 1 then ETIMEDOUT else if r =? -1 then EINVAL else r in
      if ret =? 0 then timespec2ticks diff result else Some (ret, result)
  | _, _, _ => Some (EINVAL, result)
  end.

(** [nano2timespec]: the destination is returned; [llSource] is an [int64_t].
    The carry is computed for a negative remainder only. *)
Definition nano2timespec (llSource : Z) : option timespec :=
  let sec := wraps time_bits (Z.quot llSource NANOSECONDS_PER_SECOND) in
  let nsec := wraps 32 (Z.rem llSource NANOSECONDS_PER_SECOND) in
  if nsec <? 0 then
    let carry := Z.quot nsec NANOSECONDS_PER_SECOND + 1 in
    sec ← sgn time_bits (sec - carry);
    nsec ← sgn 32 (nsec + carry * NANOSECONDS_PER_SECOND);
    Some (mk_timespec sec nsec)
  else Some (mk_timespec sec nsec).

(** ** What the conversions are meant to compute *)

Definition valid_timespec (t : timespec) : Prop :=
  0 <= tv_nsec t < NANOSECONDS_PER_SECOND.

(** The instant a timespec denotes, in nanoseconds. *)
Definition nanos (t : timespec) : Z := tv_sec t * NANOSECONDS_PER_SECOND + tv_nsec t.

(** The seconds of a timespec fit in 32 bits: no [int64_t] product overflows. *)
Definition small_timespec (t : timespec) : Prop := - 2 ^ 31 <= tv_sec t < 2 ^ 31.

(** The least integer [q] with [a <= q * b]. *)
Definition ceil_div (a b : Z) : Z := (a + (b - 1)) / b.

Definition tick_count (t : timespec) : Z :=
  tmr_hz * tv_sec t + ceil_div (tv_nsec t) NANOSECONDS_PER_TICK.

(** The result of the conversion of a valid duration of [x] nanoseconds:
    its ticks, [None] where the 64-bit arithmetic overflows. *)
Definition duration_ticks (x : Z) : Z :=
  tmr_hz * (x / NANOSECONDS_PER_SECOND) + ceil_div (x mod NANOSECONDS_PER_SECOND) NANOSECONDS_PER_TICK.

Definition conversion (x : Z) : option (Z * option Z) :=
  if in_s 64 (tmr_hz * (x / NANOSECONDS_PER_SECOND)) && in_s 64 (duration_ticks x)
  then Some (if (0 <=? duration_ticks x) && (duration_ticks x <=? UINT_MAX) then 0 else EINVAL,
             Some (wrapu 32 (duration_ticks x)))
  else None.

(** The tick rate divides the second. *)
Definition exact_rate : Prop := NANOSECONDS_PER_SECOND = NANOSECONDS_PER_TICK * tmr_hz.
End timespec.

(** ** Helper lemmas *)

Section timespec_lemmas.
Context `{P : Platform} `{!PlatformOk P}.

Lemma NPT_range : 1 <= NANOSECONDS_PER_TICK <= NANOSECONDS_PER_SECOND.
Proof.
  unfold NANOSECONDS_PER_TICK, NANOSECONDS_PER_SECOND. pose proof tmr_hz_range.
  split.
  - apply Z.quot_le_lower_bound; lia.
  - apply Z.quot_le_upper_bound; nia.
Qed.

Lemma ceil_div_spec a b : 0 < b -> a <= ceil_div a b * b < a + b.
Proof.
  intros Hb. unfold ceil_div.
  pose proof (Z.div_mod (a + (b - 1)) b ltac:(lia)).
  pose proof (Z.mod_pos_bound (a + (b - 1)) b ltac:(lia)). nia.
Qed.

Lemma ceil_div_unique a b q : 0 < b -> a <= q * b < a + b -> ceil_div a b = q.
Proof. intros Hb H. pose proof (ceil_div_spec a b Hb). nia. Qed.

(** The expression of the code for rounding up. *)
Lemma quot_round_up a b : 0 <= a -> 0 < b ->
  Z.quot a b + (if Z.rem a b =? 0 then 0 else 1) = ceil_div a b.
Proof.
  intros Ha Hb. symmetry. apply ceil_div_unique; [done|].
  rewrite Z.quot_div_nonneg, Z.rem_mod_nonneg by lia.
  pose proof (Z.div_mod a b ltac:(lia)). pose proof (Z.mod_pos_bound a b ltac:(lia)).
  case_if; bool_lia; nia.
Qed.

Lemma ceil_div_range a b c : 0 < b -> 0 <= a <= c -> 0 <= ceil_div a b <= c.
Proof. intros Hb Ha. pose proof (ceil_div_spec a b Hb). nia. Qed.

Lemma validate_valid t : valid_timespec t <-> validate_timespec (Some t) = 1.
Proof.
  unfold valid_timespec. simpl. case_if; split; bool_lia; try done.
Qed.

Lemma validate_cases t : validate_timespec (Some t) = 1 \/ validate_timespec (Some t) = 0.
Proof. simpl. case_if; auto. Qed.

Lemma timespec_cmp_sec x y :
  timespec_cmp (Some x) (Some y) =
  match (tv_sec x ?= tv_sec y)%Z with
  | Lt => -1 | Gt => 1
  | Eq => match (tv_nsec x ?= tv_nsec y)%Z with Lt => -1 | Gt => 1 | Eq => 0 end
  end.
Proof.
  unfold timespec_cmp.
  destruct (Z.compare_spec (tv_sec x) (tv_sec y));
    destruct (Z.compare_spec (tv_nsec x) (tv_nsec y)); case_ifs; bool_lia.
Qed.

Lemma sgn_time z : - 2 ^ 31 <= z < 2 ^ 31 -> sgn time_bits z = Some z.
Proof.
  intros H. apply sgn_in. pose proof time_bits_range.
  assert (2 ^ 31 <= 2 ^ (time_bits - 1)) by (apply pow2_le; lia). lia.
Qed.

Lemma timespec2ticks_eq t r :
  valid_timespec t -> small_timespec t ->
  timespec2ticks (Some t) (Some r) =
  Some (if (0 <=? tick_count t) && (tick_count t <=? UINT_MAX) then 0 else EINVAL,
        Some (wrapu 32 (tick_count t))).
Proof.
  intros Hv Hs. pose proof NPT_range. pose proof tmr_hz_range.
  unfold timespec2ticks. rewrite (proj1 (validate_valid t) Hv). cbn [Z.eqb].
  unfold valid_timespec, small_timespec, NANOSECONDS_PER_SECOND in *.
  assert (0 <= ceil_div (tv_nsec t) NANOSECONDS_PER_TICK <= 1000000000)
    by (apply ceil_div_range; lia).
  assert (- (2 ^ 31 * 1000000000) <= tmr_hz * tv_sec t <= 2 ^ 31 * 1000000000) by nia.
  rewrite (sgn_in 64) by lia. simpl. rewrite quot_round_up by lia.
  rewrite (sgn_in 32) by lia. simpl. rewrite (sgn_in 64) by lia. simpl.
  fold (tick_count t). do 2 f_equal. case_ifs; bool_lia.
Qed.
End timespec_lemmas.

(** ** Properties *)

Section timespec_props.
Context `{P : Platform} `{!PlatformOk P}.

Lemma tick_count_nanos t :
  exact_rate -> tick_count t = ceil_div (nanos t) NANOSECONDS_PER_TICK.
Proof.
  unfold exact_rate. intros Hr. pose proof NPT_range.
  symmetry. apply ceil_div_unique; [lia|]. unfold tick_count, nanos.
  assert (tv_nsec t <= ceil_div (tv_nsec t) NANOSECONDS_PER_TICK * NANOSECONDS_PER_TICK
          < tv_nsec t + NANOSECONDS_PER_TICK) by (apply ceil_div_spec; lia).
  rewrite Hr. nia.
Qed.

Lemma ceil_div_least a b k : 0 < b -> a <= k * b <-> ceil_div a b <= k.
Proof. intros Hb. pose proof (ceil_div_spec a b Hb). split; nia. Qed.

(** The fields of a valid time. *)
Lemma nanos_fields t :
  valid_timespec t -> nanos t / NANOSECONDS_PER_SECOND = tv_sec t /\ nanos t mod NANOSECONDS_PER_SECOND = tv_nsec t.
Proof.
  unfold valid_timespec, nanos, NANOSECONDS_PER_SECOND. intros H. split.
  - symmetry. apply Z.div_unique with (tv_nsec t); lia.
  - symmetry. apply Z.mod_unique with (tv_sec t); lia.
Qed.

Lemma tick_count_duration t : valid_timespec t -> tick_count t = duration_ticks (nanos t).
Proof. intros Hv. unfold tick_count, duration_ticks. by destruct (nanos_fields t Hv) as [-> ->]. Qed.

Lemma timespec2ticks_conversion t r :
  valid_timespec t -> timespec2ticks (Some t) (Some r) = conversion (nanos t).
Proof.
  intros Hv. pose proof NPT_range. unfold timespec2ticks, conversion. rewrite <- tick_count_duration by done.
  destruct (nanos_fields t Hv) as [-> _]. rewrite (proj1 (validate_valid t) Hv). cbn [Z.eqb].
  change (sgn 64 (tmr_hz * tv_sec t)) with (if in_s 64 (tmr_hz * tv_sec t) then Some (tmr_hz * tv_sec t) else None).
  destruct (in_s 64 (tmr_hz * tv_sec t)); cbn [mbind option_bind andb]; [|done].
  unfold valid_timespec, NANOSECONDS_PER_SECOND in *.
  assert (0 <= ceil_div (tv_nsec t) NANOSECONDS_PER_TICK <= 1000000000) by (apply ceil_div_range; lia).
  rewrite quot_round_up, (sgn_in 32) by lia. cbn [mbind option_bind]. fold (tick_count t). unfold sgn.
  destruct (in_s 64 (tick_count t)); cbn [mbind option_bind]; [|done]. do 2 f_equal. case_ifs; bool_lia.
Qed.

Lemma NPS_pos : 0 < NANOSECONDS_PER_SECOND.
Proof. by vm_compute. Qed.

(** The ticks never last shorter than the duration. *)
Lemma duration_ticks_enough x : x * tmr_hz <= duration_ticks x * NANOSECONDS_PER_SECOND.
Proof.
  pose proof NPT_range as Hn. pose proof tmr_hz_range as Hz. pose proof NPS_pos. unfold duration_ticks.
  pose proof (Z.div_mod x NANOSECONDS_PER_SECOND ltac:(lia)) as Hx.
  pose proof (Z.mod_pos_bound x NANOSECONDS_PER_SECOND ltac:(lia)) as Hm.
  destruct (ceil_div_spec (x mod NANOSECONDS_PER_SECOND) NANOSECONDS_PER_TICK) as [Hc _]; [lia|].
  assert (NANOSECONDS_PER_TICK * tmr_hz <= NANOSECONDS_PER_SECOND) as Ht.
  { unfold NANOSECONDS_PER_TICK. rewrite Z.quot_div_nonneg by lia.
    rewrite Z.mul_comm. apply Z.mul_div_le. lia. }
  set (q := x / NANOSECONDS_PER_SECOND) in *. set (m := x mod NANOSECONDS_PER_SECOND) in *.
  set (n := ceil_div m NANOSECONDS_PER_TICK) in *. assert (0 <= n) by nia.
  rewrite Hx. assert (m * tmr_hz <= n * NANOSECONDS_PER_SECOND); [|nia].
  transitivity (n * NANOSECONDS_PER_TICK * tmr_hz); [nia|]. rewrite <- Z.mul_assoc. by apply Z.mul_le_mono_nonneg_l.
Qed.

Lemma duration_ticks_least x k : exact_rate -> x <= k * NANOSECONDS_PER_TICK <-> duration_ticks x <= k.
Proof.
  intros Hr. pose proof NPT_range. pose proof NPS_pos. set (t := mk_timespec (x / NANOSECONDS_PER_SECOND) (x mod NANOSECONDS_PER_SECOND)).
  assert (valid_timespec t) as Hv by (by apply Z.mod_pos_bound).
  assert (nanos t = x) as Ht by (unfold nanos; cbn; pose proof (Z.div_mod x NANOSECONDS_PER_SECOND ltac:(lia)); lia).
  rewrite <- Ht, <- tick_count_duration, tick_count_nanos by done. apply ceil_div_least. lia.
Qed.

Lemma duration_ticks_range x : 0 <= x -> 0 <= duration_ticks x.
Proof.
  intros Hx. pose proof (duration_ticks_enough x). pose proof tmr_hz_range.
  unfold NANOSECONDS_PER_SECOND in *. nia.
Qed.

(** C25: [timespec2ticks] on every duration, whatever its seconds and whatever
    the tick rate: one that is not valid gives [EINVAL] and leaves the result
    alone; otherwise the result is [tmr_hz * tv_sec] plus the nanoseconds
    rounded up to ticks, with [EINVAL] (and the result stored modulo [2^32])
    exactly when this number does not fit in an [unsigned], except that the
    call is undefined exactly when this number or the product does not fit in
    64 bits.  This number of ticks never lasts shorter than the duration,
    and it is the least such number when the rate divides the second. *)
Theorem timespec2ticks_spec t r :
  (~ valid_timespec t -> timespec2ticks (Some t) (Some r) = Some (EINVAL, Some r))
  /\ (valid_timespec t ->
       let n := tmr_hz * tv_sec t + ceil_div (tv_nsec t) NANOSECONDS_PER_TICK in
       timespec2ticks (Some t) (Some r)
       = (if in_s 64 (tmr_hz * tv_sec t) && in_s 64 n
          then Some (if (0 <=? n) && (n <=? UINT_MAX) then 0 else EINVAL, Some (wrapu 32 n)) else None)
       /\ nanos t * tmr_hz <= n * NANOSECONDS_PER_SECOND
       /\ (exact_rate -> forall k, nanos t <= k * NANOSECONDS_PER_TICK <-> n <= k)).
Proof.
  split.
  - intros Hv. unfold timespec2ticks. destruct (validate_cases t) as [H|H]; [by apply validate_valid in H|by rewrite H].
  - intros Hv. cbv zeta. fold (tick_count t). split; [|split].
    + rewrite timespec2ticks_conversion by done. unfold conversion. rewrite <- tick_count_duration by done.
      by destruct (nanos_fields t Hv) as [-> _].
    + rewrite tick_count_duration by done. apply duration_ticks_enough.
    + intros Hr k. rewrite tick_count_duration by done. by apply duration_ticks_least.
Qed.

Lemma timespec_cmp_nanos x y :
  valid_timespec x -> valid_timespec y ->
  timespec_cmp (Some x) (Some y) = Z.sgn (nanos x - nanos y).
Proof.
  unfold valid_timespec, nanos, NANOSECONDS_PER_SECOND. intros Hx Hy.
  unfold timespec_cmp. case_ifs; bool_lia; symmetry;
    solve [apply Z.sgn_pos_iff; nia | apply Z.sgn_neg_iff; nia | apply Z.sgn_null_iff; nia].
Qed.

Lemma timespec_sub_below b x y d :
  b <= 2 ^ (time_bits - 1) ->
  valid_timespec x -> valid_timespec y -> 0 <= tv_sec x < b -> 0 <= tv_sec y < b ->
  if nanos x <? nanos y then timespec_sub (Some x) (Some y) (Some d) = Some (1, Some d)
  else exists z, timespec_sub (Some x) (Some y) (Some d) = Some (0, Some z)
       /\ valid_timespec z /\ nanos z = nanos x - nanos y /\ 0 <= tv_sec z < b.
Proof.
  intros Hb Hx Hy Sx Sy. unfold timespec_sub. rewrite timespec_cmp_nanos by done.
  unfold valid_timespec, nanos, NANOSECONDS_PER_SECOND in *.
  case_if; bool_lia.
  - rewrite Z.sgn_neg by lia. done.
  - destruct (decide (tv_sec x * 1000000000 + tv_nsec x = tv_sec y * 1000000000 + tv_nsec y)) as [He|Hn].
    + rewrite (proj2 (Z.sgn_null_iff _)) by lia. simpl.
      eexists. split; [done|]. simpl. lia.
    + rewrite Z.sgn_pos by lia. simpl.
      rewrite (sgn_in time_bits) by lia. simpl. rewrite (sgn_in 32) by lia. simpl.
      destruct (tv_nsec x - tv_nsec y <? 0) eqn:B; bool_lia.
      * rewrite (sgn_in time_bits) by lia. simpl. rewrite (sgn_in 32) by lia. simpl.
        test_false (tv_nsec x - tv_nsec y + 1000000000 <? 0).
        eexists. split; [done|]. simpl. lia.
      * simpl. test_false (tv_nsec x - tv_nsec y <? 0).
        eexists. split; [done|]. simpl. lia.
Qed.

Lemma timespec_sub_eq x y d :
  valid_timespec x -> valid_timespec y -> 0 <= tv_sec x < 2 ^ 31 -> 0 <= tv_sec y < 2 ^ 31 ->
  if nanos x <? nanos y then timespec_sub (Some x) (Some y) (Some d) = Some (1, Some d)
  else exists z, timespec_sub (Some x) (Some y) (Some d) = Some (0, Some z)
       /\ valid_timespec z /\ nanos z = nanos x - nanos y /\ 0 <= tv_sec z < 2 ^ 31.
Proof. apply timespec_sub_below. pose proof time_bits_range. apply pow2_le; lia. Qed.

(** [timespec_cmp] orders valid times by the instants they denote. *)
Theorem timespec_cmp_order x y :
  valid_timespec x -> valid_timespec y ->
  timespec_cmp (Some x) (Some y) = Z.sgn (nanos x - nanos y).
Proof. apply timespec_cmp_nanos. Qed.

Lemma abs_timespec2ticks_eq a c r :
  exact_rate -> valid_timespec a -> valid_timespec c ->
  0 <= tv_sec a < 2 ^ 31 -> 0 <= tv_sec c < 2 ^ 31 ->
  abs_timespec2ticks (Some a) (Some c) (Some r) =
  if nanos a <? nanos c then Some (ETIMEDOUT, Some r)
  else let n := ceil_div (nanos a - nanos c) NANOSECONDS_PER_TICK in
       Some (if n <=? UINT_MAX then 0 else EINVAL, Some (wrapu 32 n)).
Proof.
  intros Hr Ha Hc Sa Sc. unfold abs_timespec2ticks.
  pose proof (timespec_sub_eq a c zero_timespec Ha Hc Sa Sc) as Hsub.
  destruct (nanos a <? nanos c) eqn:E.
  - by rewrite Hsub.
  - destruct Hsub as (z & -> & Hz & Hn & Hs). cbn [mbind option_bind Z.eqb].
    rewrite timespec2ticks_eq by (done || (split; lia)).
    rewrite tick_count_nanos, Hn by done. pose proof NPT_range. bool_lia.
    assert (0 <= ceil_div (nanos a - nanos c) NANOSECONDS_PER_TICK)
      by (apply Z.div_pos; lia).
    by test_true (0 <=? ceil_div (nanos a - nanos c) NANOSECONDS_PER_TICK).
Qed.

(** C24: [abs_timespec2ticks] on all valid times from the epoch on, whatever
    the tick rate and the width of [time_t]: a time in the past is reported
    as [ETIMEDOUT] with the result untouched; otherwise the result is the
    distance to now in ticks, that is [tmr_hz] times its seconds plus its
    nanoseconds rounded up to ticks, and [EINVAL] is returned exactly when it
    does not fit in an [unsigned], except that the call is undefined exactly
    when the ticks do not fit in 64 bits.  The ticks never last shorter than
    the distance, and they are the least such number when the rate divides
    the second. *)
Theorem abs_timespec2ticks_spec a c r :
  valid_timespec a -> valid_timespec c ->
  0 <= tv_sec a < 2 ^ (time_bits - 1) -> 0 <= tv_sec c < 2 ^ (time_bits - 1) ->
  if nanos a <? nanos c then abs_timespec2ticks (Some a) (Some c) (Some r) = Some (ETIMEDOUT, Some r)
  else
    let x := nanos a - nanos c in
    let s := tmr_hz * (x / NANOSECONDS_PER_SECOND) in
    let n := s + ceil_div (x mod NANOSECONDS_PER_SECOND) NANOSECONDS_PER_TICK in
    abs_timespec2ticks (Some a) (Some c) (Some r)
    = (if in_s 64 s && in_s 64 n then Some (if n <=? UINT_MAX then 0 else EINVAL, Some (wrapu 32 n)) else None)
    /\ x * tmr_hz <= n * NANOSECONDS_PER_SECOND
    /\ (exact_rate -> forall k, x <= k * NANOSECONDS_PER_TICK <-> n <= k).
Proof.
  intros Ha Hc Sa Sc. unfold abs_timespec2ticks.
  pose proof (timespec_sub_below _ a c zero_timespec (Z.le_refl _) Ha Hc Sa Sc) as Hsub.
  destruct (nanos a <? nanos c) eqn:E; [by rewrite Hsub|].
  destruct Hsub as (z & -> & Hz & Hn & _). cbn [mbind option_bind Z.eqb]. cbv zeta.
  fold (duration_ticks (nanos a - nanos c)). split; [|split; [apply duration_ticks_enough|intros Hr k; by apply duration_ticks_least]].
  rewrite timespec2ticks_conversion, Hn by done. unfold conversion.
  assert (0 <= duration_ticks (nanos a - nanos c)) as Hr by (apply duration_ticks_range; bool_lia).
  by test_true (0 <=? duration_ticks (nanos a - nanos c)).
Qed.

Lemma nano2timespec_eq n :
  - 2 ^ 31 * NANOSECONDS_PER_SECOND < n < 2 ^ 31 * NANOSECONDS_PER_SECOND ->
  nano2timespec n = Some (mk_timespec (n / NANOSECONDS_PER_SECOND) (n mod NANOSECONDS_PER_SECOND)).
Proof.
  unfold NANOSECONDS_PER_SECOND. intros Hn. unfold nano2timespec, NANOSECONDS_PER_SECOND.
  pose proof time_bits_range.
  assert (2 ^ 31 <= 2 ^ (time_bits - 1)) by (apply pow2_le; lia).
  pose proof (Z.quot_rem' n 1000000000) as Hq.
  pose proof (Z.rem_bound_abs n 1000000000 ltac:(lia)) as Hb.
  assert (- 2 ^ 31 < Z.quot n 1000000000 < 2 ^ 31).
  { destruct (Z.le_ge_cases 0 n).
    - pose proof (Z.rem_nonneg n 1000000000 ltac:(lia) ltac:(lia)). lia.
    - pose proof (Z.rem_nonpos n 1000000000 ltac:(lia) ltac:(lia)). lia. }
  rewrite wraps_small by lia. rewrite wraps_small by lia.
  destruct (Z.rem n 1000000000 <? 0) eqn:E; bool_lia.
  - assert (Z.quot (Z.rem n 1000000000) 1000000000 = 0) as -> by (apply Z.quot_small_iff; lia).
    simpl. rewrite (sgn_in 32), sgn_in by lia. simpl.
    do 2 f_equal.
    + apply Z.div_unique with (Z.rem n 1000000000 + 1000000000); lia.
    + apply Z.mod_unique with (Z.quot n 1000000000 - 1); lia.
  - do 2 f_equal.
    + apply Z.div_unique with (Z.rem n 1000000000); lia.
    + apply Z.mod_unique with (Z.quot n 1000000000); lia.
Qed.

(** [nano2timespec] returns the valid timespec that denotes exactly the
    given number of nanoseconds, negative values included. *)
Theorem nano2timespec_exact n :
  - 2 ^ 31 * NANOSECONDS_PER_SECOND < n < 2 ^ 31 * NANOSECONDS_PER_SECOND ->
  exists t, nano2timespec n = Some t /\ valid_timespec t /\ nanos t = n.
Proof.
  intros Hn. eexists. split; [by apply nano2timespec_eq|].
  unfold valid_timespec, nanos. simpl. unfold NANOSECONDS_PER_SECOND. split.
  - apply Z.mod_pos_bound. lia.
  - pose proof (Z.div_mod n 1000000000 ltac:(lia)). lia.
Qed.
End timespec_props.

Section timespec_overflow.
Context `{P : Platform} `{!PlatformOk P}.

(** The overflow check of [timespec2ticks] looks at the sign of the
    product after it was computed: when [tmr_hz * tv_sec] exceeds the range
    of [int64_t], the call performs a signed overflow, which is undefined,
    instead of returning [EINVAL]. *)
Theorem timespec2ticks_overflow_undefined t r :
  valid_timespec t -> 2 ^ 63 <= tmr_hz * tv_sec t ->
  timespec2ticks (Some t) (Some r) = None.
Proof.
  intros Hv Ho. unfold timespec2ticks. rewrite (proj1 (validate_valid t) Hv). simpl.
  unfold sgn. destruct (in_s 64 (tmr_hz * tv_sec t)) eqn:E; [|done].
  apply in_s_spec in E. lia.
Qed.
End timespec_overflow.

(** ** Witnesses, at 1000 ticks per second *)

Section timespec_witnesses.
Import Sim.

Lemma sim_exact_rate : exact_rate.
Proof. reflexivity. Qed.

Lemma timespec2ticks_spec_witness :
  timespec2ticks (Some (mk_timespec 0 (-1))) (Some 7) = Some (EINVAL, Some 7)
  /\ timespec2ticks (Some (mk_timespec 2 1500001)) (Some 7) = Some (0, Some 2002)
  /\ (forall k, 2001500001 <= k * NANOSECONDS_PER_TICK <-> 2002 <= k).
Proof.
  destruct (timespec2ticks_spec (mk_timespec 0 (-1)) 7) as [H _].
  destruct (timespec2ticks_spec (mk_timespec 2 1500001) 7) as [_ H']. split; [|].
  - apply H. vm_compute. intuition congruence.
  - destruct H' as (H1 & _ & H2); [split; vm_compute; congruence|]. split; [exact H1|exact (H2 sim_exact_rate)].
Defined.

Lemma timespec_cmp_order_witness :
  timespec_cmp (Some (mk_timespec 3 7)) (Some (mk_timespec 3 9))
  = Z.sgn (nanos (mk_timespec 3 7) - nanos (mk_timespec 3 9)).
Proof. apply timespec_cmp_order; split; vm_compute; congruence. Defined.

Lemma abs_timespec2ticks_spec_witness :
  abs_timespec2ticks (Some (mk_timespec 5 1)) (Some (mk_timespec 4 999000000)) (Some 0) = Some (0, Some 2)
  /\ (forall k, 1000001 <= k * NANOSECONDS_PER_TICK <-> 2 <= k).
Proof.
  destruct (abs_timespec2ticks_spec (mk_timespec 5 1) (mk_timespec 4 999000000) 0) as (H & _ & Hk).
  - split; vm_compute; congruence.
  - split; vm_compute; congruence.
  - split; vm_compute; congruence.
  - split; vm_compute; congruence.
  - split; [exact H|exact (Hk sim_exact_rate)].
Defined.

Lemma nano2timespec_exact_witness :
  exists t, nano2timespec (-1) = Some t /\ valid_timespec t /\ nanos t = -1.
Proof. apply nano2timespec_exact. unfold NANOSECONDS_PER_SECOND. lia. Defined.

Lemma timespec2ticks_overflow_undefined_witness :
  timespec2ticks (Some (mk_timespec (2 ^ 54) 0)) (Some 0) = None.
Proof.
  apply timespec2ticks_overflow_undefined.
  - split; vm_compute; congruence.
  - vm_compute. congruence.
Defined.
End timespec_witnesses.
