(* ===== verification/Clock.v ===== *)
(** The clock and the sleeping functions: [src/posix_clock.c],
    [src/posix_unistd.c] and [sched_yield] of [src/posix_sched.c].  The
    kernel's tick counter is read from the world; a call of [task_sleep] is
    recorded as an effect. *)
From stdpp Require Import pretty.
From S2P Require Import Prelude Prog Kernel World SimKernel Timespec.

Definition CLOCK_REALTIME : Z := 0.
Definition TIMER_ABSTIME : Z := 1.

Section clock.
Context `{P : Platform} `{K : Kernel}.

(** [clock_t] is an [unsigned long] of 32 bits. *)
Definition clock : prog world Z :=
  let* now := get tmr_ticks in
  let* sum := get idle_sum in
  Ret (wrapu 32 (now - sum)).

Definition clock_getcpuclockid (c : caller) : prog world Z :=
  set_errno c EPERM ;; Ret (-1).

Definition clock_getres (clock_id : Z) (res : option timespec) : Z * option timespec :=
  match res with
  | Some _ => (0, Some (mk_timespec 0 NANOSECONDS_PER_TICK))
  | None => (0, None)
  end.

Definition clock_gettime (clock_id : Z) (tp : option timespec)
  : prog world (Z * option timespec) :=
  match tp with
  | None => Ret (-1, None)
  | Some _ =>
      let* ticks := get tmr_ticks in
      let* ns := lift (sgn 64 (ticks * NANOSECONDS_PER_TICK)) in
      let* t := lift (nano2timespec ns) in
      Ret (0, Some t)
  end.

(** The target of a sleeping call. *)
Definition task_sleep (ticks : Z) : prog world unit := emit (ESleep ticks).

Definition clock_nanosleep (clock_id flags : Z) (rqtp : option timespec) : prog world Z :=
  let ret := if validate_timespec rqtp =? 0 then EINVAL else 0 in
  let* (ret, cur) :=
    if ret =? 0 then
      let* (r, cur) := clock_gettime CLOCK_REALTIME (Some zero_timespec) in
      Ret (if negb (r =? 0) then EINVAL else ret, cur)
    else Ret (ret, Some zero_timespec) in
  if ret =? 0 then
    if Z.land flags TIMER_ABSTIME =? TIMER_ABSTIME then
      let* (r, cur) := clock_gettime CLOCK_REALTIME cur in
      let ret := if r =? 0 then EINVAL else ret in
      if ret =? 0 then
        let* (r, sleep) := lift (abs_timespec2ticks rqtp cur (Some 0)) in
        if r =? 0 then task_sleep (default 0 sleep) ;; Ret ret else Ret ret
      else Ret ret
    else
      let* (r, sleep) := lift (timespec2ticks rqtp (Some 0)) in
      if r =? 0 then task_sleep (default 0 sleep) ;; Ret ret else Ret ret
  else Ret ret.

Definition clock_settime (c : caller) (clock_id : Z) : prog world Z :=
  set_errno c EPERM ;; Ret (-1).

Definition nanosleep (c : caller) (rqtp : option timespec) : prog world Z :=
  let* ret :=
    if validate_timespec rqtp =? 0 then set_errno c EINVAL ;; Ret (-1) else Ret 0 in
  if ret =? 0 then
    let* (r, sleep) := lift (timespec2ticks rqtp (Some 0)) in
    if r =? 0 then task_sleep (default 0 sleep) ;; Ret ret else Ret ret
  else Ret ret.

(** [strftime] prints the tick field with [snprintf]: the result is the
    return value and the text in the buffer, [None] when nothing was
    written. *)
Definition strftime (maxsize tm_tick : Z) : Z * option string :=
  let text := pretty (wraps 32 tm_tick) in
  let ret := Z.of_nat (String.length text) in
  let n := if (0 <? ret) && (ret <? maxsize) then ret else 0 in
  (n, if maxsize =? 0 then None
      else Some (String.substring 0 (Z.to_nat (maxsize - 1)) text)).

Definition time (tloc : option Z) : prog world (Z * option Z) :=
  let* ticks := get tmr_ticks in
  let now := wraps time_bits (Z.quot ticks tmr_hz) in
  Ret (now, match tloc with Some _ => Some now | None => None end).

(** [src/posix_unistd.c]: [unsigned] and [useconds_t] have 32 bits. *)
Definition sleep (seconds : Z) : prog world Z :=
  task_sleep (wrapu 32 (seconds * tmr_hz)) ;; Ret 0.

Definition usleep (usec : Z) : prog world Z :=
  let ticks := Z.quot (wrapu 32 (usec * tmr_hz)) 1000000 in
  task_sleep ticks ;; Ret 0.

Definition sched_yield : prog world Z := emit EYield ;; Ret 0.
End clock.

(** ** Lemmas *)

Section clock_lemmas.
Context `{P : Platform} `{!PlatformOk P} `{K : Kernel}.
Implicit Types w : world.

(** The clock of [w] is before the end of a 32-bit count of seconds. *)
Definition clock_ok (w : world) : Prop :=
  0 <= tmr_ticks w /\ tmr_ticks w * NANOSECONDS_PER_TICK < 2 ^ 31 * NANOSECONDS_PER_SECOND.

(** The time [clock_gettime] reports. *)
Definition now_timespec (w : world) : timespec :=
  mk_timespec (tmr_ticks w * NANOSECONDS_PER_TICK / NANOSECONDS_PER_SECOND)
              (tmr_ticks w * NANOSECONDS_PER_TICK mod NANOSECONDS_PER_SECOND).

Lemma now_valid w : valid_timespec (now_timespec w).
Proof. apply Z.mod_pos_bound. unfold NANOSECONDS_PER_SECOND. lia. Qed.

Lemma now_nanos w : nanos (now_timespec w) = tmr_ticks w * NANOSECONDS_PER_TICK.
Proof.
  unfold nanos, now_timespec, NANOSECONDS_PER_SECOND. simpl.
  pose proof (Z.div_mod (tmr_ticks w * NANOSECONDS_PER_TICK) 1000000000 ltac:(lia)). lia.
Qed.

Lemma now_sec w : clock_ok w -> 0 <= tv_sec (now_timespec w) < 2 ^ 31.
Proof.
  intros [H0 H1]. pose proof NPT_range. unfold NANOSECONDS_PER_SECOND in *. simpl. split.
  - apply Z.div_pos; [nia|done].
  - apply Z.div_lt_upper_bound; unfold NANOSECONDS_PER_SECOND; lia.
Qed.

Lemma run_gettime {R} w id t (k : _ -> prog world R) :
  clock_ok w ->
  run (bind (clock_gettime id (Some t)) k) w = run (k (0, Some (now_timespec w))) w.
Proof.
  intros [H0 H1]. pose proof NPT_range. unfold NANOSECONDS_PER_SECOND in *.
  apply run_call. unfold clock_gettime. rewrite run_get.
  rewrite sgn_in by (change (64 - 1) with 63; nia). cbn [lift bind].
  rewrite nano2timespec_eq by (unfold NANOSECONDS_PER_SECOND; nia). done.
Qed.

(** ** Time that passes while tasks run

    Between two actions of a pool, the clock may move on. *)
Inductive clocked_step {R} : pool world R -> pool world R -> Prop :=
| ClockedAct c c' : pool_step c c' -> clocked_step c c'
| ClockedTick ts w n :
    tmr_ticks w <= n -> clock_ok (with_ticks n w) -> clocked_step (ts, w) (ts, with_ticks n w).

(** The judgement of the interleaved programs is sound while time passes. *)
Lemma typed_clocked {R} (I : world -> Prop) F (Q : R -> Prop) ts w c :
  (forall n v, I v -> I (with_ticks n v)) -> Forall (typed I F Q) ts -> I w ->
  reach clocked_step (ts, w) c ->
  I c.2 /\ Forall (typed I F Q) c.1.
Proof.
  intros Ht Hts Hw. apply (reach_inv clocked_step (fun c => I c.2 /\ Forall (typed I F Q) c.1)); [done|].
  intros x y [H1 H2] Hs. destruct Hs as [x y Hs|us v n _ _]; [|by split; [apply Ht|]].
  destruct Hs as [us v i p p' v' Hi Hp]. cbn [fst snd] in *.
  destruct (typed_step I F Q p p' v v') as [Hp' Hv]; [by eapply Forall_lookup_1|done..|].
  split; [done|by apply Forall_insert].
Qed.

Lemma clocked_reach {R} (c d : pool world R) : reach pool_step c d -> reach clocked_step c d.
Proof. intros H. induction H as [|y z _ IH Hs]; [constructor|]. eapply ReachStep; [exact IH|by constructor]. Qed.
End clock_lemmas.

(** Outside the clock's own theorems the call is used through
    [run_gettime]. *)
#[export] Hint Resolve now_valid now_sec : world.

(** ** Properties *)

Section clock_props.
Context `{P : Platform} `{!PlatformOk P} `{K : Kernel}.
Implicit Types w : world.

(** [clock_gettime] with a non-null argument stores the valid timespec
    that denotes exactly the tick counter times the tick period, and changes
    nothing else. *)
Theorem clock_gettime_exact w id t :
  clock_ok w ->
  exists now, run (clock_gettime id (Some t)) w = [Done (0, Some now) w]
    /\ valid_timespec now /\ nanos now = tmr_ticks w * NANOSECONDS_PER_TICK.
Proof.
  intros Hw. exists (now_timespec w).
  split; [|split; [apply now_valid | apply now_nanos]].
  unfold clock_gettime. rewrite run_get. destruct Hw as [H0 H1]. pose proof NPT_range. unfold NANOSECONDS_PER_SECOND in *.
  rewrite sgn_in by (change (64 - 1) with 63; nia). cbn [lift bind].
  rewrite nano2timespec_eq by (unfold NANOSECONDS_PER_SECOND; nia). done.
Qed.

(** The conversion both relative sleeps perform on a valid request. *)
Lemma timespec2ticks_valid t r :
  exact_rate -> valid_timespec t -> 0 <= tv_sec t < 2 ^ 31 ->
  timespec2ticks (Some t) (Some r)
  = let n := ceil_div (nanos t) NANOSECONDS_PER_TICK in
    Some (if n <=? UINT_MAX then 0 else EINVAL, Some (wrapu 32 n)).
Proof.
  intros Hr Hv Hs. pose proof NPT_range.
  rewrite timespec2ticks_eq by (done || (split; lia)).
  rewrite tick_count_nanos by done.
  assert (0 <= ceil_div (nanos t) NANOSECONDS_PER_TICK).
  { apply Z.div_pos; [|lia]. unfold nanos, valid_timespec, NANOSECONDS_PER_SECOND in *. lia. }
  by test_true (0 <=? ceil_div (nanos t) NANOSECONDS_PER_TICK).
Qed.

Lemma run_ticks {R} t r w (k : _ -> prog world R) :
  exact_rate -> valid_timespec t -> 0 <= tv_sec t < 2 ^ 31 ->
  run (bind (lift (timespec2ticks (Some t) (Some r))) k) w =
  let n := ceil_div (nanos t) NANOSECONDS_PER_TICK in
  run (k (if n <=? UINT_MAX then 0 else EINVAL, Some (wrapu 32 n))) w.
Proof. intros Hr Hv Hs. by rewrite timespec2ticks_valid. Qed.

(** [nanosleep] rejects an invalid request with [EINVAL] and without
    sleeping; a valid request returns 0, after sleeping the duration rounded
    up to ticks when this fits in an [unsigned], and without sleeping
    otherwise. *)
Theorem nanosleep_spec c w t :
  exact_rate -> 0 <= tv_sec t < 2 ^ 31 ->
  run (nanosleep c (Some t)) w =
  if validate_timespec (Some t) =? 0 then [Done (-1) (with_errno (task_cur c) EINVAL w)]
  else let n := ceil_div (nanos t) NANOSECONDS_PER_TICK in
       [Done 0 (if n <=? UINT_MAX then with_effect (ESleep n) w else w)].
Proof.
  intros Hr Hs. unfold nanosleep.
  destruct (validate_cases t) as [Hv|Hv]; rewrite Hv; cbn [Z.eqb].
  - apply validate_valid in Hv. cbn [bind Z.eqb]. rewrite run_ticks by done.
    cbv zeta. destruct (_ <=? UINT_MAX) eqn:E; [|done].
    assert (0 <= ceil_div (nanos t) NANOSECONDS_PER_TICK).
    { pose proof NPT_range. apply Z.div_pos; [|lia].
      unfold nanos, valid_timespec, NANOSECONDS_PER_SECOND in *. lia. }
    cbn [Z.eqb default]. unfold task_sleep. rewrite run_emit. simpl.
    rewrite wrapu_small; [done|]. bool_lia. unfold UINT_MAX in *. lia.
  - done.
Qed.

(** With [TIMER_ABSTIME], [clock_nanosleep] returns [EINVAL] and never
    sleeps, whatever the requested time: the test of the second
    [clock_gettime] is inverted. *)
Theorem clock_nanosleep_abs_fails w id flags t :
  clock_ok w -> Z.land flags TIMER_ABSTIME = TIMER_ABSTIME ->
  run (clock_nanosleep id flags t) w = [Done EINVAL w].
Proof.
  intros Hw Hf. unfold clock_nanosleep.
  destruct (validate_timespec t =? 0) eqn:E; cbn [Z.eqb].
  - done.
  - assert (forall k : Z * option timespec -> prog world Z,
      run (bind (let* (r, cur) := clock_gettime CLOCK_REALTIME (Some zero_timespec) in
                 Ret (if negb (r =? 0) then EINVAL else 0, cur)) k) w
      = run (k (0, Some (now_timespec w))) w) as H.
    { intros k. apply run_call. rewrite run_gettime by done. done. }
    rewrite H. cbn [Z.eqb]. rewrite Hf, Z.eqb_refl.
    by rewrite run_gettime.
Qed.

(** Without [TIMER_ABSTIME], [clock_nanosleep] sleeps like [nanosleep]
    and reports an invalid request by its return value. *)
Theorem clock_nanosleep_relative w id flags t :
  exact_rate -> clock_ok w -> Z.land flags TIMER_ABSTIME <> TIMER_ABSTIME ->
  0 <= tv_sec t < 2 ^ 31 ->
  run (clock_nanosleep id flags (Some t)) w =
  if validate_timespec (Some t) =? 0 then [Done EINVAL w]
  else let n := ceil_div (nanos t) NANOSECONDS_PER_TICK in
       [Done 0 (if n <=? UINT_MAX then with_effect (ESleep (wrapu 32 n)) w else w)].
Proof.
  intros Hr Hw Hf Hs. unfold clock_nanosleep.
  destruct (validate_cases t) as [Hv|Hv]; rewrite Hv; cbn [Z.eqb].
  - apply validate_valid in Hv.
    assert (forall k : Z * option timespec -> prog world Z,
      run (bind (let* (r, cur) := clock_gettime CLOCK_REALTIME (Some zero_timespec) in
                 Ret (if negb (r =? 0) then EINVAL else 0, cur)) k) w
      = run (k (0, Some (now_timespec w))) w) as H.
    { intros k. apply run_call. rewrite run_gettime by done. done. }
    rewrite H. cbn [Z.eqb]. apply Z.eqb_neq in Hf. rewrite Hf.
    rewrite run_ticks by done. cbv zeta. by destruct (_ <=? UINT_MAX).
  - done.
Qed.

(** C26: Where the ticks of the kernel divide the second exactly, and the clock
    at the deadline is below 2^31 seconds: a deadline that [clock_gettime] would
    report [d] ticks from now is converted back to exactly [d] ticks, so the
    absolute waits of the library wait for the right time. *)
Theorem deadline_roundtrip w d t r :
  exact_rate -> clock_ok w -> 0 <= d <= UINT_MAX ->
  (tmr_ticks w + d) * NANOSECONDS_PER_TICK < 2 ^ 31 * NANOSECONDS_PER_SECOND ->
  nano2timespec ((tmr_ticks w + d) * NANOSECONDS_PER_TICK) = Some t ->
  abs_timespec2ticks (Some t) (Some (now_timespec w)) (Some r) = Some (0, Some d).
Proof.
  intros Hr Hw Hd Hb Ht. pose proof NPT_range. pose proof (now_valid w). pose proof (now_sec w Hw).
  destruct Hw as [Htk _].
  rewrite nano2timespec_eq in Ht by (unfold NANOSECONDS_PER_SECOND in *; nia). simplify_eq.
  set (ns := (tmr_ticks w + d) * NANOSECONDS_PER_TICK) in *.
  pose proof (Z.div_mod ns 1000000000 ltac:(lia)) as Hdm.
  pose proof (Z.mod_pos_bound ns 1000000000 ltac:(lia)) as Hm.
  assert (0 <= ns) by (unfold ns; nia).
  assert (nanos (mk_timespec (ns / NANOSECONDS_PER_SECOND) (ns mod NANOSECONDS_PER_SECOND)) = ns) as Hn.
  { unfold nanos, NANOSECONDS_PER_SECOND. simpl. lia. }
  rewrite abs_timespec2ticks_eq; [|done|by unfold valid_timespec, NANOSECONDS_PER_SECOND|done| |done].
  - rewrite Hn, now_nanos. test_false (ns <? tmr_ticks w * NANOSECONDS_PER_TICK).
    replace (ns - tmr_ticks w * NANOSECONDS_PER_TICK) with (d * NANOSECONDS_PER_TICK) by (unfold ns; lia).
    rewrite (ceil_div_unique (d * NANOSECONDS_PER_TICK) NANOSECONDS_PER_TICK d) by lia.
    cbv zeta. test_true (d <=? UINT_MAX). rewrite wrapu_small; [done|]. unfold UINT_MAX in *. lia.
  - unfold NANOSECONDS_PER_SECOND in *. simpl. split; [apply Z.div_pos; lia|].
    apply Z.div_lt_upper_bound; lia.
Qed.

(** [usleep] multiplies in 32 bits: it never sleeps longer than asked
    (in ticks, rounded down), and when [usec * tmr_hz] reaches [2^32] plus a
    tick it sleeps strictly less than asked. *)
Theorem usleep_spec w usec :
  0 <= usec < 2 ^ 32 ->
  exists n, run (usleep usec) w = [Done 0 (with_effect (ESleep n) w)]
    /\ n <= Z.quot (usec * tmr_hz) 1000000
    /\ (usec * tmr_hz < 2 ^ 32 -> n = Z.quot (usec * tmr_hz) 1000000)
    /\ (2 ^ 32 + 1000000 <= usec * tmr_hz -> n < Z.quot (usec * tmr_hz) 1000000).
Proof.
  intros Hu. pose proof tmr_hz_range. eexists. split; [done|].
  assert (0 <= usec * tmr_hz) by nia.
  pose proof (wrapu_range 32 (usec * tmr_hz) ltac:(lia)) as Hw.
  assert (wrapu 32 (usec * tmr_hz) <= usec * tmr_hz) as Hle by (apply Z.mod_le; lia).
  rewrite !Z.quot_div_nonneg by lia. split; [|split].
  - apply Z.div_le_mono; lia.
  - intros Hs. by rewrite wrapu_small by lia.
  - intros Hs. apply Z.div_lt_upper_bound; [lia|].
    pose proof (Z.div_mod (usec * tmr_hz) 1000000 ltac:(lia)).
    pose proof (Z.mod_pos_bound (usec * tmr_hz) 1000000 ltac:(lia)). lia.
Qed.

(** [strftime] returns 0, or the length of the complete text, which then
    is in the buffer with room for its terminator. *)
Theorem strftime_complete maxsize tick :
  0 <= maxsize ->
  (strftime maxsize tick).1 = 0 \/
  ((strftime maxsize tick).2 = Some (pretty (wraps 32 tick))
   /\ (strftime maxsize tick).1 = Z.of_nat (String.length (pretty (wraps 32 tick)))
   /\ (strftime maxsize tick).1 < maxsize).
Proof.
  intros Hm. unfold strftime. set (text := pretty (wraps 32 tick)). cbn [fst snd].
  case_if; [|by left]. right. bool_lia. test_false (maxsize =? 0).
  split; [|done]. f_equal.
  assert (String.length text <= Z.to_nat (maxsize - 1))%nat as Hl by lia.
  revert Hl. generalize (Z.to_nat (maxsize - 1)). clear.
  induction text as [|a s IH]; intros [|n] Hl; simpl in *; try done; [lia|].
  f_equal. apply IH. lia.
Qed.
End clock_props.

(** ** Witnesses *)

Section clock_witnesses.
Import Sim.

Lemma sim_clock_ok m : clock_ok (sim_world m).
Proof. split; vm_compute; congruence. Qed.

Lemma clock_gettime_exact_witness :
  exists now, run (clock_gettime 0 (Some zero_timespec)) (sim_world ∅) = [Done (0, Some now) (sim_world ∅)]
    /\ valid_timespec now /\ nanos now = 1500 * NANOSECONDS_PER_TICK.
Proof. apply (clock_gettime_exact (sim_world ∅) 0 zero_timespec). apply sim_clock_ok. Defined.

Lemma nanosleep_spec_witness :
  run (nanosleep task_a (Some (mk_timespec 1 1))) (sim_world ∅)
  = [Done 0 (with_effect (ESleep 1001) (sim_world ∅))].
Proof.
  rewrite nanosleep_spec.
  - reflexivity.
  - apply sim_exact_rate.
  - simpl. lia.
Defined.

Lemma clock_nanosleep_abs_fails_witness :
  run (clock_nanosleep 0 1 (Some (mk_timespec 9 0))) (sim_world ∅) = [Done EINVAL (sim_world ∅)].
Proof. apply clock_nanosleep_abs_fails; [apply sim_clock_ok | reflexivity]. Defined.

Lemma clock_nanosleep_relative_witness :
  run (clock_nanosleep 0 0 (Some (mk_timespec 9 0))) (sim_world ∅)
  = [Done 0 (with_effect (ESleep 9000) (sim_world ∅))].
Proof.
  rewrite clock_nanosleep_relative.
  - reflexivity.
  - apply sim_exact_rate.
  - apply sim_clock_ok.
  - vm_compute. congruence.
  - simpl. lia.
Defined.

Lemma deadline_roundtrip_witness :
  abs_timespec2ticks (Some (mk_timespec 2 200000000)) (Some (now_timespec (sim_world ∅))) (Some 0)
  = Some (0, Some 700).
Proof.
  apply deadline_roundtrip.
  - apply sim_exact_rate.
  - apply sim_clock_ok.
  - vm_compute. intuition congruence.
  - vm_compute. reflexivity.
  - reflexivity.
Defined.

Lemma usleep_spec_witness :
  exists n, run (usleep 5000000) (sim_world ∅) = [Done 0 (with_effect (ESleep n) (sim_world ∅))]
    /\ n <= Z.quot (5000000 * tmr_hz) 1000000
    /\ (5000000 * tmr_hz < 2 ^ 32 -> n = Z.quot (5000000 * tmr_hz) 1000000)
    /\ (2 ^ 32 + 1000000 <= 5000000 * tmr_hz -> n < Z.quot (5000000 * tmr_hz) 1000000).
Proof. apply (usleep_spec (sim_world ∅) 5000000). lia. Defined.

Lemma strftime_complete_witness :
  (strftime 8 1500).1 = 0 \/
  ((strftime 8 1500).2 = Some (pretty (wraps 32 1500))
   /\ (strftime 8 1500).1 = Z.of_nat (String.length (pretty (wraps 32 1500)))
   /\ (strftime 8 1500).1 < 8).
Proof. apply (strftime_complete 8 1500). lia. Defined.
End clock_witnesses.
