(* ===== verification/Errno.v ===== *)
(** Tracking [errno].  A judgement for a call follows the value that the call
    has stored in the [errno] of its task, and that it leaves those of the
    other tasks alone; in a pool whose calls belong to different tasks, the
    [errno] of each task is then the one its own call has stored, whatever
    the others do.  The judgement also carries an invariant of the list of
    queues, on which some results depend. *)
From S2P Require Import Prelude Prog Kernel World Clock.

Section tracked.
Context `{P : Platform} `{K : Kernel} (L : ll_t -> Prop).
Implicit Types (w : world) (me : Z) (e : option Z).

(** [e]: what has been stored in the [errno] of task [me] so far, if
    anything.  [Q] relates it to the result at the end. *)
Definition errno_is me e w : Prop := forall z, e = Some z -> errnos w !! me = Some z.

Fixpoint tracked {R} me (p : prog world R) e (Q : option Z -> R -> Prop) : Prop :=
  match p with
  | Ret r => Q e r
  | Act a k => forall w x w', L (allq w) -> errno_is me e w -> Done x w' ∈ a w ->
      L (allq w') /\ (forall t, t <> me -> errnos w' !! t = errnos w !! t)
      /\ exists e', (e' = e /\ errnos w' !! me = errnos w !! me \/ is_Some e' /\ errnos w' !! me = e')
           /\ tracked me (k x) e' Q
  end.

Lemma tracked_bind {A B} me (p : prog world A) (f : A -> prog world B) e Q Q' :
  tracked me p e Q -> (forall e x, Q e x -> tracked me (f x) e Q') -> tracked me (bind p f) e Q'.
Proof.
  intros Hp Hf. revert e Hp. induction p as [r|X a k IH]; intros e Hp; simpl in *; [by apply Hf|].
  intros w x w' Hw He Hx. destruct (Hp w x w' Hw He Hx) as (HL & Ht & e' & He' & Hk).
  split; [done|]. split; [done|]. exists e'. split; [done|by apply IH].
Qed.

Lemma tracked_weaken {A} me (p : prog world A) e (Q Q' : option Z -> A -> Prop) :
  (forall e x, Q e x -> Q' e x) -> tracked me p e Q -> tracked me p e Q'.
Proof.
  intros HQ. revert e. induction p as [r|X a k IH]; intros e; simpl; [apply HQ|].
  intros H w x w' Hw He Hx. destruct (H w x w' Hw He Hx) as (HL & Ht & e' & He' & Hk).
  split; [done|]. split; [done|]. exists e'. split; [done|by apply IH].
Qed.

Lemma tracked_assoc {A B C} me (p : prog world A) (f : A -> prog world B) (g : B -> prog world C) e Q :
  tracked me (bind p (fun x => bind (f x) g)) e Q -> tracked me (bind (bind p f) g) e Q.
Proof.
  revert e. induction p as [r|X a k IH]; intros e; simpl; [done|].
  intros H w x w' Hw He Hx. destruct (H w x w' Hw He Hx) as (HL & Ht & e' & He' & Hk).
  split; [done|]. split; [done|]. exists e'. split; [done|by apply IH].
Qed.

Lemma tracked_last {A} me (p : prog world A) e Q : tracked me (bind p Ret) e Q -> tracked me p e Q.
Proof.
  revert e. induction p as [r|X a k IH]; intros e; simpl; [done|].
  intros H w x w' Hw He Hx. destruct (H w x w' Hw He Hx) as (HL & Ht & e' & He' & Hk).
  split; [done|]. split; [done|]. exists e'. split; [done|by apply IH].
Qed.

(** A call that does not touch [errno]. *)
Definition silent {R} me (p : prog world R) : Prop := forall e, tracked me p e (fun e' _ => e' = e).

Lemma tracked_silent {A B} me (p : prog world A) (f : A -> prog world B) e Q :
  silent me p -> (forall x, tracked me (f x) e Q) -> tracked me (bind p f) e Q.
Proof. intros Hp Hf. eapply tracked_bind; [apply Hp|]. by intros e' x ->. Qed.

(** *** The actions *)

Section actions.
Context {R : Type} (me : Z) (e : option Z) (Q : option Z -> R -> Prop).

Lemma tracked_act {A} (a : action world A) (k : A -> prog world R) :
  (forall w x w', L (allq w) -> Done x w' ∈ a w ->
     L (allq w') /\ errnos w' = errnos w /\ tracked me (k x) e Q) ->
  tracked me (bind (act a) k) e Q.
Proof.
  intros H. simpl. intros w x w' Hw _ Hx. destruct (H w x w' Hw Hx) as (HL & He & Hk).
  split; [done|]. split; [intros t _; by rewrite He|]. exists e. split; [left; by rewrite He|done].
Qed.

Lemma tracked_get {A} (f : world -> A) (k : A -> prog world R) :
  (forall w, L (allq w) -> tracked me (k (f w)) e Q) -> tracked me (bind (get f) k) e Q.
Proof. intros Hk. apply tracked_act. intros w x w' Hw Hx. apply list_elem_of_singleton in Hx. simplify_eq. auto. Qed.

Lemma tracked_modify f (k : unit -> prog world R) :
  (forall w, errnos (f w) = errnos w) -> (forall w, L (allq w) -> L (allq (f w))) ->
  tracked me (k tt) e Q -> tracked me (bind (modify f) k) e Q.
Proof.
  intros He HL Hk. apply tracked_act. intros w x w' Hw Hx. apply list_elem_of_singleton in Hx. simplify_eq. auto.
Qed.

Lemma tracked_set_errno (c : caller) v (k : unit -> prog world R) :
  me = task_cur c -> tracked me (k tt) (Some v) Q -> tracked me (bind (set_errno c v) k) e Q.
Proof.
  intros -> Hk. simpl. intros w x w' Hw _ Hx. apply list_elem_of_singleton in Hx. simplify_eq. split; [done|].
  split; [intros t Ht; simpl; by rewrite lookup_insert_ne|]. exists (Some v).
  split; [right; simpl; by rewrite lookup_insert_eq|done].
Qed.

(** A task that has set its [errno] reads what it has set. *)
Lemma tracked_get_errno z (k : Z -> prog world R) :
  tracked me (k z) (Some z) Q -> tracked me (bind (get (errno_of me)) k) (Some z) Q.
Proof.
  intros Hk. simpl. intros w x w' Hw He Hx. apply list_elem_of_singleton in Hx. simplify_eq.
  split; [done|]. split; [done|]. exists (Some z). split; [by left|]. unfold errno_of. by rewrite (He z).
Qed.

Lemma tracked_emit ev (k : unit -> prog world R) : tracked me (k tt) e Q -> tracked me (bind (emit ev) k) e Q.
Proof. by apply tracked_modify. Qed.

Lemma tracked_raise {A} f (k : A -> prog world R) : tracked me (bind (raise f) k) e Q.
Proof. apply tracked_act. by intros w x w' _ ?%list_elem_of_singleton. Qed.

Lemma tracked_lift {A} (o : option A) (k : A -> prog world R) :
  (forall x, o = Some x -> tracked me (k x) e Q) -> tracked me (bind (lift o) k) e Q.
Proof. destruct o; intros H; [by apply H|]. apply tracked_raise. Qed.

Lemma tracked_alloc (AL : AllocLaws K) ty n (k : Z -> prog world R) :
  (forall p, p < UINT_MAX -> tracked me (k p) e Q) -> tracked me (bind (posix_alloc ty n) k) e Q.
Proof.
  intros Hk. apply tracked_act. intros w x w' Hw Hx. destruct (hcos_posix_alloc w =? 0); [by apply list_elem_of_singleton in Hx|].
  cbv zeta in Hx. destruct (alloc_call _ _ _ _ =? 0) eqn:E; apply list_elem_of_singleton in Hx; simplify_eq.
  - split; [done|]. split; [done|]. by apply Hk.
  - split; [done|]. split; [done|]. apply Hk. apply Z.eqb_neq in E. by destruct (alloc_fresh _ _ _ _ E) as (_ & [_ H] & _).
Qed.

Lemma tracked_free ty p (k : unit -> prog world R) : tracked me (k tt) e Q -> tracked me (bind (posix_free ty p) k) e Q.
Proof.
  intros Hk. apply tracked_act. intros w [] w' Hw Hx. destruct (hcos_posix_free w =? 0); [by apply list_elem_of_singleton in Hx|].
  destruct (mem w !! p); apply list_elem_of_singleton in Hx; by simplify_eq.
Qed.

Lemma tracked_memset {S} `{!Kind S} p (s : S) (k : unit -> prog world R) :
  tracked me (k tt) e Q -> tracked me (bind (memset_zero p s) k) e Q.
Proof.
  intros Hk. apply tracked_act. intros w [] w' Hw Hx. destruct (p =? 0); [by apply list_elem_of_singleton in Hx|].
  destruct (mem w !! p); apply list_elem_of_singleton in Hx; by simplify_eq.
Qed.

(** On a field of an object. *)
Section fields.
Context {S T : Type} `{!Kind S} (p : Z) (g : S -> T) (st : T -> S -> S).

Lemma tracked_load (k : T -> prog world R) : (forall x, tracked me (k x) e Q) -> tracked me (bind (load (fld p g st)) k) e Q.
Proof.
  intros Hk. apply tracked_act. intros w x w' Hw Hx. destruct (rget _ w); apply list_elem_of_singleton in Hx; by simplify_eq.
Qed.

Lemma tracked_kcall {A} (f : T -> list (A * T)) (k : A -> prog world R) :
  (forall x, tracked me (k x) e Q) -> tracked me (bind (kcall (fld p g st) f) k) e Q.
Proof.
  intros Hk. apply tracked_act. intros w x w' Hw Hx. destruct (rget _ w) as [o|]; [|by apply list_elem_of_singleton in Hx].
  apply list_elem_of_fmap in Hx as (y & Hy & _). simplify_eq. by destruct (at_ p w); split_and!; auto.
Qed.

Lemma tracked_kmod (f : T -> T) (k : unit -> prog world R) :
  tracked me (k tt) e Q -> tracked me (bind (kmod (fld p g st) f) k) e Q.
Proof. intros Hk. apply tracked_kcall. by intros []. Qed.

Lemma tracked_store v (k : unit -> prog world R) :
  tracked me (k tt) e Q -> tracked me (bind (store (fld p g st) v) k) e Q.
Proof.
  intros Hk. apply tracked_act. intros w [] w' Hw Hx. destruct (rget _ w); apply list_elem_of_singleton in Hx; simplify_eq.
  by destruct (at_ p w).
Qed.
End fields.
End actions.

(** *** Pools *)

Section pool.
Context {R : Type} (who : nat -> caller) (ps : nat -> prog world R) (Q : nat -> option Z -> R -> Prop).
Hypothesis who_inj : forall i j, task_cur (who i) = task_cur (who j) -> i = j.

(** After some steps from [w0]: [es] is what the calls have stored. *)
Record errnos_tracked w0 (c : pool world R) (es : list (option Z)) : Prop := {
  et_list : L (allq c.2);
  et_len : length c.1 = length es;
  et_calls i p e : c.1 !! i = Some p -> es !! i = Some e ->
    tracked (task_cur (who i)) p e (Q i)
    /\ errnos c.2 !! task_cur (who i) = match e with Some z => Some z | None => errnos w0 !! task_cur (who i) end;
  et_others t : (forall i, (i < length c.1)%nat -> t <> task_cur (who i)) -> errnos c.2 !! t = errnos w0 !! t
}.

Lemma errnos_tracked_next w0 c es c' :
  errnos_tracked w0 c es -> clocked_step c c' -> exists es', errnos_tracked w0 c' es'.
Proof.
  intros X Hs. destruct Hs as [[ts w] c' Hs|ts w k _ _]; [|exists es; split; apply X].
  inversion Hs as [ts0 w1 i p p' w' Hi Hp]; subst. destruct p as [r|A a k]; simpl in Hp; [by apply not_elem_of_nil in Hp|].
  apply list_elem_of_fmap in Hp as ([x v|er] & Hx & Hin); simplify_eq.
  destruct (lookup_lt_is_Some_2 es i) as [e He].
  { pose proof (et_len _ _ _ X) as Hl. simpl in Hl. rewrite <- Hl. by eapply lookup_lt_Some. }
  destruct (et_calls _ _ _ X i _ e Hi He) as [Ht Hv]. cbn [fst snd] in *.
  destruct (Ht w x v (et_list _ _ _ X)) as (HL & Hoth & e' & He' & Hk); [by intros z ->|done|].
  exists (<[i:=e']> es). split; cbn [fst snd]; [done|rewrite !length_insert; apply X| |].
  - intros j q f. rewrite !list_lookup_insert_Some. intros [(<- & <- & _)|[Hne Hq]] [(Hij & <- & _)|[Hne' Hf]]; try done.
    + split; [done|]. destruct He' as [[-> ->]|[[z ->] ->]]; done.
    + destruct (et_calls _ _ _ X j q f Hq Hf) as [Hq' Hv']. split; [done|]. cbn [snd] in Hv'.
      rewrite Hoth; [done|]. intros E. by apply Hne', who_inj.
  - intros t. rewrite length_insert. intros Hn. rewrite Hoth.
    + by apply (et_others _ _ _ X).
    + apply Hn. by eapply lookup_lt_Some.
Qed.

(** The soundness of the judgement. *)
Lemma tracked_pool n w c :
  L (allq w) -> (forall i, (i < n)%nat -> tracked (task_cur (who i)) (ps i) None (Q i)) ->
  reach clocked_step (map ps (seq 0 n), w) c ->
  (forall i r, c.1 !! i = Some (Ret r) ->
     exists e, Q i e r /\ errnos c.2 !! task_cur (who i)
       = match e with Some z => Some z | None => errnos w !! task_cur (who i) end)
  /\ forall t, (forall i, (i < n)%nat -> t <> task_cur (who i)) -> errnos c.2 !! t = errnos w !! t.
Proof.
  intros HL Hps Hr.
  assert (length c.1 = n /\ exists es, errnos_tracked w c es) as [Hn [es X]].
  { induction Hr as [|y z Hr [Hn [es X]] Hs].
    - cbn [fst]. split; [by rewrite length_map, length_seq|]. exists (replicate n None).
      split; cbn [fst snd]; [done|by rewrite length_map, length_seq, length_replicate| |done].
      intros i p e Hp He. apply lookup_replicate in He as [-> Hi].
      apply list_lookup_fmap_Some in Hp as (j & -> & Hj). apply lookup_seq in Hj as [-> _]. split; [by apply Hps|done].
    - split; [|by eapply errnos_tracked_next]. rewrite <- Hn. destruct Hs as [[ts v] z Hs|]; [|done].
      inversion Hs; subst. cbn [fst]. by rewrite length_insert. }
  split.
  - intros i r Hi. destruct (lookup_lt_is_Some_2 es i) as [e He].
    { rewrite <- (et_len _ _ _ X). by eapply lookup_lt_Some. }
    destruct (et_calls _ _ _ X i _ e Hi He) as [HQ Hv]. by exists e.
  - intros t Ht. apply (et_others _ _ _ X). by rewrite Hn.
Qed.
End pool.
End tracked.

(** One action at a time; a condition is split. *)
Ltac tracked_one :=
  lazymatch goal with
  | |- tracked _ _ (bind (Ret _) _) _ _ => cbn [bind]
  | |- tracked _ _ (bind (bind _ _) _) _ _ => apply tracked_assoc
  | |- tracked _ _ (bind (match ?x with _ => _ end) _) _ _ => destruct x eqn:?
  | |- tracked _ _ (bind (get _) _) _ _ => apply tracked_get; intros
  | |- tracked _ _ (bind (load _) _) _ _ => apply tracked_load; intros
  | |- tracked _ _ (bind (store _ _) _) _ _ => apply tracked_store
  | |- tracked _ _ (bind (kcall _ _) _) _ _ => apply tracked_kcall; intros
  | |- tracked _ _ (bind (kmod _ _) _) _ _ => apply tracked_kmod
  | |- tracked _ _ (bind (lift _) _) _ _ => apply tracked_lift; intros
  | |- tracked _ _ (bind (raise _) _) _ _ => apply tracked_raise
  | |- tracked _ _ (bind (set_errno _ _) _) _ _ => apply tracked_set_errno; [done|]
  | |- tracked _ _ (bind (emit _) _) _ _ => apply tracked_emit
  | |- tracked _ _ (bind (posix_alloc _ _) _) _ _ => apply tracked_alloc; [done|intros]
  | |- tracked _ _ (bind (posix_free _ _) _) _ _ => apply tracked_free
  | |- tracked _ _ (bind (memset_zero _ _) _) _ _ => apply tracked_memset
  | |- tracked _ _ (match ?x with _ => _ end) _ _ => destruct x eqn:?
  end.
