(* ===== verification/Attr.v ===== *)
(** Thread and mutex attributes: the [pthread_attr_*] functions of
    [src/posix_pthread.c], [pthread_equal], the [pthread_mutexattr_*]
    functions of [src/posix_pthread_mutex.c] and [sched_get_priority_max] of
    [src/posix_sched.c].  The functions work on one structure and are written
    in state-passing style: they return the C result and the new structure
    (or the value stored through an output parameter); a pointer that the
    code tests against null is an [option]. *)
From S2P Require Import Prelude Prog Kernel World SimKernel.

Definition PTHREAD_CREATE_DETACHED : Z := 0.
Definition PTHREAD_CREATE_JOINABLE : Z := 1.
Definition SCHED_OTHER : Z := 3.
Definition PTHREAD_STACK_MIN : Z := 1024.
Definition MASK_DETACH : Z := 0x8000.
Definition MASK_PRIORITY : Z := 0x7FFF.
Definition SHFT_DETACH : Z := 15.

Definition STATUS_PRIORITY (var : Z) : Z := Z.land var MASK_PRIORITY.
Definition STATUS_JOINABLE (var : Z) : bool := Z.land var MASK_DETACH =? MASK_DETACH.

Section attr.
Context `{P : Platform}.

Definition sched_get_priority_max (policy : Z) : Z := CFG_TPRI_NUM - 1.

Definition HCOS_LOWEST_PRIORITY : Z := CFG_TPRI_NUM - 2.

Definition PTHTREAD_ATTR_DEFAULT : pthread_attr_t :=
  mk_attr (wrapu 16 PTHREAD_STACK_MIN)
    (wrapu 16 (Z.lor (Z.land (wrapu 16 HCOS_LOWEST_PRIORITY) MASK_PRIORITY)
                     (Z.shiftl PTHREAD_CREATE_JOINABLE SHFT_DETACH))).

Definition pthread_attr_destroy (attr : option pthread_attr_t) : Z :=
  match attr with None => EINVAL | Some _ => 0 end.

Definition pthread_attr_getdetachstate (attr : pthread_attr_t) : Z * Z :=
  (0, if STATUS_JOINABLE (status attr) then PTHREAD_CREATE_JOINABLE
      else PTHREAD_CREATE_DETACHED).

Definition pthread_attr_getschedparam (attr : pthread_attr_t) : Z * Z :=
  (0, STATUS_PRIORITY (status attr)).

Definition pthread_attr_getstacksize (attr : pthread_attr_t) : Z * Z := (0, stack_sz attr).

Definition pthread_attr_init (attr : option pthread_attr_t) : Z * option pthread_attr_t :=
  match attr with
  | None => (EINVAL, None)
  | Some _ => (0, Some PTHTREAD_ATTR_DEFAULT)
  end.

Definition pthread_attr_setdetachstate (attr : pthread_attr_t) (detach : Z) : Z * pthread_attr_t :=
  if negb (detach =? PTHREAD_CREATE_DETACHED) && negb (detach =? PTHREAD_CREATE_JOINABLE)
  then (EINVAL, attr)
  else
    let st := wrapu 16 (Z.land (status attr) (Z.lnot MASK_DETACH)) in
    let st := wrapu 16 (Z.lor st (Z.shiftl (wrapu 16 detach) SHFT_DETACH)) in
    (0, mk_attr (stack_sz attr) st).

(** [param] is the [sched_priority] field. *)
Definition pthread_attr_setschedparam (attr : pthread_attr_t) (param : option Z)
  : Z * pthread_attr_t :=
  match param with
  | None => (EINVAL, attr)
  | Some prio =>
      if (sched_get_priority_max SCHED_OTHER <? prio) || (prio <? 0) then (ENOTSUP, attr)
      else
        let st := wrapu 16 (Z.land (status attr) (Z.lnot MASK_PRIORITY)) in
        let st := wrapu 16 (Z.lor st (wrapu 16 prio)) in
        (0, mk_attr (stack_sz attr) st)
  end.

Definition pthread_attr_setstacksize (attr : pthread_attr_t) (stacksize : Z) : Z * pthread_attr_t :=
  if stacksize <? PTHREAD_STACK_MIN then (EINVAL, attr)
  else (0, mk_attr (wrapu 16 stacksize) (status attr)).

Definition pthread_equal (t1 t2 : Z) : Z :=
  if negb (t1 =? 0) && negb (t2 =? 0) then (if t1 =? t2 then 1 else 0) else 0.

(** ** Mutex attributes *)

Definition PTHREAD_MUTEX_NORMAL : Z := 0.
Definition PTHREAD_MUTEX_ERRORCHECK : Z := 1.
Definition PTHREAD_MUTEX_RECURSIVE : Z := 2.
Definition PTHREAD_MUTEX_DEFAULT : Z := PTHREAD_MUTEX_NORMAL.

Definition pthread_mutexattr_destroy (attr : option pthread_mutexattr_t) : Z := 0.

(** [type] is [unsigned] in the structure and [int] in the interface. *)
Definition pthread_mutexattr_gettype (attr : pthread_mutexattr_t) : Z * Z :=
  (0, wraps 32 (type attr)).

Definition pthread_mutexattr_init (attr : option pthread_mutexattr_t)
  : Z * option pthread_mutexattr_t :=
  match attr with
  | None => (EINVAL, None)
  | Some _ => (0, Some (mk_mutexattr PTHREAD_MUTEX_DEFAULT))
  end.

Definition pthread_mutexattr_settype (attr : pthread_mutexattr_t) (ty : Z)
  : Z * pthread_mutexattr_t :=
  if (ty =? PTHREAD_MUTEX_NORMAL) || (ty =? PTHREAD_MUTEX_RECURSIVE)
     || (ty =? PTHREAD_MUTEX_ERRORCHECK)
  then (0, mk_mutexattr (wrapu 32 ty))
  else (EINVAL, attr).

(** The fields are [unsigned short]. *)
Definition wf_attr (a : pthread_attr_t) : Prop :=
  0 <= stack_sz a < 2 ^ 16 /\ 0 <= status a < 2 ^ 16.
End attr.

(** ** The attributes as a record

    What the functions promise: three independent attributes, each with its
    range.  The code packs two of them into the status word. *)
Record attributes := mk_attributes { joinable_ : bool; priority_ : Z; stack_ : Z }.

Inductive attr_call :=
| AttrInit | AttrDestroy
| GetDetach | SetDetach (detach : Z)
| GetSched | SetSched (param : option Z)
| GetStack | SetStack (stacksize : Z).

(** What a call answers: the C result and the value it stores for the
    caller. *)
Definition attr_answer : Type := Z * option Z.

Section attr_record.
Context `{P : Platform}.

Definition attr_spec (o : attr_call) (s : attributes) : attr_answer * attributes :=
  match o with
  | AttrInit => ((0, None), mk_attributes true (CFG_TPRI_NUM - 2) PTHREAD_STACK_MIN)
  | AttrDestroy => ((0, None), s)
  | GetDetach => ((0, Some (if joinable_ s then PTHREAD_CREATE_JOINABLE else PTHREAD_CREATE_DETACHED)), s)
  | SetDetach d =>
      if (d =? PTHREAD_CREATE_DETACHED) || (d =? PTHREAD_CREATE_JOINABLE)
      then ((0, None), mk_attributes (d =? PTHREAD_CREATE_JOINABLE) (priority_ s) (stack_ s))
      else ((EINVAL, None), s)
  | GetSched => ((0, Some (priority_ s)), s)
  | SetSched None => ((EINVAL, None), s)
  | SetSched (Some prio) =>
      if (0 <=? prio) && (prio <=? sched_get_priority_max SCHED_OTHER)
      then ((0, None), mk_attributes (joinable_ s) prio (stack_ s))
      else ((ENOTSUP, None), s)
  | GetStack => ((0, Some (stack_ s)), s)
  | SetStack n =>
      if n <? PTHREAD_STACK_MIN then ((EINVAL, None), s)
      else ((0, None), mk_attributes (joinable_ s) (priority_ s) (n mod 2 ^ 16))
  end.

(** The functions of the code. *)
Definition attr_exec (o : attr_call) (a : pthread_attr_t) : attr_answer * pthread_attr_t :=
  match o with
  | AttrInit => let (r, a') := pthread_attr_init (Some a) in ((r, None), default a a')
  | AttrDestroy => ((pthread_attr_destroy (Some a), None), a)
  | GetDetach => let (r, v) := pthread_attr_getdetachstate a in ((r, Some v), a)
  | SetDetach d => let (r, a') := pthread_attr_setdetachstate a d in ((r, None), a')
  | GetSched => let (r, v) := pthread_attr_getschedparam a in ((r, Some v), a)
  | SetSched param => let (r, a') := pthread_attr_setschedparam a param in ((r, None), a')
  | GetStack => let (r, v) := pthread_attr_getstacksize a in ((r, Some v), a)
  | SetStack n => let (r, a') := pthread_attr_setstacksize a n in ((r, None), a')
  end.

(** A sequence of calls. *)
Fixpoint run_calls {S} (step : attr_call -> S -> attr_answer * S) (os : list attr_call) (s : S)
  : list attr_answer * S :=
  match os with
  | [] => ([], s)
  | o :: os' => let (r, s1) := step o s in let (rs, s2) := run_calls step os' s1 in (r :: rs, s2)
  end.

(** The attributes that a structure stands for, and the structure for
    attributes. *)
Definition attributes_of (a : pthread_attr_t) : attributes :=
  mk_attributes (STATUS_JOINABLE (status a)) (STATUS_PRIORITY (status a)) (stack_sz a).

Definition packed (s : attributes) : pthread_attr_t :=
  mk_attr (stack_ s) (priority_ s + if joinable_ s then 2 ^ 15 else 0).
End attr_record.

(** ** Lemmas on the status word: bit 15 is the detach state, the bits below
    are the priority *)

Section status.

Lemma joinable_bit s : STATUS_JOINABLE s = Z.testbit s 15.
Proof.
  unfold STATUS_JOINABLE, MASK_DETACH.
  assert (Z.land s 0x8000 = if Z.testbit s 15 then 0x8000 else 0) as ->.
  { apply Z.bits_inj'. intros n Hn. rewrite Z.land_spec.
    change 0x8000 with (2 ^ 15). rewrite Z.pow2_bits_eqb by lia.
    destruct (15 =? n) eqn:E; bool_lia.
    - subst n. by destruct (Z.testbit s 15).
    - rewrite andb_false_r. destruct (Z.testbit s 15); [|by rewrite Z.bits_0].
      by rewrite Z.pow2_bits_false by lia. }
  by destruct (Z.testbit s 15).
Qed.

Lemma priority_mod s : STATUS_PRIORITY s = s mod 2 ^ 15.
Proof. unfold STATUS_PRIORITY. by rewrite <- (Z.land_ones s 15). Qed.

Lemma testbit_wrapu w s n : 0 <= w -> Z.testbit (wrapu w s) n = (n <? w) && Z.testbit s n.
Proof. intros. unfold wrapu. by rewrite Z.testbit_mod_pow2. Qed.

Lemma priority_ext s s' :
  (forall n, 0 <= n < 15 -> Z.testbit s n = Z.testbit s' n) -> STATUS_PRIORITY s = STATUS_PRIORITY s'.
Proof.
  intros H. rewrite !priority_mod. apply Z.bits_inj'. intros n Hn.
  rewrite !Z.testbit_mod_pow2 by lia. destruct (n <? 15) eqn:E; [|done].
  simpl. apply H. bool_lia.
Qed.

(** [keep m s]: what [status &= ~mask] leaves. *)
Lemma testbit_clear s m n : 0 <= n < 16 ->
  Z.testbit (wrapu 16 (Z.land s (Z.lnot m))) n = Z.testbit s n && negb (Z.testbit m n).
Proof.
  intros Hn. rewrite testbit_wrapu by lia. test_true (n <? 16).
  by rewrite Z.land_spec, Z.lnot_spec by lia.
Qed.

Lemma testbit_mask_detach n : 0 <= n -> Z.testbit MASK_DETACH n = (15 =? n).
Proof. intros. unfold MASK_DETACH. change 0x8000 with (2 ^ 15). by rewrite Z.pow2_bits_eqb by lia. Qed.

Lemma testbit_mask_priority n : 0 <= n -> Z.testbit MASK_PRIORITY n = (n <? 15).
Proof. intros. unfold MASK_PRIORITY. change 0x7FFF with (Z.ones 15). by rewrite Z.testbit_ones_nonneg by lia. Qed.

Lemma testbit_small a w n : 0 <= a < 2 ^ w -> 0 <= w <= n -> Z.testbit a n = false.
Proof.
  intros Ha Hn. destruct (Z.eq_dec a 0) as [->|]; [apply Z.bits_0|].
  apply Z.bits_above_log2; [lia|]. apply Z.log2_lt_pow2; [lia|].
  pose proof (pow2_le w n ltac:(lia) ltac:(lia)). lia.
Qed.
End status.

(** ** Properties *)

Section attr_props.
Context `{P : Platform} `{!PlatformOk P}.

(** Every attribute operation keeps the fields in their 16 bits. *)
Theorem attr_ops_wf a d p n :
  wf_attr a ->
  wf_attr PTHTREAD_ATTR_DEFAULT /\ wf_attr (pthread_attr_setdetachstate a d).2
  /\ wf_attr (pthread_attr_setschedparam a p).2 /\ wf_attr (pthread_attr_setstacksize a n).2.
Proof.
  intros [Hs Ht]. unfold wf_attr.
  assert (forall z, 0 <= wrapu 16 z < 2 ^ 16) by (intros; apply wrapu_range; lia).
  repeat split; simpl; try apply H; unfold pthread_attr_setdetachstate,
    pthread_attr_setschedparam, pthread_attr_setstacksize;
    try destruct p; case_ifs; simpl; try apply H; lia.
Qed.

(** [pthread_attr_setdetachstate] accepts the two detach states and
    nothing else; the state is read back, and neither the priority nor the
    stack size changes. *)
Lemma setdetachstate_cases a d :
  wf_attr a ->
  let (ret, a') := pthread_attr_setdetachstate a d in
  if (d =? PTHREAD_CREATE_DETACHED) || (d =? PTHREAD_CREATE_JOINABLE)
  then ret = 0 /\ pthread_attr_getdetachstate a' = (0, d)
       /\ pthread_attr_getschedparam a' = pthread_attr_getschedparam a
       /\ stack_sz a' = stack_sz a
  else ret = EINVAL /\ a' = a.
Proof.
  intros [_ Hs]. unfold pthread_attr_setdetachstate, PTHREAD_CREATE_DETACHED, PTHREAD_CREATE_JOINABLE.
  rewrite <- negb_orb. destruct ((d =? 0) || (d =? 1)) eqn:E; simpl; [|done].
  assert (forall n, 0 <= n < 16 ->
    Z.testbit (wrapu 16 (Z.lor (wrapu 16 (Z.land (status a) (Z.lnot MASK_DETACH)))
                               (Z.shiftl (wrapu 16 d) SHFT_DETACH))) n
    = if 15 =? n then d =? 1 else Z.testbit (status a) n) as Hb.
  { intros n Hn. rewrite testbit_wrapu by lia. test_true (n <? 16).
    rewrite Z.lor_spec, testbit_clear, testbit_mask_detach by lia.
    apply orb_prop in E as [E|E]; bool_lia; subst d; cbn [wrapu SHFT_DETACH].
    - change (Z.shiftl (wrapu 16 0) SHFT_DETACH) with 0. rewrite Z.bits_0.
      destruct (15 =? n); simpl; by rewrite ?andb_false_r, ?andb_true_r, ?orb_false_r.
    - change (Z.shiftl (wrapu 16 1) SHFT_DETACH) with (2 ^ 15). rewrite Z.pow2_bits_eqb by lia.
      destruct (15 =? n); simpl; by rewrite ?andb_false_r, ?andb_true_r, ?orb_false_r. }
  split; [done|]. split; [|split; [|done]].
  - unfold pthread_attr_getdetachstate. simpl. rewrite joinable_bit, Hb by lia. simpl.
    f_equal. unfold PTHREAD_CREATE_JOINABLE, PTHREAD_CREATE_DETACHED.
    apply orb_prop in E as [E|E]; bool_lia; by subst.
  - unfold pthread_attr_getschedparam. simpl. f_equal. apply priority_ext.
    intros n Hn. rewrite Hb by lia. by test_false (15 =? n).
Qed.

Lemma setschedparam_cases a p :
  wf_attr a ->
  let (ret, a') := pthread_attr_setschedparam a p in
  match p with
  | None => ret = EINVAL /\ a' = a
  | Some prio =>
      if (0 <=? prio) && (prio <=? sched_get_priority_max SCHED_OTHER)
      then ret = 0 /\ pthread_attr_getschedparam a' = (0, prio)
           /\ pthread_attr_getdetachstate a' = pthread_attr_getdetachstate a
           /\ stack_sz a' = stack_sz a
      else ret = ENOTSUP /\ a' = a
  end.
Proof.
  intros [_ Hs]. destruct p as [prio|]; simpl; [|done].
  pose proof CFG_TPRI_NUM_range. unfold sched_get_priority_max.
  destruct ((CFG_TPRI_NUM - 1 <? prio) || (prio <? 0)) eqn:E.
  { replace ((0 <=? prio) && (prio <=? CFG_TPRI_NUM - 1)) with false; [done|].
    symmetry. apply andb_false_iff. apply orb_prop in E as [E|E]; bool_lia. }
  bool_lia. test_true (0 <=? prio). test_true (prio <=? CFG_TPRI_NUM - 1). simpl.
  rewrite (wrapu_small 16 prio) by lia.
  assert (forall n, 0 <= n < 16 ->
    Z.testbit (wrapu 16 (Z.lor (wrapu 16 (Z.land (status a) (Z.lnot MASK_PRIORITY))) prio)) n
    = if n <? 15 then Z.testbit prio n else Z.testbit (status a) n) as Hb.
  { intros n Hn. rewrite testbit_wrapu by lia. test_true (n <? 16).
    rewrite Z.lor_spec, testbit_clear, testbit_mask_priority by lia.
    destruct (n <? 15) eqn:B; simpl; [by rewrite andb_false_r|]. bool_lia.
    rewrite andb_true_r, (testbit_small prio 15 n) by (simpl; lia). apply orb_false_r. }
  split; [done|]. split; [|split; [|done]].
  - unfold pthread_attr_getschedparam. simpl. f_equal.
    transitivity (STATUS_PRIORITY prio); [|rewrite priority_mod; apply Z.mod_small; lia].
    apply priority_ext. intros n Hn. rewrite Hb by lia. by test_true (n <? 15).
  - unfold pthread_attr_getdetachstate. simpl. f_equal.
    rewrite !joinable_bit, Hb by lia. done.
Qed.

(** [pthread_attr_setschedparam] rejects a null parameter and a priority
    above the maximum or negative; otherwise the priority is read back, and
    neither the detach state nor the stack size changes. *)
Theorem setschedparam_spec a p :
  wf_attr a ->
  let (ret, a') := pthread_attr_setschedparam a p in
  match p with
  | None => ret = EINVAL /\ a' = a
  | Some prio =>
      if (0 <=? prio) && (prio <=? sched_get_priority_max SCHED_OTHER)
      then ret = 0 /\ pthread_attr_getschedparam a' = (0, prio)
           /\ pthread_attr_getdetachstate a' = pthread_attr_getdetachstate a
           /\ stack_sz a' = stack_sz a
      else ret = ENOTSUP /\ a' = a
  end.
Proof. apply setschedparam_cases. Qed.

(** [pthread_attr_setstacksize] refuses a size below the minimum and
    stores any other one in 16 bits: the size is read back if it is below
    65536 and only then, though the call reports success for every size. *)
Theorem setstacksize_spec a n :
  0 <= n < 2 ^ 32 ->
  let (ret, a') := pthread_attr_setstacksize a n in
  if n <? PTHREAD_STACK_MIN then ret = EINVAL /\ a' = a
  else ret = 0 /\ status a' = status a
       /\ (pthread_attr_getstacksize a' = (0, n) <-> n < 2 ^ 16).
Proof.
  intros Hn. unfold pthread_attr_setstacksize. case_if; [done|].
  split; [done|]. split; [done|]. unfold pthread_attr_getstacksize. simpl. split.
  - intros [= H]. pose proof (wrapu_range 16 n ltac:(lia)). lia.
  - intros H. by rewrite wrapu_small by (bool_lia; unfold PTHREAD_STACK_MIN in *; lia).
Qed.

(** The default attributes are a joinable thread of the lowest priority
    with the minimal stack. *)
Theorem attr_init_default a :
  exists d, pthread_attr_init (Some a) = (0, Some d)
    /\ pthread_attr_getdetachstate d = (0, PTHREAD_CREATE_JOINABLE)
    /\ pthread_attr_getschedparam d = (0, CFG_TPRI_NUM - 2)
    /\ pthread_attr_getstacksize d = (0, PTHREAD_STACK_MIN).
Proof.
  pose proof CFG_TPRI_NUM_range. eexists. split; [done|].
  set (lo := HCOS_LOWEST_PRIORITY). assert (0 <= lo < 2 ^ 15) by (unfold lo, HCOS_LOWEST_PRIORITY; lia).
  assert (forall n, 0 <= n < 16 -> Z.testbit (status PTHTREAD_ATTR_DEFAULT) n
    = (15 =? n) || ((n <? 15) && Z.testbit lo n)) as Hb.
  { intros n Hn. unfold PTHTREAD_ATTR_DEFAULT. cbn [status]. rewrite testbit_wrapu by lia. test_true (n <? 16).
    rewrite Z.lor_spec, Z.land_spec, testbit_mask_priority by lia. fold lo.
    rewrite wrapu_small by lia. change (Z.shiftl PTHREAD_CREATE_JOINABLE SHFT_DETACH) with (2 ^ 15).
    rewrite Z.pow2_bits_eqb by lia.
    by destruct (15 =? n), (n <? 15), (Z.testbit lo n). }
  split; [|split; [|done]].
  - unfold pthread_attr_getdetachstate. rewrite joinable_bit, Hb by lia. done.
  - unfold pthread_attr_getschedparam. f_equal. fold HCOS_LOWEST_PRIORITY lo.
    transitivity (STATUS_PRIORITY lo); [|rewrite priority_mod; apply Z.mod_small; lia].
    apply priority_ext. intros n Hn. rewrite Hb by lia.
    test_false (15 =? n). by test_true (n <? 15).
Qed.

(** Nothing of the structure is lost. *)
Lemma packed_attributes a : wf_attr a -> packed (attributes_of a) = a.
Proof.
  intros [_ Hs]. destruct a as [sz st]. unfold packed, attributes_of. simpl in *. f_equal.
  rewrite joinable_bit, priority_mod, Z.testbit_odd, Z.shiftr_div_pow2 by lia.
  pose proof (Z.div_mod st (2 ^ 15) ltac:(lia)) as Hd. pose proof (Z.mod_pos_bound st (2 ^ 15) ltac:(lia)).
  assert (st / 2 ^ 15 = 0 \/ st / 2 ^ 15 = 1) as [E|E]
    by (pose proof (Z.div_pos st (2 ^ 15)); pose proof (Z.div_lt_upper_bound st (2 ^ 15) 2); lia);
    rewrite E in *; simpl; lia.
Qed.

Lemma attributes_read a j prio sz :
  pthread_attr_getdetachstate a = (0, if j : bool then PTHREAD_CREATE_JOINABLE else PTHREAD_CREATE_DETACHED) ->
  pthread_attr_getschedparam a = (0, prio) -> stack_sz a = sz -> attributes_of a = mk_attributes j prio sz.
Proof.
  unfold pthread_attr_getdetachstate, pthread_attr_getschedparam, attributes_of. intros [= Hj] [= ->] ->. f_equal.
  by destruct (STATUS_JOINABLE (status a)), j.
Qed.

Lemma attributes_detach a :
  pthread_attr_getdetachstate a
  = (0, if joinable_ (attributes_of a) then PTHREAD_CREATE_JOINABLE else PTHREAD_CREATE_DETACHED).
Proof. done. Qed.

(** One call on the structure is one call on the record. *)
Lemma attr_simulates o a :
  wf_attr a ->
  let (r, a') := attr_exec o a in attr_spec o (attributes_of a) = (r, attributes_of a') /\ wf_attr a'.
Proof.
  intros Hw. pose proof (fun d q n => attr_ops_wf a d q n Hw) as Hops.
  destruct o as [| | |d| |prm| |n]; cbn [attr_exec attr_spec]; try (by split).
  - destruct (attr_init_default a) as (d & Hd & Hj & Hp & _). injection Hd as <-.
    split; [|by apply (Hops 0 None 0)]. do 2 f_equal. symmetry. by apply attributes_read.
  - pose proof (setdetachstate_cases a d Hw) as H. pose proof (proj1 (proj2 (Hops d None 0))) as Hw'.
    destruct (pthread_attr_setdetachstate a d) as [r a']. split; [|done].
    destruct ((d =? PTHREAD_CREATE_DETACHED) || (d =? PTHREAD_CREATE_JOINABLE)) eqn:E; [|by destruct H as [-> ->]].
    destruct H as (-> & Hd & Hp & Hs). do 2 f_equal. symmetry. apply attributes_read; [|done|done].
    rewrite Hd. apply orb_prop in E as [E|E]; bool_lia; by subst d.
  - pose proof (setschedparam_cases a prm Hw) as H. pose proof (proj1 (proj2 (proj2 (Hops 0 prm 0)))) as Hw'.
    destruct (pthread_attr_setschedparam a prm) as [r a']. split; [|done].
    destruct prm as [q|]; [|by destruct H as [-> ->]].
    destruct ((0 <=? q) && (q <=? sched_get_priority_max SCHED_OTHER)) eqn:E; [|by destruct H as [-> ->]].
    destruct H as (-> & Hp & Hd & Hs). do 2 f_equal. symmetry. by apply attributes_read; [rewrite Hd|..].
  - pose proof (proj2 (proj2 (proj2 (Hops 0 None n)))) as Hw'. unfold pthread_attr_setstacksize in *.
    destruct (n <? PTHREAD_STACK_MIN); by split.
Qed.

(** C23: The attribute functions are three independent attributes, in any
    sequence of calls: on a structure whose fields fit their 16 bits they
    give the results of the record [attributes], errors included, and leave
    the structure that stands for the record.  (The stack size is one of 16
    bits: a larger one is reduced without an error.) *)
Theorem attr_calls_record os a :
  wf_attr a ->
  run_calls attr_exec os a
  = (let (rs, s) := run_calls attr_spec os (attributes_of a) in (rs, packed s)).
Proof.
  revert a. induction os as [|o os IH]; intros a Hw; simpl; [by rewrite packed_attributes|].
  pose proof (attr_simulates o a Hw) as H. destruct (attr_exec o a) as [r a']. destruct H as [-> Hw'].
  rewrite (IH a' Hw'). by destruct (run_calls attr_spec os (attributes_of a')).
Qed.

(** A mutex type that is set is read back; an unknown type is refused. *)
Theorem mutexattr_type_roundtrip a ty :
  let (ret, a') := pthread_mutexattr_settype a ty in
  if (0 <=? ty) && (ty <=? 2) then ret = 0 /\ pthread_mutexattr_gettype a' = (0, ty)
  else ret = EINVAL /\ a' = a.
Proof.
  unfold pthread_mutexattr_settype, PTHREAD_MUTEX_NORMAL, PTHREAD_MUTEX_RECURSIVE, PTHREAD_MUTEX_ERRORCHECK.
  destruct ((0 <=? ty) && (ty <=? 2)) eqn:E; bool_lia.
  - assert (ty = 0 \/ ty = 1 \/ ty = 2) as [->|[->| ->]] by lia; done.
  - destruct E; bool_lia; test_false (ty =? 0); test_false (ty =? 2); by test_false (ty =? 1).
Qed.
End attr_props.

Section attr_witnesses.
Import Sim.

Lemma attr_ops_wf_witness :
  wf_attr PTHTREAD_ATTR_DEFAULT /\ wf_attr (pthread_attr_setdetachstate (mk_attr 2048 7) 1).2
  /\ wf_attr (pthread_attr_setschedparam (mk_attr 2048 7) (Some 3)).2
  /\ wf_attr (pthread_attr_setstacksize (mk_attr 2048 7) 70000).2.
Proof. apply attr_ops_wf. split; simpl; lia. Defined.

Lemma attr_calls_record_witness :
  run_calls attr_exec [SetDetach 0; SetSched (Some 5); SetStack 70000; SetSched (Some (-1)); GetDetach; GetSched; GetStack]
    (mk_attr 2048 0x8007)
  = ([(0, None); (0, None); (0, None); (ENOTSUP, None); (0, Some 0); (0, Some 5); (0, Some 4464)], mk_attr 4464 5).
Proof.
  rewrite attr_calls_record by (split; simpl; lia). vm_compute. reflexivity.
Defined.

Lemma setschedparam_spec_witness :
  let (ret, a') := pthread_attr_setschedparam (mk_attr 2048 0x8006) (Some 3) in
  if (0 <=? 3) && (3 <=? sched_get_priority_max SCHED_OTHER)
  then ret = 0 /\ pthread_attr_getschedparam a' = (0, 3)
       /\ pthread_attr_getdetachstate a' = pthread_attr_getdetachstate (mk_attr 2048 0x8006)
       /\ stack_sz a' = 2048
  else ret = ENOTSUP /\ a' = mk_attr 2048 0x8006.
Proof. apply (setschedparam_spec (mk_attr 2048 0x8006) (Some 3)). split; simpl; lia. Defined.

Lemma setstacksize_spec_witness :
  let (ret, a') := pthread_attr_setstacksize (mk_attr 2048 7) 65536 in
  ret = 0 /\ status a' = 7 /\ (pthread_attr_getstacksize a' = (0, 65536) <-> 65536 < 2 ^ 16).
Proof. apply (setstacksize_spec (mk_attr 2048 7) 65536). lia. Defined.

Lemma attr_init_default_witness :
  exists d, pthread_attr_init (Some (mk_attr 0 0)) = (0, Some d)
    /\ pthread_attr_getdetachstate d = (0, PTHREAD_CREATE_JOINABLE)
    /\ pthread_attr_getschedparam d = (0, CFG_TPRI_NUM - 2)
    /\ pthread_attr_getstacksize d = (0, PTHREAD_STACK_MIN).
Proof. apply attr_init_default. Defined.
End attr_witnesses.
