(* ===== verification/Mutex.v ===== *)
(** POSIX mutexes: [src/posix_pthread_mutex.c].  A [pthread_mutex_t] wraps a
    kernel mutex with an initialisation flag and a type.  The functions run
    on behalf of the calling task [c]; [abstime] is an absolute deadline,
    [None] for a null pointer. *)
From S2P Require Import Prelude Prog Kernel World SimKernel Timespec Clock Attr.

Section mutex.
Context `{P : Platform} `{K : Kernel}.

Definition mutex_inited (p : Z) : ref Z :=
  fld p m_inited (fun v m => mk_mutex v (m_mux m) (m_attr m)).
Definition mutex_mux (p : Z) : ref mut_t :=
  fld p m_mux (fun v m => mk_mutex (m_inited m) v (m_attr m)).
Definition mutex_type (p : Z) : ref Z :=
  fld p (fun m => type (m_attr m)) (fun v m => mk_mutex (m_inited m) (m_mux m) (mk_mutexattr v)).
(** [mux->mux.own], which the library only reads. *)
Definition mutex_own (p : Z) : ref Z := fld p (fun m => mut_own (m_mux m)) (fun _ m => m).

(** [{0,0,0,0}] *)
Definition PTHREAD_MUTEX_INITIALIZER : pthread_mutex_t := mk_mutex 0 mut_zero (mk_mutexattr 0).

Definition pthread_mutex_destroy (mux : Z) : prog world Z := Ret 0.

Definition pthread_mutex_init (mux : Z) (attr : option pthread_mutexattr_t) : prog world Z :=
  let ret := if mux =? 0 then ENOMEM else 0 in
  if ret =? 0 then
    store (mutex_type mux) (match attr with None => PTHREAD_MUTEX_DEFAULT | Some a => type a end) ;;
    kmod (mutex_mux mux) (fun _ => mut_init) ;;
    store (mutex_inited mux) 1 ;;
    Ret ret
  else Ret ret.

(** [sleep_ticks] is an uninitialised local: without a deadline it keeps the
    value it happens to have. *)
Definition pthread_mutex_timedlock (c : caller) (mux : Z) (abstime : option timespec)
  : prog world Z :=
  let* i := load (mutex_inited mux) in
  if i =? 0 then Ret EINVAL else
  let* sleep_ticks := get garbage in
  let* (ret, sleep_ticks) :=
    match abstime with
    | None => Ret (0, sleep_ticks)
    | Some _ =>
        let* (r, cur) := clock_gettime CLOCK_REALTIME (Some zero_timespec) in
        let* (ret, ticks) :=
          if negb (r =? 0) then Ret (EINVAL, Some sleep_ticks)
          else lift (abs_timespec2ticks abstime cur (Some sleep_ticks)) in
        if ret =? ETIMEDOUT then Ret (0, 0) else Ret (ret, default sleep_ticks ticks)
    end in
  let* ret :=
    if ret =? 0 then
      let* ty := load (mutex_type mux) in
      if ty =? PTHREAD_MUTEX_ERRORCHECK then
        let* own := load (mutex_own mux) in
        Ret (if own =? task_cur c then EDEADLK else ret)
      else Ret ret
    else Ret ret in
  if ret =? 0 then
    kcall (mutex_mux mux) (mut_lock (task_cur c) sleep_ticks) ;;
    Ret ret
  else Ret ret.

Definition pthread_mutex_lock (c : caller) (mux : Z) : prog world Z :=
  pthread_mutex_timedlock c mux None.

Definition pthread_mutex_trylock (c : caller) (mux : Z) : prog world Z :=
  let* ret := pthread_mutex_timedlock c mux (Some (mk_timespec 0 0)) in
  Ret (if ret =? ETIMEDOUT then EBUSY else ret).

Definition pthread_mutex_unlock (c : caller) (mux : Z) : prog world Z :=
  let* i := load (mutex_inited mux) in
  if i =? 0 then Ret EINVAL else
  let* ty := load (mutex_type mux) in
  let* ret :=
    if (ty =? PTHREAD_MUTEX_ERRORCHECK) || (ty =? PTHREAD_MUTEX_RECURSIVE) then
      let* own := load (mutex_own mux) in
      Ret (if negb (own =? task_cur c) then EPERM else 0)
    else Ret 0 in
  if ret =? 0 then
    kmod (mutex_mux mux) (mut_unlock (task_cur c)) ;;
    Ret ret
  else Ret ret.
End mutex.

(** ** Lemmas *)

Section mutex_lemmas.
Context `{P : Platform} `{!PlatformOk P} `{K : Kernel}.
Implicit Types (w : world) (c : caller) (m : pthread_mutex_t).

(** The kernel mutex of [m] replaced. *)
Definition with_mux (x : mut_t) (m : pthread_mutex_t) : pthread_mutex_t :=
  mk_mutex (m_inited m) x (m_attr m).

(** A deadline of zero has always passed, or is now at tick zero. *)
Lemma zero_deadline w r :
  clock_ok w ->
  abs_timespec2ticks (Some zero_timespec) (Some (now_timespec w)) (Some r)
  = Some (ETIMEDOUT, Some r) \/
  abs_timespec2ticks (Some zero_timespec) (Some (now_timespec w)) (Some r) = Some (0, Some 0).
Proof.
  intros Hw. assert (valid_timespec zero_timespec) as Hz by (split; simpl; unfold NANOSECONDS_PER_SECOND; lia).
  unfold abs_timespec2ticks.
  pose proof (timespec_sub_eq zero_timespec (now_timespec w) zero_timespec Hz (now_valid w)
    ltac:(simpl; lia) (now_sec w Hw)) as Hs.
  destruct (nanos zero_timespec <? nanos (now_timespec w)) eqn:E.
  - left. by rewrite Hs.
  - right. destruct Hs as (z & -> & Hv & Hn & Hsec). cbn [mbind option_bind Z.eqb].
    rewrite timespec2ticks_eq by (done || (split; lia)).
    assert (tv_sec z = 0 /\ tv_nsec z = 0) as [Ez En].
    { rewrite now_nanos in *. destruct Hw as [Hw _]. pose proof NPT_range.
      unfold nanos, valid_timespec, NANOSECONDS_PER_SECOND in *. simpl in *. bool_lia. }
    unfold tick_count. rewrite Ez, En, Z.mul_0_r. pose proof NPT_range.
    rewrite (ceil_div_unique 0 NANOSECONDS_PER_TICK 0) by lia. done.
Qed.

(** The locking call, once the deadline has been converted to [t] ticks. *)
Lemma run_timedlock w c p m abstime t :
  clock_ok w -> at_ p w = Some m -> m_inited m <> 0 ->
  match abstime with
  | None => t = garbage w
  | Some a => exists ret x,
      abs_timespec2ticks (Some a) (Some (now_timespec w)) (Some (garbage w)) = Some (ret, Some x)
      /\ (ret = ETIMEDOUT /\ t = 0 \/ ret = 0 /\ t = x)
  end ->
  run (pthread_mutex_timedlock c p abstime) w =
  if (type (m_attr m) =? PTHREAD_MUTEX_ERRORCHECK) && (mut_own (m_mux m) =? task_cur c)
  then [Done EDEADLK w]
  else run (kcall (mutex_mux p) (mut_lock (task_cur c) t) ;; Ret 0) w.
Proof.
  intros Hw Hp Hi Ht. unfold pthread_mutex_timedlock, mutex_inited.
  step. test_false (m_inited m =? 0). step.
  assert (forall k : Z * Z -> prog world Z,
    run (bind (match abstime with
         | None => Ret (0, garbage w)
         | Some _ =>
             let* (r, cur) := clock_gettime CLOCK_REALTIME (Some zero_timespec) in
             let* (ret, ticks) :=
               if negb (r =? 0) then Ret (EINVAL, Some (garbage w))
               else lift (abs_timespec2ticks abstime cur (Some (garbage w))) in
             if ret =? ETIMEDOUT then Ret (0, 0) else Ret (ret, default (garbage w) ticks)
         end) k) w = run (k (0, t)) w) as Hk.
  { intros k. apply run_call. destruct abstime as [a|]; [|by rewrite Ht].
    destruct Ht as (ret & x & Ha & [[-> ->]|[-> ->]]);
      rewrite run_gettime by done; cbn [negb Z.eqb]; rewrite Ha; done. }
  rewrite Hk. cbn [Z.eqb]. unfold mutex_type, mutex_own.
  destruct (type (m_attr m) =? PTHREAD_MUTEX_ERRORCHECK) eqn:E; cbn [andb].
  - rewrite run_bind. erewrite run_load by done. rewrite E.
    erewrite run_load by done. simpl. rewrite app_nil_r.
    by destruct (mut_own (m_mux m) =? task_cur c).
  - rewrite run_bind. erewrite run_load by done. rewrite E. simpl. by rewrite app_nil_r.
Qed.

Lemma run_timedlock_other w c p m abstime t :
  clock_ok w -> at_ p w = Some m -> m_inited m <> 0 ->
  match abstime with
  | None => t = garbage w
  | Some a => exists ret x,
      abs_timespec2ticks (Some a) (Some (now_timespec w)) (Some (garbage w)) = Some (ret, Some x)
      /\ (ret = ETIMEDOUT /\ t = 0 \/ ret = 0 /\ t = x)
  end ->
  mut_own (m_mux m) <> task_cur c ->
  run (pthread_mutex_timedlock c p abstime) w =
  run (kcall (mutex_mux p) (mut_lock (task_cur c) t) ;; Ret 0) w.
Proof.
  intros Hw Hp Hi Ht Hme. rewrite (run_timedlock w c p m abstime t) by done.
  test_false (mut_own (m_mux m) =? task_cur c). by rewrite andb_false_r.
Qed.

Lemma run_unlock w c p m :
  at_ p w = Some m -> m_inited m <> 0 ->
  (type (m_attr m) = PTHREAD_MUTEX_NORMAL \/ mut_own (m_mux m) = task_cur c) ->
  run (pthread_mutex_unlock c p) w
  = [Done 0 (put p (with_mux (mut_unlock (task_cur c) (m_mux m)) m) w)].
Proof.
  intros Hp Hi Ho. unfold pthread_mutex_unlock, mutex_inited, mutex_type, mutex_own, mutex_mux.
  step. test_false (m_inited m =? 0). step.
  destruct ((type (m_attr m) =? PTHREAD_MUTEX_ERRORCHECK) || (type (m_attr m) =? PTHREAD_MUTEX_RECURSIVE)) eqn:E.
  - destruct Ho as [Ho|Ho]; [by rewrite Ho in E|].
    rewrite run_bind. erewrite run_load by done. rewrite Ho, Z.eqb_refl. simpl.
    by rewrite app_nil_r, Hp.
  - cbn [bind Z.eqb]. by step.
Qed.
End mutex_lemmas.

(** ** Properties *)

Section mutex_props.
Context `{P : Platform} `{!PlatformOk P} `{K : Kernel} (L : MutLaws P K).
Implicit Types (w : world) (c : caller) (m : pthread_mutex_t).

(** The deadline is absent, or it can be converted to ticks or has passed. *)
Definition good_deadline w (abstime : option timespec) : Prop :=
  match abstime with
  | None => True
  | Some a => exists ret x,
      abs_timespec2ticks (Some a) (Some (now_timespec w)) (Some (garbage w)) = Some (ret, Some x)
      /\ (ret = ETIMEDOUT \/ ret = 0)
  end.

Lemma good_deadline_ticks w abstime :
  good_deadline w abstime ->
  exists t, match abstime with
    | None => t = garbage w
    | Some a => exists ret x,
        abs_timespec2ticks (Some a) (Some (now_timespec w)) (Some (garbage w)) = Some (ret, Some x)
        /\ (ret = ETIMEDOUT /\ t = 0 \/ ret = 0 /\ t = x)
    end.
Proof.
  destruct abstime as [a|]; intros Hd; [|by eexists].
  destruct Hd as (ret & x & Ha & [->| ->]); eauto 10.
Qed.

(** Locking an initialised mutex that is free gives it to the caller and
    returns 0, for every mutex type and deadline and whatever the
    uninitialised timeout is; the owner's unlock then frees it. *)
Theorem lock_unlock_free w c p m abstime :
  clock_ok w -> at_ p w = Some m -> m_inited m <> 0 ->
  task_cur c <> 0 -> mut_own (m_mux m) = 0 -> good_deadline w abstime ->
  exists x y,
    run (pthread_mutex_timedlock c p abstime) w = [Done 0 (put p (with_mux x m) w)]
    /\ mut_own x = task_cur c
    /\ run (pthread_mutex_unlock c p) (put p (with_mux x m) w) = [Done 0 (put p (with_mux y m) w)]
    /\ mut_own y = 0.
Proof.
  intros Hw Hp Hi Hc Hfree Hd.
  assert (exists t, run (pthread_mutex_timedlock c p abstime) w =
    run (kcall (mutex_mux p) (mut_lock (task_cur c) t) ;; Ret 0) w) as [t Ht].
  { destruct (good_deadline_ticks w abstime Hd) as [t Ht]. exists t. rewrite (run_timedlock w c p m abstime t) by done.
    rewrite Hfree. test_false (0 =? task_cur c). by rewrite andb_false_r. }
  destruct (mut_lock_free (m_mux m) (task_cur c) t Hc Hfree) as (x & Hx & Hheld).
  exists x, (mut_unlock (task_cur c) x). pose proof (mut_held_own x _ Hheld) as Hown.
  split; [|split; [done|split; [|by apply mut_unlock_held]]].
  - rewrite Ht. unfold mutex_mux. by kstep Hx.
  - rewrite (run_unlock _ c p (with_mux x m)); [by rewrite put_put|apply at_put|done|by right].
Qed.

(** An error-checking mutex that its owner locks again returns
    [EDEADLK] and nothing changes. *)
Theorem errorcheck_relock w c p m abstime :
  clock_ok w -> at_ p w = Some m -> m_inited m <> 0 -> good_deadline w abstime ->
  type (m_attr m) = PTHREAD_MUTEX_ERRORCHECK -> mut_own (m_mux m) = task_cur c ->
  run (pthread_mutex_timedlock c p abstime) w = [Done EDEADLK w].
Proof.
  intros Hw Hp Hi Hd Hty Hown.
  destruct (good_deadline_ticks w abstime Hd) as [t Ht].
  rewrite (run_timedlock w c p m abstime t) by done.
  by rewrite Hty, Hown, !Z.eqb_refl.
Qed.

(** The refusal to unlock. *)
Lemma unlock_refused w c p m :
  at_ p w = Some m -> m_inited m <> 0 ->
  type (m_attr m) = PTHREAD_MUTEX_ERRORCHECK \/ type (m_attr m) = PTHREAD_MUTEX_RECURSIVE ->
  mut_own (m_mux m) <> task_cur c ->
  run (pthread_mutex_unlock c p) w = [Done EPERM w].
Proof.
  intros Hp Hi Hty Ho. unfold pthread_mutex_unlock, mutex_inited, mutex_type, mutex_own.
  step. test_false (m_inited m =? 0). step.
  assert ((type (m_attr m) =? PTHREAD_MUTEX_ERRORCHECK)
          || (type (m_attr m) =? PTHREAD_MUTEX_RECURSIVE) = true) as -> by (by destruct Hty as [->| ->]).
  step. by test_false (mut_own (m_mux m) =? task_cur c).
Qed.

(** Unlocking an initialised mutex: the error-checking and recursive
    types refuse with [EPERM] a caller that is not the owner, and nothing
    changes; in every other case the call unlocks the kernel mutex. *)
Theorem unlock_checks_owner w c p m :
  at_ p w = Some m -> m_inited m <> 0 ->
  type (m_attr m) ∈ [PTHREAD_MUTEX_NORMAL; PTHREAD_MUTEX_ERRORCHECK; PTHREAD_MUTEX_RECURSIVE] ->
  run (pthread_mutex_unlock c p) w =
  if negb (type (m_attr m) =? PTHREAD_MUTEX_NORMAL) && negb (mut_own (m_mux m) =? task_cur c)
  then [Done EPERM w]
  else [Done 0 (put p (with_mux (mut_unlock (task_cur c) (m_mux m)) m) w)].
Proof.
  intros Hp Hi Hty.
  destruct (mut_own (m_mux m) =? task_cur c) eqn:Eo; cbn [negb].
  - rewrite andb_false_r. apply run_unlock; [done..|]. right. bool_lia.
  - rewrite andb_true_r.
    destruct (type (m_attr m) =? PTHREAD_MUTEX_NORMAL) eqn:Et; cbn [negb].
    + apply run_unlock; [done..|]. left. bool_lia.
    + apply (unlock_refused w c p m); [done..| |bool_lia].
      apply Z.eqb_neq in Et. rewrite !elem_of_cons in Hty.
      destruct Hty as [?|[->|[->|?]]]; [done|auto|auto|set_solver].
Qed.

(** Locking and unlocking a mutex that was not initialised return
    [EINVAL] and change nothing. *)
Theorem uninitialised_mutex w c p m abstime :
  at_ p w = Some m -> m_inited m = 0 ->
  run (pthread_mutex_timedlock c p abstime) w = [Done EINVAL w]
  /\ run (pthread_mutex_trylock c p) w = [Done EINVAL w]
  /\ run (pthread_mutex_unlock c p) w = [Done EINVAL w].
Proof.
  intros Hp Hi.
  assert (forall a, run (pthread_mutex_timedlock c p a) w = [Done EINVAL w]) as H.
  { intros a. unfold pthread_mutex_timedlock, mutex_inited. step. by rewrite Hi. }
  split; [done|split].
  - unfold pthread_mutex_trylock. by erewrite run_call by apply H.
  - unfold pthread_mutex_unlock, mutex_inited. step. by rewrite Hi.
Qed.

(** What a contended lock does: the kernel's answer is dropped. *)
Lemma busy_lock_ensures w c p m t :
  at_ p w = Some m -> mut_own (m_mux m) <> 0 -> mut_own (m_mux m) <> task_cur c -> t = 0 ->
  ensures (kcall (mutex_mux p) (mut_lock (task_cur c) t) ;; Ret 0) w
    (fun ret w' => ret = 0 /\ w' = put p m w).
Proof.
  intros Hp H0 Hme ->. apply ensures_bind. eapply ensures_kcall; [done|by apply mut_lock_nowait|].
  intros a o Ho. destruct (mut_lock_busy _ _ _ _ _ H0 Hme Ho) as [_ ->].
  apply ensures_ret. split; [done|]. by destruct m.
Qed.

(** C35: [pthread_mutex_trylock] on a mutex that another task holds does not
    block and returns 0, as if the lock had been taken, while the mutex is
    unchanged: the result of the kernel's [mut_lock] is dropped, and [EBUSY]
    is never returned. *)
Theorem trylock_busy_reports_success w c p m :
  clock_ok w -> at_ p w = Some m -> m_inited m <> 0 ->
  mut_own (m_mux m) <> 0 -> mut_own (m_mux m) <> task_cur c ->
  ensures (pthread_mutex_trylock c p) w
    (fun ret w' => ret = 0 /\ at_ p w' = Some m).
Proof.
  intros Hw Hp Hi H0 Hme. unfold pthread_mutex_trylock. apply ensures_bind.
  eapply ensures_run; [apply (run_timedlock_other w c p m _ 0); try done|].
  { destruct (zero_deadline w (garbage w) Hw) as [Hz|Hz]; eauto 8. }
  eapply ensures_weaken; [by eapply busy_lock_ensures|].
  intros r w' [-> ->]. apply ensures_ret. by rewrite at_put.
Qed.

(** [pthread_mutex_lock] on a mutex that another task holds passes an
    uninitialised timeout to the kernel: with the value [WAIT] in the local
    it blocks, and with 0 it returns 0 at once without holding the mutex. *)
Theorem lock_busy_depends_on_garbage w c p m :
  clock_ok w -> at_ p w = Some m -> m_inited m <> 0 ->
  mut_own (m_mux m) <> 0 -> mut_own (m_mux m) <> task_cur c ->
  (garbage w = WAIT -> run (pthread_mutex_lock c p) w = [])
  /\ (garbage w = 0 -> ensures (pthread_mutex_lock c p) w
        (fun ret w' => ret = 0 /\ at_ p w' = Some m)).
Proof.
  intros Hw Hp Hi H0 Hme. unfold pthread_mutex_lock.
  pose proof (run_timedlock_other w c p m None (garbage w) Hw Hp Hi eq_refl Hme) as E.
  split; intros Hg; rewrite Hg in E.
  - rewrite E. unfold mutex_mux. erewrite run_kcall_block; [done|done|]. by apply mut_lock_wait.
  - eapply ensures_run; [apply E|].
    eapply ensures_weaken; [by eapply busy_lock_ensures|].
    intros r w' [-> ->]. by rewrite at_put.
Qed.

End mutex_props.

Section mutex_witnesses.
Import Sim.

(** A mutex at address 64 with type [ty], held by the task [own] (0: free). *)
Definition sim_mutex (inited ty own : Z) : @pthread_mutex_t sim_kernel :=
  @mk_mutex sim_kernel inited (own, if own =? 0 then 0%nat else 1%nat) (mk_mutexattr ty).
Definition mutex_world (inited ty own : Z) : world :=
  sim_world {[ 64 := OMutex (sim_mutex inited ty own) ]}.
Definition after (x : @mut_t sim_kernel) : world :=
  put (S:=@pthread_mutex_t sim_kernel) 64 (with_mux x (sim_mutex 1 0 0)) (mutex_world 1 0 0).

Lemma lock_unlock_free_witness :
  exists x y,
    run (pthread_mutex_timedlock task_a 64 None) (mutex_world 1 0 0)
    = [Done 0 (after x)]
    /\ mut_own x = 11
    /\ run (pthread_mutex_unlock task_a 64) (after x)
      = [Done 0 (after y)]
    /\ mut_own y = 0.
Proof.
  apply (lock_unlock_free sim_mut_laws (mutex_world 1 0 0) task_a 64 (sim_mutex 1 0 0) None);
    [apply sim_clock_ok | reflexivity | simpl; lia | simpl; lia | reflexivity | exact I].
Defined.

Lemma errorcheck_relock_witness :
  run (pthread_mutex_timedlock task_a 64 (Some (mk_timespec 1 0))) (mutex_world 1 1 11)
  = [Done EDEADLK (mutex_world 1 1 11)].
Proof.
  apply (errorcheck_relock (mutex_world 1 1 11) task_a 64 (sim_mutex 1 1 11));
    [apply sim_clock_ok | reflexivity | simpl; lia | | reflexivity | reflexivity].
  exists ETIMEDOUT, 0. split; [reflexivity | left; reflexivity].
Defined.

Lemma unlock_checks_owner_witness :
  run (pthread_mutex_unlock task_b 64) (mutex_world 1 2 11) = [Done EPERM (mutex_world 1 2 11)].
Proof.
  rewrite (unlock_checks_owner (mutex_world 1 2 11) task_b 64 (sim_mutex 1 2 11)).
  - reflexivity.
  - reflexivity.
  - simpl. lia.
  - simpl. set_solver.
Defined.

Lemma uninitialised_mutex_witness :
  run (pthread_mutex_timedlock task_a 64 None) (mutex_world 0 0 0) = [Done EINVAL (mutex_world 0 0 0)]
  /\ run (pthread_mutex_trylock task_a 64) (mutex_world 0 0 0) = [Done EINVAL (mutex_world 0 0 0)]
  /\ run (pthread_mutex_unlock task_a 64) (mutex_world 0 0 0) = [Done EINVAL (mutex_world 0 0 0)].
Proof.
  apply (uninitialised_mutex (mutex_world 0 0 0) task_a 64 (sim_mutex 0 0 0));
    reflexivity.
Defined.

Lemma trylock_busy_reports_success_witness :
  ensures (pthread_mutex_trylock task_b 64) (mutex_world 1 0 11)
    (fun ret w' => ret = 0 /\ at_ 64 w' = Some (sim_mutex 1 0 11)).
Proof.
  apply (trylock_busy_reports_success sim_mut_laws); [apply sim_clock_ok | reflexivity | simpl; lia..].
Defined.

Lemma lock_busy_depends_on_garbage_witness :
  (0 = WAIT -> run (pthread_mutex_lock task_b 64) (mutex_world 1 0 11) = [])
  /\ (0 = 0 -> ensures (pthread_mutex_lock task_b 64) (mutex_world 1 0 11)
        (fun ret w' => ret = 0 /\ at_ 64 w' = Some (sim_mutex 1 0 11))).
Proof.
  apply (lock_busy_depends_on_garbage sim_mut_laws (mutex_world 1 0 11) task_b 64
    (sim_mutex 1 0 11)); [apply sim_clock_ok | reflexivity | simpl; lia..].
Defined.
End mutex_witnesses.
