(* ===== verification/MutexPool.v ===== *)
(** Tasks that share data under a POSIX mutex: task [i] locks the mutex at
    [mtx], runs [body i] on the data and unlocks.  The file proves what the
    lock is for: the bodies exclude each other, the pool has the effects of
    running the bodies one after the other in some order, and a data
    invariant that the bodies keep holds whenever the mutex is free.  All of
    it depends on the value that the uninitialised timeout of
    [pthread_mutex_lock] happens to have. *)
From S2P Require Import Prelude Prog Kernel World Machine Lock SimKernel Timespec Clock Attr Mutex.

Section critical.
Context `{P : Platform} `{K : Kernel}.
Context (who : nat -> caller) (mtx : Z) (body : nat -> prog world unit).

(** What task [i] does: the client of the mutex. *)
Definition critical (i : nat) : prog world Z :=
  let* r := pthread_mutex_lock (who i) mtx in
  if r =? 0 then body i ;; pthread_mutex_unlock (who i) mtx else Ret r.

Definition workers (n : nat) : list (prog world Z) := map critical (seq 0 n).

(** ** Program points *)

Inductive lpc :=
| LInit | LTicks | LType (t : Z) | LOwn (t : Z) | LLock (t : Z)
| LBody (b : prog world unit)
| UType | UOwn | UUnlock
| LOut (r : Z).

(** *** The code that remains at each one *)

Definition after_lock (i : nat) (r : Z) : prog world Z :=
  if r =? 0 then body i ;; pthread_mutex_unlock (who i) mtx else Ret r.

Definition lock_mux (i : nat) (t : Z) : prog world Z :=
  kcall (mutex_mux mtx) (mut_lock (task_cur (who i)) t) ;; Ret 0.

Definition lock_own (i : nat) (t : Z) : prog world Z :=
  let* ret := let* own := load (mutex_own mtx) in
              Ret (if own =? task_cur (who i) then EDEADLK else 0) in
  if ret =? 0 then
    kcall (mutex_mux mtx) (mut_lock (task_cur (who i)) t) ;; Ret ret
  else Ret ret.

Definition lock_type (i : nat) (t : Z) : prog world Z :=
  let* ret :=
    let* ty := load (mutex_type mtx) in
    if ty =? PTHREAD_MUTEX_ERRORCHECK then
      let* own := load (mutex_own mtx) in
      Ret (if own =? task_cur (who i) then EDEADLK else 0)
    else Ret 0 in
  if ret =? 0 then
    kcall (mutex_mux mtx) (mut_lock (task_cur (who i)) t) ;; Ret ret
  else Ret ret.

Definition unlock_mux (i : nat) (ret : Z) : prog world Z :=
  if ret =? 0 then kmod (mutex_mux mtx) (mut_unlock (task_cur (who i))) ;; Ret ret else Ret ret.

Definition unlock_own (i : nat) : prog world Z :=
  let* ret := let* own := load (mutex_own mtx) in
              Ret (if negb (own =? task_cur (who i)) then EPERM else 0) in
  unlock_mux i ret.

Definition unlock_type (i : nat) : prog world Z :=
  let* ty := load (mutex_type mtx) in
  let* ret :=
    if (ty =? PTHREAD_MUTEX_ERRORCHECK) || (ty =? PTHREAD_MUTEX_RECURSIVE) then
      let* own := load (mutex_own mtx) in
      Ret (if negb (own =? task_cur (who i)) then EPERM else 0)
    else Ret 0 in
  unlock_mux i ret.

Definition lock_residual (i : nat) (q : lpc) : prog world Z :=
  match q with
  | LInit => critical i
  | LTicks => let* r := let* t := get garbage in lock_type i t in after_lock i r
  | LType t => let* r := lock_type i t in after_lock i r
  | LOwn t => let* r := lock_own i t in after_lock i r
  | LLock t => let* r := lock_mux i t in after_lock i r
  | LBody b => b ;; pthread_mutex_unlock (who i) mtx
  | UType => unlock_type i
  | UOwn => unlock_own i
  | UUnlock => unlock_mux i 0
  | LOut r => Ret r
  end.

(** *** and its actions *)

Definition ltr : Type := (lpc * world) + fault.

Definition on_mutex (w : world) (k : pthread_mutex_t -> list ltr) : list ltr :=
  match at_ mtx w with
  | Some m => k m
  | None => [inr BadPointer]
  end.

Definition lock_next (i : nat) (q : lpc) (w : world) : list ltr :=
  let me := task_cur (who i) in
  match q with
  | LInit => on_mutex w (fun m => [inl (if m_inited m =? 0 then LOut EINVAL else LTicks, w)])
  | LTicks => [inl (LType (garbage w), w)]
  | LType t => on_mutex w (fun m =>
      [inl (if type (m_attr m) =? PTHREAD_MUTEX_ERRORCHECK then LOwn t else LLock t, w)])
  | LOwn t => on_mutex w (fun m =>
      [inl (if mut_own (m_mux m) =? me then LOut EDEADLK else LLock t, w)])
  | LLock t => on_mutex w (fun m =>
      map (fun x => inl (LBody (body i), put mtx (with_mux x.2 m) w)) (mut_lock me t (m_mux m)))
  | LBody (Ret _) => on_mutex w (fun m => [inl (if m_inited m =? 0 then LOut EINVAL else UType, w)])
  | LBody b => map (fun o => match o with Done b' v => inl (LBody b', v) | Fault e => inr e end) (pstep b w)
  | UType => on_mutex w (fun m =>
      [inl (if (type (m_attr m) =? PTHREAD_MUTEX_ERRORCHECK) || (type (m_attr m) =? PTHREAD_MUTEX_RECURSIVE)
            then UOwn else UUnlock, w)])
  | UOwn => on_mutex w (fun m =>
      [inl (if negb (mut_own (m_mux m) =? me) then LOut EPERM else UUnlock, w)])
  | UUnlock => on_mutex w (fun m => [inl (LOut 0, put mtx (with_mux (mut_unlock me (m_mux m)) m) w)])
  | LOut r => []
  end.

Lemma lock_code_next i q w v :
  Some w = Some v ->
  pstep (lock_residual i q) w
  = map (fun o => match o with
                  | inl x => Done (lock_residual i x.1) x.2
                  | inr e => Fault e
                  end) (lock_next i q v).
Proof.
  intros [= <-].
  destruct q as [| |t|t|t|[u|A a k]| | | |r]; cbn [lock_residual lock_next]; unfold on_mutex; try done.
  - cbn. destruct (at_ mtx w) as [m|]; [|done]. cbn. by destruct (m_inited m =? 0).
  - cbn. destruct (at_ mtx w) as [m|]; [|done]. cbn. by destruct (type (m_attr m) =? _).
  - cbn. destruct (at_ mtx w) as [m|]; [|done]. cbn. by destruct (mut_own (m_mux m) =? _).
  - cbn. destruct (at_ mtx w) as [m|]; [|done]. rewrite !map_map. apply map_ext. by intros [r x].
  - cbn. destruct (at_ mtx w) as [m|]; [|done]. cbn. by destruct (m_inited m =? 0).
  - cbn. rewrite !map_map. apply map_ext. by intros [x v|e].
  - cbn. destruct (at_ mtx w) as [m|]; [|done]. cbn. by destruct (_ || _).
  - cbn. destruct (at_ mtx w) as [m|]; [|done]. cbn. by destruct (negb _).
  - cbn. by destruct (at_ mtx w).
Qed.

#[local] Instance lock_machine : Machine world Z lpc world := {|
  view w := Some w;
  update s _ := s;
  view_update s w := eq_refl;
  residual := lock_residual;
  transitions := lock_next;
  code_next i q s w H := lock_code_next i q w s H
|}.

(** ** Bodies

    [guest b]: the actions of [b] do not depend on the mutex and do not
    change it. *)
Definition framed_outcome {A} (g : world -> world) (o : outcome world A) : outcome world A :=
  match o with
  | Done x v => Done x (g v)
  | Fault e => Fault e
  end.

Definition blind {A} (a : action world A) : Prop :=
  forall w (m m' : pthread_mutex_t), at_ mtx w = Some m ->
    a (put mtx m' w) = map (framed_outcome (put mtx m')) (a w)
    /\ forall x v, Done x v ∈ a w -> at_ mtx v = Some m /\ garbage v = garbage w.

Inductive guest {R} : prog world R -> Prop :=
| GuestRet r : guest (Ret r)
| GuestAct A (a : action world A) k : blind a -> (forall x, guest (k x)) -> guest (Act a k).

(** The bodies one after the other. *)
Fixpoint serial (order : list nat) : prog world unit :=
  match order with
  | [] => Ret tt
  | i :: order' => body i ;; serial order'
  end.

Lemma serial_snoc order i w w1 w2 :
  Done tt w1 ∈ run (serial order) w -> Done tt w2 ∈ run (body i) w1 ->
  Done tt w2 ∈ run (serial (order ++ [i])) w.
Proof.
  revert w. induction order as [|j order IH]; intros w H1 H2; simpl in *.
  - apply list_elem_of_singleton in H1. simplify_eq.
    eapply run_seq; [exact H2|]. by apply list_elem_of_singleton.
  - rewrite run_bind in H1. apply elem_of_obind in H1 as ([u v|e] & Hv & H1); simpl in H1.
    + eapply run_seq; [exact Hv|]. by apply IH.
    + by apply list_elem_of_singleton in H1.
Qed.

Lemma guest_pstep {R} (b : prog world R) w (m m' : pthread_mutex_t) :
  guest b -> at_ mtx w = Some m ->
  pstep b (put mtx m' w) = map (framed_outcome (put mtx m')) (pstep b w).
Proof.
  intros [r|A a k Ha Hk] Hm; [done|]. simpl. destruct (Ha w m m' Hm) as [-> _].
  rewrite !map_map. apply map_ext. by intros [x v|e].
Qed.

Lemma guest_keeps {R} (b b' : prog world R) w v (m : pthread_mutex_t) :
  guest b -> at_ mtx w = Some m -> Done b' v ∈ pstep b w ->
  guest b' /\ at_ mtx v = Some m /\ garbage v = garbage w.
Proof.
  intros [r|A a k Ha Hk] Hm Hs; simpl in Hs; [set_solver|].
  apply list_elem_of_fmap in Hs as ([x v'|e] & Hx & Hin); simplify_eq.
  split; [done|]. destruct (Ha w m m Hm) as [_ H]. by apply (H x).
Qed.

(** ** The invariant *)

Context (ML : MutLaws P K).
Context (m0 : pthread_mutex_t) (w0 : world).
Hypothesis who_task : forall i, task_cur (who i) <> 0.
Hypothesis who_inj : forall i j, task_cur (who i) = task_cur (who j) -> i = j.
Hypothesis bodies_guest : forall i, guest (body i).

Definition l_in_cs (q : lpc) : Z :=
  match q with LBody _ | UType | UOwn | UUnlock => 1 | _ => 0 end.

(** The body of the task has been run. *)
Definition past (q : lpc) : bool :=
  match q with UType | UOwn | UUnlock | LOut _ => true | _ => false end.

Definition in_body (q : lpc) : bool := match q with LBody _ => true | _ => false end.

Definition l_knows (q : lpc) : Prop :=
  match q with
  | LType t | LOwn t | LLock t => t = WAIT
  | LBody b => guest b
  | LOut r => r = 0
  | _ => True
  end.

(** The world but for the mutex. *)
Definition data (w : world) : world := put mtx m0 w.

(** The state [ps], [w] of the pool is explained by the bodies of [order],
    run one after the other from [w0] to [w1], and by the steps that the
    body of the task inside has made since. *)
Record explained (order : list nat) (w1 : world) (ps : list lpc) (w : world) (m : pthread_mutex_t)
  : Prop := {
  ex_at : at_ mtx w = Some m;
  ex_inited : m_inited m <> 0;
  ex_garbage : garbage w = WAIT;
  ex_lock : lock_inv ML who l_in_cs ps (m_mux m);
  ex_knows : forall i q, ps !! i = Some q -> l_knows q;
  ex_nodup : NoDup order;
  ex_order : forall i, i ∈ order <-> exists q, ps !! i = Some q /\ past q;
  ex_serial : Done tt w1 ∈ run (serial order) w0;
  ex_body : forall i b, ps !! i = Some (LBody b) -> solo (body i) w1 b (data w);
  ex_idle : (forall i q, ps !! i = Some q -> in_body q = false) -> data w = w1
}.

Lemma l_in_cs_bit q : l_in_cs q = 0 \/ l_in_cs q = 1.
Proof. destruct q; auto. Qed.

Lemma data_put (x : pthread_mutex_t) w : data (put mtx x w) = data w.
Proof. apply put_put. Qed.

Implicit Types (ps : list lpc) (m : pthread_mutex_t) (order : list nat).

(** Looking up after one thread moved. *)
Lemma moved {A} (ps : list A) i j (q q' r : A) :
  ps !! i = Some q -> <[i:=q']> ps !! j = Some r -> j = i /\ r = q' \/ j <> i /\ ps !! j = Some r.
Proof.
  intros Hi Hj. destruct (decide (i = j)) as [<-|Hne].
  - left. rewrite list_lookup_insert_eq in Hj by (by eapply lookup_lt_Some). by simplify_eq.
  - right. by rewrite list_lookup_insert_ne in Hj.
Qed.

Lemma knows_moved ps i q q' :
  (forall j r, ps !! j = Some r -> l_knows r) -> ps !! i = Some q -> l_knows q' ->
  forall j r, <[i:=q']> ps !! j = Some r -> l_knows r.
Proof. intros H Hi Hq j r Hj. destruct (moved ps i j q q' r Hi Hj) as [[-> ->]|[_ Hj']]; eauto. Qed.

Lemma order_moved ps i q q' order :
  (forall j, j ∈ order <-> exists r, ps !! j = Some r /\ past r) -> ps !! i = Some q -> past q' = past q ->
  forall j, j ∈ order <-> exists r, <[i:=q']> ps !! j = Some r /\ past r.
Proof.
  intros H Hi Hq j. rewrite H. destruct (decide (i = j)) as [<-|Hne].
  - rewrite list_lookup_insert_eq by (by eapply lookup_lt_Some). rewrite Hi.
    split; intros (r & [= <-] & Hr); eexists; (split; [done|]); by rewrite Hq in *.
  - by rewrite list_lookup_insert_ne.
Qed.

(** A move that neither enters nor leaves a body. *)
Lemma explained_move order w1 ps w m i q q' w' m' :
  explained order w1 ps w m -> ps !! i = Some q -> in_body q = false -> in_body q' = false ->
  past q' = past q -> l_knows q' -> at_ mtx w' = Some m' -> m_inited m' = m_inited m ->
  garbage w' = garbage w -> data w' = data w -> lock_inv ML who l_in_cs (<[i:=q']> ps) (m_mux m') ->
  explained order w1 (<[i:=q']> ps) w' m'.
Proof.
  intros E Hi Hb Hb' Hp Hk Hm Hin Hg Hd Hl. split; try done; try apply E.
  - rewrite Hin. apply E.
  - rewrite Hg. apply E.
  - by apply (knows_moved _ _ q); [apply E|..].
  - by apply (order_moved _ _ q); [apply E|..].
  - intros j b Hj. rewrite Hd. destruct (moved ps i j q q' _ Hi Hj) as [[-> <-]|[_ Hj']]; [done|].
    by apply E.
  - intros Hno. rewrite Hd. apply E. intros j r Hj. destruct (decide (i = j)) as [<-|Hne].
    + by simplify_eq.
    + apply (Hno j). by rewrite list_lookup_insert_ne.
Qed.

(** One that only reads. *)
Lemma explained_read order w1 ps w m i q q' :
  explained order w1 ps w m -> ps !! i = Some q -> in_body q = false -> in_body q' = false ->
  past q' = past q -> l_knows q' -> l_in_cs q' = l_in_cs q ->
  explained order w1 (<[i:=q']> ps) w m.
Proof.
  intros E Hi Hb Hb' Hp Hk Hc. apply (explained_move order w1 ps w m i q); try done; [apply E|].
  by apply (lock_keep ML who l_in_cs ps _ i q); [apply E|..].
Qed.

(** Taking the mutex, *)
Lemma explained_enter order w1 ps w m i r x :
  explained order w1 ps w m -> ps !! i = Some (LLock WAIT) ->
  (r, x) ∈ mut_lock (task_cur (who i)) WAIT (m_mux m) ->
  explained order w1 (<[i:=LBody (body i)]> ps) (put mtx (with_mux x m) w) (with_mux x m).
Proof.
  intros E Hi Hx.
  destruct (lock_acquire ML who l_in_cs who_task who_inj l_in_cs_bit ps (m_mux m) i (LLock WAIT)
    (LBody (body i)) WAIT r x) as (_ & H0 & Hl); try done; [apply E|].
  assert (data w = w1) as Hd.
  { apply E. intros j q Hj. destruct (in_body q) eqn:Hq; [|done].
    pose proof (tally_lookup l_in_cs ps j q (in_cs_nonneg l_in_cs l_in_cs_bit) Hj).
    destruct q; simpl in *; try done; lia. }
  split; try done; try apply E.
  - apply at_put.
  - apply (knows_moved _ _ (LLock WAIT)); [apply E|done|apply bodies_guest].
  - by apply (order_moved _ _ (LLock WAIT)); [apply E|..].
  - intros j b Hj. rewrite data_put, Hd.
    destruct (moved ps i j _ _ _ Hi Hj) as [[-> [= ->]]|[_ Hj']]; [constructor|].
    pose proof (tally_lookup l_in_cs ps j _ (in_cs_nonneg l_in_cs l_in_cs_bit) Hj').
    simpl in *. lia.
  - intros Hno. specialize (Hno i (LBody (body i))). rewrite list_lookup_insert_eq in Hno
      by (by eapply lookup_lt_Some). by specialize (Hno eq_refl).
Qed.

(** a step of the body, *)
Lemma explained_body order w1 ps w m i b b' v :
  explained order w1 ps w m -> ps !! i = Some (LBody b) -> Done b' v ∈ pstep b w ->
  explained order w1 (<[i:=LBody b']> ps) v m.
Proof.
  intros E Hi Hs. pose proof (ex_knows _ _ _ _ _ E i _ Hi) as Hg. simpl in Hg.
  pose proof (ex_at _ _ _ _ _ E) as Hm.
  destruct (guest_keeps b b' w v m Hg Hm Hs) as (Hg' & Hv & Hgar).
  split; try done; try apply E.
  - rewrite Hgar. apply E.
  - by apply (lock_keep ML who l_in_cs ps _ i (LBody b)); [apply E|..].
  - by apply (knows_moved _ _ (LBody b)); [apply E|..].
  - by apply (order_moved _ _ (LBody b)); [apply E|..].
  - intros j c Hj. destruct (moved ps i j _ _ _ Hi Hj) as [[-> [= ->]]|[Hne Hj']].
    + eapply ReachStep; [by apply (ex_body _ _ _ _ _ E)|]. unfold solo_step, data. simpl.
      rewrite (guest_pstep b w m m0 Hg Hm). apply list_elem_of_fmap. by exists (Done b' v).
    + destruct (lock_alone ML who l_in_cs l_in_cs_bit ps _ i _ (ex_lock _ _ _ _ _ E) Hi eq_refl)
        as (_ & _ & Hal). by specialize (Hal j _ Hne Hj').
  - intros Hno. specialize (Hno i (LBody b')). rewrite list_lookup_insert_eq in Hno
      by (by eapply lookup_lt_Some). by specialize (Hno eq_refl).
Qed.

(** and its end. *)
Lemma explained_leave order w1 ps w m i u :
  explained order w1 ps w m -> ps !! i = Some (LBody (Ret u)) ->
  explained (order ++ [i]) (data w) (<[i:=UType]> ps) w m.
Proof.
  intros E Hi.
  destruct (lock_alone ML who l_in_cs l_in_cs_bit ps _ i _ (ex_lock _ _ _ _ _ E) Hi eq_refl) as (_ & _ & Hal).
  assert (~ i ∈ order) as Hnew.
  { rewrite (ex_order _ _ _ _ _ E). intros (q & Hq & Hp). by simplify_eq. }
  split; try done; try apply E.
  - by apply (lock_keep ML who l_in_cs ps _ i (LBody (Ret u))); [apply E|..].
  - by apply (knows_moved _ _ (LBody (Ret u))); [apply E|..].
  - apply NoDup_app. split; [apply E|]. split; [by intros j Hj ->%list_elem_of_singleton|].
    apply NoDup_singleton.
  - intros j. rewrite elem_of_app, (ex_order _ _ _ _ _ E), list_elem_of_singleton.
    destruct (decide (j = i)) as [->|Hne].
    + rewrite list_lookup_insert_eq by (by eapply lookup_lt_Some). split; [by exists UType|by right].
    + rewrite list_lookup_insert_ne by done. split; [|by left]. by intros [H|H].
  - eapply serial_snoc; [apply E|]. destruct u.
    eapply solo_run; [by apply (ex_body _ _ _ _ _ E)|]. by apply list_elem_of_singleton.
  - intros j c Hj. destruct (moved ps i j _ _ _ Hi Hj) as [[_ ?]|[Hne Hj']]; [done|].
    by specialize (Hal j _ Hne Hj').
Qed.

(** *** Every action preserves it *)

Definition explained_by (ps : list lpc) (w : world) : Prop :=
  exists order w1 m, explained order w1 ps w m.

Lemma owner_inside order w1 ps w m i q :
  explained order w1 ps w m -> ps !! i = Some q -> l_in_cs q = 1 -> mut_own (m_mux m) = task_cur (who i).
Proof.
  intros E Hi Hc.
  destruct (lock_alone ML who l_in_cs l_in_cs_bit ps _ i _ (ex_lock _ _ _ _ _ E) Hi Hc) as (_ & Hh & _).
  by apply mut_held_own in Hh.
Qed.

Lemma owner_outside order w1 ps w m i q :
  explained order w1 ps w m -> ps !! i = Some q -> l_in_cs q = 0 -> mut_own (m_mux m) <> task_cur (who i).
Proof.
  intros E Hi Hc. by eapply (lock_outsider ML who l_in_cs who_task who_inj); [apply E|..].
Qed.

Lemma explained_step ps w i q q' w' :
  explained_by ps w -> ps !! i = Some q -> inl (q', w') ∈ lock_next i q w ->
  explained_by (<[i:=q']> ps) w'.
Proof.
  intros (order & w1 & m & E) Hi Hin.
  pose proof (ex_knows _ _ _ _ _ E i q Hi) as Hk. pose proof (ex_at _ _ _ _ _ E) as Hm.
  pose proof (ex_inited _ _ _ _ _ E) as Hn.
  assert (forall r, in_body q = false -> in_body r = false -> past r = past q -> l_knows r ->
    l_in_cs r = l_in_cs q -> explained_by (<[i:=r]> ps) w) as Hread.
  { intros r H1 H2 H3 H4 H5. exists order, w1, m. by apply (explained_read _ _ _ _ _ _ q). }
  destruct q as [| |t|t|t|[u|A a k]| | | |r]; cbn [lock_next] in Hin; unfold on_mutex in Hin;
    rewrite ?Hm in Hin; simpl in Hk; try (apply list_elem_of_singleton in Hin; simplify_eq).
  - test_false (m_inited m =? 0). by apply Hread.
  - apply Hread; try done. apply E.
  - apply Hread; by destruct (type (m_attr m) =? PTHREAD_MUTEX_ERRORCHECK).
  - pose proof (owner_outside _ _ _ _ _ _ _ E Hi eq_refl).
    test_false (mut_own (m_mux m) =? task_cur (who i)). by apply Hread.
  - subst t. apply list_elem_of_fmap in Hin as ([r x] & [= -> ->] & Hx).
    exists order, w1, (with_mux x m). by apply (explained_enter order w1 ps w m i r x).
  - test_false (m_inited m =? 0). eexists _, _, m. by eapply explained_leave.
  - apply list_elem_of_fmap in Hin as ([b' v|e] & Hx & Hs); simplify_eq.
    exists order, w1, m. by apply (explained_body order w1 ps w m i (Act a k)).
  - by destruct (_ || _); apply Hread.
  - pose proof (owner_inside _ _ _ _ _ _ _ E Hi eq_refl) as ->. rewrite Z.eqb_refl. by apply Hread.
  - exists order, w1, (with_mux (mut_unlock (task_cur (who i)) (m_mux m)) m).
    apply (explained_move order w1 ps w m i UUnlock); try done; [apply at_put|apply data_put|].
    by apply (lock_release ML who l_in_cs l_in_cs_bit ps _ i UUnlock); [apply E|..].
  - set_solver.
Qed.

(** *** The pool *)

Lemma workers_threads n : workers n = threads (replicate n LInit).
Proof.
  apply list_eq. intros i. unfold workers, threads. rewrite list_lookup_imap.
  change (map critical (seq 0 n)) with (critical <$> seq 0 n). rewrite list_lookup_fmap.
  destruct (decide (i < n)%nat) as [H|H].
  - rewrite lookup_seq_lt, lookup_replicate_2 by done. done.
  - rewrite (lookup_ge_None_2 (seq 0 n)), (lookup_ge_None_2 (replicate n LInit)); [done|..];
      rewrite ?length_seq, ?length_replicate; lia.
Qed.

Hypothesis mutex_there : at_ mtx w0 = Some m0.
Hypothesis mutex_inited_ : m_inited m0 <> 0.
Hypothesis mutex_free : mut_own (m_mux m0) = 0.
Hypothesis no_timeout : garbage w0 = WAIT.

Lemma explained_start n : explained [] w0 (replicate n LInit) w0 m0.
Proof.
  assert (forall i q, replicate n LInit !! i = Some q -> q = LInit) as Hq.
  { by intros i q [-> _]%lookup_replicate. }
  split; try done.
  - left. split; [done|]. by rewrite tally_replicate, Z.mul_0_r.
  - by intros i q ->%Hq.
  - constructor.
  - intros i. split; [set_solver|]. by intros (q & ->%Hq & ?).
  - by apply list_elem_of_singleton.
  - by intros i b ?%Hq.
  - intros _. by apply put_same.
Qed.

Lemma workers_explained n c :
  reach pool_step (workers n, w0) c ->
  exists ps, c.1 = threads ps /\ length ps = n /\ explained_by ps c.2.
Proof.
  intros H. rewrite workers_threads in H.
  destruct (pool_refines (M:=lock_machine) _ w0 w0 c eq_refl H) as (ps & w & Hr & E & Hv).
  simpl in Hv. simplify_eq. exists ps. split; [done|].
  apply (reach_inv mstep (fun x => length x.1 = n /\ explained_by x.1 x.2)) in Hr; [done| |].
  - split; [apply length_replicate|]. eexists _, _, _. apply explained_start.
  - intros x y Hx Hs. destruct Hs as [qs v i q q' v' Hi Hn]. destruct Hx as [Hl Hx]. simpl in *.
    split; [by rewrite length_insert|by eapply explained_step].
Qed.

(** A task that has returned is past its body. *)
Lemma returned i q r : lock_residual i q = Ret r -> q = LOut r.
Proof. destruct q as [| | | | |[]| | | |]; try done. by intros [= ->]. Qed.

(** C2: Provided that the timeout of [pthread_mutex_lock], a local variable that
    the code does not initialise ([sleep_ticks], posix_pthread_mutex.c:88),
    happens to be [WAIT] in every call: tasks that run a critical section each,
    in any number and any interleaving, with bodies that leave the mutex alone,
    have the effect of a serial execution. (With another value the call may
    return 0 without the mutex, and the statement is false.) When all of them
    have returned, each has returned 0, the mutex is free, and the data are what
    the bodies produce when they run one after the other, whole, in some order.
    *)
Theorem mutex_serializes n c :
  reach pool_step (workers n, w0) c ->
  (forall i q, c.1 !! i = Some q -> exists r, q = Ret r) ->
  c.1 = replicate n (Ret 0)
  /\ exists order m, order ≡ₚ seq 0 n /\ at_ mtx c.2 = Some m /\ mut_own (m_mux m) = 0
       /\ Done tt (data c.2) ∈ run (serial order) w0.
Proof.
  intros H Hret. destruct (workers_explained n c H) as (ps & E & Hlen & order & w1 & m & X).
  assert (forall i q, ps !! i = Some q -> q = LOut 0) as Hout.
  { intros i q Hi. destruct (Hret i (lock_residual i q)) as [r Hr].
    { rewrite E. apply threads_lookup. by exists q. }
    apply returned in Hr as ->. by rewrite (ex_knows _ _ _ _ _ X i _ Hi). }
  split.
  - rewrite E. apply list_eq. intros i. destruct (decide (i < n)%nat) as [Hi|Hi].
    + rewrite lookup_replicate_2 by done. apply threads_lookup.
      destruct (lookup_lt_is_Some_2 ps i ltac:(lia)) as [q Hq]. pose proof (Hout i q Hq) as ->. by exists (LOut 0).
    + rewrite !lookup_ge_None_2; [done|..]; unfold threads;
        rewrite ?length_imap, ?length_replicate; lia.
  - exists order, m. split; [|split; [apply X|split]].
    + apply NoDup_Permutation; [apply X|apply NoDup_seq|]. intros i.
      rewrite (ex_order _ _ _ _ _ X), elem_of_seq. split.
      * intros (q & Hq & _). apply lookup_lt_Some in Hq. lia.
      * intros Hi. destruct (lookup_lt_is_Some_2 ps i ltac:(lia)) as [q Hq]. 
        pose proof (Hout i q Hq) as ->. by exists (LOut 0).
    + destruct (ex_lock _ _ _ _ _ X) as [[? _]|(i & q & Hi & Hq & _)]; [done|].
      by rewrite (Hout i q Hi) in Hq.
    + rewrite (ex_idle _ _ _ _ _ X); [apply X|]. by intros i q ->%Hout.
Qed.

(** ** A data invariant

    [J] is what the mutex protects: it does not speak of the mutex, and every
    body, run alone, keeps it at its end, never blocks and never faults. *)
Context (J : world -> Prop).
Hypothesis J_data : forall w m, J w -> J (put mtx m w).
Hypothesis J_start : J w0.

Definition kept (b : prog world unit) : Prop :=
  forall w b' v, J w -> solo b w b' v ->
    match b' with
    | Ret _ => J v
    | Act a k => pstep b' v <> [] /\ forall e, ~ Fault e ∈ pstep b' v
    end.

Hypothesis bodies_kept : forall i, kept (body i).

Lemma serial_kept order w w1 : J w -> Done tt w1 ∈ run (serial order) w -> J w1.
Proof.
  revert w. induction order as [|i order IH]; intros w HJ H; simpl in H.
  - apply list_elem_of_singleton in H. by simplify_eq.
  - rewrite run_bind in H. apply elem_of_obind in H as ([u v|e] & Hv & H); simpl in H.
    + apply (IH v); [|done]. by apply (bodies_kept i w (Ret u) v HJ), run_solo.
    + by apply list_elem_of_singleton in H.
Qed.

Lemma explained_J order w1 ps w m : explained order w1 ps w m -> J w1.
Proof. intros X. by eapply serial_kept; [apply J_start|apply X]. Qed.

Lemma J_of_data order w1 ps w m : explained order w1 ps w m -> data w = w1 -> J w.
Proof.
  intros X Hd. rewrite <- (put_same mtx m w), <- (put_put mtx m m0) by apply X.
  apply J_data. fold (data w). rewrite Hd. by eapply explained_J.
Qed.

(** The next action of a body neither blocks nor faults. *)
Lemma body_moves order w1 ps w m i A (a : action world A) k :
  explained order w1 ps w m -> ps !! i = Some (LBody (Act a k)) ->
  pstep (Act a k) w <> [] /\ forall e, ~ Fault e ∈ pstep (Act a k) w.
Proof.
  intros X Hi. pose proof (ex_knows _ _ _ _ _ X i _ Hi) as Hg. pose proof (ex_at _ _ _ _ _ X) as Hm.
  destruct (bodies_kept i w1 (Act a k) (data w)) as [Hne Hno];
    [by eapply explained_J|by apply (ex_body _ _ _ _ _ X)|].
  unfold data in *. rewrite (guest_pstep _ w m m0 Hg Hm) in Hne, Hno. split.
  - by destruct (pstep (Act a k) w).
  - intros e He. apply (Hno e). apply list_elem_of_fmap. by exists (Fault e).
Qed.

Lemma no_fault order w1 ps w m i q e :
  explained order w1 ps w m -> ps !! i = Some q -> ~ inr e ∈ lock_next i q w.
Proof.
  intros X Hi. pose proof (ex_at _ _ _ _ _ X) as Hm.
  destruct q as [| |t|t|t|[u|A a k]| | | |r]; cbn [lock_next]; unfold on_mutex; rewrite ?Hm;
    try (by intros ?%list_elem_of_singleton); try (by apply not_elem_of_nil).
  - by intros ([r x] & ? & _)%list_elem_of_fmap.
  - destruct (body_moves _ _ _ _ _ i A a k X Hi) as [_ Hno].
    intros ([b v|e'] & ? & Hin)%list_elem_of_fmap; simplify_eq. by apply (Hno e').
Qed.

(** A task that has not returned can move, if it is inside or nobody is. *)
Lemma can_move order w1 ps w m i q :
  explained order w1 ps w m -> ps !! i = Some q -> (forall r, q <> LOut r) ->
  l_in_cs q = 1 \/ mut_own (m_mux m) = 0 -> exists x, inl x ∈ lock_next i q w.
Proof.
  intros X Hi Hq Hc. pose proof (ex_at _ _ _ _ _ X) as Hm.
  destruct q as [| |t|t|t|[u|A a k]| | | |r]; cbn [lock_next]; unfold on_mutex; rewrite ?Hm;
    try (eexists; by apply list_elem_of_singleton).
  - destruct Hc as [?|Hf]; [done|].
    destruct (mut_lock_free (m_mux m) (task_cur (who i)) t (who_task i) Hf) as (x & -> & _).
    eexists. by apply list_elem_of_singleton.
  - destruct (body_moves _ _ _ _ _ i A a k X Hi) as [Hne Hno].
    destruct (pstep (Act a k) w) as [|[b v|e] os]; [done| |].
    + exists (LBody b, v). by left.
    + exfalso. apply (Hno e). by left.
  - by destruct (Hq r).
Qed.

(** C16: Mutual exclusion, in any number of tasks and any interleaving, provided
    that the uninitialised timeout of [pthread_mutex_lock] ([sleep_ticks],
    posix_pthread_mutex.c:88) happens to be [WAIT] in every call (with another
    value the lock need not exclude, [lock_may_not_exclude]): at most
    one task is between its lock and its unlock, that task owns the mutex,
    nothing faults, and whenever the mutex is free the data invariant
    holds. *)
Theorem mutex_exclusion n c :
  reach pool_step (workers n, w0) c ->
  exists ps m, c.1 = threads ps /\ at_ mtx c.2 = Some m
    /\ tally l_in_cs ps <= 1
    /\ (forall i q, ps !! i = Some q -> l_in_cs q = 1 <-> mut_own (m_mux m) = task_cur (who i))
    /\ (mut_own (m_mux m) = 0 -> J c.2)
    /\ (forall e, ~ pool_faults c e).
Proof.
  intros H. destruct (workers_explained n c H) as (ps & E & Hlen & order & w1 & m & X).
  exists ps, m. split; [done|]. split; [apply X|]. split; [|split; [|split]].
  - destruct (ex_lock _ _ _ _ _ X) as [[_ ->]|(i & q & _ & _ & -> & _)]; lia.
  - intros i q Hi. split; intros Hc.
    + by apply (owner_inside _ _ _ _ _ i q X).
    + destruct (l_in_cs_bit q) as [H0|]; [|done].
      by destruct (owner_outside _ _ _ _ _ i q X Hi H0).
  - intros Hf. apply (J_of_data _ _ _ _ _ X), X. intros i q Hi. destruct (in_body q) eqn:Hq; [|done].
    destruct (who_task i). rewrite <- Hf. symmetry. apply (owner_inside _ _ _ _ _ i q X Hi). by destruct q.
  - intros e. destruct c as [ts w]. simpl in *. subst ts.
    apply (pool_no_fault (M:=lock_machine) ps w w e eq_refl). intros i q Hi. by eapply no_fault.
Qed.

(** C15: Progress of the same pools as in [mutex_serializes], provided, as
    there, that the uninitialised timeout of [pthread_mutex_lock]
    (posix_pthread_mutex.c:88) happens to be [WAIT] in every call: every
    execution is finite, and where it ends every task has returned 0, the mutex
    is free and the data invariant holds. *)
Theorem mutex_pool_returns n :
  Acc (fun d c => pool_step c d) (workers n, w0)
  /\ forall c, reach pool_step (workers n, w0) c -> stuck pool_step c ->
       (forall i q, c.1 !! i = Some q -> q = Ret 0)
       /\ exists m, at_ mtx c.2 = Some m /\ mut_own (m_mux m) = 0 /\ J c.2.
Proof.
  split; [apply pool_wf|]. intros c H Hst.
  destruct (workers_explained n c H) as (ps & E & Hlen & order & w1 & m & X).
  destruct c as [ts w]. simpl in *. subst ts.
  assert (forall i q x, ps !! i = Some q -> ~ inl x ∈ lock_next i q w) as Hno.
  { intros i q x Hi. by apply (stuck_machine (M:=lock_machine) ps w w i q eq_refl Hst Hi). }
  assert (mut_own (m_mux m) = 0) as Hf.
  { destruct (ex_lock _ _ _ _ _ X) as [[? _]|(i & q & Hi & Hq & _)]; [done|].
    destruct (can_move _ _ _ _ _ i q X Hi) as [x Hx]; [by intros r ->|by left|].
    by destruct (Hno i q x Hi). }
  assert (forall i q, ps !! i = Some q -> q = LOut 0) as Hout.
  { intros i q Hi. destruct q as [| | | | | | | | |r] eqn:Eq;
      try (destruct (can_move _ _ _ _ _ i q X) as [x Hx];
           [by rewrite Eq|by rewrite Eq|by right|subst q; by destruct (Hno i _ x Hi)]).
    by rewrite (ex_knows _ _ _ _ _ X i _ Hi). }
  split.
  - intros i q Hi. apply threads_lookup in Hi as (p & Hp & ->). by rewrite (Hout i p Hp).
  - exists m. split; [apply X|]. split; [done|].
    apply (J_of_data _ _ _ _ _ X), X. by intros i q ->%Hout.
Qed.
End critical.

(** ** Bodies that access fields of other objects *)

Section guests.
Context `{K : Kernel} (mtx : Z).

Lemma guest_bind {A B} (b : prog world A) (f : A -> prog world B) :
  guest mtx b -> (forall x, guest mtx (f x)) -> guest mtx (bind b f).
Proof. intros Hb Hf. induction Hb; simpl; [done|]. by constructor. Qed.

Lemma guest_act {A} (a : action world A) : blind mtx a -> guest mtx (act a).
Proof. intros H. constructor; [done|]. intros x. constructor. Qed.

Context {S T : Type} `{!Kind S} (p : Z) (g : S -> T) (st : T -> S -> S).
Hypothesis elsewhere : p <> mtx.

Lemma guest_kcall {A} (f : T -> list (A * T)) : guest mtx (kcall (fld p g st) f).
Proof.
  apply guest_act. intros w m m' Hm. simpl. rewrite (at_put_ne p mtx m' w elsewhere).
  destruct (at_ p w) as [s|] eqn:Hs; [split|by split; [|intros x v ?%list_elem_of_singleton]].
  - rewrite !map_map. apply map_ext. intros [x v]. simpl.
    by rewrite put_comm.
  - intros x v Hx. apply list_elem_of_fmap in Hx as ([y z] & Hx & _). simplify_eq/=.
    by rewrite at_put_ne.
Qed.

Lemma guest_load : guest mtx (load (fld p g st)).
Proof.
  apply guest_act. intros w m m' Hm. simpl. rewrite (at_put_ne p mtx m' w elsewhere).
  destruct (at_ p w); (split; [done|]); intros x v Hx;
    apply list_elem_of_singleton in Hx; by simplify_eq.
Qed.

Lemma guest_store v : guest mtx (store (fld p g st) v).
Proof.
  apply guest_act. intros w m m' Hm. simpl. rewrite (at_put_ne p mtx m' w elsewhere).
  destruct (at_ p w) as [s|] eqn:Hs; [|by split; [|intros x z ?%list_elem_of_singleton]].
  split; [by rewrite put_comm|]. intros x z Hx. apply list_elem_of_singleton in Hx. simplify_eq.
  by rewrite at_put_ne.
Qed.
End guests.

(** ** Witnesses *)

Section mutex_pool_witnesses.
Import Sim.

(** Two tasks that increment a word, with a load and a store. *)
Definition word : ref Z := fld (S:=sem_t) 64 (fun s => s) (fun v _ => v).

Definition increment (i : nat) : prog world unit :=
  let* n := load word in store word (n + 1).

Definition shared_mutex : @pthread_mutex_t sim_kernel :=
  @mk_mutex sim_kernel 1 (0, 0%nat) (mk_mutexattr PTHREAD_MUTEX_NORMAL).

Definition shared_mem : gmap Z (@obj sim_kernel) := {[ 64 := OSem 0; 128 := OMutex shared_mutex ]}.

(** The uninitialised timeout holds [t]. *)
Definition shared_world (t : Z) : @world sim_kernel :=
  @mk_world sim_kernel shared_mem ∅ 1500 400 t 1 1 [] (0, 0%nat) 0 [].

Definition returns (c : pool (@world sim_kernel) Z) : list (option Z) * option Z :=
  (results c, at_ (S:=sem_t) 64 c.2).

Lemma increment_guest i : guest 128 (increment i).
Proof. apply guest_bind; [by apply guest_load|]. intros n. by apply guest_store. Qed.

Definition word_there (w : world) : Prop := exists n, at_ (S:=sem_t) 64 w = Some n.

(** The task that enters second tries to lock at every point of the first
    one's critical section. *)
Definition increments_order : list nat :=
  [0; 1; 0; 1; 0; 1; 0; 0; 0; 0; 0; 0; 1; 1; 1; 1; 1; 1]%nat.

Lemma mutex_serializes_witness :
  exists c, reach pool_step (workers sim_who 128 increment 2, shared_world UINT_MAX) c
    /\ returns c = ([Some 0; Some 0], Some 2)
    /\ c.1 = replicate 2 (Ret 0)
    /\ exists order m, order ≡ₚ seq 0 2 /\ at_ 128 c.2 = Some m /\ mut_own (m_mux m) = 0
         /\ Done tt (data 128 shared_mutex c.2) ∈ run (serial increment order) (shared_world UINT_MAX).
Proof.
  destruct (sched_summary returns increments_order
    (workers (P:=sim_platform) sim_who 128 increment 2, shared_world UINT_MAX) ([Some 0; Some 0], Some 2))
    as (c & Hr & Hc); [vm_compute; reflexivity|].
  exists c. split; [done|]. split; [done|].
  apply (mutex_serializes sim_who 128 increment sim_mut_laws shared_mutex (shared_world UINT_MAX)
    sim_who_task sim_who_inj increment_guest); try done.
  intros i q Hq. unfold returns in Hc. injection Hc as Hc _.
  by apply (results_all c [0; 0] Hc i).
Defined.

Lemma increment_kept i : kept word_there (increment i).
Proof.
  intros w b v [n Hn] H. unfold increment in H.
  assert (exists n v', at_ 64 v' = Some n /\ ((b, v) = (increment i, v')
    \/ (b, v) = (store word (n + 1), v') \/ (b, v) = (Ret tt, v'))) as (k & v' & Hv & Hb).
  { remember (increment i, w) as x eqn:Ex.
    apply (reach_inv solo_step (fun y => exists n v', at_ 64 v' = Some n /\ (y = (increment i, v')
      \/ y = (store word (n + 1), v') \/ y = (Ret tt, v'))) x (b, v)); [| |by rewrite Ex].
    - exists n, w. auto.
    - intros y [b' v'] (k & u & Hu & [->|[->| ->]]) Hs; unfold solo_step in Hs; simpl in Hs;
        rewrite ?Hu in Hs; try (apply list_elem_of_singleton in Hs; simplify_eq).
      + exists k, u. auto.
      + eexists _, _. split; [apply at_put|by right; right].
      + by apply not_elem_of_nil in Hs. }
  destruct Hb as [[= -> ->]|[[= -> ->]|[= -> ->]]]; simpl; rewrite ?Hv; [| |by exists k];
    (split; [done|]; by intros e ?%list_elem_of_singleton).
Qed.

Lemma word_there_data w (m : pthread_mutex_t) : word_there w -> word_there (put 128 m w).
Proof. intros [n Hn]. exists n. by rewrite at_put_ne. Qed.

Lemma mutex_exclusion_witness :
  exists c, reach pool_step (workers sim_who 128 increment 2, shared_world UINT_MAX) c
    /\ returns c = ([None; None], Some 0)
    /\ exists ps m, c.1 = threads (M:=lock_machine sim_who 128 increment) ps /\ at_ 128 c.2 = Some m
         /\ tally l_in_cs ps <= 1
         /\ (forall i q, ps !! i = Some q -> l_in_cs q = 1 <-> mut_own (m_mux m) = task_cur (sim_who i))
         /\ (mut_own (m_mux m) = 0 -> word_there c.2)
         /\ (forall e, ~ pool_faults c e).
Proof.
  destruct (sched_summary returns (take 8 increments_order)
    (workers (P:=sim_platform) sim_who 128 increment 2, shared_world UINT_MAX) ([None; None], Some 0))
    as (c & Hr & Hc); [vm_compute; reflexivity|].
  exists c. split; [done|]. split; [done|].
  apply (mutex_exclusion sim_who 128 increment sim_mut_laws shared_mutex (shared_world UINT_MAX)
    sim_who_task sim_who_inj increment_guest) with (n := 2%nat); try done.
  - apply word_there_data.
  - by exists 0.
  - apply increment_kept.
Defined.

Lemma mutex_pool_returns_witness :
  let start := (workers (P:=sim_platform) sim_who 128 increment 2, shared_world UINT_MAX) in
  Acc (fun d c => pool_step c d) start
  /\ forall c, reach pool_step start c -> stuck pool_step c ->
       (forall i q, c.1 !! i = Some q -> q = Ret 0)
       /\ exists m, at_ 128 c.2 = Some m /\ mut_own (m_mux m) = 0 /\ word_there c.2.
Proof.
  apply (mutex_pool_returns sim_who 128 increment sim_mut_laws shared_mutex (shared_world UINT_MAX)
    sim_who_task sim_who_inj increment_guest); try done.
  - apply word_there_data.
  - by exists 0.
  - apply increment_kept.
Defined.

(** The timeout that [pthread_mutex_lock] passes to the kernel is not
    initialised.  If it happens to be 0, the lock does not exclude: of two
    tasks that increment a word under the mutex, both return 0 and one
    increment is lost. *)
Theorem lock_may_not_exclude :
  exists c, reach pool_step (workers (P:=sim_platform) sim_who 128 increment 2, shared_world 0) c
    /\ returns c = ([Some 0; Some 0], Some 1).
Proof.
  apply (sched_summary returns ([0; 0; 0; 0; 0] ++ replicate 6 1 ++ replicate 4 0 ++ replicate 3 1)%nat).
  vm_compute. reflexivity.
Qed.
End mutex_pool_witnesses.
