(* ===== verification/Semaphore.v ===== *)
(** POSIX semaphores: [src/posix_semaphore.c] and [sem_getvalue] of
    [include/semaphore.h].  A POSIX semaphore is a kernel semaphore at an
    address; the waits convert an absolute deadline to ticks. *)
From S2P Require Import Prelude Prog Kernel World SimKernel Timespec Clock Mutex.

Section semaphore.
Context `{P : Platform} `{K : Kernel}.

Definition sem_self (s : Z) : ref sem_t := fld s (fun x => x) (fun v _ => v).

Definition sem_destroy (s : Z) : prog world Z := Ret 0.

Definition sem_getvalue (s : Z) : prog world (Z * Z) :=
  let* v := load (sem_self s) in
  Ret (0, sem_val v).

Definition sem_init_posix (s pshared value : Z) : prog world Z :=
  kmod (sem_self s) (fun _ => sem_init value) ;; Ret 0.

Definition sem_timedwait (c : caller) (s : Z) (abstime : option timespec) : prog world Z :=
  let* (ret, sleep) :=
    match abstime with
    | None => Ret (0, WAIT)
    | Some _ =>
        if validate_timespec abstime =? 0 then Ret (EINVAL, 0)
        else
          let* (r, cur) := clock_gettime CLOCK_REALTIME (Some zero_timespec) in
          let* (ret, ticks) :=
            if negb (r =? 0) then Ret (EINVAL, Some WAIT)
            else lift (abs_timespec2ticks abstime cur (Some WAIT)) in
          Ret (ret, if ret =? ETIMEDOUT then 0 else default WAIT ticks)
    end in
  let* r := kcall (sem_self s) (sem_get sleep) in
  if negb (r =? 0) then
    set_errno c (if ret =? 0 then ETIMEDOUT else ret) ;; Ret (-1)
  else Ret 0.

Definition sem_trywait (c : caller) (s : Z) : prog world Z :=
  let* ret := sem_timedwait c s (Some zero_timespec) in
  let* e := get (errno_of (task_cur c)) in
  if (ret =? -1) && (e =? ETIMEDOUT) then set_errno c EAGAIN ;; Ret ret
  else Ret ret.

Definition sem_wait (c : caller) (s : Z) : prog world Z := sem_timedwait c s None.
End semaphore.

(** ** Lemmas *)

Section semaphore_lemmas.
Context `{P : Platform} `{!PlatformOk P} `{K : Kernel} (L : SemLaws P K).
Implicit Types (w : world) (c : caller) (s : sem_t).

(** The end of [sem_timedwait], from the kernel call on. *)
Definition timedwait_tail (c : caller) (p ret sleep : Z) : prog world Z :=
  let* r := kcall (sem_self p) (sem_get sleep) in
  if negb (r =? 0) then
    set_errno c (if ret =? 0 then ETIMEDOUT else ret) ;; Ret (-1)
  else Ret 0.

(** What the deadline becomes: the error to report if the semaphore is not
    available, and the timeout. *)
Definition deadline_of (w : world) (abstime : option timespec) (ret sleep : Z) : Prop :=
  match abstime with
  | None => ret = 0 /\ sleep = WAIT
  | Some a =>
      if validate_timespec abstime =? 0 then ret = EINVAL /\ sleep = 0
      else exists x, abs_timespec2ticks (Some a) (Some (now_timespec w)) (Some WAIT) = Some (ret, Some x)
           /\ sleep = if ret =? ETIMEDOUT then 0 else x
  end.

Lemma run_timedwait w c p abstime ret sleep :
  clock_ok w -> deadline_of w abstime ret sleep ->
  run (sem_timedwait c p abstime) w = run (timedwait_tail c p ret sleep) w.
Proof.
  intros Hw Hd. unfold sem_timedwait. erewrite (run_call _ _ w w (ret, sleep)); [done|].
  destruct abstime as [a|]; [|by destruct Hd as [-> ->]].
  unfold deadline_of in Hd. case_if; [by destruct Hd as [-> ->]|].
  destruct Hd as (x & Hx & ->). rewrite run_gettime by done. cbn [negb Z.eqb]. by rewrite Hx.
Qed.

Lemma tail_avail w c p s ret sleep :
  at_ p w = Some s -> 0 < sem_val s ->
  exists s', run (timedwait_tail c p ret sleep) w = [Done 0 (put p s' w)] /\ sem_val s' = sem_val s - 1.
Proof.
  intros Hp Hs. destruct (sem_get_avail s sleep Hs) as (s' & Hg & Hv).
  exists s'. split; [|done]. unfold timedwait_tail, sem_self. by kstep Hg.
Qed.

Lemma tail_empty w c p s ret sleep :
  at_ p w = Some s -> sem_val s = 0 -> sleep <> WAIT ->
  ensures (timedwait_tail c p ret sleep) w (fun r w' => r = -1
    /\ w' = with_errno (task_cur c) (if ret =? 0 then ETIMEDOUT else ret) (put p s w)).
Proof.
  intros Hp Hs Hw. unfold timedwait_tail, sem_self. apply ensures_bind.
  eapply ensures_kcall; [done|by apply sem_get_nowait|].
  intros r s' Hr. apply sem_get_empty in Hr as [Hr ->]; [|done].
  test_false (r =? 0). cbn [negb]. estep. by apply ensures_ret.
Qed.

Lemma zero_deadline_of w :
  clock_ok w -> exists ret, deadline_of w (Some zero_timespec) ret 0 /\ (ret = 0 \/ ret = ETIMEDOUT).
Proof.
  intros Hw. destruct (zero_deadline w WAIT Hw) as [Hz|Hz].
  - exists ETIMEDOUT. split; [|by right]. exists WAIT. done.
  - exists 0. split; [|by left]. exists 0. done.
Qed.
End semaphore_lemmas.

(** ** Properties *)

Section semaphore_props.
Context `{P : Platform} `{!PlatformOk P} `{K : Kernel} (L : SemLaws P K).
Implicit Types (w : world) (c : caller) (s : sem_t).

(** A wait of any kind, with a deadline of any kind (invalid and past
    ones included), takes an available semaphore at once and returns 0: the
    value drops by one. *)
Theorem sem_wait_available w c p s abstime ret sleep :
  clock_ok w -> at_ p w = Some s -> 0 < sem_val s -> deadline_of w abstime ret sleep ->
  exists s', run (sem_timedwait c p abstime) w = [Done 0 (put p s' w)]
    /\ sem_val s' = sem_val s - 1.
Proof.
  intros Hw Hp Hs Hd. rewrite (run_timedwait w c p _ ret sleep) by done.
  by apply tail_avail.
Qed.

(** On a semaphore whose value is zero, [sem_wait] blocks. *)
Theorem sem_wait_blocks w c p s :
  clock_ok w -> at_ p w = Some s -> sem_val s = 0 -> run (sem_wait c p) w = [].
Proof.
  intros Hw Hp Hs. unfold sem_wait. rewrite (run_timedwait w c p _ 0 WAIT) by done.
  unfold timedwait_tail, sem_self. erewrite run_kcall_block; [done|done|]. by apply sem_get_wait.
Qed.

(** [sem_timedwait] on a semaphore whose value is zero does not block if
    the deadline is invalid or has passed: it returns -1 with [EINVAL] or
    [ETIMEDOUT] in [errno], and the semaphore is unchanged. *)
Theorem sem_timedwait_expired w c p s a ret :
  clock_ok w -> at_ p w = Some s -> sem_val s = 0 ->
  deadline_of w (Some a) ret 0 ->
  ensures (sem_timedwait c p (Some a)) w (fun r w' => r = -1 /\ at_ p w' = Some s
    /\ errno_of (task_cur c) w' = if ret =? 0 then ETIMEDOUT else ret).
Proof.
  intros Hw Hp Hs Hd. eapply ensures_run; [by apply run_timedwait|].
  pose proof WAIT_range. eapply ensures_weaken; [apply (tail_empty L); try done; lia|].
  intros r w' [-> ->]. by rewrite at_with_errno, at_put, errno_set.
Qed.

(** [sem_trywait] never blocks: it takes an available semaphore and
    returns 0, and otherwise returns -1 with [EAGAIN] in [errno] and leaves
    the semaphore unchanged. *)
Theorem sem_trywait_spec w c p s :
  clock_ok w -> at_ p w = Some s -> 0 <= sem_val s ->
  ensures (sem_trywait c p) w (fun r w' => exists s', at_ p w' = Some s' /\
    if 0 <? sem_val s then r = 0 /\ sem_val s' = sem_val s - 1
    else r = -1 /\ s' = s /\ errno_of (task_cur c) w' = EAGAIN).
Proof.
  intros Hw Hp Hs. destruct (zero_deadline_of w Hw) as (ret & Hd & Hret).
  unfold sem_trywait. apply ensures_bind.
  eapply ensures_run; [by apply (run_timedwait w c p _ ret 0)|].
  destruct (0 <? sem_val s) eqn:E; bool_lia.
  - destruct (tail_avail L w c p s ret 0 Hp E) as (s' & Hr & Hv).
    eapply ensures_one; [done|]. estep. cbn [andb Z.eqb].
    apply ensures_ret. exists s'. by rewrite at_put.
  - pose proof WAIT_range. eapply ensures_weaken; [apply (tail_empty L _ _ _ s); try done; lia|].
    intros r w' [-> ->]. estep. rewrite errno_set.
    replace (if ret =? 0 then ETIMEDOUT else ret) with ETIMEDOUT by (by destruct Hret as [->| ->]).
    replace ((-1 =? -1) && (ETIMEDOUT =? ETIMEDOUT)) with true by done. estep. apply ensures_ret. exists s.
    by rewrite !at_with_errno, at_put, errno_set.
Qed.

(** An initialised semaphore has the given value, and [sem_getvalue]
    reports it. *)
Theorem sem_init_getvalue w p s pshared v :
  at_ p w = Some s -> 0 <= v ->
  exists w', run (sem_init_posix p pshared v) w = [Done 0 w']
    /\ run (sem_getvalue p) w' = [Done (0, v) w'].
Proof.
  intros Hp Hv. eexists. split.
  - unfold sem_init_posix, sem_self. by step.
  - unfold sem_getvalue, sem_self. step. by rewrite sem_init_val.
Qed.
End semaphore_props.

Section semaphore_witnesses.
Import Sim.

Definition sem_world (v : Z) : @world sim_kernel := sim_world {[ 32 := @OSem sim_kernel v ]}.

Lemma sem_wait_available_witness :
  exists s', run (sem_timedwait task_a 32 (Some (mk_timespec 1 (-5)))) (sem_world 3)
    = [Done 0 (put (S:=@sem_t sim_kernel) 32 s' (sem_world 3))] /\ @sem_val sim_kernel s' = 3 - 1.
Proof.
  apply (sem_wait_available sim_sem_laws (sem_world 3) task_a 32 3 (Some (mk_timespec 1 (-5))) EINVAL 0);
    [apply sim_clock_ok | reflexivity | reflexivity | split; reflexivity].
Defined.

Lemma sem_wait_blocks_witness : run (sem_wait task_a 32) (sem_world 0) = [].
Proof.
  apply (sem_wait_blocks sim_sem_laws (sem_world 0) task_a 32 0); [apply sim_clock_ok | reflexivity..].
Defined.

Lemma sem_timedwait_expired_witness :
  ensures (sem_timedwait task_a 32 (Some (mk_timespec 1 0))) (sem_world 0)
    (fun r w' => r = -1 /\ at_ (S:=@sem_t sim_kernel) 32 w' = Some (0 : @sem_t sim_kernel)
      /\ errno_of 11 w' = ETIMEDOUT).
Proof.
  apply (sem_timedwait_expired sim_sem_laws (sem_world 0) task_a 32 0 (mk_timespec 1 0) ETIMEDOUT);
    [apply sim_clock_ok | reflexivity | reflexivity |].
  exists WAIT. split; reflexivity.
Defined.

Lemma sem_trywait_spec_witness :
  ensures (sem_trywait task_a 32) (sem_world 0)
    (fun r w' => exists s', at_ (S:=@sem_t sim_kernel) 32 w' = Some s' /\
      r = -1 /\ s' = (0 : @sem_t sim_kernel) /\ errno_of 11 w' = EAGAIN).
Proof.
  apply (sem_trywait_spec sim_sem_laws (sem_world 0) task_a 32 0);
    [apply sim_clock_ok | reflexivity | simpl; lia].
Defined.

Lemma sem_init_getvalue_witness :
  exists w', run (sem_init_posix 32 0 5) (sem_world 0) = [Done 0 w']
    /\ run (sem_getvalue 32) w' = [Done (0, 5) w'].
Proof. apply (sem_init_getvalue sim_sem_laws (sem_world 0) 32 0 0 5); [reflexivity | lia]. Defined.
End semaphore_witnesses.
