(* ===== verification/SemaphorePool.v ===== *)
(** Concurrent use of one semaphore: any number of tasks that post, wait,
    wait with a deadline and try.  The value is the initial one with the posts
    added and the successful waits subtracted, in every interleaving; nothing
    but a wait on an exhausted semaphore is ever blocked; and when the tokens
    suffice for all the calls, all of them return. *)
From S2P Require Import Prelude Prog Protocol Kernel World SimKernel Timespec Clock Mutex Semaphore.

(** ** The calls *)

Inductive sem_call :=
| Posts                                (** [sem_post] *)
| Takes (abstime : option timespec)    (** [sem_timedwait], and [sem_wait] without a deadline *)
| Tries.                               (** [sem_trywait] *)

(** What a call does to the value if it succeeds. *)
Definition demand (o : sem_call) : Z := match o with Posts => 1 | _ => -1 end.

(** The change [d] of the value explains the result [r] of a call. *)
Definition settled (o : sem_call) (d r : Z) : Prop :=
  d = demand o /\ r = 0 \/ o <> Posts /\ d = 0 /\ r = -1.

(** Only the conversion of a deadline may overflow. *)
Definition may_overflow (o : sem_call) : bool := match o with Takes (Some _) => true | _ => false end.

Section pool.
Context `{P : Platform} `{!PlatformOk P} `{K : Kernel} (L : SemLaws P K).
Context (who : nat -> caller) (s : Z) (ops : nat -> sem_call).
Implicit Types (w : world) (x : sem_t).

(** [sem_post] is the kernel's: [include/semaphore.h] only declares it. *)
Definition sem_code (c : caller) (o : sem_call) : prog world Z :=
  match o with
  | Posts => kmod (sem_self s) sem_post ;; Ret 0
  | Takes abstime => sem_timedwait c s abstime
  | Tries => sem_trywait c s
  end.

Definition sem_callers (n : nat) : list (prog world Z) := map (fun i => sem_code (who i) (ops i)) (seq 0 n).

(** ** The protocol *)

(** A call has not yet, or has, come to its kernel call and changed the value
    by [d]. *)
Inductive use := Pending | Settled (d : Z).

Definition change (u : use) : Z := match u with Pending => 0 | Settled d => d end.

Definition sem_ok w : Prop := clock_ok w /\ exists x, at_ s w = Some x /\ 0 <= sem_val x.

Inductive sem_moves (i : nat) : use -> world -> use -> world -> Prop :=
| SmQuiet u w w' :
    tmr_ticks w' = tmr_ticks w -> at_ (S:=sem_t) s w' = at_ s w -> sem_moves i u w u w'
| SmSettle d w w' x x' :
    tmr_ticks w' = tmr_ticks w -> at_ s w = Some x -> at_ s w' = Some x' ->
    sem_val x' = sem_val x + d -> 0 <= sem_val x' -> d = 0 \/ d = demand (ops i) ->
    sem_moves i Pending w (Settled d) w'.

Definition sem_waits (i : nat) (u : use) w : Prop :=
  u = Pending /\ (exists a, ops i = Takes a) /\ exists x, at_ s w = Some x /\ sem_val x = 0.

Definition sem_faults (i : nat) (e : fault) : Prop := e = SignedOverflow /\ may_overflow (ops i) = true.

Definition sem_ends (i : nat) (u : use) (r : Z) : Prop :=
  match u with Pending => False | Settled d => settled (ops i) d r end.

Abbreviation runs := (follows (fun _ _ => sem_ok) sem_moves sem_waits sem_faults sem_ends).

Lemma runs_world {A} i (a : action world A) (f : world -> A) (g : world -> world) k u :
  (forall w, a w = [Done (f w) (g w)]) ->
  (forall w, tmr_ticks (g w) = tmr_ticks w /\ at_ (S:=sem_t) s (g w) = at_ s w) ->
  (forall w, sem_ok w -> runs i (k (f w)) u) -> runs i (bind (act a) k) u.
Proof.
  intros Ha Hg Hk. apply follows_act; intros w; rewrite Ha; [done|by intros e _ ?%list_elem_of_singleton|].
  intros y w' Hw Hy. apply list_elem_of_singleton in Hy. simplify_eq. exists u. destruct (Hg w).
  split; [by apply SmQuiet|by apply Hk].
Qed.

Lemma runs_ask {A} i (f : world -> A) k u :
  (forall w, sem_ok w -> runs i (k (f w)) u) -> runs i (bind (get f) k) u.
Proof. by apply (runs_world i _ f (fun w => w)). Qed.

Lemma runs_fails i c e k u : runs i (k tt) u -> runs i (bind (set_errno c e) k) u.
Proof.
  intros Hk. apply (runs_world i _ (fun _ => tt) (with_errno (task_cur c) e)); [done| |done].
  intros w. split; [done|apply at_with_errno].
Qed.

Lemma runs_compute {A} i (o : option A) k u :
  may_overflow (ops i) = true -> (forall y, runs i (k y) u) -> runs i (bind (lift o) k) u.
Proof.
  intros Hd Hk. destruct o; [apply Hk|]. apply follows_act; [done| |by intros w x w' _ ?%list_elem_of_singleton].
  intros w e _ He. apply list_elem_of_singleton in He. by injection He as ->.
Qed.

Lemma runs_now i k u :
  (forall w, sem_ok w -> runs i (k (0, Some (now_timespec w))) u) ->
  runs i (bind (clock_gettime CLOCK_REALTIME (Some zero_timespec)) k) u.
Proof.
  intros Hk. unfold clock_gettime. apply follows_assoc, runs_ask. intros w Hw.
  destruct (proj1 Hw) as [H0 H1]. pose proof NPT_range. unfold NANOSECONDS_PER_SECOND in *.
  rewrite sgn_in by (change (64 - 1) with 63; nia). cbn [lift bind].
  rewrite nano2timespec_eq by (unfold NANOSECONDS_PER_SECOND; nia). by apply Hk.
Qed.

(** The kernel's [sem_get]; it blocks only a call that may wait. *)
Lemma runs_down i t k :
  ops i <> Posts -> (t = WAIT -> exists a, ops i = Takes a) ->
  runs i (k 0) (Settled (-1)) -> (forall r, r <> 0 -> runs i (k r) (Settled 0)) ->
  runs i (bind (kcall (sem_self s) (sem_get t)) k) Pending.
Proof.
  intros Hop Ht H0 Hr. apply follows_act; simpl.
  - intros w (_ & x & Hx & Hn) E. rewrite Hx in E. apply map_eq_nil in E. split; [done|].
    destruct (decide (sem_val x = 0)) as [Hz|Hz].
    + split; [apply Ht|by exists x]. destruct (decide (t = WAIT)) as [|Hw]; [done|].
      by destruct (sem_get_nowait x t Hz Hw).
    + destruct (sem_get_avail x t ltac:(lia)) as (y & Hy & _). congruence.
  - intros w e (_ & x & Hx & _). rewrite Hx. by intros (y & ? & _)%list_elem_of_fmap.
  - intros w r w' (_ & x & Hx & Hn) Hin. rewrite Hx in Hin.
    apply list_elem_of_fmap in Hin as ([v y] & Hv & Hin). simplify_eq.
    destruct (decide (sem_val x = 0)) as [Hz|Hz].
    + destruct (sem_get_empty x t v y Hz Hin) as [Hv ->]. exists (Settled 0). split; [|by apply Hr].
      apply (SmSettle i 0 w _ x x); [done|done|apply at_put|lia|lia|by left].
    + destruct (sem_get_avail x t ltac:(lia)) as (z & Hg & Hzv). rewrite Hg in Hin.
      apply list_elem_of_singleton in Hin. simplify_eq. exists (Settled (-1)). split; [|done].
      apply (SmSettle i (-1) w _ x z); [done|done|apply at_put|lia|lia|right]. by destruct (ops i).
Qed.

(** *** The calls follow the protocol *)

Ltac assoc :=
  repeat lazymatch goal with |- follows _ _ _ _ _ _ (bind (bind _ _) _) _ => apply follows_assoc end.

(** [sem_timedwait] from the kernel call on. *)
Lemma runs_timed_tail i c ret t k :
  ops i <> Posts -> (t = WAIT -> exists a, ops i = Takes a) ->
  runs i (k 0) (Settled (-1)) -> runs i (k (-1)) (Settled 0) ->
  runs i (bind (timedwait_tail c s ret t) k) Pending.
Proof.
  intros Hop Ht H0 Hf. unfold timedwait_tail. assoc. apply runs_down; [done|done|done|].
  intros r Hr. test_false (r =? 0). cbn [negb]. assoc. by apply runs_fails.
Qed.

Lemma runs_timedwait i a : ops i = Takes a -> runs i (sem_timedwait (who i) s a) Pending.
Proof.
  intros Hop. assert (forall ret t, runs i (timedwait_tail (who i) s ret t) Pending) as Htail.
  { intros ret t. apply follows_last, runs_timed_tail; [congruence|eauto| |]; simpl; rewrite Hop; [by left|by right]. }
  unfold sem_timedwait. destruct a as [a|]; [|apply Htail].
  destruct (validate_timespec (Some a) =? 0); [apply Htail|].
  assoc. apply runs_now. intros w Hw. cbn [Z.eqb negb]. assoc.
  apply runs_compute; [by rewrite Hop|]. intros [ret y]. apply Htail.
Qed.

(** The deadline of [sem_trywait] has passed: it never waits. *)
Lemma runs_trywait i : ops i = Tries -> runs i (sem_trywait (who i) s) Pending.
Proof.
  intros Hop. unfold sem_trywait, sem_timedwait.
  assert ((validate_timespec (Some zero_timespec) =? 0) = false) as -> by done.
  assert (forall ret, runs i (bind (timedwait_tail (who i) s ret 0) (fun ret =>
      let* e := get (errno_of (task_cur (who i))) in
      if (ret =? -1) && (e =? ETIMEDOUT) then set_errno (who i) EAGAIN ;; Ret ret else Ret ret)) Pending) as Htail.
  { intros ret. apply runs_timed_tail; [congruence|by pose proof WAIT_range; lia| |].
    all: apply runs_ask; intros w _; cbn [Z.eqb andb].
    - simpl. rewrite Hop. by left.
    - assert (runs i (Ret (-1)) (Settled 0)) as Hd by (simpl; rewrite Hop; by right).
      destruct (errno_of (task_cur (who i)) w =? ETIMEDOUT); [by apply runs_fails|done]. }
  assoc. apply runs_now. intros w Hw. cbn [Z.eqb negb]. assoc.
  destruct (zero_deadline w WAIT (proj1 Hw)) as [-> | ->]; apply Htail.
Qed.

Lemma runs_post_call i : ops i = Posts -> runs i (kmod (sem_self s) sem_post ;; Ret 0) Pending.
Proof.
  intros Hop. apply follows_act; simpl.
  - intros w (_ & x & Hx & _). by rewrite Hx.
  - intros w e (_ & x & Hx & _). rewrite Hx. by intros ?%list_elem_of_singleton.
  - intros w y w' (_ & x & Hx & Hn) Hin. rewrite Hx in Hin. apply list_elem_of_singleton in Hin. simplify_eq.
    exists (Settled 1). split; [|simpl; rewrite Hop; by left].
    apply (SmSettle i 1 w _ x (sem_post x)); [done|done|apply at_put|by rewrite sem_post_val| |right; by rewrite Hop].
    rewrite sem_post_val. lia.
Qed.

Lemma runs_call i : runs i (sem_code (who i) (ops i)) Pending.
Proof. destruct (ops i) eqn:Hop; [by apply runs_post_call|by apply runs_timedwait|by apply runs_trywait]. Qed.

(** ** Pools *)

Implicit Types (us : list use).

Definition sem_explained (v : Z) us w : Prop :=
  clock_ok w /\ (exists x, at_ s w = Some x /\ 0 <= sem_val x /\ sem_val x = v + tally change us)
  /\ forall i u, us !! i = Some u -> change u = 0 \/ change u = demand (ops i).

Lemma sem_explained_move v us w i u u' w' :
  sem_explained v us w -> us !! i = Some u -> sem_moves i u w u' w' -> sem_explained v (<[i:=u']> us) w'.
Proof.
  intros (Hc & (x & Hx & Hn & Hv) & Hd) Hi Hmv. unfold sem_explained. rewrite (tally_insert change us i u u' Hi).
  assert (forall w', tmr_ticks w' = tmr_ticks w -> clock_ok w') as Hclk by (intros v' Ht; unfold clock_ok; by rewrite Ht).
  assert (change u' = 0 \/ change u' = demand (ops i) ->
    forall j q, <[i:=u']> us !! j = Some q -> change q = 0 \/ change q = demand (ops j)) as Hd'.
  { intros Hu j q. rewrite list_lookup_insert_Some. intros [(<- & <- & _)|[_ Hq]]; [done|by apply Hd]. }
  inversion Hmv as [? ? ? Ht Ha|d ? ? y y' Ht Hy Hy' Hdv Hn' Hdem]; subst; (split; [by apply Hclk|]); (split; [|auto]).
  - exists x. rewrite Ha. split; [done|]. split; [done|]. lia.
  - rewrite Hx in Hy. injection Hy as <-. exists y'. split; [done|]. split; [done|]. simpl. lia.
Qed.

(** What each task of a pool has done. *)
Definition sem_pool_explained (v : Z) (c : pool world Z) us : Prop :=
  staged (fun _ _ => sem_ok) sem_moves sem_waits sem_faults sem_ends c.1 us /\ sem_explained v us c.2.

Lemma sem_pool_start n w x :
  clock_ok w -> at_ s w = Some x -> 0 <= sem_val x ->
  sem_pool_explained (sem_val x) (sem_callers n, w) (replicate n Pending).
Proof.
  intros Hc Hx Hn. split.
  - unfold sem_callers. split; [cbn; by rewrite length_map, length_seq, length_replicate|].
    intros i p u Hp Hu. apply lookup_replicate in Hu as [-> _].
    apply list_lookup_fmap_Some in Hp as (j & -> & Hj). apply lookup_seq in Hj as [-> _]. apply runs_call.
  - split; [done|]. split.
    + exists x. split; [done|]. split; [done|]. rewrite tally_replicate. simpl. lia.
    + intros i u Hu. apply lookup_replicate in Hu as [-> _]. by left.
Qed.

Lemma sem_explained_ok v us w : sem_explained v us w -> sem_ok w.
Proof. intros (Hc & (x & Hx & Hn & _) & _). split; [done|by exists x]. Qed.

Lemma sem_pool_reach v c c' us :
  sem_pool_explained v c us -> reach clocked_step c c' ->
  exists us', length us' = length us /\ sem_pool_explained v c' us'.
Proof.
  intros X H. induction H as [|y z H IH Hs]; [by exists us|]. destruct IH as (us1 & Hl & Hst & He).
  destruct Hs as [[ts w] z Hs|ts w m _ Hc]; [|exists us1; split; [done|]; split; [done|]; split; [done|apply He]]. assert (sem_ok w) as Hg by by eapply sem_explained_ok.
  destruct (staged_step _ _ _ _ _ ts us1 w z Hst (fun _ _ _ => Hg) Hs) as (i & u & u' & Hi & Hmv & Hst').
  exists (<[i:=u']> us1). split; [by rewrite length_insert|]. split; [done|]. by eapply sem_explained_move.
Qed.

(** C10: A semaphore used by any number of tasks, in every interleaving and
    while time passes: its value is the initial value with 1 added for each post
    and 1 subtracted for each wait that has gone through, and never negative; a
    call that returns 0 has changed the value once, and a wait that returns -1
    has not. So no more waits succeed than the initial value and the posts
    allow. *)
Theorem sem_pool_conserves n w x c :
  clock_ok w -> at_ s w = Some x -> 0 <= sem_val x -> reach clocked_step (sem_callers n, w) c ->
  exists ds x', length ds = n /\ at_ s c.2 = Some x' /\ 0 <= sem_val x' /\ sem_val x' = sem_val x + tally (fun d => d) ds
    /\ forall i d, ds !! i = Some d ->
         (d = 0 \/ d = demand (ops i)) /\ forall r, c.1 !! i = Some (Ret r) -> settled (ops i) d r.
Proof.
  intros Hc Hx Hn Hr. destruct (sem_pool_reach _ _ _ _ (sem_pool_start n w x Hc Hx Hn) Hr) as (us & Hl & Hst & _ & (x' & Hx' & Hn' & Hv) & Hd).
  exists (map change us), x'. rewrite length_map, Hl, length_replicate. split; [done|]. split; [done|]. split; [done|].
  split; [by rewrite tally_map|]. intros i d Hi. apply list_lookup_fmap_Some in Hi as (u & -> & Hu).
  split; [by apply Hd|]. intros r Hret. destruct (staged_lookup _ _ _ _ _ _ _ i _ Hst Hret) as (u' & Hu' & He).
  rewrite Hu in Hu'. injection Hu' as <-. by destruct u.
Qed.

(** What the tasks of a stuck pool have done. *)
Lemma sem_stuck v c us :
  sem_pool_explained v c us -> stuck pool_step c -> (forall e, ~ pool_faults c e) ->
  forall i u, us !! i = Some u -> demand (ops i) <= change u /\ (u = Pending -> sem_waits i u c.2).
Proof.
  intros [Hst X] Hs Hno i u Hi. destruct c as [ts w].
  destruct (lookup_lt_is_Some_2 ts i) as [p Hp]; [rewrite (proj1 Hst : length ts = _); by eapply lookup_lt_Some|].
  destruct (staged_stuck _ _ _ _ _ ts us w i p u Hst (fun _ _ _ => sem_explained_ok _ _ _ X) Hs Hno Hp Hi) as [Hw|(r & _ & He)].
  - split; [|done]. destruct Hw as (-> & (a & ->) & _). done.
  - destruct u as [|d]; [done|]. split; [|done]. destruct He as [[-> _]|(Hop & -> & _)]; simpl; [lia|by destruct (ops i)].
Qed.

(** C11: Progress of semaphores, while time passes: the tasks cannot run for
    ever; nothing is undefined but the conversion of a deadline that is too
    far away; and where they come to rest, a call that has not returned is a
    wait on a semaphore whose value is 0 ([sem_trywait] and [sem_post] always
    return), and this only if the initial value and the posts do not suffice
    for all the waits. *)
Theorem sem_pool_progress n w x c :
  clock_ok w -> at_ s w = Some x -> 0 <= sem_val x ->
  reach clocked_step (sem_callers n, w) c ->
  Acc (fun y z => pool_step z y) c
  /\ (forall e, pool_faults c e -> e = SignedOverflow /\ exists i, may_overflow (ops i) = true)
  /\ (stuck pool_step c -> (forall e, ~ pool_faults c e) -> forall i p, c.1 !! i = Some p ->
       (exists r, p = Ret r)
       \/ (exists a, ops i = Takes a) /\ (exists x', at_ s c.2 = Some x' /\ sem_val x' = 0)
          /\ sem_val x + tally (fun j => demand (ops j)) (seq 0 n) < 0).
Proof.
  intros Hc Hx Hn Hr. split; [apply pool_wf|].
  destruct (sem_pool_reach _ _ _ _ (sem_pool_start n w x Hc Hx Hn) Hr) as (us & Hl & X).
  pose proof (sem_explained_ok _ _ _ (proj2 X)) as Hg. rewrite length_replicate in Hl.
  split.
  { intros e He. destruct c as [ts v].
    destruct (staged_faults _ _ _ _ _ ts us v e (proj1 X) (fun _ _ _ => Hg) He) as (j & -> & Hj). eauto. }
  intros Hs Hno i p Hi. pose proof (sem_stuck _ _ _ X Hs Hno) as Hu.
  destruct (staged_lookup _ _ _ _ _ _ _ i p (proj1 X) Hi) as (u & Hui & Hf).
  destruct (Hu i u Hui) as [_ Hw]. destruct c as [ts v].
  destruct (staged_stuck _ _ _ _ _ ts us v i p u (proj1 X) (fun _ _ _ => Hg) Hs Hno Hi Hui) as [Hwait|(r & -> & _)];
    [right|left; by exists r].
  destruct Hwait as (-> & (a & Ha) & x' & Hx' & Hz). split; [by exists a|]. split; [by exists x'|].
  destruct (proj2 X) as (_ & (y & Hy & _ & Hv) & _). simpl in Hy, Hx'. rewrite Hx' in Hy. injection Hy as <-.
  pose proof (tally_seq_lt change (fun j => demand (ops j)) us 0 i Pending (fun j q Hq => proj1 (Hu j q Hq)) Hui) as Hlt.
  rewrite <- Hl. simpl in Hlt. rewrite Ha in Hlt. specialize (Hlt ltac:(simpl; lia)). lia.
Qed.
End pool.

(** ** Witnesses *)

Section sem_pool_witnesses.
Import Sim.

(** A wait, a try, and a post on an exhausted semaphore. *)
Definition three_sem_calls (i : nat) : sem_call :=
  match i with 0%nat => Takes None | 1%nat => Tries | _ => Posts end.

Definition sem_pool : pool (@world sim_kernel) Z := (sem_callers sim_who 32 three_sem_calls 3, sem_world 0).

(** The wait blocks, the try fails, the post lets the wait through. *)
Definition sem_results (c : pool (@world sim_kernel) Z) : list (option Z) * option Z :=
  (results c, at_ (S:=@sem_t sim_kernel) 32 c.2).

Lemma sem_pool_conserves_witness :
  exists c, reach pool_step sem_pool c /\ sem_results c = ([Some 0; Some (-1); Some 0], Some 0)
    /\ exists ds x', length ds = 3%nat /\ at_ (S:=@sem_t sim_kernel) 32 c.2 = Some x' /\ 0 <= sem_val x'
      /\ sem_val x' = 0 + tally (fun d => d) ds
      /\ forall i d, ds !! i = Some d ->
           (d = 0 \/ d = demand (three_sem_calls i))
           /\ forall r, c.1 !! i = Some (Ret r) -> settled (three_sem_calls i) d r.
Proof.
  destruct (sched_summary sem_results (replicate 5 1 ++ [2; 0])%nat sem_pool
    ([Some 0; Some (-1); Some 0], Some 0)) as (c & Hr & Hc); [vm_compute; reflexivity|].
  exists c. split; [exact Hr|]. split; [exact Hc|].
  apply (sem_pool_conserves sim_sem_laws sim_who 32 three_sem_calls 3 (sem_world 0) 0 c);
    [apply sim_clock_ok|reflexivity|simpl; lia|by apply clocked_reach].
Defined.

Lemma sem_pool_progress_witness :
  exists c, reach pool_step sem_pool c /\ sem_results c = ([None; Some (-1); Some 0], Some 1)
    /\ Acc (fun y z => pool_step z y) c /\ forall e, pool_faults c e -> e = SignedOverflow /\ exists i, may_overflow (three_sem_calls i) = true.
Proof.
  destruct (sched_summary sem_results (replicate 5 1 ++ [2])%nat sem_pool
    ([None; Some (-1); Some 0], Some 1)) as (c & Hr & Hc); [vm_compute; reflexivity|].
  exists c. split; [exact Hr|]. split; [exact Hc|].
  destruct (sem_pool_progress sim_sem_laws sim_who 32 three_sem_calls 3 (sem_world 0) 0 c)
    as (Hacc & Hno & _); [apply sim_clock_ok|reflexivity|simpl; lia|by apply clocked_reach|].
  split; [exact Hacc|exact Hno].
Defined.
End sem_pool_witnesses.
