(* ===== verification/Barrier.v ===== *)
(** POSIX barriers: [src/posix_pthread_barrier.c].  [pthread_barrier_wait] is
    run by the threads of a pool, interleaved at every access of the shared
    structure.  The threads are abstracted to the program points of the
    function ([pc]), whose transitions on the barrier are [next]; the
    refinement lemma [pool_refines] of [Machine.v] carries an invariant of the abstract
    machine over to the code. *)
From S2P Require Import Prelude Prog Kernel World Machine Lock SimKernel.

Definition PTHREAD_BARRIER_SERIAL_THREAD : Z := -2.

Section barrier.
Context `{P : Platform} `{K : Kernel}.

Definition bar_cur (b : Z) : ref Z :=
  fld b cur_thread (fun v x => mk_barrier v (threshold x) (b_sem x) (b_mux x)).
Definition bar_threshold (b : Z) : ref Z :=
  fld b threshold (fun v x => mk_barrier (cur_thread x) v (b_sem x) (b_mux x)).
Definition bar_sem (b : Z) : ref sem_t :=
  fld b b_sem (fun v x => mk_barrier (cur_thread x) (threshold x) v (b_mux x)).
Definition bar_mux (b : Z) : ref mut_t :=
  fld b b_mux (fun v x => mk_barrier (cur_thread x) (threshold x) (b_sem x) v).

Definition pthread_barrier_destroy (b : Z) : prog world Z := Ret 0.

Definition pthread_barrier_init (b count : Z) : prog world Z :=
  let ret := if count =? 0 then EINVAL else 0 in
  if ret =? 0 then
    kmod (bar_sem b) (fun _ => sem_init 0) ;;
    kmod (bar_mux b) (fun _ => mut_init) ;;
    store (bar_cur b) 0 ;;
    store (bar_threshold b) count ;;
    Ret ret
  else Ret ret.

(** [cur_thread] and [threshold] are [unsigned]; [cur] is the value of
    [++b->cur_thread]. *)
Definition pthread_barrier_wait (c : caller) (b : Z) : prog world Z :=
  kcall (bar_mux b) (mut_lock (task_cur c) WAIT) ;;
  let* n := load (bar_cur b) in
  let* t := load (bar_threshold b) in
  if t <=? n then
    kmod (bar_mux b) (mut_unlock (task_cur c)) ;;
    Ret EINVAL
  else
    let* n := load (bar_cur b) in
    let cur := wrapu 32 (n + 1) in
    store (bar_cur b) cur ;;
    kmod (bar_mux b) (mut_unlock (task_cur c)) ;;
    let* n := load (bar_cur b) in
    let* t := load (bar_threshold b) in
    (if t <=? n then
       let* t := load (bar_threshold b) in
       kmod (bar_sem b) (sem_post_n t)
     else Ret tt) ;;
    kcall (bar_sem b) (sem_get WAIT) ;;
    Ret (if cur =? 1 then PTHREAD_BARRIER_SERIAL_THREAD else 0).

(** ** Program points *)

(** [cur] is the local variable; the flag of [PGet] and [PDone] is a ghost
    that tells whether the thread posted the semaphore. *)
Inductive pc :=
| PLock                       (** about to lock the mutex *)
| PRead1 | PRead2 (n : Z)     (** reading [cur_thread] and [threshold] *)
| PFull                       (** the barrier is full, about to unlock *)
| PInc                        (** reading [cur_thread] for the increment *)
| PStore (n : Z)              (** storing [n + 1] *)
| PUnlock (cur : Z)
| PRead3 (cur : Z) | PRead4 (cur n : Z)
| PRead5 (cur : Z) | PPost (cur t : Z)
| PGet (cur : Z) (posted : bool)
| PDone (cur : Z) (posted : bool)
| PErr.

Definition tail_get (b cur : Z) : prog world Z :=
  kcall (bar_sem b) (sem_get WAIT) ;;
  Ret (if cur =? 1 then PTHREAD_BARRIER_SERIAL_THREAD else 0).

Definition tail_unlock (c : caller) (b cur : Z) : prog world Z :=
  kmod (bar_mux b) (mut_unlock (task_cur c)) ;;
  let* n := load (bar_cur b) in
  let* t := load (bar_threshold b) in
  (if t <=? n then
     let* t := load (bar_threshold b) in
     kmod (bar_sem b) (sem_post_n t)
   else Ret tt) ;;
  tail_get b cur.

(** The code that remains to be run at a program point. *)
Definition code (c : caller) (b : Z) (p : pc) : prog world Z :=
  match p with
  | PLock => pthread_barrier_wait c b
  | PRead1 =>
      let* n := load (bar_cur b) in
      let* t := load (bar_threshold b) in
      if t <=? n then kmod (bar_mux b) (mut_unlock (task_cur c)) ;; Ret EINVAL
      else let* n := load (bar_cur b) in
           store (bar_cur b) (wrapu 32 (n + 1)) ;; tail_unlock c b (wrapu 32 (n + 1))
  | PRead2 n =>
      let* t := load (bar_threshold b) in
      if t <=? n then kmod (bar_mux b) (mut_unlock (task_cur c)) ;; Ret EINVAL
      else let* n := load (bar_cur b) in
           store (bar_cur b) (wrapu 32 (n + 1)) ;; tail_unlock c b (wrapu 32 (n + 1))
  | PFull => kmod (bar_mux b) (mut_unlock (task_cur c)) ;; Ret EINVAL
  | PInc => let* n := load (bar_cur b) in
            store (bar_cur b) (wrapu 32 (n + 1)) ;; tail_unlock c b (wrapu 32 (n + 1))
  | PStore n => store (bar_cur b) (wrapu 32 (n + 1)) ;; tail_unlock c b (wrapu 32 (n + 1))
  | PUnlock cur => tail_unlock c b cur
  | PRead3 cur =>
      let* n := load (bar_cur b) in
      let* t := load (bar_threshold b) in
      (if t <=? n then
         let* t := load (bar_threshold b) in kmod (bar_sem b) (sem_post_n t)
       else Ret tt) ;; tail_get b cur
  | PRead4 cur n =>
      let* t := load (bar_threshold b) in
      (if t <=? n then
         let* t := load (bar_threshold b) in kmod (bar_sem b) (sem_post_n t)
       else Ret tt) ;; tail_get b cur
  | PRead5 cur =>
      let* t := load (bar_threshold b) in kmod (bar_sem b) (sem_post_n t) ;; tail_get b cur
  | PPost cur t => kmod (bar_sem b) (sem_post_n t) ;; tail_get b cur
  | PGet cur _ => tail_get b cur
  | PDone cur _ => Ret (if cur =? 1 then PTHREAD_BARRIER_SERIAL_THREAD else 0)
  | PErr => Ret EINVAL
  end.

Definition set_b_mux (x : mut_t) (s : pthread_barrier_t) : pthread_barrier_t :=
  mk_barrier (cur_thread s) (threshold s) (b_sem s) x.
Definition set_b_sem (x : sem_t) (s : pthread_barrier_t) : pthread_barrier_t :=
  mk_barrier (cur_thread s) (threshold s) x (b_mux s).

(** The transitions of a program point on the barrier [s]. *)
Definition next (me : Z) (p : pc) (s : pthread_barrier_t) : list (pc * pthread_barrier_t) :=
  match p with
  | PLock => map (fun x => (PRead1, set_b_mux x.2 s)) (mut_lock me WAIT (b_mux s))
  | PRead1 => [(PRead2 (cur_thread s), s)]
  | PRead2 n => [(if threshold s <=? n then PFull else PInc, s)]
  | PFull => [(PErr, set_b_mux (mut_unlock me (b_mux s)) s)]
  | PInc => [(PStore (cur_thread s), s)]
  | PStore n =>
      [(PUnlock (wrapu 32 (n + 1)),
        mk_barrier (wrapu 32 (n + 1)) (threshold s) (b_sem s) (b_mux s))]
  | PUnlock cur => [(PRead3 cur, set_b_mux (mut_unlock me (b_mux s)) s)]
  | PRead3 cur => [(PRead4 cur (cur_thread s), s)]
  | PRead4 cur n => [(if threshold s <=? n then PRead5 cur else PGet cur false, s)]
  | PRead5 cur => [(PPost cur (threshold s), s)]
  | PPost cur t => [(PGet cur true, set_b_sem (sem_post_n t (b_sem s)) s)]
  | PGet cur posted => map (fun x => (PDone cur posted, set_b_sem x.2 s)) (sem_get WAIT (b_sem s))
  | PDone _ _ | PErr => []
  end.

(** Each action of the code is a transition of the program point. *)
Lemma code_step c b p (s : pthread_barrier_t) w :
  at_ b w = Some s ->
  pstep (code c b p) w
  = map (fun x => Done (code c b x.1) (put b x.2 w)) (next (task_cur c) p s).
Proof.
  intros H. pose proof (put_same b s w H) as Hs.
  destruct p; cbn [next map]; rewrite ?map_map; try done;
    unfold code, pthread_barrier_wait, tail_unlock, tail_get, kmod,
      bar_mux, bar_cur, bar_threshold, bar_sem;
    first [ erewrite pstep_kcall by done; done
          | erewrite pstep_store by done; done
          | erewrite pstep_load by done; cbn [fst snd]; rewrite Hs; done
          | erewrite pstep_load by done; cbn [fst snd]; rewrite Hs; by case_if ].
Qed.
End barrier.

(** ** The invariant of a barrier *)

Section barrier_inv.
Context `{P : Platform} `{K : Kernel} (ML : MutLaws P K) (SL : SemLaws P K).
(** The threads, [who i] for the [i]-th one, are different tasks. *)
Context (who : nat -> caller) (b n : Z).
Hypothesis who_task : forall i, task_cur (who i) <> 0.
Hypothesis who_inj : forall i j, task_cur (who i) = task_cur (who j) -> i = j.
Hypothesis n_range : 1 <= n <= UINT_MAX.

#[local] Instance barrier_machine : Machine world Z pc pthread_barrier_t := {|
  view := at_ b;
  update := put b;
  view_update s w := at_put b s w;
  residual i := code (who i) b;
  transitions i p s := map inl (next (task_cur (who i)) p s);
  code_next i p s w H := eq_trans (code_step (who i) b p s w H) (eq_sym (map_map _ _ _))
|}.

(** Weights of a program point: inside the critical section; the call has
    been counted in [cur_thread]; it posted the semaphore; it passed it; it
    posted or will do so if it finds the barrier full; it was counted first. *)
Definition in_cs (p : pc) : Z :=
  match p with PRead1 | PRead2 _ | PFull | PInc | PStore _ | PUnlock _ => 1 | _ => 0 end.
Definition counted (p : pc) : Z :=
  match p with
  | PUnlock _ | PRead3 _ | PRead4 _ _ | PRead5 _ | PPost _ _ | PGet _ _ | PDone _ _ => 1
  | _ => 0 end.
Definition posted (p : pc) : Z :=
  match p with PGet _ true | PDone _ true => 1 | _ => 0 end.
Definition passed (p : pc) : Z := match p with PDone _ _ => 1 | _ => 0 end.
Definition posts (p : pc) : Z :=
  match p with
  | PUnlock _ | PRead3 _ | PRead5 _ | PPost _ _ | PGet _ true | PDone _ true => 1
  | PRead4 _ k => if n <=? k then 1 else 0
  | _ => 0 end.
Definition first (p : pc) : Z :=
  match p with
  | PUnlock c | PRead3 c | PRead4 c _ | PRead5 c | PPost c _ | PGet c _ | PDone c _ =>
      if c =? 1 then 1 else 0
  | _ => 0 end.

(** What a thread at a program point knows of [cur_thread]. *)
Definition knows (cur : Z) (p : pc) : Prop :=
  match p with
  | PLock | PRead1 => True
  | PRead2 k => k = cur
  | PFull | PErr => cur = n
  | PInc => cur < n
  | PStore k => k = cur /\ cur < n
  | PUnlock c | PRead3 c => 1 <= c <= cur
  | PRead4 c k => 1 <= c <= cur /\ k <= cur
  | PRead5 c => 1 <= c <= cur /\ cur = n
  | PPost c t => 1 <= c <= cur /\ cur = n /\ t = n
  | PGet c r | PDone c r => 1 <= c <= cur /\ (r = true -> cur = n)
  end.

Record barrier_inv (ps : list pc) (s : pthread_barrier_t) : Prop := {
  inv_threshold : threshold s = n;
  inv_cur : cur_thread s = tally counted ps;
  inv_bound : cur_thread s <= n;
  inv_lock : lock_inv ML who in_cs ps (b_mux s);
  inv_sem : sem_val (b_sem s) = n * tally posted ps - tally passed ps;
  inv_sem_pos : 0 <= sem_val (b_sem s);
  inv_posts : cur_thread s = n -> 1 <= tally posts ps;
  inv_first : tally first ps = if cur_thread s =? 0 then 0 else 1;
  inv_knows : forall i p, ps !! i = Some p -> knows (cur_thread s) p
}.

Lemma in_cs_bit p : in_cs p = 0 \/ in_cs p = 1.
Proof. destruct p; simpl; auto. Qed.

Lemma counted_bit p : 0 <= counted p <= 1.
Proof. destruct p; simpl; lia. Qed.

Lemma posted_nonneg p : 0 <= posted p.
Proof. destruct p; simpl; case_ifs; lia. Qed.

Lemma posts_nonneg p : 0 <= posts p.
Proof. destruct p; simpl; case_ifs; lia. Qed.

Lemma passed_counted p : 0 <= passed p <= counted p.
Proof. destruct p; simpl; lia. Qed.

Lemma first_counted p : 0 <= first p <= counted p.
Proof. destruct p; simpl; case_ifs; lia. Qed.

(** Counting one more thread does not disturb those outside. *)
Lemma knows_mono cur p : in_cs p = 0 -> cur < n -> knows cur p -> knows (cur + 1) p.
Proof.
  destruct p as [| | | | | | | | | | |? []|? []|]; simpl; try lia; intros; naive_solver lia.
Qed.

(** The invariant after thread [i] moves from [p] to [p'] and the barrier
    becomes [s'], from the changes of the weights. *)
Lemma inv_update ps s i p p' s' :
  barrier_inv ps s -> ps !! i = Some p ->
  threshold s' = n ->
  cur_thread s' = cur_thread s - counted p + counted p' ->
  cur_thread s' <= n ->
  lock_inv ML who in_cs (<[i:=p']> ps) (b_mux s') ->
  sem_val (b_sem s') = sem_val (b_sem s) + n * (posted p' - posted p) - (passed p' - passed p) ->
  0 <= sem_val (b_sem s') ->
  (cur_thread s' = n -> 1 <= tally posts ps - posts p + posts p') ->
  (tally first ps - first p + first p' = if cur_thread s' =? 0 then 0 else 1) ->
  knows (cur_thread s') p' ->
  (forall j q, j <> i -> ps !! j = Some q -> knows (cur_thread s') q) ->
  barrier_inv (<[i:=p']> ps) s'.
Proof.
  intros I Hi Ht Hc Hb Hl Hs Hp Hpo Hf Hk Hks. split; try done.
  - rewrite (tally_insert counted ps i p p' Hi), <- (inv_cur _ _ I). lia.
  - rewrite (tally_insert posted ps i p p' Hi), (tally_insert passed ps i p p' Hi).
    rewrite (inv_sem _ _ I) in Hs. lia.
  - rewrite (tally_insert posts ps i p p' Hi). auto.
  - rewrite (tally_insert first ps i p p' Hi). auto.
  - intros j q Hj. destruct (decide (j = i)) as [->|Hne].
    + rewrite list_lookup_insert_eq in Hj by (by eapply lookup_lt_Some). by simplify_eq.
    + rewrite list_lookup_insert_ne in Hj by done. eauto.
Qed.

(** A step that changes neither the count nor the semaphore. *)
Lemma inv_quiet ps s i p p' s' :
  barrier_inv ps s -> ps !! i = Some p ->
  threshold s' = threshold s -> cur_thread s' = cur_thread s -> b_sem s' = b_sem s ->
  counted p' = counted p -> posted p' = posted p -> passed p' = passed p -> first p' = first p ->
  (cur_thread s = n -> posts p <= posts p') ->
  lock_inv ML who in_cs (<[i:=p']> ps) (b_mux s') ->
  knows (cur_thread s) p' ->
  barrier_inv (<[i:=p']> ps) s'.
Proof.
  intros I Hi Ht Hc Hs E1 E2 E3 E4 Hpo Hl Hk.
  eapply (inv_update ps s i p p' s'); rewrite ?Ht, ?Hc, ?Hs, ?E1, ?E2, ?E3, ?E4; try done.
  - apply (inv_threshold _ _ I).
  - lia.
  - apply (inv_bound _ _ I).
  - lia.
  - apply (inv_sem_pos _ _ I).
  - intros H. pose proof (inv_posts _ _ I H). specialize (Hpo H). lia.
  - pose proof (inv_first _ _ I). lia.
  - intros j q _. apply (inv_knows _ _ I).
Qed.

(** The step that counts the thread. *)
Lemma inv_store ps s i k :
  barrier_inv ps s -> ps !! i = Some (PStore k) ->
  barrier_inv (<[i:=PUnlock (wrapu 32 (k + 1))]> ps)
    (mk_barrier (wrapu 32 (k + 1)) (threshold s) (b_sem s) (b_mux s)).
Proof.
  intros I Hi. destruct (inv_knows _ _ I i _ Hi) as [-> Hlt].
  assert (0 <= cur_thread s) as H0.
  { rewrite (inv_cur _ _ I). apply tally_nonneg. apply counted_bit. }
  unfold UINT_MAX in *. rewrite wrapu_small by lia.
  eapply (inv_update ps s i (PStore (cur_thread s))); simpl; try done.
  - apply (inv_threshold _ _ I).
  - lia.
  - lia.
  - eapply lock_keep; [apply (inv_lock _ _ I)|done|done].
  - lia.
  - apply (inv_sem_pos _ _ I).
  - intros _. pose proof (tally_nonneg posts ps posts_nonneg). lia.
  - rewrite (inv_first _ _ I). test_false (cur_thread s + 1 =? 0).
    case_ifs; bool_lia.
  - lia.
  - intros j q Hne Hj. apply knows_mono; [|done|by apply (inv_knows _ _ I j)].
    destruct (lock_alone ML who in_cs in_cs_bit ps (b_mux s) i _ (inv_lock _ _ I) Hi eq_refl)
      as (_ & _ & Ha). eauto.
Qed.

(** Posting the semaphore, *)
Lemma inv_post ps s i cur t :
  barrier_inv ps s -> ps !! i = Some (PPost cur t) -> t = n ->
  barrier_inv (<[i:=PGet cur true]> ps) (set_b_sem (sem_post_n t (b_sem s)) s).
Proof.
  intros I Hi ->. destruct (inv_knows _ _ I i _ Hi) as (Hc & Hcn & _).
  eapply (inv_update ps s i (PPost cur n)); simpl; try done.
  - apply (inv_threshold _ _ I).
  - lia.
  - lia.
  - eapply lock_keep; [apply (inv_lock _ _ I)|done|done].
  - rewrite sem_post_n_val by lia. lia.
  - rewrite sem_post_n_val by lia. pose proof (inv_sem_pos _ _ I). lia.
  - intros H. pose proof (inv_posts _ _ I H). lia.
  - rewrite (inv_first _ _ I). lia.
  - intros j q _. apply (inv_knows _ _ I).
Qed.

(** and passing it. *)
Lemma inv_get ps s i cur done_ r x :
  barrier_inv ps s -> ps !! i = Some (PGet cur done_) ->
  (r, x) ∈ sem_get WAIT (b_sem s) ->
  barrier_inv (<[i:=PDone cur done_]> ps) (set_b_sem x s).
Proof.
  intros I Hi Hn. pose proof (inv_knows _ _ I i _ Hi) as Hk.
  assert (0 < sem_val (b_sem s)) as Hpos.
  { pose proof (inv_sem_pos _ _ I). destruct (decide (sem_val (b_sem s) = 0)) as [E|]; [|lia].
    rewrite sem_get_wait in Hn by done. set_solver. }
  destruct (sem_get_avail (b_sem s) WAIT Hpos) as (y & Hy & Hv).
  rewrite Hy in Hn. apply list_elem_of_singleton in Hn. simplify_eq.
  eapply (inv_update ps s i (PGet cur done_)); simpl; try done.
  - apply (inv_threshold _ _ I).
  - lia.
  - apply (inv_bound _ _ I).
  - eapply lock_keep; [apply (inv_lock _ _ I)|done|done].
  - destruct done_; lia.
  - lia.
  - intros H. pose proof (inv_posts _ _ I H). destruct done_; lia.
  - rewrite <- (inv_first _ _ I). lia.
  - intros j q _. apply (inv_knows _ _ I).
Qed.

Lemma inv_step ps s i p p' s' :
  barrier_inv ps s -> ps !! i = Some p -> (p', s') ∈ next (task_cur (who i)) p s ->
  barrier_inv (<[i:=p']> ps) s'.
Proof.
  intros I Hi Hn. pose proof (inv_knows _ _ I i p Hi) as Hk.
  pose proof (inv_lock _ _ I) as HL.
  destruct p; simpl in Hn;
    try (apply list_elem_of_singleton in Hn; simplify_eq).
  - apply list_elem_of_fmap in Hn as ([r m'] & Heq & Hn). simplify_eq/=.
    eapply (inv_quiet ps s i PLock); try done.
    by destruct (lock_acquire ML who in_cs who_task who_inj in_cs_bit ps (b_mux s) i PLock PRead1 WAIT r m'
      HL Hi eq_refl eq_refl eq_refl Hn) as (_ & _ & ?).
  - eapply (inv_quiet ps _ i PRead1); try done. by eapply lock_keep.
  - simpl in Hk. subst. eapply (inv_quiet ps _ i (PRead2 _)); try done; try by case_if.
    + eapply lock_keep; [done|done|by case_if].
    + rewrite (inv_threshold _ _ I). pose proof (inv_bound _ _ I). case_if; simpl; bool_lia.
  - eapply (inv_quiet ps s i PFull); try done. simpl.
    by eapply (lock_release ML who in_cs in_cs_bit).
  - eapply (inv_quiet ps _ i PInc); try done. by eapply lock_keep.
  - by apply inv_store.
  - eapply (inv_quiet ps s i (PUnlock cur)); try done. simpl.
    by eapply (lock_release ML who in_cs in_cs_bit).
  - eapply (inv_quiet ps _ i (PRead3 cur)); try done; simpl in *;
      first [by eapply lock_keep | lia | intros ->; by test_true (n <=? n)].
  - rewrite (inv_threshold _ _ I) in *. pose proof (inv_bound _ _ I). simpl in Hk.
    destruct (n <=? n0) eqn:E; bool_lia;
      eapply (inv_quiet ps _ i (PRead4 cur n0)); try done; simpl; try by eapply lock_keep.
    + by case_ifs.
    + lia.
    + test_false (n <=? n0). lia.
    + split; [lia|done].
  - eapply (inv_quiet ps _ i (PRead5 cur)); try done; simpl in *; [by eapply lock_keep|].
    rewrite (inv_threshold _ _ I). lia.
  - apply inv_post; [done..|]. by destruct Hk as (_ & _ & ->).
  - apply list_elem_of_fmap in Hn as ([r x] & Heq & Hn). simplify_eq/=. by eapply inv_get.
  - set_solver.
  - set_solver.
Qed.

Lemma inv_init m s :
  threshold s = n -> cur_thread s = 0 -> sem_val (b_sem s) = 0 -> mut_own (b_mux s) = 0 ->
  barrier_inv (replicate m PLock) s.
Proof.
  intros Ht Hc Hs Hm.
  split; rewrite ?tally_replicate, ?Hc, ?Hs; simpl; try lia.
  left. rewrite tally_replicate. simpl. split; [done|lia].
  intros i p [-> _]%lookup_replicate. done.
Qed.

(** Every reachable state of [m] callers. *)
Definition callers (m : nat) : list (prog world Z) :=
  map (fun i => pthread_barrier_wait (who i) b) (seq 0 m).

Lemma callers_threads m : callers m = threads (replicate m PLock).
Proof.
  apply list_eq. intros i. unfold callers, threads.
  rewrite list_lookup_imap, list_lookup_fmap.
  destruct (decide (i < m)%nat).
  - rewrite lookup_seq_lt, lookup_replicate_2 by done. done.
  - rewrite lookup_seq_ge, (proj1 (lookup_replicate_None m PLock i)) by lia. done.
Qed.

Lemma reach_inv_mstep ps s ps' s' :
  barrier_inv ps s -> reach mstep (ps, s) (ps', s') ->
  barrier_inv ps' s' /\ length ps' = length ps.
Proof.
  intros I H.
  apply (reach_inv mstep (fun x => barrier_inv x.1 x.2 /\ length x.1 = length ps) (ps, s) (ps', s')) in H;
    [done|done|].
  intros x y [Ix Hl] Hs. destruct Hs as [qs t i p p' t' Hi Hn]. simpl in *.
  apply list_elem_of_fmap in Hn as ([p1 t1] & [= -> ->] & Hn).
  rewrite length_insert. split; [by eapply inv_step|done].
Qed.

Lemma callers_inv m w s c :
  at_ b w = Some s -> threshold s = n -> cur_thread s = 0 ->
  sem_val (b_sem s) = 0 -> mut_own (b_mux s) = 0 ->
  reach pool_step (callers m, w) c ->
  exists ps s', c.1 = threads ps /\ at_ b c.2 = Some s' /\ barrier_inv ps s' /\ length ps = m.
Proof.
  intros Hb Ht Hc Hs Hm H. rewrite callers_threads in H.
  destruct (pool_refines (M:=barrier_machine) _ s _ _ Hb H) as (ps & s' & Hr & E & Hv).
  destruct (reach_inv_mstep _ _ _ _ (inv_init m s Ht Hc Hs Hm) Hr) as [I Hl].
  rewrite length_replicate in Hl. by exists ps, s'.
Qed.

(** A barrier as [pthread_barrier_init] leaves it. *)
Definition fresh_barrier (s : pthread_barrier_t) : Prop :=
  threshold s = n /\ cur_thread s = 0 /\ sem_val (b_sem s) = 0 /\ mut_own (b_mux s) = 0.

(** A thread that passed the semaphore, or was refused, finds the barrier
    full. *)
Lemma done_full ps s i p :
  barrier_inv ps s -> ps !! i = Some p -> passed p = 1 \/ p = PErr -> cur_thread s = n.
Proof.
  intros I Hi [Hp| ->]; [|exact (inv_knows _ _ I i _ Hi)].
  pose proof (tally_lookup passed ps i p (fun q => proj1 (passed_counted q)) Hi).
  pose proof (inv_sem _ _ I). pose proof (inv_sem_pos _ _ I).
  assert (0 < tally posted ps) as Hpos by nia.
  apply tally_pos in Hpos as (j & q & Hj & Hq); [|apply posted_nonneg].
  pose proof (inv_knows _ _ I j q Hj) as Hk.
  destruct q as [| | | | | | | | | | |? []|? []|]; simpl in *; lia || (by apply Hk).
Qed.

(** The results of the callers, as weights. *)
Definition released (p : prog world Z) : Z :=
  match p with Ret r => if r =? EINVAL then 0 else 1 | _ => 0 end.
Definition serial (p : prog world Z) : Z :=
  match p with Ret r => if r =? PTHREAD_BARRIER_SERIAL_THREAD then 1 else 0 | _ => 0 end.

Lemma released_passed ps : tally released (threads ps) = tally passed ps.
Proof.
  apply tally_imap. intros i p. unfold residual; simpl.
  destruct p; try done. simpl. by destruct (cur =? 1).
Qed.

Lemma serial_first ps : tally serial (threads ps) <= tally first ps.
Proof.
  unfold threads. rewrite (tally_imap serial _ (fun p => match p with PDone c _ => if c =? 1 then 1 else 0 | _ => 0 end)).
  - apply tally_le. intros p. destruct p; simpl; case_ifs; lia.
  - intros i p. unfold residual; simpl. destruct p; try done. simpl. by destruct (cur =? 1).
Qed.

(** In a stuck state every thread is at a point without a transition. *)
Lemma stuck_points ps s :
  barrier_inv ps s -> (forall i p, ps !! i = Some p -> next (task_cur (who i)) p s = []) ->
  n <= Z.of_nat (length ps) -> cur_thread s = n /\ forall p, p ∈ ps -> passed p = 1 \/ p = PErr.
Proof.
  intros I Hst Hm.
  assert (forall i p, ps !! i = Some p -> in_cs p = 0) as Hcs.
  { intros i p Hi. specialize (Hst i p Hi). by destruct p. }
  assert (forall p, p ∈ ps -> p <> PLock) as Hlk.
  { intros p [i Hi]%list_elem_of_lookup ->. specialize (Hst i _ Hi). simpl in Hst.
    destruct (lock_progress ML who in_cs who_task ps (b_mux s) i (inv_lock _ _ I)) as [(j & q & Hj & Hq)|H].
    - rewrite (Hcs j q Hj) in Hq. done.
    - by destruct (mut_lock (task_cur (who i)) WAIT (b_mux s)). }
  assert (forall p, p ∈ ps -> (exists c r, p = PGet c r \/ p = PDone c r) \/ p = PErr) as Hp.
  { intros p Hp. pose proof (Hlk p Hp). apply list_elem_of_lookup in Hp as [i Hi].
    specialize (Hst i p Hi). destruct p; simpl in *; try done; eauto. }
  assert (cur_thread s = n) as Hn.
  { pose proof (inv_bound _ _ I). destruct (decide (cur_thread s = n)) as [|Hne]; [done|].
    assert (tally counted ps = tally (fun _ => 1) ps) as E.
    { apply tally_ext_in. intros p Hin. destruct (Hp p Hin) as [(c & r & [->| ->])| ->]; try done.
      apply list_elem_of_lookup in Hin as [i Hi]. by apply (inv_knows _ _ I) in Hi. }
    rewrite tally_const1, <- (inv_cur _ _ I) in E. lia. }
  split; [done|]. intros p Hin. destruct (Hp p Hin) as [(c & r & [->| ->])| ->]; auto.
  exfalso. apply list_elem_of_lookup in Hin as [i Hi]. specialize (Hst i _ Hi). simpl in Hst.
  assert (sem_val (b_sem s) = 0) as H0.
  { pose proof (inv_sem_pos _ _ I). destruct (decide (sem_val (b_sem s) = 0)); [done|].
    destruct (sem_get_avail (b_sem s) WAIT ltac:(lia)) as (x & Hx & _). by rewrite Hx in Hst. }
  assert (0 < tally posts ps) as Hpo by (pose proof (inv_posts _ _ I Hn); lia).
  apply tally_pos in Hpo as (j & q & Hj & Hq); [|apply posts_nonneg].
  assert (1 <= tally posted ps).
  { pose proof (tally_lookup posted ps j q posted_nonneg Hj) as Hle. clear -Hle Hq Hp Hj.
    destruct (Hp q ltac:(by eapply list_elem_of_lookup_2)) as [(c' & [] & [->| ->])| ->];
      simpl in Hle, Hq; lia. }
  set (f := fun p => passed p + match p with PGet _ _ => 1 | _ => 0 end).
  assert (tally f ps <= tally counted ps) by (apply tally_le; intros []; unfold f; simpl; lia).
  unfold f in *. rewrite tally_add in *.
  pose proof (tally_lookup (fun p => match p with PGet _ _ => 1 | _ => 0 end) ps i _
    ltac:(intros []; simpl; lia) Hi) as Hg. simpl in Hg.
  pose proof (inv_sem _ _ I). pose proof (inv_cur _ _ I). nia.
Qed.

(** ** Properties *)

(** C1: [m] threads call [pthread_barrier_wait] on a fresh barrier of
    threshold [n], interleaved in any way.  None of them runs into undefined
    behaviour; a thread returns (with anything, a refusal included) only when
    the barrier is full, and so not at all if [m < n]; and at most one
    returns [PTHREAD_BARRIER_SERIAL_THREAD]. *)
Theorem barrier_waits_for_all m w s c :
  at_ b w = Some s -> fresh_barrier s -> reach pool_step (callers m, w) c ->
  (forall e, ~ pool_faults c e)
  /\ (forall i r, c.1 !! i = Some (Ret r) ->
        n <= Z.of_nat m /\ exists s', at_ b c.2 = Some s' /\ cur_thread s' = n)
  /\ tally released c.1 <= n
  /\ tally serial c.1 <= 1.
Proof.
  intros Hb (Ht & Hc & Hs & Hm) H.
  destruct (callers_inv m w s c Hb Ht Hc Hs Hm H) as (ps & s' & E & Hv & I & Hl).
  destruct c as [ts w']. simpl in *. subst ts.
  pose proof (inv_cur _ _ I) as Hcur. pose proof (inv_bound _ _ I) as Hbound.
  assert (tally counted ps <= Z.of_nat m) as Hle.
  { rewrite <- Hl, <- tally_const1. apply tally_le, counted_bit. }
  split; [|split; [|split]].
  - intros e. apply (pool_no_fault (M:=barrier_machine) ps s'); [done|].
    intros i p _ Hin. by apply list_elem_of_fmap in Hin as (? & ? & _).
  - intros i r Hi. apply threads_lookup in Hi as (p & Hi & Hp).
    assert (passed p = 1 \/ p = PErr) as Hd by (destruct p; simpl in Hp; try done; auto).
    pose proof (done_full ps s' i p I Hi Hd). split; [lia|]. by exists s'.
  - rewrite released_passed. etrans; [|exact Hbound]. rewrite Hcur.
    apply tally_le, passed_counted.
  - etrans; [apply serial_first|]. rewrite (inv_first _ _ I). case_if; lia.
Qed.

(** C13: When at least [n] threads call, the barrier never deadlocks: every
    execution is finite, and one that cannot be continued has all threads
    returned, exactly [n] of them released and the others refused with
    [EINVAL]. *)
Theorem barrier_releases_all m w s c :
  at_ b w = Some s -> fresh_barrier s -> n <= Z.of_nat m ->
  reach pool_step (callers m, w) c ->
  Acc (fun d c => pool_step c d) c
  /\ (stuck pool_step c ->
       (forall i p, c.1 !! i = Some p -> exists r, p = Ret r)
       /\ tally released c.1 = n).
Proof.
  intros Hb (Ht & Hc & Hs & Hm) Hnm H. split; [apply pool_wf|]. intros Hst.
  destruct (callers_inv m w s c Hb Ht Hc Hs Hm H) as (ps & s' & E & Hv & I & Hl).
  destruct c as [ts w']. simpl in *. subst ts.
  destruct (stuck_points ps s' I) as [Hfull Hdone].
  { intros i p Hi. pose proof (stuck_machine (M:=barrier_machine) ps s' w' i p Hv Hst Hi) as Hno.
    simpl in Hno. destruct (next (task_cur (who i)) p s') as [|x l]; [done|].
    exfalso. apply (Hno x). simpl. set_solver. }
  { by rewrite Hl. }
  split.
  - intros i q Hi. apply threads_lookup in Hi as (p & Hi & ->).
    destruct (Hdone p) as [Hp| ->]; [by eapply list_elem_of_lookup_2| |by eexists].
    destruct p; simpl in Hp; try done. by eexists.
  - rewrite released_passed, <- Hfull, (inv_cur _ _ I). symmetry. apply tally_ext_in.
    intros p Hp. destruct (Hdone p Hp) as [Hq| ->]; [|done]. destruct p; simpl in Hq; done.
Qed.
End barrier_inv.

Section barrier_props.
Context `{P : Platform} `{K : Kernel} (ML : MutLaws P K) (SL : SemLaws P K).
Implicit Types (w : world) (c : caller) (s : pthread_barrier_t).

(** [pthread_barrier_init] refuses a count of zero and leaves a fresh
    barrier for any other count. *)
Theorem barrier_init_fresh w b s n :
  at_ b w = Some s -> 0 <= n <= UINT_MAX ->
  if n =? 0 then run (pthread_barrier_init b n) w = [Done EINVAL w]
  else exists s', run (pthread_barrier_init b n) w = [Done 0 (put b s' w)] /\ fresh_barrier n s'.
Proof.
  intros Hb Hn. unfold pthread_barrier_init, bar_sem, bar_mux, bar_cur, bar_threshold.
  destruct (n =? 0) eqn:E; cbn [Z.eqb]; [done|]. eexists. split.
  - do 4 step. done.
  - repeat split; simpl; [by apply sem_init_val|apply mut_init_free].
Qed.

(** The barrier serves one group of threads only: once [threshold] calls
    have been counted, every further call returns [EINVAL] without waiting;
    the count is never reset. *)
Theorem barrier_one_shot w b c s :
  at_ b w = Some s -> threshold s <= cur_thread s ->
  mut_own (b_mux s) = 0 -> task_cur c <> 0 ->
  exists s', run (pthread_barrier_wait c b) w = [Done EINVAL (put b s' w)]
    /\ cur_thread s' = cur_thread s /\ threshold s' = threshold s
    /\ b_sem s' = b_sem s /\ mut_own (b_mux s') = 0.
Proof.
  intros Hb Hfull Hfree Hc.
  destruct (mut_lock_free (b_mux s) (task_cur c) WAIT Hc Hfree) as (x & Hx & Hh).
  exists (set_b_mux (mut_unlock (task_cur c) x) s). split.
  - unfold pthread_barrier_wait, bar_mux, bar_cur, bar_threshold. kstep Hx. step. step.
    cbn [cur_thread threshold]. test_true (threshold s <=? cur_thread s). by step.
  - repeat split. simpl. by apply mut_unlock_held.
Qed.
End barrier_props.

Section barrier_witnesses.
Import Sim.

Definition sim_barrier (cur thr sem : Z) : @pthread_barrier_t sim_kernel :=
  @mk_barrier sim_kernel cur thr sem (0, 0%nat).
Definition barrier_world (cur thr sem : Z) : world :=
  sim_world {[ 96 := OBarrier (sim_barrier cur thr sem) ]}.
Lemma barrier_waits_for_all_witness :
  (forall e, ~ pool_faults (callers sim_who 96 3, barrier_world 0 2 0) e)
  /\ tally serial (callers sim_who 96 3) <= 1.
Proof.
  destruct (barrier_waits_for_all sim_mut_laws sim_sem_laws sim_who 96 2 sim_who_task sim_who_inj
    ltac:(vm_compute; intuition congruence) 3 (barrier_world 0 2 0) (sim_barrier 0 2 0)
    (callers sim_who 96 3, barrier_world 0 2 0) eq_refl) as (H1 & _ & _ & H2).
  - repeat split.
  - constructor.
  - split; [exact H1 | exact H2].
Defined.

(** Three threads at a barrier of two, run to the end by a schedule. *)
Definition returned (p : prog (@world sim_kernel) Z) : option Z :=
  match p with Ret r => Some r | _ => None end.

Definition sim_order : list nat :=
  [0;0;0;0;0;0;0;0; 1;1;1;1;1;1;1; 2;2;2;2; 1;1;1;1; 0]%nat.

Example barrier_run :
  option_map (fun c => map returned c.1) (sched sim_order (callers sim_who 96 3, barrier_world 0 2 0))
  = Some [Some (-2); Some 0; Some 22].
Proof. vm_compute. reflexivity. Qed.

Lemma barrier_releases_all_witness :
  let c := (callers sim_who 96 3, barrier_world 0 2 0) in
  Acc (fun d c => pool_step c d) c
  /\ (stuck pool_step c ->
       (forall i p, c.1 !! i = Some p -> exists r, p = Ret r) /\ tally released c.1 = 2).
Proof.
  apply (barrier_releases_all sim_mut_laws sim_sem_laws sim_who 96 2 sim_who_task sim_who_inj
    ltac:(vm_compute; intuition congruence) 3 (barrier_world 0 2 0) (sim_barrier 0 2 0)).
  - reflexivity.
  - repeat split.
  - simpl. lia.
  - constructor.
Defined.

Lemma barrier_init_fresh_witness :
  exists s', run (pthread_barrier_init 96 2) (barrier_world 7 7 7) = [Done 0 (put 96 s' (barrier_world 7 7 7))]
    /\ fresh_barrier 2 s'.
Proof.
  apply (barrier_init_fresh sim_mut_laws sim_sem_laws (barrier_world 7 7 7) 96 (sim_barrier 7 7 7) 2);
    [reflexivity | vm_compute; intuition congruence].
Defined.

Lemma barrier_one_shot_witness :
  exists s', run (pthread_barrier_wait task_a 96) (barrier_world 2 2 0) = [Done EINVAL (put 96 s' (barrier_world 2 2 0))]
    /\ cur_thread s' = 2 /\ threshold s' = 2
    /\ b_sem s' = (0 : @sem_t sim_kernel) /\ mut_own (b_mux s') = 0.
Proof.
  apply (barrier_one_shot sim_mut_laws (barrier_world 2 2 0) 96 task_a (sim_barrier 2 2 0));
    [reflexivity | simpl; lia | reflexivity | simpl; lia].
Defined.
End barrier_witnesses.
