(* ===== verification/Cond.v ===== *)
(** Condition variables: [src/posix_pthread_cond.c].  A condition variable
    counts its waiting threads under a kernel mutex and blocks them on a
    kernel semaphore.  The threads of a pool run the three operations,
    interleaved at every access; the calls of the POSIX mutex functions are
    sub-programs that do not touch the condition variable ([framed]). *)
From S2P Require Import Prelude Prog Kernel World Machine Lock SimKernel Timespec Clock Attr Mutex.

Section cond.
Context `{P : Platform} `{K : Kernel}.

Definition cond_inited (p : Z) : ref Z :=
  fld p c_inited (fun v x => mk_cond v (c_mux x) (c_cond x) (waiting x)).
Definition cond_mux (p : Z) : ref mut_t :=
  fld p c_mux (fun v x => mk_cond (c_inited x) v (c_cond x) (waiting x)).
Definition cond_cond (p : Z) : ref sem_t :=
  fld p c_cond (fun v x => mk_cond (c_inited x) (c_mux x) v (waiting x)).
Definition cond_waiting (p : Z) : ref Z :=
  fld p waiting (fun v x => mk_cond (c_inited x) (c_mux x) (c_cond x) v).

(** [{0,0,0,0}] *)
Definition PTHREAD_COND_INITIALIZER : pthread_cond_t := mk_cond 0 mut_zero sem_zero 0.

Definition pthread_cond_destroy (cond : Z) : prog world Z := Ret 0.

Definition pthread_cond_init (cond : Z) : prog world Z :=
  let ret := if cond =? 0 then ENOMEM else 0 in
  if ret =? 0 then
    store (cond_inited cond) 1 ;;
    kmod (cond_mux cond) (fun _ => mut_init) ;;
    kmod (cond_cond cond) (fun _ => sem_init 0) ;;
    store (cond_waiting cond) 0 ;;
    Ret ret
  else Ret ret.

Definition pthread_cond_broadcast (c : caller) (cond : Z) : prog world Z :=
  let* i := load (cond_inited cond) in
  if i =? 0 then Ret EINVAL else
  kcall (cond_mux cond) (mut_lock (task_cur c) WAIT) ;;
  let* n := load (cond_waiting cond) in
  kmod (cond_cond cond) (sem_post_n n) ;;
  store (cond_waiting cond) 0 ;;
  kmod (cond_mux cond) (mut_unlock (task_cur c)) ;;
  Ret 0.

(** [waiting] is an [int]: [waiting--] and [waiting++] are signed. *)
Definition pthread_cond_signal (c : caller) (cond : Z) : prog world Z :=
  let* i := load (cond_inited cond) in
  if i =? 0 then Ret EINVAL else
  let* n := load (cond_waiting cond) in
  if 0 <? n then
    kcall (cond_mux cond) (mut_lock (task_cur c) WAIT) ;;
    let* n := load (cond_waiting cond) in
    (if 0 <? n then
       kmod (cond_cond cond) sem_post ;;
       let* n := load (cond_waiting cond) in
       let* n' := lift (sgn 32 (n - 1)) in
       store (cond_waiting cond) n'
     else Ret tt) ;;
    kmod (cond_mux cond) (mut_unlock (task_cur c)) ;;
    Ret 0
  else Ret 0.

Definition pthread_cond_timedwait (c : caller) (cond mux : Z) (abstime : option timespec)
  : prog world Z :=
  let* i := load (cond_inited cond) in
  if i =? 0 then Ret EINVAL else
  let* (ret, sleep_ticks) :=
    match abstime with
    | None => Ret (0, WAIT)
    | Some _ =>
        let* (r, cur) := clock_gettime CLOCK_REALTIME (Some zero_timespec) in
        let* (ret, ticks) :=
          if negb (r =? 0) then Ret (EINVAL, Some WAIT)
          else lift (abs_timespec2ticks abstime cur (Some WAIT)) in
        Ret (ret, default WAIT ticks)
    end in
  let* ret :=
    if ret =? 0 then
      kcall (cond_mux cond) (mut_lock (task_cur c) WAIT) ;;
      let* n := load (cond_waiting cond) in
      let* n' := lift (sgn 32 (n + 1)) in
      store (cond_waiting cond) n' ;;
      kmod (cond_mux cond) (mut_unlock (task_cur c)) ;;
      pthread_mutex_unlock c mux
    else Ret ret in
  if ret =? 0 then
    let* r := kcall (cond_cond cond) (sem_get sleep_ticks) in
    if r =? 0 then pthread_mutex_lock c mux
    else
      pthread_mutex_lock c mux ;;
      kcall (cond_mux cond) (mut_lock (task_cur c) WAIT) ;;
      let* n := load (cond_waiting cond) in
      let* n' := lift (sgn 32 (n - 1)) in
      store (cond_waiting cond) n' ;;
      kmod (cond_mux cond) (mut_unlock (task_cur c)) ;;
      Ret ETIMEDOUT
  else Ret ret.

Definition pthread_cond_wait (c : caller) (cond mutex : Z) : prog world Z :=
  pthread_cond_timedwait c cond mutex None.

(** The structure with one field changed. *)
Definition set_c_mux (x : mut_t) (s : pthread_cond_t) : pthread_cond_t :=
  mk_cond (c_inited s) x (c_cond s) (waiting s).
Definition set_c_cond (x : sem_t) (s : pthread_cond_t) : pthread_cond_t :=
  mk_cond (c_inited s) (c_mux s) x (waiting s).
Definition set_waiting (n : Z) (s : pthread_cond_t) : pthread_cond_t :=
  mk_cond (c_inited s) (c_mux s) (c_cond s) n.
End cond.

(** ** The operations alone *)

Section cond_props.
Context `{P : Platform} `{!PlatformOk P} `{K : Kernel} (ML : MutLaws P K) (SL : SemLaws P K).
Implicit Types (w : world) (c : caller) (s : pthread_cond_t).

(** [pthread_cond_signal] on an initialised condition whose mutex is free
    wakes one waiter if there is one: a token for one count of [waiting]; and
    does nothing otherwise. *)
Theorem cond_signal_spec w c p s :
  at_ p w = Some s -> c_inited s <> 0 -> mut_own (c_mux s) = 0 -> task_cur c <> 0 ->
  waiting s <= 2 ^ 31 - 1 ->
  exists s', run (pthread_cond_signal c p) w = [Done 0 (put p s' w)]
    /\ mut_own (c_mux s') = 0
    /\ waiting s' = (if 0 <? waiting s then waiting s - 1 else waiting s)
    /\ sem_val (c_cond s') = (if 0 <? waiting s then sem_val (c_cond s) + 1 else sem_val (c_cond s)).
Proof.
  intros Hp Hi Hf Hc Hb. unfold pthread_cond_signal, cond_inited, cond_waiting, cond_cond, cond_mux.
  step. test_false (c_inited s =? 0). step.
  destruct (0 <? waiting s) eqn:E.
  - destruct (mut_lock_free (c_mux s) (task_cur c) WAIT Hc Hf) as (y & Hy & Hhy).
    exists (mk_cond (c_inited s) (mut_unlock (task_cur c) y) (sem_post (c_cond s)) (waiting s - 1)).
    split.
    + kstep Hy. step. cbn [waiting]. rewrite E. step. step.
      cbn [waiting]. rewrite sgn_in by (change (32 - 1) with 31; bool_lia). cbn [lift bind].
      step. step. done.
    + simpl. rewrite sem_post_val. split; [by apply mut_unlock_held|done].
  - exists s. split; [|done]. by rewrite put_same.
Qed.

(** [pthread_cond_broadcast] on an initialised condition whose mutex is
    free gives the semaphore one token per waiting thread and resets the
    count. *)
Theorem cond_broadcast_spec w c p s :
  at_ p w = Some s -> c_inited s <> 0 -> mut_own (c_mux s) = 0 -> task_cur c <> 0 ->
  0 <= waiting s ->
  exists s', run (pthread_cond_broadcast c p) w = [Done 0 (put p s' w)]
    /\ mut_own (c_mux s') = 0 /\ waiting s' = 0
    /\ sem_val (c_cond s') = sem_val (c_cond s) + waiting s.
Proof.
  intros Hp Hi Hf Hc Hb. unfold pthread_cond_broadcast, cond_inited, cond_waiting, cond_cond, cond_mux.
  destruct (mut_lock_free (c_mux s) (task_cur c) WAIT Hc Hf) as (y & Hy & Hhy).
  exists (mk_cond (c_inited s) (mut_unlock (task_cur c) y) (sem_post_n (waiting s) (c_cond s)) 0).
  split.
  - step. test_false (c_inited s =? 0). kstep Hy. do 4 step. done.
  - simpl. rewrite sem_post_n_val by done. split; [by apply mut_unlock_held|done].
Qed.

(** The static initialisers of [pthread.h] produce objects that every
    operation refuses with [EINVAL]: a mutex or a condition variable that is
    initialised as POSIX allows cannot be used. *)
Theorem static_initializers_refused w c p r abstime :
  at_ p w = Some PTHREAD_MUTEX_INITIALIZER -> at_ r w = Some PTHREAD_COND_INITIALIZER ->
  run (pthread_mutex_lock c p) w = [Done EINVAL w]
  /\ run (pthread_mutex_timedlock c p abstime) w = [Done EINVAL w]
  /\ run (pthread_mutex_trylock c p) w = [Done EINVAL w]
  /\ run (pthread_mutex_unlock c p) w = [Done EINVAL w]
  /\ run (pthread_cond_signal c r) w = [Done EINVAL w]
  /\ run (pthread_cond_broadcast c r) w = [Done EINVAL w]
  /\ run (pthread_cond_wait c r p) w = [Done EINVAL w]
  /\ run (pthread_cond_timedwait c r p abstime) w = [Done EINVAL w].
Proof.
  intros Hm Hr. destruct (uninitialised_mutex w c p _ abstime Hm eq_refl) as (H1 & H2 & H3).
  destruct (uninitialised_mutex w c p _ None Hm eq_refl) as (H0 & _ & _).
  split; [exact H0|]. do 3 (split; [done|]).
  unfold pthread_cond_wait, pthread_cond_timedwait, pthread_cond_signal, pthread_cond_broadcast, cond_inited.
  repeat split; by step.
Qed.

(** A caller that may not unlock the mutex (an error-checking mutex it
    does not own) gets [EPERM] from [pthread_cond_wait] without waiting, but
    stays counted in [waiting]: later signals are spent on it. *)
Theorem cond_wait_leaks_on_eperm w c p s mx m :
  p <> mx -> at_ p w = Some s -> at_ mx w = Some m ->
  c_inited s <> 0 -> mut_own (c_mux s) = 0 -> task_cur c <> 0 -> - 2 ^ 31 <= waiting s < 2 ^ 31 - 1 ->
  m_inited m <> 0 -> type (m_attr m) = PTHREAD_MUTEX_ERRORCHECK -> mut_own (m_mux m) <> task_cur c ->
  exists s', run (pthread_cond_wait c p mx) w = [Done EPERM (put p s' w)]
    /\ waiting s' = waiting s + 1 /\ sem_val (c_cond s') = sem_val (c_cond s).
Proof.
  intros Hne Hp Hm Hi Hf Hc Hb Hmi Hty Hown.
  unfold pthread_cond_wait, pthread_cond_timedwait, cond_inited, cond_waiting, cond_cond, cond_mux.
  destruct (mut_lock_free (c_mux s) (task_cur c) WAIT Hc Hf) as (y & Hy & Hhy).
  set (s' := mk_cond (c_inited s) (mut_unlock (task_cur c) y) (c_cond s) (waiting s + 1)).
  exists s'. split; [|done].
  step. test_false (c_inited s =? 0). cbn [bind]. cbn [Z.eqb]. rewrite run_assoc.
  kstep Hy. step. cbn [waiting]. rewrite sgn_in by (change (32 - 1) with 31; lia). cbn [lift bind].
  step. step. fold s'.
  assert (run (pthread_mutex_unlock c mx) (put p s' w) = [Done EPERM (put p s' w)]) as Hu.
  { apply (unlock_refused _ c mx m); [by rewrite at_put_ne by done|done|by left|done]. }
  by rewrite (run_call _ _ _ _ _ Hu).
Qed.
End cond_props.

(** ** The operations of several tasks *)

(** What a task of the pool calls. *)
Inductive cond_role :=
| Waits (mx : Z)              (** [pthread_cond_wait] with the mutex [mx] *)
| Signals
| Broadcasts.

Section cond_pool.
Context `{P : Platform} `{K : Kernel}.
Context (who : nat -> caller) (cnd : Z).

Definition cond_call (c : caller) (r : cond_role) : prog world Z :=
  match r with
  | Waits mx => pthread_cond_wait c cnd mx
  | Signals => pthread_cond_signal c cnd
  | Broadcasts => pthread_cond_broadcast c cnd
  end.

(** *** The code that remains *)

Definition timed_out (c : caller) (mx : Z) : prog world Z :=
  pthread_mutex_lock c mx ;;
  kcall (cond_mux cnd) (mut_lock (task_cur c) WAIT) ;;
  let* n := load (cond_waiting cnd) in
  let* n' := lift (sgn 32 (n - 1)) in
  store (cond_waiting cnd) n' ;;
  kmod (cond_mux cnd) (mut_unlock (task_cur c)) ;;
  Ret ETIMEDOUT.

(** A waiter after the unlocking of its mutex returned [ret]. *)
Definition wait_tail (c : caller) (mx ret : Z) : prog world Z :=
  if ret =? 0 then
    let* r := kcall (cond_cond cnd) (sem_get WAIT) in
    if r =? 0 then pthread_mutex_lock c mx else timed_out c mx
  else Ret ret.

Definition leave (c : caller) (q : prog world Z) : prog world Z :=
  kmod (cond_mux cnd) (mut_unlock (task_cur c)) ;; q.

Definition wait_store (c : caller) (mx n : Z) : prog world Z :=
  let* n' := lift (sgn 32 (n + 1)) in
  store (cond_waiting cnd) n' ;;
  leave c (pthread_mutex_unlock c mx).

Definition signal_store (n : Z) : prog world unit :=
  let* n' := lift (sgn 32 (n - 1)) in
  store (cond_waiting cnd) n'.

Definition signal_post : prog world unit :=
  kmod (cond_cond cnd) sem_post ;;
  let* n := load (cond_waiting cnd) in
  signal_store n.

(** *** Program points *)

(** [WRel] holds what remains of the call of [pthread_mutex_unlock], so that
    [WRel mx (Ret 0)] is a waiter at the semaphore; [WRelock] holds what
    remains of [pthread_mutex_lock] and [WTimed] of the timed-out path. *)
Inductive cpc :=
| WInit (mx : Z) | WLock (mx : Z) | WLoad (mx : Z) | WStore (mx n : Z) | WUnl (mx : Z)
| WRel (mx : Z) (q : prog world Z) | WRelock (q : prog world Z) | WTimed (q : prog world Z)
| SInit | SRead | SLock | SRead2 | SPost | SRead3 | SStore (n : Z) | SUnl
| BInit | BLock | BRead | BPost (n : Z) | BStore (n : Z) | BUnl
| CDone (r : Z).

Definition cond_residual (c : caller) (p : cpc) : prog world Z :=
  match p with
  | WInit mx => pthread_cond_wait c cnd mx
  | WLock mx =>
      let* ret :=
        kcall (cond_mux cnd) (mut_lock (task_cur c) WAIT) ;;
        let* n := load (cond_waiting cnd) in wait_store c mx n in
      wait_tail c mx ret
  | WLoad mx =>
      let* ret := let* n := load (cond_waiting cnd) in wait_store c mx n in wait_tail c mx ret
  | WStore mx n => let* ret := wait_store c mx n in wait_tail c mx ret
  | WUnl mx => let* ret := leave c (pthread_mutex_unlock c mx) in wait_tail c mx ret
  | WRel mx q => let* ret := q in wait_tail c mx ret
  | WRelock q | WTimed q => q
  | SInit => pthread_cond_signal c cnd
  | SRead =>
      let* n := load (cond_waiting cnd) in
      if 0 <? n then
        kcall (cond_mux cnd) (mut_lock (task_cur c) WAIT) ;;
        let* n := load (cond_waiting cnd) in
        (if 0 <? n then signal_post else Ret tt) ;; leave c (Ret 0)
      else Ret 0
  | SLock =>
      kcall (cond_mux cnd) (mut_lock (task_cur c) WAIT) ;;
      let* n := load (cond_waiting cnd) in
      (if 0 <? n then signal_post else Ret tt) ;; leave c (Ret 0)
  | SRead2 =>
      let* n := load (cond_waiting cnd) in
      (if 0 <? n then signal_post else Ret tt) ;; leave c (Ret 0)
  | SPost => signal_post ;; leave c (Ret 0)
  | SRead3 => (let* n := load (cond_waiting cnd) in signal_store n) ;; leave c (Ret 0)
  | SStore n => signal_store n ;; leave c (Ret 0)
  | SUnl | BUnl => leave c (Ret 0)
  | BInit => pthread_cond_broadcast c cnd
  | BLock =>
      kcall (cond_mux cnd) (mut_lock (task_cur c) WAIT) ;;
      let* n := load (cond_waiting cnd) in
      kmod (cond_cond cnd) (sem_post_n n) ;;
      store (cond_waiting cnd) 0 ;;
      leave c (Ret 0)
  | BRead =>
      let* n := load (cond_waiting cnd) in
      kmod (cond_cond cnd) (sem_post_n n) ;;
      store (cond_waiting cnd) 0 ;;
      leave c (Ret 0)
  | BPost n => kmod (cond_cond cnd) (sem_post_n n) ;; store (cond_waiting cnd) 0 ;; leave c (Ret 0)
  | BStore n => store (cond_waiting cnd) 0 ;; leave c (Ret 0)
  | CDone r => Ret r
  end.

(** *** Transitions *)

Definition tr : Type := (cpc * world) + fault.

(** An action on the condition variable, which [k] gives with its results. *)
Definition on_cond (w : world) (k : pthread_cond_t -> list (cpc * pthread_cond_t)) : list tr :=
  match at_ cnd w with
  | Some s => map (fun x => inl (x.1, put cnd x.2 w)) (k s)
  | None => [inr BadPointer]
  end.

(** One that only reads it. *)
Definition peek (w : world) (k : pthread_cond_t -> cpc) : list tr :=
  match at_ cnd w with
  | Some s => [inl (k s, w)]
  | None => [inr BadPointer]
  end.

(** An action of a sub-program. *)
Definition sub_step (q : prog world Z) (k : prog world Z -> cpc) (w : world) : list tr :=
  map (fun o => match o with Done q' w' => inl (k q', w') | Fault e => inr e end) (pstep q w).

Definition lock_to (me : Z) (p : cpc) (s : pthread_cond_t) : list (cpc * pthread_cond_t) :=
  map (fun x => (p, set_c_mux x.2 s)) (mut_lock me WAIT (c_mux s)).

Definition cond_next (c : caller) (p : cpc) (w : world) : list tr :=
  let me := task_cur c in
  match p with
  | WInit mx => peek w (fun s => if c_inited s =? 0 then CDone EINVAL else WLock mx)
  | WLock mx => on_cond w (lock_to me (WLoad mx))
  | WLoad mx => peek w (fun s => WStore mx (waiting s))
  | WStore mx n =>
      match sgn 32 (n + 1) with
      | Some n' => on_cond w (fun s => [(WUnl mx, set_waiting n' s)])
      | None => [inr SignedOverflow]
      end
  | WUnl mx =>
      on_cond w (fun s => [(WRel mx (pthread_mutex_unlock c mx), set_c_mux (mut_unlock me (c_mux s)) s)])
  | WRel mx (Ret r) =>
      if r =? 0 then
        on_cond w (fun s => map (fun x =>
          (if x.1 =? 0 then WRelock (pthread_mutex_lock c mx) else WTimed (timed_out c mx),
           set_c_cond x.2 s)) (sem_get WAIT (c_cond s)))
      else []
  | WRel mx q => sub_step q (WRel mx) w
  | WRelock q => sub_step q WRelock w
  | WTimed q => sub_step q WTimed w
  | SInit => peek w (fun s => if c_inited s =? 0 then CDone EINVAL else SRead)
  | SRead => peek w (fun s => if 0 <? waiting s then SLock else CDone 0)
  | SLock => on_cond w (lock_to me SRead2)
  | SRead2 => peek w (fun s => if 0 <? waiting s then SPost else SUnl)
  | SPost => on_cond w (fun s => [(SRead3, set_c_cond (sem_post (c_cond s)) s)])
  | SRead3 => peek w (fun s => SStore (waiting s))
  | SStore n =>
      match sgn 32 (n - 1) with
      | Some n' => on_cond w (fun s => [(SUnl, set_waiting n' s)])
      | None => [inr SignedOverflow]
      end
  | SUnl | BUnl => on_cond w (fun s => [(CDone 0, set_c_mux (mut_unlock me (c_mux s)) s)])
  | BInit => peek w (fun s => if c_inited s =? 0 then CDone EINVAL else BLock)
  | BLock => on_cond w (lock_to me BRead)
  | BRead => peek w (fun s => BPost (waiting s))
  | BPost n => on_cond w (fun s => [(BStore n, set_c_cond (sem_post_n n (c_cond s)) s)])
  | BStore n => on_cond w (fun s => [(BUnl, set_waiting 0 s)])
  | CDone r => []
  end.

Lemma cond_code_next i p w :
  pstep (cond_residual (who i) p) w
  = map (fun o => match o with
                  | inl x => Done (cond_residual (who i) x.1) x.2
                  | inr e => Fault e
                  end) (cond_next (who i) p w).
Proof.
  assert (forall q k, (forall q', cond_residual (who i) (k q') = q') ->
    pstep q w = map (fun o => match o with inl x => Done (cond_residual (who i) x.1) x.2 | inr e => Fault e end)
        (sub_step q k w)) as Hsub.
  { intros q k Hk. unfold sub_step. rewrite map_map.
    rewrite <- (map_id (pstep q w)) at 1. apply map_ext. intros [q' w'|e]; simpl; [by rewrite Hk|done]. }
  destruct p as [mx|mx|mx|mx n|mx|mx q|q|q| | | | | | |n| | | | |n|n| |r];
    cbn [cond_residual cond_next]; unfold on_cond, peek, lock_to;
    try (by apply Hsub).
  - cbn. destruct (at_ cnd w) as [s|]; [|done]. cbn. by destruct (c_inited s =? 0).
  - cbn. destruct (at_ cnd w) as [s|]; [|done]. cbn. rewrite !map_map. apply map_ext. by intros [r x].
  - cbn. destruct (at_ cnd w) as [s|]; done.
  - unfold wait_store. destruct (sgn 32 (n + 1)); [|done]. cbn. by destruct (at_ cnd w).
  - cbn. by destruct (at_ cnd w).
  - destruct q as [r|A a k].
    + unfold wait_tail. cbn [bind]. destruct (r =? 0); [|done]. cbn.
      destruct (at_ cnd w) as [s|]; [|done]. rewrite !map_map. apply map_ext.
      intros [x y]. cbn. by destruct (x =? 0).
    + unfold sub_step. cbn. rewrite !map_map. apply map_ext. by intros [x v|e].
  - cbn. destruct (at_ cnd w) as [s|]; [|done]. cbn. by destruct (c_inited s =? 0).
  - cbn. destruct (at_ cnd w) as [s|]; [|done]. cbn. by destruct (0 <? waiting s).
  - cbn. destruct (at_ cnd w) as [s|]; [|done]. cbn. rewrite !map_map. apply map_ext. by intros [r x].
  - cbn. destruct (at_ cnd w) as [s|]; [|done]. cbn. by destruct (0 <? waiting s).
  - cbn. by destruct (at_ cnd w).
  - cbn. by destruct (at_ cnd w).
  - unfold signal_store. destruct (sgn 32 (n - 1)); [|done]. cbn. by destruct (at_ cnd w).
  - cbn. by destruct (at_ cnd w).
  - cbn. destruct (at_ cnd w) as [s|]; [|done]. cbn. by destruct (c_inited s =? 0).
  - cbn. destruct (at_ cnd w) as [s|]; [|done]. cbn. rewrite !map_map. apply map_ext. by intros [r x].
  - cbn. by destruct (at_ cnd w).
  - cbn. by destruct (at_ cnd w).
  - cbn. by destruct (at_ cnd w).
  - cbn. by destruct (at_ cnd w).
  - done.
Qed.

Lemma cond_machine_next i p s w :
  Some w = Some s ->
  pstep (cond_residual (who i) p) w
  = map (fun o => match o with
                  | inl x => Done (cond_residual (who i) x.1) x.2
                  | inr e => Fault e
                  end) (cond_next (who i) p s).
Proof. intros [= <-]. apply cond_code_next. Qed.

#[local] Instance cond_machine : Machine world Z cpc world := {|
  view w := Some w;
  update s _ := s;
  view_update s w := eq_refl;
  residual i := cond_residual (who i);
  transitions i := cond_next (who i);
  code_next := cond_machine_next
|}.

(** ** The invariant *)

Context (ML : MutLaws P K) (SL : SemLaws P K).
Hypothesis who_task : forall i, task_cur (who i) <> 0.
Hypothesis who_inj : forall i j, task_cur (who i) = task_cur (who j) -> i = j.

(** Weights: inside the critical section; registered in [waiting] or by a
    token; tokens given for registrations not yet removed from [waiting]. *)
Definition c_in_cs (p : cpc) : Z :=
  match p with
  | WLoad _ | WStore _ _ | WUnl _ | SRead2 | SPost | SRead3 | SStore _ | SUnl
  | BRead | BPost _ | BStore _ | BUnl => 1
  | _ => 0
  end.

Definition registered (p : cpc) : Z :=
  match p with WUnl _ | WRel _ _ => 1 | _ => 0 end.

Definition in_excess (p : cpc) : Z :=
  match p with SRead3 | SStore _ => 1 | BStore n => n | _ => 0 end.

(** The actions of a sub-program do not touch the condition variable. *)
Definition framed (q : prog world Z) : Prop :=
  forall s : pthread_cond_t, keeps (fun w => at_ cnd w = Some s) q.

Definition c_knows (p : cpc) (s : pthread_cond_t) : Prop :=
  match p with
  | WInit mx | WLock mx | WLoad mx | WUnl mx => mx <> cnd
  | WStore mx n => mx <> cnd /\ waiting s = n
  | WRel mx q => mx <> cnd /\ framed q
  | WRelock q => framed q
  | WTimed _ => False
  | SPost | SRead3 => 0 < waiting s
  | SStore n => 0 < n /\ waiting s = n
  | BPost n | BStore n => waiting s = n
  | _ => True
  end.

Record cond_inv (ps : list cpc) (s : pthread_cond_t) : Prop := {
  ci_inited : c_inited s <> 0;
  ci_waiting : 0 <= waiting s;
  ci_tokens : 0 <= sem_val (c_cond s);
  ci_sum : waiting s + sem_val (c_cond s) = tally registered ps + tally in_excess ps;
  ci_lock : lock_inv ML who c_in_cs ps (c_mux s);
  ci_knows : forall i p, ps !! i = Some p -> c_knows p s
}.

Lemma c_in_cs_bit p : c_in_cs p = 0 \/ c_in_cs p = 1.
Proof. destruct p; auto. Qed.

Lemma c_knows_ext p s s' : waiting s' = waiting s -> c_knows p s -> c_knows p s'.
Proof. intros H. destruct p; simpl; rewrite ?H; done. Qed.

Lemma c_knows_out p s s' : c_in_cs p = 0 -> c_knows p s -> c_knows p s'.
Proof. by destruct p. Qed.

(** One thread moves from [p] to [p'] and the condition variable from [s] to
    [s']; [waiting] changes only inside the critical section. *)
Lemma inv_move ps s i p p' s' :
  cond_inv ps s -> ps !! i = Some p -> c_inited s' = c_inited s ->
  0 <= waiting s' -> 0 <= sem_val (c_cond s') ->
  waiting s' + sem_val (c_cond s') - (waiting s + sem_val (c_cond s))
  = registered p' - registered p + (in_excess p' - in_excess p) ->
  lock_inv ML who c_in_cs (<[i:=p']> ps) (c_mux s') -> c_knows p' s' ->
  waiting s' = waiting s \/ c_in_cs p = 1 ->
  cond_inv (<[i:=p']> ps) s'.
Proof.
  intros I Hi Hin Hw Hs Hsum Hl Hk Hch. split; [by rewrite Hin; apply I|done|done| |done|].
  - rewrite (tally_insert registered ps i p p' Hi), (tally_insert in_excess ps i p p' Hi).
    pose proof (ci_sum _ _ I). lia.
  - intros j q Hj. destruct (decide (i = j)) as [<-|Hne].
    + rewrite list_lookup_insert_eq in Hj by (by eapply lookup_lt_Some). by simplify_eq.
    + rewrite list_lookup_insert_ne in Hj by done. pose proof (ci_knows _ _ I j q Hj) as Hq.
      destruct Hch as [Hch|Hch]; [by eapply c_knows_ext|].
      destruct (lock_alone ML who c_in_cs c_in_cs_bit ps (c_mux s) i p (ci_lock _ _ I) Hi Hch)
        as (_ & _ & Halone).
      eapply c_knows_out; [|exact Hq]. by apply (Halone j).
Qed.

(** A move that changes nothing shared. *)
Lemma cond_inv_quiet ps s i p p' :
  cond_inv ps s -> ps !! i = Some p -> c_in_cs p' = c_in_cs p -> registered p' = registered p ->
  in_excess p' = in_excess p -> c_knows p' s -> cond_inv (<[i:=p']> ps) s.
Proof.
  intros I Hi Hc Hr He Hk. apply (inv_move ps s i p); try done; try apply I; [lia| |by left].
  by apply (lock_keep ML who c_in_cs ps _ i p); [apply I|..].
Qed.

Lemma inv_lock ps s i p p' x :
  cond_inv ps s -> ps !! i = Some p -> c_in_cs p = 0 -> c_in_cs p' = 1 ->
  registered p' = registered p -> in_excess p' = in_excess p -> c_knows p' s ->
  x ∈ lock_to (task_cur (who i)) p' s -> cond_inv (<[i:=x.1]> ps) x.2.
Proof.
  intros I Hi Hc Hc' Hr He Hk Hx. unfold lock_to in Hx.
  apply list_elem_of_fmap in Hx as ([r m] & -> & Hm). simpl.
  apply (inv_move ps s i p); try done; try apply I; simpl; [lia| |by left].
  by destruct (lock_acquire ML who c_in_cs who_task who_inj c_in_cs_bit ps (c_mux s) i p p' WAIT r m (ci_lock _ _ I))
    as (_ & _ & Hl).
Qed.

(** Leaving the critical section. *)
Lemma inv_leave ps s i p p' :
  cond_inv ps s -> ps !! i = Some p -> c_in_cs p = 1 -> c_in_cs p' = 0 ->
  registered p' = registered p -> in_excess p' = in_excess p -> c_knows p' s ->
  cond_inv (<[i:=p']> ps) (set_c_mux (mut_unlock (task_cur (who i)) (c_mux s)) s).
Proof.
  intros I Hi Hc Hc' Hr He Hk.
  apply (inv_move ps s i p); try done; try apply I; simpl; [lia| |by left].
  apply (lock_release ML who c_in_cs c_in_cs_bit ps _ i p); [apply I|done..].
Qed.

(** Writing [waiting] or the semaphore inside the critical section. *)
Lemma inv_inside ps s i p p' s' :
  cond_inv ps s -> ps !! i = Some p -> c_in_cs p = 1 -> c_in_cs p' = 1 ->
  c_inited s' = c_inited s -> c_mux s' = c_mux s -> 0 <= waiting s' -> 0 <= sem_val (c_cond s') ->
  waiting s' + sem_val (c_cond s') - (waiting s + sem_val (c_cond s))
  = registered p' - registered p + (in_excess p' - in_excess p) -> c_knows p' s' ->
  cond_inv (<[i:=p']> ps) s'.
Proof.
  intros I Hi Hc Hc' Hin Hm Hw Hs Hsum Hk. apply (inv_move ps s i p); try done; [|by right].
  rewrite Hm. apply (lock_keep ML who c_in_cs ps _ i p); [apply I|done|]. by rewrite Hc, Hc'.
Qed.

Lemma frame_fld {S T} `{!Kind S} mx (g : S -> T) st v w (s : pthread_cond_t) :
  mx <> cnd -> at_ cnd w = Some s -> at_ cnd (rset (fld mx g st) v w) = Some s.
Proof.
  intros Hne H. simpl. destruct (at_ mx w); [|done]. rewrite at_put_ne; [done|]. intros E. by apply Hne.
Qed.

Lemma framed_unlock c mx : mx <> cnd -> framed (pthread_mutex_unlock c mx).
Proof.
  intros H s. unfold pthread_mutex_unlock. keeps_tac. intros v w Hw. by apply frame_fld.
Qed.

Lemma framed_lock c mx : mx <> cnd -> framed (pthread_mutex_lock c mx).
Proof.
  intros H s. unfold pthread_mutex_lock, pthread_mutex_timedlock. cbn [bind]. keeps_tac.
  intros v w Hw. by apply frame_fld.
Qed.

Lemma framed_step q q' w w' (s : pthread_cond_t) :
  framed q -> at_ cnd w = Some s -> Done q' w' ∈ pstep q w -> framed q' /\ at_ cnd w' = Some s.
Proof.
  intros Hq Hw Hs. destruct (keeps_step _ q q' w w' (Hq s) Hw Hs) as [_ H]. split; [|done].
  intros s'. specialize (Hq s'). destruct Hq as [r|A a k Ha Hk]; simpl in Hs; [set_solver|].
  apply list_elem_of_fmap in Hs as ([x v|e] & Hx & _); simplify_eq. apply Hk.
Qed.

(** *** Every transition preserves the invariant *)

Definition inv_at (ps : list cpc) (w : world) : Prop := exists s, at_ cnd w = Some s /\ cond_inv ps s.

Lemma inv_on_cond ps w s i k p' w' :
  at_ cnd w = Some s -> (forall x, x ∈ k s -> cond_inv (<[i:=x.1]> ps) x.2) ->
  inl (p', w') ∈ on_cond w k -> inv_at (<[i:=p']> ps) w'.
Proof.
  intros Hs Hk Hin. unfold on_cond in Hin. rewrite Hs in Hin.
  apply list_elem_of_fmap in Hin as (x & Hx & Hin). simplify_eq.
  exists x.2. split; [apply at_put|by apply Hk].
Qed.

Lemma inv_one ps w s i p1 f p' w' :
  at_ cnd w = Some s -> cond_inv (<[i:=p1]> ps) (f s) ->
  inl (p', w') ∈ on_cond w (fun s => [(p1, f s)]) -> inv_at (<[i:=p']> ps) w'.
Proof.
  intros Hs HI. apply (inv_on_cond _ _ s); [done|]. intros x Hx.
  apply list_elem_of_singleton in Hx as ->. exact HI.
Qed.

Lemma inv_peek ps w s i k p' w' :
  at_ cnd w = Some s -> cond_inv (<[i:=k s]> ps) s ->
  inl (p', w') ∈ peek w k -> inv_at (<[i:=p']> ps) w'.
Proof.
  intros Hs HI Hin. unfold peek in Hin. rewrite Hs in Hin.
  apply list_elem_of_singleton in Hin. simplify_eq. by exists s.
Qed.

Lemma inv_sub ps w s i q k p p' w' :
  at_ cnd w = Some s -> cond_inv ps s -> ps !! i = Some p -> framed q ->
  (forall q', c_in_cs (k q') = c_in_cs p /\ registered (k q') = registered p
              /\ in_excess (k q') = in_excess p /\ (framed q' -> c_knows (k q') s)) ->
  inl (p', w') ∈ sub_step q k w -> inv_at (<[i:=p']> ps) w'.
Proof.
  intros Hs I Hi Hq Hk Hin. unfold sub_step in Hin.
  apply list_elem_of_fmap in Hin as ([q' v|e] & Hx & Hin); simplify_eq.
  destruct (framed_step q q' w v s Hq Hs Hin) as [Hq' Hv].
  exists s. split; [done|]. destruct (Hk q') as (H1 & H2 & H3 & H4).
  apply (cond_inv_quiet ps s i p); auto.
Qed.

(** The waiter takes a token: there is no other way past the semaphore. *)
Lemma cond_inv_get ps s i mx r x :
  cond_inv ps s -> ps !! i = Some (WRel mx (Ret 0)) -> (r, x) ∈ sem_get WAIT (c_cond s) ->
  r = 0 /\ cond_inv (<[i:=WRelock (pthread_mutex_lock (who i) mx)]> ps) (set_c_cond x s).
Proof.
  intros I Hi Hr. pose proof (ci_tokens _ _ I). pose proof (ci_knows _ _ I i _ Hi) as [Hmx _].
  destruct (decide (sem_val (c_cond s) = 0)) as [H0|H0].
  { rewrite sem_get_wait in Hr by done. set_solver. }
  destruct (sem_get_avail (c_cond s) WAIT ltac:(lia)) as (y & Hy & Hv). rewrite Hy in Hr.
  apply list_elem_of_singleton in Hr. simplify_eq. split; [done|].
  apply (inv_move ps s i (WRel mx (Ret 0))); try done; try apply I; simpl; [lia|lia| | |by left].
  - apply (lock_keep ML who c_in_cs ps _ i (WRel mx (Ret 0))); [apply I|done..].
  - by apply framed_lock.
Qed.

Lemma cond_inv_step ps w i p p' w' :
  inv_at ps w -> ps !! i = Some p -> inl (p', w') ∈ cond_next (who i) p w ->
  inv_at (<[i:=p']> ps) w'.
Proof.
  intros (s & Hs & I) Hi Hin. pose proof (ci_knows _ _ I i p Hi) as Hk.
  pose proof (ci_inited _ _ I) as Hinit. pose proof (ci_waiting _ _ I) as Hw0.
  pose proof (ci_tokens _ _ I) as Hs0.
  destruct p as [mx|mx|mx|mx n|mx|mx q|q|q| | | | | | |n| | | | |n|n| |r]; cbn [cond_next] in Hin; simpl in Hk.
  - eapply inv_peek; [done| |exact Hin]. simpl. test_false (c_inited s =? 0). by eapply cond_inv_quiet.
  - eapply inv_on_cond; [done| |exact Hin]. intros x. by apply (inv_lock ps s i (WLock mx)).
  - eapply inv_peek; [done| |exact Hin]. by eapply cond_inv_quiet.
  - destruct Hk as [Hmx <-]. destruct (sgn 32 (waiting s + 1)) as [n'|] eqn:E; [|set_solver].
    apply sgn_Some in E as [-> _]. eapply inv_one; [done| |exact Hin].
    by apply (inv_inside ps s i (WStore mx (waiting s))); simpl; try done; try lia.
  - eapply inv_one; [done| |exact Hin].
    apply (inv_leave ps s i (WUnl mx)); try done. split; [done|by apply framed_unlock].
  - destruct Hk as [Hmx Hq]. destruct q as [r|A a k].
    + destruct (r =? 0) eqn:E; [|set_solver]. apply Z.eqb_eq in E as ->.
      eapply inv_on_cond; [done| |exact Hin]. intros x Hx.
      apply list_elem_of_fmap in Hx as ([r y] & -> & Hy).
      by destruct (cond_inv_get ps s i mx r y I Hi Hy) as [-> HI].
    + by apply (inv_sub ps w s i (Act a k) (WRel mx) (WRel mx (Act a k))).
  - by apply (inv_sub ps w s i q WRelock (WRelock q)).
  - done.
  - eapply inv_peek; [done| |exact Hin]. simpl. test_false (c_inited s =? 0). by eapply cond_inv_quiet.
  - eapply inv_peek; [done| |exact Hin]. simpl. case_if; by eapply cond_inv_quiet.
  - eapply inv_on_cond; [done| |exact Hin]. intros x. by apply (inv_lock ps s i SLock).
  - eapply inv_peek; [done| |exact Hin]. simpl. destruct (0 <? waiting s) eqn:E; eapply cond_inv_quiet; try done.
    simpl. bool_lia.
  - eapply inv_one; [done| |exact Hin].
    apply (inv_inside ps s i SPost); simpl; rewrite ?sem_post_val; try done; lia.
  - eapply inv_peek; [done| |exact Hin]. by eapply cond_inv_quiet.
  - destruct Hk as [Hn <-]. destruct (sgn 32 (waiting s - 1)) as [n'|] eqn:E; [|set_solver].
    apply sgn_Some in E as [-> _]. eapply inv_one; [done| |exact Hin].
    apply (inv_inside ps s i (SStore (waiting s))); simpl; try done; lia.
  - eapply inv_one; [done| |exact Hin]. by apply (inv_leave ps s i SUnl).
  - eapply inv_peek; [done| |exact Hin]. simpl. test_false (c_inited s =? 0). by eapply cond_inv_quiet.
  - eapply inv_on_cond; [done| |exact Hin]. intros x. by apply (inv_lock ps s i BLock).
  - eapply inv_peek; [done| |exact Hin]. by eapply cond_inv_quiet.
  - subst n. eapply inv_one; [done| |exact Hin].
    apply (inv_inside ps s i (BPost (waiting s))); simpl; rewrite ?sem_post_n_val by done; try done; lia.
  - subst n. eapply inv_one; [done| |exact Hin].
    apply (inv_inside ps s i (BStore (waiting s))); simpl; try done; lia.
  - eapply inv_one; [done| |exact Hin]. by apply (inv_leave ps s i BUnl).
  - set_solver.
Qed.

(** *** The pool *)

Definition role_ok (r : cond_role) : Prop := match r with Waits mx => mx <> cnd | _ => True end.

Definition role_pc (r : cond_role) : cpc :=
  match r with Waits mx => WInit mx | Signals => SInit | Broadcasts => BInit end.

(** Task [i] plays the [i]-th role. *)
Definition cond_callers (rs : list cond_role) : list (prog world Z) :=
  imap (fun i r => cond_call (who i) r) rs.

(** A condition variable as [pthread_cond_init] leaves it. *)
Definition fresh_cond (s : pthread_cond_t) : Prop :=
  c_inited s <> 0 /\ mut_own (c_mux s) = 0 /\ sem_val (c_cond s) = 0 /\ waiting s = 0.

Lemma cond_callers_threads rs : cond_callers rs = threads (map role_pc rs).
Proof.
  unfold cond_callers, threads. rewrite imap_fmap. apply imap_ext. intros i r _. by destruct r.
Qed.

Lemma inv_start rs s : Forall role_ok rs -> fresh_cond s -> cond_inv (map role_pc rs) s.
Proof.
  intros Hrs (Hi & Hm & Hs & Hw).
  assert (forall f : cpc -> Z, (forall r, f (role_pc r) = 0) -> tally f (map role_pc rs) = 0) as H0.
  { intros f Hf. apply tally_zero. intros p Hp. apply list_elem_of_fmap in Hp as (r & -> & _). apply Hf. }
  split; [done|lia|lia| | |].
  - rewrite Hs, Hw, !H0 by (by intros []). done.
  - left. split; [done|]. apply H0. by intros [].
  - intros i p Hp. apply list_lookup_fmap_Some in Hp as (r & -> & Hr).
    pose proof (Forall_lookup_1 _ _ _ _ Hrs Hr) as Hok. by destruct r.
Qed.

Lemma cond_callers_inv rs w s c :
  at_ cnd w = Some s -> fresh_cond s -> Forall role_ok rs -> reach pool_step (cond_callers rs, w) c ->
  exists ps s', c.1 = threads ps /\ at_ cnd c.2 = Some s' /\ cond_inv ps s'.
Proof.
  intros Hs Hf Hrs H. rewrite cond_callers_threads in H.
  destruct (pool_refines (M:=cond_machine) _ w w c eq_refl H) as (ps & w' & Hr & E & Hv).
  simpl in Hv. simplify_eq. exists ps.
  apply (reach_inv mstep (fun x => inv_at x.1 x.2)) in Hr.
  - destruct Hr as (s' & Hs' & I). by exists s'.
  - exists s. split; [done|by apply inv_start].
  - intros x y Hx Hstep. destruct Hstep as [qs v i p p' v' Hi Hn]. simpl in *. by eapply cond_inv_step.
Qed.

(** A waiter of the pool is at the semaphore: registered, and its next action
    is the call of [sem_get]. *)
Definition at_semaphore (ps : list cpc) (i : nat) : Prop := exists mx, ps !! i = Some (WRel mx (Ret 0)).

Lemma free_outside ps s p : cond_inv ps s -> mut_own (c_mux s) = 0 -> p ∈ ps -> c_in_cs p = 0.
Proof.
  intros I Hm Hp. apply list_elem_of_lookup in Hp as [i Hi].
  destruct (c_in_cs_bit p) as [|H1]; [done|].
  destruct (lock_alone ML who c_in_cs c_in_cs_bit ps _ i p (ci_lock _ _ I) Hi H1) as (_ & Hh & _).
  apply mut_held_own in Hh. rewrite Hm in Hh. exfalso. by apply (who_task i).
Qed.

Lemma no_excess ps s : cond_inv ps s -> mut_own (c_mux s) = 0 -> tally in_excess ps = 0.
Proof.
  intros I Hm. apply tally_zero. intros p Hp. pose proof (free_outside ps s p I Hm Hp). by destruct p.
Qed.

Lemma registered_nonneg p : 0 <= registered p.
Proof. by destruct p. Qed.

(** A call that has returned. *)
Lemma returned_at c p v :
  cond_residual c p = Ret v ->
  (exists mx, p = WRel mx (Ret v) /\ v <> 0) \/ p = WRelock (Ret v) \/ p = WTimed (Ret v) \/ p = CDone v.
Proof.
  destruct p as [mx|mx|mx|mx n|mx|mx q|q|q| | | | | | |n| | | | |n|n| |r]; simpl; try done.
  - unfold wait_store. by destruct (sgn 32 (n + 1)).
  - destruct q as [r|A a k]; simpl; [|done]. unfold wait_tail.
    destruct (r =? 0) eqn:Er; [done|]. intros [= ->]. left. exists mx. split; [done|]. bool_lia.
  - intros ->. auto.
  - intros ->. auto.
  - unfold signal_store. by destruct (sgn 32 (n - 1)).
  - intros [= ->]. auto.
Qed.

(** C12: Tasks that call [pthread_cond_wait], [pthread_cond_signal] and
    [pthread_cond_broadcast] on a fresh condition variable, in any number and
    any interleaving.  The number of waiting threads and the number of tokens
    never become negative and never drift apart from the waiters: no wake-up
    is lost, since a waiter that is blocked at the semaphore while nobody is
    inside the condition variable is counted in [waiting], so that the next
    signal wakes a waiter; and no wake-up is invented, since once all calls
    have returned 0 there is neither a counted waiter nor a token left. *)
Theorem cond_no_lost_wakeup rs w s c :
  at_ cnd w = Some s -> fresh_cond s -> Forall role_ok rs -> reach pool_step (cond_callers rs, w) c ->
  exists ps s', c.1 = threads ps /\ at_ cnd c.2 = Some s'
    /\ 0 <= waiting s' /\ 0 <= sem_val (c_cond s')
    /\ (mut_own (c_mux s') = 0 -> waiting s' + sem_val (c_cond s') = tally registered ps)
    /\ (forall i q, at_semaphore ps i -> c.1 !! i = Some q -> pstep q c.2 = [] ->
          mut_own (c_mux s') = 0 -> 0 < waiting s')
    /\ ((forall i q, c.1 !! i = Some q -> q = Ret 0) ->
          waiting s' = 0 /\ sem_val (c_cond s') = 0).
Proof.
  intros Hs Hf Hrs H. destruct (cond_callers_inv rs w s c Hs Hf Hrs H) as (ps & s' & E & Hs' & I).
  exists ps, s'. pose proof (ci_waiting _ _ I) as Hw. pose proof (ci_tokens _ _ I) as Ht.
  pose proof (ci_sum _ _ I) as Hsum. do 4 (split; [done|]). split; [|split].
  - intros Hm. rewrite (no_excess ps s' I Hm) in Hsum. lia.
  - intros i q [mx Hi] Hq Hblock Hm. rewrite (no_excess ps s' I Hm) in Hsum.
    pose proof (tally_lookup registered ps i _ registered_nonneg Hi) as Hr. simpl in Hr.
    rewrite E in Hq. apply threads_lookup in Hq as (p & Hp & ->). simplify_eq.
    unfold residual in Hblock. simpl in Hblock. rewrite Hs' in Hblock.
    destruct (decide (sem_val (c_cond s') = 0)); [lia|].
    destruct (sem_get_avail (c_cond s') WAIT ltac:(lia)) as (y & Hy & _). by rewrite Hy in Hblock.
  - intros Hall.
    assert (forall p, p ∈ ps -> registered p = 0 /\ in_excess p = 0) as H0.
    { intros p Hp. apply list_elem_of_lookup in Hp as [i Hi].
      assert (cond_residual (who i) p = Ret 0) as Hret.
      { apply (Hall i). rewrite E. apply threads_lookup. by exists p. }
      by destruct (returned_at _ _ _ Hret) as [(mx & _ & ?)|[->|[->| ->]]]. }
    rewrite (tally_zero registered), (tally_zero in_excess) in Hsum by (intros p Hp; by apply H0). lia.
Qed.
End cond_pool.

Section cond_witnesses.
Import Sim.

Definition sim_cond (n sem : Z) : @pthread_cond_t sim_kernel := @mk_cond sim_kernel 1 (0, 0%nat) sem n.
(** An error-checking mutex that [task_b] owns. *)
Definition foreign_mutex : @pthread_mutex_t sim_kernel :=
  @mk_mutex sim_kernel 1 (22, 1%nat) (mk_mutexattr PTHREAD_MUTEX_ERRORCHECK).
Definition cond_world (n sem : Z) : @world sim_kernel :=
  sim_world {[ 64 := OCond (sim_cond n sem); 128 := OMutex foreign_mutex ]}.

Lemma cond_signal_spec_witness :
  exists s', run (pthread_cond_signal task_a 64) (cond_world 2 0) = [Done 0 (put 64 s' (cond_world 2 0))]
    /\ mut_own (c_mux s') = 0 /\ waiting s' = 1 /\ sem_val (c_cond s') = 1.
Proof.
  apply (cond_signal_spec sim_mut_laws sim_sem_laws (cond_world 2 0) task_a 64 (sim_cond 2 0)); done.
Defined.

Lemma cond_broadcast_spec_witness :
  exists s', run (pthread_cond_broadcast task_a 64) (cond_world 3 0) = [Done 0 (put 64 s' (cond_world 3 0))]
    /\ mut_own (c_mux s') = 0 /\ waiting s' = 0 /\ sem_val (c_cond s') = 3.
Proof.
  apply (cond_broadcast_spec sim_mut_laws sim_sem_laws (cond_world 3 0) task_a 64 (sim_cond 3 0)); done.
Defined.

Definition static_world : @world sim_kernel :=
  sim_world {[ 64 := OCond PTHREAD_COND_INITIALIZER; 128 := OMutex PTHREAD_MUTEX_INITIALIZER ]}.

Lemma static_initializers_refused_witness :
  run (pthread_mutex_lock task_a 128) static_world = [Done EINVAL static_world]
  /\ run (pthread_mutex_timedlock task_a 128 (Some (mk_timespec 9 0))) static_world = [Done EINVAL static_world]
  /\ run (pthread_mutex_trylock task_a 128) static_world = [Done EINVAL static_world]
  /\ run (pthread_mutex_unlock task_a 128) static_world = [Done EINVAL static_world]
  /\ run (pthread_cond_signal task_a 64) static_world = [Done EINVAL static_world]
  /\ run (pthread_cond_broadcast task_a 64) static_world = [Done EINVAL static_world]
  /\ run (pthread_cond_wait task_a 64 128) static_world = [Done EINVAL static_world]
  /\ run (pthread_cond_timedwait task_a 64 128 (Some (mk_timespec 9 0))) static_world = [Done EINVAL static_world].
Proof.
  apply (static_initializers_refused static_world task_a 128 64 (Some (mk_timespec 9 0))); reflexivity.
Defined.

Lemma cond_wait_leaks_on_eperm_witness :
  exists s', run (pthread_cond_wait task_a 64 128) (cond_world 0 0) = [Done EPERM (put 64 s' (cond_world 0 0))]
    /\ waiting s' = 1 /\ sem_val (c_cond s') = 0.
Proof.
  apply (cond_wait_leaks_on_eperm sim_mut_laws (cond_world 0 0) task_a 64 (sim_cond 0 0) 128 foreign_mutex); done.
Defined.

(** Three tasks: one waits with a mutex it owns, one signals, one
    broadcasts. *)
Definition three_roles : list cond_role := [Waits 128; Signals; Broadcasts].

Lemma cond_no_lost_wakeup_witness :
  let c := (cond_callers sim_who 64 three_roles, cond_world 0 0) in
  exists ps s', c.1 = threads (M:=cond_machine sim_who 64) ps /\ at_ 64 c.2 = Some s'
    /\ 0 <= waiting s' /\ 0 <= sem_val (c_cond s')
    /\ (mut_own (c_mux s') = 0 -> waiting s' + sem_val (c_cond s') = tally registered ps)
    /\ (forall i q, at_semaphore ps i -> c.1 !! i = Some q -> pstep q c.2 = [] ->
          mut_own (c_mux s') = 0 -> 0 < waiting s')
    /\ ((forall i q, c.1 !! i = Some q -> q = Ret 0) ->
          waiting s' = 0 /\ sem_val (c_cond s') = 0).
Proof.
  intros c. apply (cond_no_lost_wakeup sim_who 64 sim_mut_laws sim_sem_laws sim_who_task sim_who_inj
    three_roles (cond_world 0 0) (sim_cond 0 0) c).
  - reflexivity.
  - vm_compute; intuition congruence.
  - repeat constructor; done.
  - constructor.
Defined.

(** A timed waiter and a signaller, run by a schedule in which the signal
    comes between the waiter's time-out and its bookkeeping. *)
Definition free_mutex : @pthread_mutex_t sim_kernel :=
  @mk_mutex sim_kernel 1 (0, 0%nat) (mk_mutexattr PTHREAD_MUTEX_NORMAL).
Definition race_world : @world sim_kernel :=
  sim_world {[ 64 := OCond (sim_cond 0 0); 128 := OMutex free_mutex ]}.
Definition race_pool : pool (@world sim_kernel) Z :=
  ([pthread_cond_timedwait (sim_who 0) 64 128 (Some (mk_timespec 2 0));
    pthread_cond_signal (sim_who 1) 64], race_world).
Definition race_order : list nat := replicate 14 0%nat ++ replicate 8 1%nat ++ replicate 4 0%nat.
Definition race_result (c : pool (@world sim_kernel) Z) : list (option Z) * option (Z * Z) :=
  (map (fun p => match p with Ret r => Some r | _ => None end) c.1,
   option_map (fun s : @pthread_cond_t sim_kernel => (waiting s, @sem_val sim_kernel (c_cond s)))
     (at_ 64 c.2)).

(** Timed waits break the account of the waiters: when a signal comes
    between a waiter's time-out and its [waiting--], the waiter is counted
    off twice.  Both calls return, the wait with [ETIMEDOUT], and leave
    [waiting] at -1 and a token that no waiter will take. *)
Theorem cond_timeout_race :
  exists c, reach pool_step race_pool c /\ race_result c = ([Some ETIMEDOUT; Some 0], Some (-1, 1)).
Proof. apply (sched_summary race_result race_order). vm_compute. reflexivity. Qed.
End cond_witnesses.
