(* ===== verification/CondSpec.v ===== *)
(** What a condition variable promises, and that [posix_pthread_cond.c]
    keeps it.  The specification is a counter of sleeping threads and one of
    granted wake-ups, changed by four atomic events; the pool of [Cond] is
    simulated by it, each call by the events it stands for, in every
    interleaving.  The file also shows that the calls do not run into
    undefined behaviour, and what the specification does not promise: a
    wake-up may go to a thread that began to wait after the signal. *)
From S2P Require Import Prelude Prog Kernel World Machine Lock SimKernel Timespec Clock Attr Mutex Cond.

(** ** The specification *)

Record cond_spec := mk_spec { asleep : Z; granted : Z }.

Inductive cond_event :=
| Register     (** a thread begins to wait *)
| Wake         (** a thread takes a wake-up and stops waiting *)
| Notify       (** grants one wake-up if a thread is asleep *)
| NotifyAll.   (** grants one to every thread that is asleep *)

(** [None]: the event cannot happen. *)
Definition spec_step (e : cond_event) (s : cond_spec) : option cond_spec :=
  match e with
  | Register => Some (mk_spec (asleep s + 1) (granted s))
  | Wake => if 0 <? granted s then Some (mk_spec (asleep s) (granted s - 1)) else None
  | Notify =>
      Some (if 0 <? asleep s then mk_spec (asleep s - 1) (granted s + 1) else s)
  | NotifyAll => Some (mk_spec 0 (granted s + asleep s))
  end.

(** A history is a sequence of events, each on behalf of a task. *)
Definition history : Type := list (nat * cond_event).

Fixpoint spec_run (h : history) (s : cond_spec) : option cond_spec :=
  match h with
  | [] => Some s
  | (_, e) :: h' => s' ← spec_step e s; spec_run h' s'
  end.

Definition spec_init : cond_spec := mk_spec 0 0.

Lemma spec_run_app h h' s :
  spec_run (h ++ h') s = s' ← spec_run h s; spec_run h' s'.
Proof.
  revert s. induction h as [|[i e] h IH]; intros s; simpl; [done|].
  destruct (spec_step e s) as [s'|]; simpl; [apply IH|done].
Qed.

(** Every specified run accounts for the threads: those asleep and the
    wake-ups granted are the registrations less the wake-ups taken. *)
Definition spec_weight (e : cond_event) : Z :=
  match e with Register => 1 | Wake => -1 | _ => 0 end.

Lemma spec_account h s s' :
  spec_run h s = Some s' ->
  asleep s' + granted s' = asleep s + granted s + tally (fun x => spec_weight x.2) h.
Proof.
  revert s. induction h as [|[i e] h IH]; intros s H; simpl in *; [simplify_eq; lia|].
  destruct (spec_step e s) as [s1|] eqn:E; [|done]. simpl in H. rewrite (IH s1 H).
  destruct e; simpl in E; simplify_eq/=; try lia; case_match; simplify_eq/=; lia.
Qed.

(** ** The simulation *)

Section simulation.
Context `{P : Platform} `{K : Kernel} (ML : MutLaws P K) (SL : SemLaws P K).
Context (who : nat -> caller) (cnd : Z).
Hypothesis who_task : forall i, task_cur (who i) <> 0.
Hypothesis who_inj : forall i j, task_cur (who i) = task_cur (who j) -> i = j.
Implicit Types (ps : list cpc) (s : pthread_cond_t) (p : cpc).

(** The event that the next action of a task at [p] stands for. *)
Definition next_event p s : list cond_event :=
  match p with
  | WStore _ _ => [Register]
  | WRel _ (Ret _) => [Wake]
  | SRead | SRead2 => if 0 <? waiting s then [] else [Notify]
  | SPost => [Notify]
  | BPost _ => [NotifyAll]
  | _ => []
  end.

(** The events of a call that has come to [p]. *)
Definition so_far (r : cond_role) p : list cond_event :=
  match p, r with
  | (WUnl _ | WRel _ _), _ => [Register]
  | (WRelock _ | WTimed _), _ => [Register; Wake]
  | (SRead3 | SStore _ | SUnl), _ => [Notify]
  | (BStore _ | BUnl), _ => [NotifyAll]
  | CDone _, Signals => [Notify]
  | CDone _, Broadcasts => [NotifyAll]
  | _, _ => []
  end.

(** The points of a call of each kind. *)
Definition plays (r : cond_role) p : Prop :=
  match r, p with
  | Waits mx, (WInit mx' | WLock mx' | WLoad mx' | WStore mx' _ | WUnl mx' | WRel mx' _) => mx' = mx
  | Waits _, (WRelock _ | WTimed _) => True
  | Signals, (SInit | SRead | SLock | SRead2 | SPost | SRead3 | SStore _ | SUnl) => True
  | Broadcasts, (BInit | BLock | BRead | BPost _ | BStore _ | BUnl) => True
  | (Signals | Broadcasts), CDone v => v = 0
  | _, _ => False
  end.

(** The state of the specification that [ps] and [s] stand for: a wake-up
    that has been granted but not yet subtracted from [waiting] is not
    asleep. *)
Definition spec_of ps s : cond_spec :=
  mk_spec (waiting s - tally in_excess ps) (sem_val (c_cond s)).

(** Of the tokens given in advance, only the task inside has any. *)
Lemma excess_inside ps s i p :
  cond_inv who cnd ML ps s -> ps !! i = Some p -> c_in_cs p = 1 -> tally in_excess ps = in_excess p.
Proof.
  intros I Hi Hc.
  destruct (lock_alone ML who c_in_cs c_in_cs_bit ps _ i p (ci_lock _ _ _ _ _ I) Hi Hc) as (_ & _ & Hal).
  pose proof (tally_insert in_excess ps i p (CDone 0) Hi) as Ht.
  rewrite (tally_zero in_excess (<[i:=CDone 0]> ps)) in Ht; [simpl in Ht; lia|].
  intros q Hq. apply list_elem_of_lookup in Hq as [j Hj].
  destruct (decide (i = j)) as [<-|Hne].
  - rewrite list_lookup_insert_eq in Hj by (by eapply lookup_lt_Some). by simplify_eq.
  - rewrite list_lookup_insert_ne in Hj by done. specialize (Hal j q ltac:(lia) Hj). by destruct q.
Qed.

Lemma excess_nonneg ps s : cond_inv who cnd ML ps s -> 0 <= tally in_excess ps.
Proof.
  intros I. destruct (ci_lock _ _ _ _ _ I) as [[Hm _]|(i & p & Hi & Hp & _)].
  - by rewrite (no_excess who cnd ML who_task ps s I Hm).
  - rewrite (excess_inside ps s i p I Hi Hp). pose proof (ci_knows _ _ _ _ _ I i p Hi) as Hk.
    pose proof (ci_waiting _ _ _ _ _ I). destruct p; simpl in *; lia.
Qed.

Lemma spec_of_move ps s' i p p' :
  ps !! i = Some p ->
  spec_of (<[i:=p']> ps) s'
  = mk_spec (waiting s' - (tally in_excess ps - in_excess p + in_excess p')) (sem_val (c_cond s')).
Proof. intros Hi. unfold spec_of. by rewrite (tally_insert in_excess ps i p p' Hi). Qed.

(** [sem_get] with [WAIT] comes back with a token only. *)
Lemma token_taken (t : sem_t) v x :
  0 <= sem_val t -> (v, x) ∈ sem_get WAIT t -> v = 0 /\ 0 < sem_val t /\ sem_val x = sem_val t - 1.
Proof.
  intros Ht Hv. destruct (decide (sem_val t = 0)) as [H0|H0].
  { rewrite sem_get_wait in Hv by done. by apply not_elem_of_nil in Hv. }
  destruct (sem_get_avail t WAIT ltac:(lia)) as (y & Hy & Hyv). rewrite Hy in Hv.
  apply list_elem_of_singleton in Hv. simplify_eq. lia.
Qed.

(** One action and the event it stands for. *)
Definition simulated (i : nat) (r : cond_role) ps s p p' (w' : world) : Prop :=
  exists s', at_ cnd w' = Some s' /\ plays r p' /\ so_far r p' = so_far r p ++ next_event p s
    /\ spec_run (map (pair i) (next_event p s)) (spec_of ps s) = Some (spec_of (<[i:=p']> ps) s').

Lemma sim_quiet i r ps s p p' w' s' :
  ps !! i = Some p -> at_ cnd w' = Some s' -> next_event p s = [] -> plays r p' ->
  so_far r p' = so_far r p -> waiting s' = waiting s -> sem_val (c_cond s') = sem_val (c_cond s) ->
  in_excess p' = in_excess p -> simulated i r ps s p p' w'.
Proof.
  intros Hi Hw He Hp Hf Hwt Hsem Hx. exists s'. rewrite He, app_nil_r. do 3 (split; [done|]).
  simpl. rewrite (spec_of_move ps s' i p p' Hi), Hwt, Hsem, Hx. unfold spec_of. do 2 f_equal; lia.
Qed.

Lemma sim_event i r ps s p p' w' s' e :
  ps !! i = Some p -> at_ cnd w' = Some s' -> next_event p s = [e] -> plays r p' ->
  so_far r p' = so_far r p ++ [e] ->
  spec_step e (spec_of ps s)
  = Some (mk_spec (waiting s' - (tally in_excess ps - in_excess p + in_excess p')) (sem_val (c_cond s'))) ->
  simulated i r ps s p p' w'.
Proof.
  intros Hi Hw He Hp Hf Hs. exists s'. rewrite He. do 3 (split; [done|]).
  simpl. by rewrite Hs, (spec_of_move ps s' i p p' Hi).
Qed.

(** What the actions do. *)
Lemma on_cond_inv w s k p' w' :
  at_ cnd w = Some s -> inl (p', w') ∈ on_cond cnd w k ->
  exists s', (p', s') ∈ k s /\ at_ cnd w' = Some s'.
Proof.
  intros Hs H. unfold on_cond in H. rewrite Hs in H.
  apply list_elem_of_fmap in H as ([q s'] & [= -> ->] & Hin). exists s'. split; [done|apply at_put].
Qed.

Lemma on_cond_one w s f p1 p' w' :
  at_ cnd w = Some s -> inl (p', w') ∈ on_cond cnd w (fun s => [(p1, f s)]) ->
  p' = p1 /\ at_ cnd w' = Some (f s).
Proof.
  intros Hs H. destruct (on_cond_inv _ _ _ _ _ Hs H) as (s' & Hin & Hw').
  apply list_elem_of_singleton in Hin. by simplify_eq.
Qed.

Lemma on_cond_lock w s me p1 p' w' :
  at_ cnd w = Some s -> inl (p', w') ∈ on_cond cnd w (lock_to me p1) ->
  p' = p1 /\ exists x, at_ cnd w' = Some (set_c_mux x s).
Proof.
  intros Hs H. destruct (on_cond_inv _ _ _ _ _ Hs H) as (s' & Hin & Hw').
  apply list_elem_of_fmap in Hin as ([r x] & [= -> ->] & _). eauto.
Qed.

Lemma peek_inv w s k p' w' :
  at_ cnd w = Some s -> inl (p', w') ∈ peek cnd w k -> p' = k s /\ at_ cnd w' = Some s.
Proof.
  intros Hs H. unfold peek in H. rewrite Hs in H. apply list_elem_of_singleton in H. by simplify_eq.
Qed.

Lemma sub_inv w s q k p' w' :
  at_ cnd w = Some s -> framed cnd q -> inl (p', w') ∈ sub_step q k w ->
  exists q', p' = k q' /\ at_ cnd w' = Some s.
Proof.
  intros Hs Hq H. apply list_elem_of_fmap in H as ([q' v|e] & Hx & Hin); simplify_eq.
  exists q'. split; [done|]. by eapply framed_step.
Qed.

(** [quietly] and [eventfully] apply these lemmas to an action of a call
    whose kind [r] the context gives. *)
Ltac by_role := match goal with H : plays ?r _ |- _ => by destruct r end.
Ltac quietly := eapply sim_quiet; try done; try by_role.
Ltac eventfully := eapply sim_event; try done; try by_role; unfold spec_of; simpl.

(** A signaller reads [waiting]: it is the event if nobody is asleep. *)
Ltac signal_reads :=
  match goal with
  | H : inl _ ∈ peek _ _ _, Hs : at_ cnd _ = Some ?s |- simulated _ _ ?ps ?s _ _ _ =>
      apply (peek_inv _ _ _ _ _ Hs) in H as [-> ?]; destruct (0 <? waiting s) eqn:E;
      [quietly; simpl; by rewrite E
      |eventfully; [by rewrite E|]; test_false (0 <? waiting s - tally in_excess ps); do 2 f_equal; lia]
  end.

(** A waiter takes a token. *)
Lemma sim_wake i r ps s mx v p' w w' :
  at_ cnd w = Some s -> cond_inv who cnd ML ps s -> ps !! i = Some (WRel mx (Ret v)) ->
  plays r (WRel mx (Ret v)) -> inl (p', w') ∈ cond_next cnd (who i) (WRel mx (Ret v)) w ->
  simulated i r ps s (WRel mx (Ret v)) p' w'.
Proof.
  intros Hs I Hi Hr H. cbn [cond_next] in H. simpl in Hr.
  destruct (v =? 0) eqn:E; [|by apply not_elem_of_nil in H]. apply Z.eqb_eq in E as ->.
  destruct (on_cond_inv _ _ _ _ _ Hs H) as (s' & Hin & Hw').
  apply list_elem_of_fmap in Hin as ([v x] & [= -> ->] & Hv).
  destruct (token_taken (c_cond s) v x) as (-> & Hpos & Hx'); [apply I|done|].
  eventfully. test_true (0 <? sem_val (c_cond s)).
  rewrite Hx'. do 2 f_equal; lia.
Qed.

Lemma cond_simulation i r ps s p p' w w' :
  at_ cnd w = Some s -> cond_inv who cnd ML ps s -> ps !! i = Some p -> plays r p ->
  inl (p', w') ∈ cond_next cnd (who i) p w -> simulated i r ps s p p' w'.
Proof.
  intros Hs I Hi Hr H. pose proof (ci_knows _ _ _ _ _ I i p Hi) as Hk.
  pose proof (ci_inited _ _ _ _ _ I) as Hinit. pose proof (ci_waiting _ _ _ _ _ I) as Hw0.
  pose proof (excess_nonneg ps s I) as Hx0.
  pose proof (excess_inside ps s i p I Hi) as Hx.
  destruct p as [mx|mx|mx|mx n|mx|mx q|q|q| | | | | | |n| | | | |n|n| |v]; cbn [cond_next] in H;
    simpl in Hk, Hr, Hx.
  - apply (peek_inv _ _ _ _ _ Hs) in H as [-> Hw']. revert Hw'. test_false (c_inited s =? 0). intros Hw'.
    by quietly.
  - apply (on_cond_lock _ _ _ _ _ _ Hs) in H as (-> & x & Hw'). by quietly.
  - apply (peek_inv _ _ _ _ _ Hs) in H as [-> Hw']. by quietly.
  - destruct Hk as [Hmx <-]. destruct (sgn 32 (waiting s + 1)) as [n'|] eqn:E; [|by apply list_elem_of_singleton in H].
    apply sgn_Some in E as [-> _]. apply (on_cond_one _ _ _ _ _ _ Hs) in H as [-> Hw'].
    eventfully. do 2 f_equal; lia.
  - apply (on_cond_one _ _ _ _ _ _ Hs) in H as [-> Hw']. by quietly.
  - destruct Hk as [_ Hq]. destruct q as [v|A a k]; [by eapply sim_wake|].
    apply (sub_inv _ _ _ _ _ _ Hs Hq) in H as (q' & -> & Hw'). by quietly.
  - apply (sub_inv _ _ _ _ _ _ Hs Hk) in H as (q' & -> & Hw'). by quietly.
  - done.
  - apply (peek_inv _ _ _ _ _ Hs) in H as [-> Hw']. revert Hw'. test_false (c_inited s =? 0). intros Hw'.
    by quietly.
  - by signal_reads.
  - apply (on_cond_lock _ _ _ _ _ _ Hs) in H as (-> & x & Hw'). by quietly.
  - by signal_reads.
  - apply (on_cond_one _ _ _ _ _ _ Hs) in H as [-> Hw']. specialize (Hx eq_refl). eventfully.
    test_true (0 <? waiting s - tally in_excess ps). rewrite sem_post_val. do 2 f_equal; lia.
  - apply (peek_inv _ _ _ _ _ Hs) in H as [-> Hw']. by quietly.
  - destruct Hk as [Hn <-]. destruct (sgn 32 (waiting s - 1)) as [n'|] eqn:E; [|by apply list_elem_of_singleton in H].
    apply sgn_Some in E as [-> _]. apply (on_cond_one _ _ _ _ _ _ Hs) in H as [-> Hw'].
    specialize (Hx eq_refl). exists (set_waiting (waiting s - 1) s).
    split; [done|]. split; [by_role|]. split; [by_role|]. simpl.
    rewrite (spec_of_move ps _ i _ _ Hi). unfold spec_of. simpl. do 2 f_equal; lia.
  - apply (on_cond_one _ _ _ _ _ _ Hs) in H as [-> Hw']. by quietly.
  - apply (peek_inv _ _ _ _ _ Hs) in H as [-> Hw']. revert Hw'. test_false (c_inited s =? 0). intros Hw'.
    by quietly.
  - apply (on_cond_lock _ _ _ _ _ _ Hs) in H as (-> & x & Hw'). by quietly.
  - apply (peek_inv _ _ _ _ _ Hs) in H as [-> Hw']. by quietly.
  - subst n. apply (on_cond_one _ _ _ _ _ _ Hs) in H as [-> Hw']. specialize (Hx eq_refl). eventfully.
    rewrite sem_post_n_val by done. do 2 f_equal; lia.
  - subst n. apply (on_cond_one _ _ _ _ _ _ Hs) in H as [-> Hw']. specialize (Hx eq_refl).
    exists (set_waiting 0 s).
    split; [done|]. split; [by_role|]. split; [by_role|]. simpl.
    rewrite (spec_of_move ps _ i _ _ Hi). unfold spec_of. simpl. do 2 f_equal; lia.
  - apply (on_cond_one _ _ _ _ _ _ Hs) in H as [-> Hw']. by quietly.
  - set_solver.
Qed.

(** *** The pool *)

Lemma excess_le ps s : cond_inv who cnd ML ps s -> tally in_excess ps <= waiting s.
Proof.
  intros I. pose proof (ci_waiting _ _ _ _ _ I).
  destruct (ci_lock _ _ _ _ _ I) as [[Hm _]|(i & p & Hi & Hp & _)].
  - by rewrite (no_excess who cnd ML who_task ps s I Hm).
  - rewrite (excess_inside ps s i p I Hi Hp). pose proof (ci_knows _ _ _ _ _ I i p Hi) as Hk.
    destruct p; simpl in *; lia.
Qed.

(** The pool [c], whose tasks play the roles [rs], is where the history [h]
    leads. *)
Definition explained_by_history (rs : list cond_role) (c : pool world Z) (h : history) : Prop :=
  exists ps s, c.1 = threads (M:=cond_machine who cnd) ps /\ at_ cnd c.2 = Some s
    /\ cond_inv who cnd ML ps s /\ spec_run h spec_init = Some (spec_of ps s)
    /\ forall i p, ps !! i = Some p -> exists r, rs !! i = Some r /\ plays r p /\ events_of i h = so_far r p.

(** What a caller can see of it: the tokens of the semaphore are the wake-ups
    granted, [waiting] is the number of sleeping threads whenever nobody is
    inside the condition variable, and the calls that have returned have
    taken effect once. *)
Record cond_agrees (rs : list cond_role) (c : pool world Z) (h : history) (s : pthread_cond_t)
    (sp : cond_spec) : Prop := {
  ag_at : at_ cnd c.2 = Some s;
  ag_run : spec_run h spec_init = Some sp;
  ag_granted : granted sp = sem_val (c_cond s);
  ag_asleep : 0 <= asleep sp <= waiting s;
  ag_free : mut_own (c_mux s) = 0 -> asleep sp = waiting s;
  ag_returned : forall i r v, rs !! i = Some r -> c.1 !! i = Some (Ret v) ->
    match r with
    | Signals => v = 0 /\ events_of i h = [Notify]
    | Broadcasts => v = 0 /\ events_of i h = [NotifyAll]
    | Waits _ => events_of i h = [Register; Wake] \/ v <> 0 /\ events_of i h = [Register]
    end
}.

Lemma explained_first rs w s :
  at_ cnd w = Some s -> fresh_cond s -> Forall (role_ok cnd) rs ->
  explained_by_history rs (cond_callers who cnd rs, w) [].
Proof.
  intros Hs Hf Hrs. exists (map role_pc rs), s.
  pose proof (inv_start who cnd ML rs s Hrs Hf) as I.
  split; [apply cond_callers_threads|]. split; [done|]. split; [done|]. split.
  - destruct Hf as (_ & Hm & Hsem & Hw). unfold spec_of.
    by rewrite (no_excess who cnd ML who_task _ s I Hm), Hsem, Hw.
  - intros i p Hp. apply list_lookup_fmap_Some in Hp as (r & -> & Hr).
    exists r. by destruct r.
Qed.

Lemma explained_next rs c h c' :
  explained_by_history rs c h -> pool_step c c' ->
  exists h', (length h' <= 1)%nat /\ explained_by_history rs c' (h ++ h').
Proof.
  intros (ps & s & E & Hs & I & Hh & Hr) Hstep. destruct c as [ts w]. simpl in E, Hs. subst ts.
  destruct (step_refines (M:=cond_machine who cnd) ps w w c' eq_refl Hstep) as (ps' & v & Hm & E' & Hv).
  injection Hv as Hv. inversion Hm as [qs u i p p' v' Hi Hn]; subst.
  destruct (Hr i p Hi) as (r & Hri & Hp & He).
  destruct (cond_simulation i r ps s p p' w c'.2 Hs I Hi Hp Hn) as (s' & Hs' & Hp' & Hf & Hrun).
  exists (map (pair i) (next_event p s)). split.
  { rewrite length_map. destruct p as [| | | | |mx [v|]| | | | | | | | | | | | | | | | |]; simpl; try lia;
      destruct (0 <? waiting s); simpl; lia. }
  assert (inv_at who cnd ML ps w) as Hat by (by exists s).
  destruct (cond_inv_step who cnd ML SL who_task who_inj ps w i p p' c'.2 Hat Hi Hn) as (s2 & Hs2 & I2).
  rewrite Hs' in Hs2. injection Hs2 as <-.
  exists (<[i:=p']> ps), s'. split; [done|]. split; [done|]. split; [done|]. split.
  - by rewrite spec_run_app, Hh.
  - intros j q Hj. destruct (decide (i = j)) as [<-|Hne].
    + rewrite list_lookup_insert_eq in Hj by (by eapply lookup_lt_Some). injection Hj as <-.
      exists r. split; [done|]. split; [done|]. by rewrite events_of_app, events_of_self, He.
    + rewrite list_lookup_insert_ne in Hj by done. destruct (Hr j q Hj) as (r' & H1 & H2 & H3).
      exists r'. split; [done|]. split; [done|]. by rewrite events_of_app, events_of_other, app_nil_r by done.
Qed.

Lemma explained_agrees rs c h :
  explained_by_history rs c h -> exists s sp, cond_agrees rs c h s sp.
Proof.
  intros (ps & s & E & Hs & I & Hh & Hr). exists s, (spec_of ps s).
  pose proof (excess_le ps s I). pose proof (excess_nonneg ps s I).
  split; try done; simpl; [lia| |].
  - intros Hm. rewrite (no_excess who cnd ML who_task ps s I Hm). lia.
  - intros i r v Hri Hv. rewrite E in Hv. apply threads_lookup in Hv as (p & Hp & Hv).
    destruct (Hr i p Hp) as (r' & Hr' & Hpl & ->).
    rewrite Hri in Hr'. injection Hr' as <-.
    pose proof (ci_knows _ _ _ _ _ I i p Hp) as Hk.
    destruct (returned_at cnd (who i) p v (eq_sym Hv)) as [(mx & -> & ?)|[->|[->| ->]]];
      [by destruct r; [right|..]|by destruct r; [left|..]|done|by destruct r].
Qed.

(** C3: Any number of calls of [pthread_cond_wait], [pthread_cond_signal] and
    [pthread_cond_broadcast] on a fresh condition variable refines the
    specification, in every interleaving: each action of the code is no event
    or one event of the specification (a simulation with stuttering), the
    shared state is where the history of events leads, and each call that has
    returned has taken effect exactly once: a signal or broadcast by one
    event, a wait by a registration and a wake-up (or by a registration alone
    when the mutex could not be unlocked). *)
Theorem cond_refines_spec rs w s :
  at_ cnd w = Some s -> fresh_cond s -> Forall (role_ok cnd) rs ->
  exists R : pool world Z -> history -> Prop,
    R (cond_callers who cnd rs, w) []
    /\ (forall c h c', R c h -> pool_step c c' -> exists h', (length h' <= 1)%nat /\ R c' (h ++ h'))
    /\ (forall c h, R c h -> exists s' sp, cond_agrees rs c h s' sp).
Proof.
  intros Hs Hf Hrs. exists (explained_by_history rs). split; [by apply explained_first with s|].
  split; [by intros; eapply explained_next|apply explained_agrees].
Qed.

(** ** No undefined behaviour *)

(** The mutexes of the waiters exist. *)
Definition mutexes_there (ms : list Z) (w : world) : Prop :=
  forall mx, mx ∈ ms -> exists m : pthread_mutex_t, at_ mx w = Some m.

Definition faultless (ms : list Z) (q : prog world Z) : Prop :=
  typed (mutexes_there ms) (fun _ => False) (fun _ => True) q.

Lemma mutexes_rset {T} ms mx (g : pthread_mutex_t -> T) st v w :
  mutexes_there ms w -> mutexes_there ms (rset (fld mx g st) v w).
Proof.
  intros H my Hy. destruct (H my Hy) as [m Hm]. simpl.
  destruct (at_ mx w) as [m'|] eqn:E; [|by exists m].
  destruct (decide (mx = my)) as [->|Hne]; [by eexists; apply at_put|].
  exists m. by rewrite at_put_ne by congruence.
Qed.

Lemma mutexes_put ms (s : pthread_cond_t) w :
  ~ cnd ∈ ms -> mutexes_there ms w -> mutexes_there ms (put cnd s w).
Proof.
  intros Hn H my Hy. destruct (H my Hy) as [m Hm]. exists m.
  rewrite at_put_ne; [done|]. intros ->. by apply Hn.
Qed.

Lemma field_there {T} ms mx (g : pthread_mutex_t -> T) st w :
  mx ∈ ms -> mutexes_there ms w -> rget (fld mx g st) w = None -> False.
Proof. intros Hm H. simpl. by destruct (H mx Hm) as [m ->]. Qed.

Ltac faultless_tac :=
  repeat first
    [ exact I
    | apply typed_assoc
    | apply typed_get; intros
    | apply typed_load; [intros|by intros; eapply field_there]
    | apply typed_kcall; [intros; split; [by apply mutexes_rset|]|by intros; eapply field_there]
    | match goal with |- typed _ _ _ (bind (match ?x with _ => _ end) _) => destruct x end
    | match goal with |- typed _ _ _ (match ?x with _ => _ end) => destruct x end
    | progress cbn [bind] ].

Lemma faultless_unlock ms c mx : mx ∈ ms -> faultless ms (pthread_mutex_unlock c mx).
Proof.
  intros Hm. unfold faultless, pthread_mutex_unlock, mutex_inited, mutex_type, mutex_own, mutex_mux, kmod.
  faultless_tac.
Qed.

Lemma faultless_lock ms c mx : mx ∈ ms -> faultless ms (pthread_mutex_lock c mx).
Proof.
  intros Hm. unfold faultless, pthread_mutex_lock, pthread_mutex_timedlock, mutex_inited, mutex_type,
    mutex_own, mutex_mux.
  faultless_tac.
Qed.

Definition calm (ms : list Z) p : Prop :=
  match p with
  | WInit mx | WLock mx | WLoad mx | WStore mx _ | WUnl mx => mx ∈ ms
  | WRel mx q => mx ∈ ms /\ faultless ms q
  | WRelock q => faultless ms q
  | _ => True
  end.

Section calm.
Context (ms : list Z).
Hypothesis cnd_apart : ~ cnd ∈ ms.

Lemma on_cond_calm w k p' w' :
  mutexes_there ms w -> (forall s x, x ∈ k s -> calm ms x.1) ->
  inl (p', w') ∈ on_cond cnd w k -> calm ms p' /\ mutexes_there ms w'.
Proof.
  intros Hw Hk H. unfold on_cond in H. destruct (at_ cnd w) as [s|].
  - apply list_elem_of_fmap in H as ([q s'] & [= -> ->] & Hin).
    split; [by apply (Hk s (q, s'))|by apply mutexes_put].
  - by apply list_elem_of_singleton in H.
Qed.

Lemma on_cond_calm_one w p1 f p' w' :
  mutexes_there ms w -> calm ms p1 ->
  inl (p', w') ∈ on_cond cnd w (fun s => [(p1, f s)]) -> calm ms p' /\ mutexes_there ms w'.
Proof.
  intros Hw H1. apply on_cond_calm; [done|]. intros s x Hx.
  by apply list_elem_of_singleton in Hx as ->.
Qed.

Lemma on_cond_calm_lock w me p1 p' w' :
  mutexes_there ms w -> calm ms p1 ->
  inl (p', w') ∈ on_cond cnd w (lock_to me p1) -> calm ms p' /\ mutexes_there ms w'.
Proof.
  intros Hw H1. apply on_cond_calm; [done|]. intros s x Hx.
  by apply list_elem_of_fmap in Hx as (y & -> & _).
Qed.

Lemma peek_calm w k p' w' :
  mutexes_there ms w -> (forall s, calm ms (k s)) -> inl (p', w') ∈ peek cnd w k ->
  calm ms p' /\ mutexes_there ms w'.
Proof.
  intros Hw Hk H. unfold peek in H. destruct (at_ cnd w) as [s|];
    apply list_elem_of_singleton in H; by simplify_eq.
Qed.

Lemma sub_calm w q k p' w' :
  mutexes_there ms w -> faultless ms q -> (forall q', faultless ms q' -> calm ms (k q')) ->
  inl (p', w') ∈ sub_step q k w -> calm ms p' /\ mutexes_there ms w'.
Proof.
  intros Hw Hq Hk H. apply list_elem_of_fmap in H as ([q' v|e] & Hx & Hin); simplify_eq.
  destruct (typed_step _ _ _ q q' w v Hq Hw Hin). split; [by apply Hk|done].
Qed.

Lemma calm_next c w p p' w' :
  mutexes_there ms w -> calm ms p -> (forall q, p <> WTimed q) ->
  inl (p', w') ∈ cond_next cnd c p w -> calm ms p' /\ mutexes_there ms w'.
Proof.
  intros Hw Hp Hnt. pose proof (faultless_lock ms c) as Hlock. pose proof (faultless_unlock ms c) as Hunl.
  destruct p as [mx|mx|mx|mx n|mx|mx q|q|q| | | | | | |n| | | | |n|n| |v]; cbn [cond_next]; simpl in Hp;
    try (apply peek_calm; [done|]; intros s; try case_if; done);
    try (by apply on_cond_calm_lock); try (by apply on_cond_calm_one);
    try (case_match; [by apply on_cond_calm_one|by intros ?%list_elem_of_singleton]).
  - apply on_cond_calm_one; [done|]. split; [done|auto].
  - destruct Hp as [Hm Hq]. destruct q as [v|A a k].
    + destruct (v =? 0); [|by intros ?%not_elem_of_nil].
      apply on_cond_calm; [done|]. intros s x Hx. apply list_elem_of_fmap in Hx as ([v' y] & -> & _).
      simpl. case_if; simpl; auto.
    + by apply sub_calm.
  - by apply sub_calm.
  - by destruct (Hnt q).
  - by intros ?%not_elem_of_nil.
Qed.
End calm.

(** An action that neither faults: the counters stay in the range of [int]
    as long as there are fewer than 2^31 tasks. *)
Lemma cond_next_no_fault ms ps s w i p e :
  at_ cnd w = Some s -> cond_inv who cnd ML ps s -> Z.of_nat (length ps) < 2 ^ 31 ->
  mutexes_there ms w -> ps !! i = Some p -> calm ms p -> ~ inr e ∈ cond_next cnd (who i) p w.
Proof.
  intros Hs I Hlen Hw Hi Hp. pose proof (ci_knows _ _ _ _ _ I i p Hi) as Hk.
  pose proof (ci_waiting _ _ _ _ _ I) as Hw0. pose proof (ci_tokens _ _ _ _ _ I) as Ht0.
  pose proof (ci_sum _ _ _ _ _ I) as Hsum. pose proof (excess_inside ps s i p I Hi) as Hx.
  pose proof (tally_le registered (fun _ => 1) (<[i:=WUnl 0]> ps) ltac:(by intros [])) as Hr.
  rewrite tally_const1, length_insert, (tally_insert registered ps i p _ Hi) in Hr.
  assert (forall k, ~ inr e ∈ on_cond cnd w k) as Hon.
  { intros k H. unfold on_cond in H. rewrite Hs in H. by apply list_elem_of_fmap in H as (x & ? & _). }
  assert (forall k, ~ inr e ∈ peek cnd w k) as Hpeek.
  { intros k H. unfold peek in H. rewrite Hs in H. by apply list_elem_of_singleton in H. }
  assert (forall q k, faultless ms q -> ~ inr e ∈ sub_step q k w) as Hsub.
  { intros q k Hq H. apply list_elem_of_fmap in H as ([q' v|e'] & Hx' & Hin); simplify_eq.
    by apply (typed_no_fault _ _ _ q w e' Hq Hw). }
  destruct p as [mx|mx|mx|mx n|mx|mx q|q|q| | | | | | |n| | | | |n|n| |v]; cbn [cond_next]; simpl in Hp, Hk, Hx, Hr;
    try apply Hon; try apply Hpeek; try (by apply Hsub).
  - destruct Hk as [_ <-]. specialize (Hx eq_refl). rewrite sgn_in; [apply Hon|].
    change (32 - 1) with 31. lia.
  - destruct Hp as [_ Hq]. destruct q as [v|A a k]; [|by apply Hsub].
    destruct (v =? 0); [apply Hon|by apply not_elem_of_nil].
  - destruct Hk as [Hn <-]. specialize (Hx eq_refl). rewrite sgn_in; [apply Hon|].
    change (32 - 1) with 31. lia.
  - by apply not_elem_of_nil.
Qed.

Definition role_calm (ms : list Z) (r : cond_role) : Prop := match r with Waits mx => mx ∈ ms | _ => True end.

(** C17: No interleaving of waits, signals and broadcasts on a fresh condition
    variable runs into undefined behaviour, when the mutexes of the waiters
    exist and there are fewer than 2^31 tasks: no access to freed memory, and
    no overflow of [waiting]. *)
Theorem cond_pool_no_faults ms rs w s c e :
  at_ cnd w = Some s -> fresh_cond s -> ~ cnd ∈ ms -> mutexes_there ms w ->
  Forall (role_calm ms) rs -> Z.of_nat (length rs) < 2 ^ 31 ->
  reach pool_step (cond_callers who cnd rs, w) c -> ~ pool_faults c e.
Proof.
  intros Hs Hf Hcnd Hms Hrs Hlen H.
  assert (Forall (role_ok cnd) rs) as Hok.
  { eapply Forall_impl; [exact Hrs|]. intros [mx| |]; simpl; [|done..]. by intros ? ->. }
  rewrite cond_callers_threads in H.
  destruct (pool_refines (M:=cond_machine who cnd) _ w w c eq_refl H) as (ps & w' & Hr & E & Hv).
  destruct c as [ts v]. simpl in E, Hv. injection Hv as <-. subst ts.
  assert (inv_at who cnd ML ps v /\ length ps = length rs /\ mutexes_there ms v
          /\ forall i p, ps !! i = Some p -> calm ms p) as ((s' & Hs' & I) & Hl & Hm & Hc).
  { apply (reach_inv mstep (fun x => inv_at who cnd ML x.1 x.2 /\ length x.1 = length rs
      /\ mutexes_there ms x.2 /\ forall i p, x.1 !! i = Some p -> calm ms p)) in Hr; [done| |].
    - split; [exists s; split; [done|by apply inv_start]|]. split; [apply length_map|]. split; [done|].
      intros i p Hp. apply list_lookup_fmap_Some in Hp as (r & -> & Hi).
      pose proof (Forall_lookup_1 _ _ _ _ Hrs Hi). by destruct r.
    - intros x y Hx Hstep. destruct Hstep as [qs u i p p' u' Hi Hn].
      destruct Hx as ((s1 & Hs1 & I1) & Hl1 & Hm1 & Hc1). simpl in *.
      destruct (calm_next ms Hcnd (who i) u p p' u' Hm1 (Hc1 i p Hi)) as [Hp' Hu'];
        [|done|].
      { intros q ->. apply (ci_knows _ _ _ _ _ I1 i _ Hi). }
      split; [eapply cond_inv_step; try done; by exists s1|]. split; [by rewrite length_insert|].
      split; [done|]. intros j q Hj. destruct (decide (i = j)) as [<-|Hne].
      + rewrite list_lookup_insert_eq in Hj by (by eapply lookup_lt_Some). by simplify_eq.
      + rewrite list_lookup_insert_ne in Hj by done. by apply (Hc1 j). }
  apply (pool_no_fault (M:=cond_machine who cnd) ps v v e eq_refl). intros i p Hi.
  eapply (cond_next_no_fault ms ps s' v i p e); try done; [by rewrite Hl|by eapply Hc].
Qed.
End simulation.

(** ** Witnesses, and what the specification does not promise *)

Section cond_spec_witnesses.
Import Sim.

Lemma cond_refines_spec_witness :
  exists R : pool (@world sim_kernel) Z -> history -> Prop,
    R (cond_callers sim_who 64 three_roles, cond_world 0 0) []
    /\ (forall c h c', R c h -> pool_step c c' -> exists h', (length h' <= 1)%nat /\ R c' (h ++ h'))
    /\ (forall c h, R c h -> exists s' sp, cond_agrees 64 three_roles c h s' sp).
Proof.
  apply (cond_refines_spec sim_mut_laws sim_sem_laws sim_who 64 sim_who_task sim_who_inj
    three_roles (cond_world 0 0) (sim_cond 0 0)).
  - reflexivity.
  - vm_compute; intuition congruence.
  - repeat constructor; done.
Defined.

Lemma cond_pool_no_faults_witness :
  exists c, reach pool_step (cond_callers sim_who 64 three_roles, cond_world 0 0) c
    /\ race_result c = ([None; None; None], Some (1, 0)) /\ ~ pool_faults c BadPointer.
Proof.
  destruct (sched_summary race_result (replicate 7 0 ++ replicate 2 1)%nat
    (cond_callers sim_who 64 three_roles, cond_world 0 0) ([None; None; None], Some (1, 0)))
    as (c & Hr & Hc); [vm_compute; reflexivity|].
  exists c. split; [exact Hr|]. split; [exact Hc|].
  apply (cond_pool_no_faults sim_mut_laws sim_sem_laws sim_who 64 sim_who_task sim_who_inj
    [128] three_roles (cond_world 0 0) (sim_cond 0 0) c BadPointer).
  - reflexivity.
  - vm_compute; intuition congruence.
  - by intros ?%list_elem_of_singleton.
  - intros mx ->%list_elem_of_singleton. by exists foreign_mutex.
  - repeat constructor; set_solver.
  - simpl. lia.
  - exact Hr.
Defined.

(** Two tasks that wait under one mutex, as POSIX asks, and a signaller. *)
Definition polite_wait (c : caller) : prog (@world sim_kernel) Z :=
  pthread_mutex_lock c 128 ;; pthread_cond_wait c 64 128 ;; pthread_mutex_unlock c 128.

Definition theft_pool : pool (@world sim_kernel) Z :=
  ([polite_wait (sim_who 0); pthread_cond_signal (sim_who 1) 64; polite_wait (sim_who 2)],
   @mk_world sim_kernel {[ 64 := OCond (sim_cond 0 0); 128 := OMutex free_mutex ]}
     ∅ 1500 400 UINT_MAX 1 1 [] (0, 0%nat) 0 []).

(** The results, the condition variable, and whether task 0 is blocked. *)
Definition theft_result (c : pool (@world sim_kernel) Z) : list (option Z) * option (Z * Z) * bool :=
  (race_result c,
   match c.1 !! 0%nat with
   | Some q => match pstep q c.2 with [] => true | _ => false end
   | None => false
   end).

(** A wake-up belongs to no thread.  Task 0 has begun to wait and released
    its mutex, task 1 signals, and task 2, which only then begins to wait,
    takes the wake-up: the signal and the second wait return 0, and the
    thread that was waiting when the signal was sent sleeps on. *)
Theorem cond_signal_stolen :
  exists c, reach pool_step theft_pool c
    /\ theft_result c = ([None; Some 0; Some 0], Some (1, 0), true).
Proof.
  apply (sched_summary theft_result (replicate 12 0 ++ replicate 8 1 ++ replicate 20 2)%nat).
  vm_compute. reflexivity.
Qed.
End cond_spec_witnesses.
