(* ===== verification/CondTimed.v ===== *)
(** Condition variables with timed waits.  A waiter that times out counts
    itself off, so that a signal may count it off as well ([cond_timeout_race]):
    the number of sleeping threads can become negative and a wake-up can be
    left over.  The file shows that nothing worse happens: calls of
    [pthread_cond_timedwait], [pthread_cond_wait], [pthread_cond_signal] and
    [pthread_cond_broadcast] refine a specification in which a thread may
    also leave, and each sleeper counted too few is a wake-up too many --
    until a broadcast finds the count negative: it passes a negative number
    of wake-ups to the kernel (posix_pthread_cond.c:63), and nothing is
    claimed of what happens from there on. *)
From S2P Require Import Prelude Prog Protocol Kernel World Machine Lock SimKernel Timespec Clock Attr Mutex Cond CondSpec.

(** ** The specification *)

Inductive timed_event :=
| Plain (e : cond_event)     (** as without deadlines *)
| Leave.                     (** a thread gives up waiting *)

Definition timed_step (e : timed_event) (s : cond_spec) : option cond_spec :=
  match e with
  | Plain e => spec_step e s
  | Leave => Some (mk_spec (asleep s - 1) (granted s))
  end.

Definition timed_history : Type := list (nat * timed_event).

Fixpoint timed_run (h : timed_history) (s : cond_spec) : option cond_spec :=
  match h with
  | [] => Some s
  | (_, e) :: h' => s' ← timed_step e s; timed_run h' s'
  end.

Lemma timed_run_app h h' s : timed_run (h ++ h') s = s' ← timed_run h s; timed_run h' s'.
Proof.
  revert s. induction h as [|[i e] h IH]; intros s; simpl; [done|].
  destruct (timed_step e s) as [s'|]; simpl; [apply IH|done].
Qed.

(** The threads that wait: registered, neither woken nor gone. *)
Definition waiting_weight (e : timed_event) : Z :=
  match e with Plain e => spec_weight e | Leave => -1 end.

Lemma timed_account h s s' :
  timed_run h s = Some s' ->
  asleep s' + granted s' = asleep s + granted s + tally (fun x => waiting_weight x.2) h.
Proof.
  revert s. induction h as [|[i e] h IH]; intros s H; simpl in *; [simplify_eq; lia|].
  destruct (timed_step e s) as [s1|] eqn:E; [|done]. simpl in H. rewrite (IH s1 H).
  destruct e as [[]|]; simpl in E; simplify_eq/=; try lia; case_match; simplify_eq/=; lia.
Qed.

(** ** The calls *)

Inductive timed_role :=
| Waiter (mx : Z) (abstime : option timespec)
| Signaller
| Broadcaster.

(** The events [es] explain the result [r] of a call. *)
Definition timed_result (role : timed_role) (es : list timed_event) (r : Z) : Prop :=
  match role with
  | Signaller => es = [Plain Notify] /\ r = 0
  | Broadcaster => es = [Plain NotifyAll] /\ r = 0
  | Waiter _ _ =>
      es = [] /\ r <> 0
      \/ es = [Plain Register] /\ r <> 0
      \/ es = [Plain Register; Plain Wake]
      \/ es = [Plain Register; Leave] /\ r = ETIMEDOUT
  end.

(** The events of a call that is under way. *)
Definition timed_so_far (role : timed_role) (es : list timed_event) : Prop :=
  match role with
  | Signaller => es = [] \/ es = [Plain Notify]
  | Broadcaster => es = [] \/ es = [Plain NotifyAll]
  | Waiter _ _ => es = [] \/ es = [Plain Register] \/ es = [Plain Register; Plain Wake] \/ es = [Plain Register; Leave]
  end.

Section timed.
Context `{P : Platform} `{K : Kernel} (ML : MutLaws P K) (SL : SemLaws P K).
Context (who : nat -> caller) (cnd : Z) (roles : nat -> timed_role).
Hypothesis who_task : forall i, task_cur (who i) <> 0.
Hypothesis who_inj : forall i j, task_cur (who i) = task_cur (who j) -> i = j.
Implicit Types (w : world) (s : pthread_cond_t) (es : list timed_event).

Definition timed_call (c : caller) (r : timed_role) : prog world Z :=
  match r with
  | Waiter mx abstime => pthread_cond_timedwait c cnd mx abstime
  | Signaller => pthread_cond_signal c cnd
  | Broadcaster => pthread_cond_broadcast c cnd
  end.

Definition timed_callers (n : nat) : list (prog world Z) :=
  map (fun i => timed_call (who i) (roles i)) (seq 0 n).

(** ** The protocol *)

(** Where a call is: whether it holds the kernel mutex, how many wake-ups it
    has posted that [waiting] still counts, the value of [waiting] it has read
    under the mutex, and the events it stands for so far. *)
Record cstage := mk_cstage {
  inside : bool;
  posted : nat;
  seen : option Z;
  so_far : list timed_event
}.

Definition outside es : cstage := mk_cstage false 0 None es.
Definition within (x : nat) (n : option Z) es : cstage := mk_cstage true x n es.

Definition holds (st : cstage) : Z := if inside st then 1 else 0.
Definition excess (st : cstage) : Z := Z.of_nat (posted st).

Definition cond_ok w : Prop := exists s, at_ cnd w = Some s /\ c_inited s <> 0 /\ 0 <= sem_val (c_cond s).

(** A broadcaster relies on a count that is not negative. *)
Definition timed_knows (i : nat) st w : Prop :=
  cond_ok w /\ (roles i = Broadcaster -> forall n, seen st = Some n -> 0 <= n).

(** The event [e] posts [k] wake-ups when [waiting] is [n]. *)
Definition grants (e : cond_event) (k : nat) (n : Z) : Prop :=
  e = Notify /\ k = 1%nat /\ 0 < n \/ e = NotifyAll /\ Z.of_nat k = n.

Inductive timed_moves (i : nat) : cstage -> world -> cstage -> world -> Prop :=
| TmElse st w w' s :
    at_ cnd w = Some s -> at_ cnd w' = Some s -> timed_moves i st w st w'
| TmSee w w' s x o es :
    at_ cnd w = Some s -> at_ cnd w' = Some s ->
    timed_moves i (within x o es) w (within x (Some (waiting s)) es) w'
| TmNobody w w' s st :
    at_ cnd w = Some s -> at_ cnd w' = Some s -> waiting s <= 0 -> posted st = 0%nat ->
    timed_so_far (roles i) (so_far st ++ [Plain Notify]) ->
    timed_moves i st w (mk_cstage (inside st) 0 None (so_far st ++ [Plain Notify])) w'
| TmEnter w w' s r x es :
    at_ cnd w = Some s -> (r, x) ∈ mut_lock (task_cur (who i)) WAIT (c_mux s) ->
    at_ cnd w' = Some (set_c_mux x s) ->
    timed_moves i (outside es) w (within 0 None es) w'
| TmExit w w' s o es :
    at_ cnd w = Some s -> at_ cnd w' = Some (set_c_mux (mut_unlock (task_cur (who i)) (c_mux s)) s) ->
    timed_moves i (within 0 o es) w (outside es) w'
| TmRegister w w' s n es :
    at_ cnd w = Some s -> at_ cnd w' = Some (set_waiting (n + 1) s) ->
    timed_so_far (roles i) (es ++ [Plain Register]) ->
    timed_moves i (within 0 (Some n) es) w (within 0 None (es ++ [Plain Register])) w'
| TmLeave w w' s n es :
    at_ cnd w = Some s -> at_ cnd w' = Some (set_waiting (n - 1) s) ->
    timed_so_far (roles i) (es ++ [Leave]) ->
    timed_moves i (within 0 (Some n) es) w (within 0 None (es ++ [Leave])) w'
| TmPost w w' s x e k n es :
    at_ cnd w = Some s -> at_ cnd w' = Some (set_c_cond x s) -> sem_val x = sem_val (c_cond s) + Z.of_nat k ->
    grants e k n -> timed_so_far (roles i) (es ++ [Plain e]) ->
    timed_moves i (within 0 (Some n) es) w (within k (Some n) (es ++ [Plain e])) w'
| TmSettle w w' s k n es :
    at_ cnd w = Some s -> at_ cnd w' = Some (set_waiting (n - Z.of_nat k) s) ->
    timed_moves i (within k (Some n) es) w (within 0 None es) w'
| TmWake w w' s x es :
    at_ cnd w = Some s -> 0 < sem_val (c_cond s) -> sem_val x = sem_val (c_cond s) - 1 ->
    at_ cnd w' = Some (set_c_cond x s) -> timed_so_far (roles i) (es ++ [Plain Wake]) ->
    timed_moves i (outside es) w (outside (es ++ [Plain Wake])) w'.

Definition timed_ends (i : nat) (st : cstage) (r : Z) : Prop :=
  inside st = false /\ posted st = 0%nat /\ timed_result (roles i) (so_far st) r.

(** Blocking and faults are not at issue here. *)
Abbreviation runs := (follows timed_knows timed_moves (fun _ _ _ => True) (fun _ _ => True) timed_ends).

(** *** The actions *)

Lemma runs_act {A} i (a : action world A) (k : A -> prog world Z) st :
  (forall w x w' s, at_ cnd w = Some s -> c_inited s <> 0 -> 0 <= sem_val (c_cond s) -> Done x w' ∈ a w ->
     exists st', timed_moves i st w st' w' /\ runs i (k x) st') ->
  runs i (bind (act a) k) st.
Proof.
  intros H. apply follows_act; [done..|]. intros w x w' [(s & Hs & Hi & Hn) _] Hx. by apply (H w x w' s).
Qed.

(** An action that leaves the condition variable alone. *)
Lemma runs_else {A} i (a : action world A) (k : A -> prog world Z) st :
  (forall w x w', Done x w' ∈ a w -> at_ (S:=pthread_cond_t) cnd w' = at_ cnd w) -> (forall x, runs i (k x) st) ->
  runs i (bind (act a) k) st.
Proof.
  intros Ha Hk. apply runs_act. intros w x w' s Hs _ _ Hx. exists st. split; [|done].
  apply (TmElse _ _ _ _ s); [done|]. by rewrite (Ha w x w' Hx).
Qed.

Lemma runs_read {A} i (f : world -> A) k st : (forall x, runs i (k x) st) -> runs i (bind (get f) k) st.
Proof. apply runs_else. intros w x w' Hx. apply list_elem_of_singleton in Hx. by simplify_eq. Qed.

Lemma runs_calc {A} i (o : option A) k st : (forall x, o = Some x -> runs i (k x) st) -> runs i (bind (lift o) k) st.
Proof.
  intros H. destruct o as [x|]; [by apply H|]. apply follows_act; [done..|].
  intros w x w' _ Hx. by apply list_elem_of_singleton in Hx.
Qed.

Lemma runs_sub i (q : prog world Z) k st :
  framed cnd q -> (forall r, runs i (k r) st) -> runs i (bind q k) st.
Proof.
  intros Hq Hk. induction q as [r|A a k0 IH]; simpl; [done|]. intros w [(s & Hs & _ & _) _].
  split; [done|]. split; [done|]. intros x w' Hx. exists st.
  assert (framed cnd (k0 x) /\ at_ cnd w' = Some s) as [Hf Hs'].
  { assert (Done (k0 x) w' ∈ pstep (Act a k0) w) by (apply list_elem_of_fmap; by exists (Done x w')).
    by eapply framed_step. }
  split; [by apply (TmElse _ _ _ _ s)|by apply IH].
Qed.

Lemma runs_inited i k st : (forall n, n <> 0 -> runs i (k n) st) -> runs i (bind (load (cond_inited cnd)) k) st.
Proof.
  intros Hk. apply runs_act. intros w x w' s Hs Hi _ Hx. simpl in Hx. rewrite Hs in Hx.
  apply list_elem_of_singleton in Hx. simplify_eq. exists st. split; [by apply (TmElse _ _ _ _ s)|by apply Hk].
Qed.

(** Reading [waiting] under the mutex, *)
Lemma runs_see i k x o es :
  (forall n, runs i (k n) (within x (Some n) es)) -> runs i (bind (load (cond_waiting cnd)) k) (within x o es).
Proof.
  intros Hk. apply runs_act. intros w y w' s Hs _ _ Hx. simpl in Hx. rewrite Hs in Hx.
  apply list_elem_of_singleton in Hx. simplify_eq. eexists. split; [by apply (TmSee i w w s)|apply Hk].
Qed.

(** and as a signaller, who is done when nobody waits. *)
Lemma runs_check i k b es :
  timed_so_far (roles i) (es ++ [Plain Notify]) ->
  (forall n, 0 < n -> runs i (k n) (mk_cstage b 0 (if b then Some n else None) es)) ->
  (forall n, n <= 0 -> runs i (k n) (mk_cstage b 0 None (es ++ [Plain Notify]))) ->
  runs i (bind (load (cond_waiting cnd)) k) (mk_cstage b 0 None es).
Proof.
  intros He Hp Hn. apply runs_act. intros w y w' s Hs _ _ Hx. simpl in Hx. rewrite Hs in Hx.
  apply list_elem_of_singleton in Hx. simplify_eq.
  destruct (decide (0 < waiting s)) as [H|H].
  - eexists. split; [|by apply Hp]. destruct b; [by apply (TmSee i w w s)|by apply (TmElse i _ w w s)].
  - eexists. split; [|apply Hn; lia]. by apply (TmNobody i w w s); [..|lia| |].
Qed.

Lemma app_ne_self {A} (l : list A) x : l ++ [x] <> l.
Proof. intros H%(f_equal length). rewrite length_app in H. simpl in H. lia. Qed.

Lemma runs_store i v k x n es es' :
  (v = n + 1 /\ x = 0%nat /\ es' = es ++ [Plain Register] \/ v = n - 1 /\ x = 0%nat /\ es' = es ++ [Leave]
   \/ v = n - Z.of_nat x /\ es' = es) ->
  (es' = es \/ timed_so_far (roles i) es') ->
  runs i (k tt) (within 0 None es') ->
  runs i (bind (store (cond_waiting cnd) v) k) (within x (Some n) es).
Proof.
  intros Hv He Hk. apply runs_act. intros w [] w' s Hs _ _ Hx. simpl in Hx. rewrite Hs in Hx.
  apply list_elem_of_singleton in Hx. simplify_eq. exists (within 0 None es'). split; [|done].
  destruct Hv as [(-> & -> & ->)|[(-> & -> & ->)|(-> & ->)]].
  - apply (TmRegister i w _ s); [done|apply at_put|]. destruct He as [He|He]; [by apply app_ne_self in He|done].
  - apply (TmLeave i w _ s); [done|apply at_put|]. destruct He as [He|He]; [by apply app_ne_self in He|done].
  - apply (TmSettle i w _ s); [done|apply at_put].
Qed.

Lemma runs_enter i k es :
  (forall r, runs i (k r) (within 0 None es)) ->
  runs i (bind (kcall (cond_mux cnd) (mut_lock (task_cur (who i)) WAIT)) k) (outside es).
Proof.
  intros Hk. apply runs_act. intros w x w' s Hs _ _ Hx. simpl in Hx. rewrite Hs in Hx.
  apply list_elem_of_fmap in Hx as ([r y] & Hx & Hin). simplify_eq. eexists. split; [|apply Hk].
  apply (TmEnter i w _ s r y); [done|done|apply at_put].
Qed.

Lemma runs_exit i k o es :
  runs i (k tt) (outside es) ->
  runs i (bind (kmod (cond_mux cnd) (mut_unlock (task_cur (who i)))) k) (within 0 o es).
Proof.
  intros Hk. apply runs_act. intros w [] w' s Hs _ _ Hx. simpl in Hx. rewrite Hs in Hx.
  apply list_elem_of_singleton in Hx. simplify_eq. eexists. split; [|done].
  apply (TmExit i w _ s); [done|apply at_put].
Qed.

Lemma runs_post i k n es :
  0 < n -> timed_so_far (roles i) (es ++ [Plain Notify]) -> runs i (k tt) (within 1 (Some n) (es ++ [Plain Notify])) ->
  runs i (bind (kmod (cond_cond cnd) sem_post) k) (within 0 (Some n) es).
Proof.
  intros Hn He Hk. apply runs_act. intros w [] w' s Hs _ _ Hx. simpl in Hx. rewrite Hs in Hx.
  apply list_elem_of_singleton in Hx. simplify_eq. eexists. split; [|done].
  apply (TmPost i w _ s (sem_post (c_cond s))); [done|apply at_put|by rewrite sem_post_val|by left|done].
Qed.

Lemma runs_post_all i k n es :
  roles i = Broadcaster -> timed_so_far (roles i) (es ++ [Plain NotifyAll]) ->
  (0 <= n -> runs i (k tt) (within (Z.to_nat n) (Some n) (es ++ [Plain NotifyAll]))) ->
  runs i (bind (kmod (cond_cond cnd) (sem_post_n n)) k) (within 0 (Some n) es).
Proof.
  intros Hr He Hk. apply follows_act; [done..|]. intros w [] w' [(s & Hs & _ & _) Hn] Hx.
  specialize (Hn Hr n eq_refl). simpl in Hx. rewrite Hs in Hx.
  apply list_elem_of_singleton in Hx. simplify_eq. eexists. split; [|by apply Hk].
  apply (TmPost i w _ s (sem_post_n n (c_cond s))); [done|apply at_put|rewrite sem_post_n_val by done; lia| |done].
  right. split; [done|lia].
Qed.

Lemma runs_wake i t k es :
  timed_so_far (roles i) (es ++ [Plain Wake]) ->
  runs i (k 0) (outside (es ++ [Plain Wake])) -> (forall r, r <> 0 -> runs i (k r) (outside es)) ->
  runs i (bind (kcall (cond_cond cnd) (sem_get t)) k) (outside es).
Proof.
  intros He H0 Hr. apply runs_act. intros w x w' s Hs _ Hn Hx. simpl in Hx. rewrite Hs in Hx.
  apply list_elem_of_fmap in Hx as ([r y] & Hx & Hin). simplify_eq/=. fold (set_c_cond y s).
  destruct (decide (sem_val (c_cond s) = 0)) as [E|E].
  - destruct (sem_get_empty _ _ _ _ E Hin) as [Hr0 ->]. exists (outside es). split; [|by apply Hr].
    apply (TmElse i _ w _ s); [done|]. rewrite at_put. by destruct s.
  - destruct (sem_get_avail (c_cond s) t ltac:(lia)) as (z & Hz & Hv). rewrite Hz in Hin.
    apply list_elem_of_singleton in Hin. simplify_eq. eexists. split; [|exact H0].
    apply (TmWake i w _ s z); [done|lia|done|apply at_put|done].
Qed.

(** *** The calls follow the protocol *)

Definition timed_role_ok (r : timed_role) : Prop := match r with Waiter mx _ => mx <> cnd | _ => True end.

Ltac assoc :=
  repeat lazymatch goal with |- follows _ _ _ _ _ _ (bind (bind _ _) _) _ => apply follows_assoc end.

(** The registration of a waiter, *)
Lemma runs_register i mx k :
  mx <> cnd -> timed_so_far (roles i) [Plain Register] -> (forall ret, runs i (k ret) (outside [Plain Register])) ->
  runs i (bind (
      kcall (cond_mux cnd) (mut_lock (task_cur (who i)) WAIT) ;;
      let* n := load (cond_waiting cnd) in
      let* n' := lift (sgn 32 (n + 1)) in
      store (cond_waiting cnd) n' ;;
      kmod (cond_mux cnd) (mut_unlock (task_cur (who i))) ;;
      pthread_mutex_unlock (who i) mx) k) (outside []).
Proof.
  intros Hmx He Hk. apply follows_assoc, runs_enter. intros _. apply follows_assoc, runs_see. intros n.
  apply follows_assoc, runs_calc. intros n' [-> _]%sgn_Some.
  apply follows_assoc. eapply runs_store; [by left|by right|]. apply follows_assoc, runs_exit.
  apply runs_sub; [by apply framed_unlock|done].
Qed.

(** its wait at the semaphore, *)
Definition timed_tail (c : caller) (mx t : Z) : prog world Z :=
  let* r := kcall (cond_cond cnd) (sem_get t) in
  if r =? 0 then pthread_mutex_lock c mx
  else
    pthread_mutex_lock c mx ;;
    kcall (cond_mux cnd) (mut_lock (task_cur c) WAIT) ;;
    let* n := load (cond_waiting cnd) in
    let* n' := lift (sgn 32 (n - 1)) in
    store (cond_waiting cnd) n' ;;
    kmod (cond_mux cnd) (mut_unlock (task_cur c)) ;;
    Ret ETIMEDOUT.

Lemma runs_tail i mx a t :
  roles i = Waiter mx a -> mx <> cnd -> runs i (timed_tail (who i) mx t) (outside [Plain Register]).
Proof.
  intros Hr Hmx. apply runs_wake; [rewrite Hr; simpl; auto|..]; cbn [Z.eqb].
  - apply follows_last, runs_sub; [by apply framed_lock|]. intros r. split; [done|]. split; [done|].
    rewrite Hr. right; right; left. done.
  - intros r Hr0. test_false (r =? 0). apply runs_sub; [by apply framed_lock|]. intros _.
    apply runs_enter. intros _. apply runs_see. intros n. apply runs_calc. intros n' [-> _]%sgn_Some.
    eapply runs_store; [right; by left|right; rewrite Hr; simpl; auto|]. apply runs_exit. split; [done|]. split; [done|].
    rewrite Hr. right; right; right. done.
Qed.

(** and the whole call. *)
Lemma runs_waiter i mx a : roles i = Waiter mx a -> mx <> cnd -> runs i (timed_call (who i) (Waiter mx a)) (outside []).
Proof.
  intros Hr Hmx. unfold timed_call, pthread_cond_timedwait. apply runs_inited. intros v Hv. test_false (v =? 0).
  assert (forall t, runs i (let* ret :=
      kcall (cond_mux cnd) (mut_lock (task_cur (who i)) WAIT) ;;
      let* n := load (cond_waiting cnd) in
      let* n' := lift (sgn 32 (n + 1)) in
      store (cond_waiting cnd) n' ;;
      kmod (cond_mux cnd) (mut_unlock (task_cur (who i))) ;;
      pthread_mutex_unlock (who i) mx in
      if ret =? 0 then timed_tail (who i) mx t else Ret ret) (outside [])) as Hwait.
  { intros t. apply runs_register; [done|rewrite Hr; simpl; auto|]. intros ret. destruct (ret =? 0) eqn:E; [by eapply runs_tail|].
    split; [done|]. split; [done|]. rewrite Hr. right; left. bool_lia. done. }
  destruct a as [a|]; [|apply Hwait].
  unfold clock_gettime. assoc. apply runs_read. intros ticks. assoc. apply runs_calc. intros ns _.
  assoc. apply runs_calc. intros now _. cbn [bind Z.eqb negb]. assoc. apply runs_calc. intros [ret x] _. cbn [bind].
  destruct (ret =? 0) eqn:E; [apply Hwait|]. bool_lia. cbn [bind]. test_false (ret =? 0).
  split; [done|]. split; [done|]. rewrite Hr. by left.
Qed.

Lemma runs_signaller i : roles i = Signaller -> runs i (timed_call (who i) Signaller) (outside []).
Proof.
  intros Hr. unfold timed_call, pthread_cond_signal. apply runs_inited. intros v Hv. test_false (v =? 0).
  assert (runs i (Ret 0) (outside [Plain Notify])) as Hdone by (split; [done|]; split; [done|]; by rewrite Hr).
  apply (runs_check i _ false); [rewrite Hr; simpl; auto|..]; intros n Hn; [test_true (0 <? n)|by test_false (0 <? n)].
  apply runs_enter. intros _. apply (runs_check i _ true); [rewrite Hr; simpl; auto|..]; intros m Hm.
  - test_true (0 <? m). apply follows_assoc, (runs_post i _ m); [done|rewrite Hr; simpl; auto|].
    apply follows_assoc, runs_see. intros n1. apply follows_assoc, runs_calc. intros n2 [-> _]%sgn_Some.
    eapply runs_store; [by right; right|by left|]. by apply runs_exit.
  - test_false (0 <? m). cbn [bind]. by apply runs_exit.
Qed.

Lemma runs_broadcaster i : roles i = Broadcaster -> runs i (timed_call (who i) Broadcaster) (outside []).
Proof.
  intros Hr. unfold timed_call, pthread_cond_broadcast. apply runs_inited. intros v Hv. test_false (v =? 0).
  apply runs_enter. intros _. apply runs_see. intros n. apply runs_post_all; [done|rewrite Hr; simpl; auto|]. intros Hn.
  eapply runs_store; [right; right; split; [lia|done]|by left|]. apply runs_exit.
  split; [done|]. split; [done|]. by rewrite Hr.
Qed.

Lemma runs_timed_call i : timed_role_ok (roles i) -> runs i (timed_call (who i) (roles i)) (outside []).
Proof. destruct (roles i) eqn:Hr; intros Hok;
  [by apply runs_waiter|by apply runs_signaller|by apply runs_broadcaster]. Qed.

(** ** Pools of timed waits and signals *)

Implicit Types (st : cstage) (sts : list cstage) (h : timed_history).

(** What a stage knows of the condition variable. *)
Definition stage_ok s st : Prop :=
  (inside st = false -> posted st = 0%nat /\ seen st = None)
  /\ forall n, seen st = Some n -> waiting s = n.

(** A wake-up posted but not yet subtracted from [waiting] is not asleep. *)
Definition timed_spec sts s : cond_spec := mk_spec (waiting s - tally excess sts) (sem_val (c_cond s)).

(** The history [h] explains the stages [sts] in the world [w]. *)
Record timed_explained sts w h : Prop := {
  te_cond : exists s, at_ cnd w = Some s /\ c_inited s <> 0 /\ 0 <= sem_val (c_cond s)
              /\ lock_inv ML who holds sts (c_mux s)
              /\ (forall i st, sts !! i = Some st -> stage_ok s st)
              /\ timed_run h spec_init = Some (timed_spec sts s);
  te_events i : events_of i h = default [] (so_far <$> sts !! i);
  te_roles i st : sts !! i = Some st -> timed_so_far (roles i) (so_far st)
}.

Lemma holds_bit st : holds st = 0 \/ holds st = 1.
Proof. unfold holds. destruct (inside st); auto. Qed.

Lemma excess_bit st : 0 <= excess st.
Proof. unfold excess. lia. Qed.

(** Only the task inside has posted ahead. *)
Lemma excess_alone sts s i st :
  lock_inv ML who holds sts (c_mux s) -> (forall j st', sts !! j = Some st' -> stage_ok s st') ->
  sts !! i = Some st -> inside st = true -> tally excess sts = excess st.
Proof.
  intros HL Hok Hi Hin.
  destruct (lock_alone ML who holds holds_bit sts _ i st HL Hi) as (_ & _ & Hal); [unfold holds; by rewrite Hin|].
  pose proof (tally_insert excess sts i st (outside []) Hi) as Ht.
  rewrite (tally_zero excess (<[i:=outside []]> sts)) in Ht; [change (excess (outside [])) with 0 in Ht; lia|].
  intros q Hq. apply list_elem_of_lookup in Hq as [j Hj]. destruct (decide (i = j)) as [<-|Hne].
  - rewrite list_lookup_insert_eq in Hj by (by eapply lookup_lt_Some). by simplify_eq.
  - rewrite list_lookup_insert_ne in Hj by done. specialize (Hal j q ltac:(lia) Hj). unfold holds in Hal.
    destruct (inside q) eqn:E; [lia|]. unfold excess. by destruct (proj1 (Hok j q Hj) E) as [-> _].
Qed.

Lemma excess_none sts s :
  mut_own (c_mux s) = 0 -> lock_inv ML who holds sts (c_mux s) ->
  (forall j st', sts !! j = Some st' -> stage_ok s st') -> tally excess sts = 0.
Proof.
  intros Hm HL Hok. destruct HL as [[_ Ht]|(i & st & _ & _ & _ & Hh)].
  - apply tally_zero. intros st Hst. apply list_elem_of_lookup in Hst as [j Hj]. unfold excess.
    pose proof (tally_lookup holds sts j st (in_cs_nonneg holds holds_bit) Hj).
    destruct (inside st) eqn:E; [unfold holds at 1 in H; rewrite E in H; lia|].
    by destruct (proj1 (Hok j st Hj) E) as [-> _].
  - apply mut_held_own in Hh. rewrite Hm in Hh. by destruct (who_task i).
Qed.

(** A move of a task, and the events it stands for.  [waiting] is written
    inside the mutex only. *)
Lemma timed_explained_by sts w h i st st' w' s s' es :
  timed_explained sts w h -> sts !! i = Some st -> at_ cnd w = Some s -> at_ cnd w' = Some s' ->
  so_far st' = so_far st ++ es -> timed_so_far (roles i) (so_far st') -> stage_ok s' st' ->
  (waiting s' = waiting s \/ inside st = true) ->
  (lock_inv ML who holds sts (c_mux s) -> lock_inv ML who holds (<[i:=st']> sts) (c_mux s')) ->
  c_inited s' = c_inited s -> 0 <= sem_val (c_cond s') ->
  (0 <= tally excess sts -> (inside st = true -> tally excess sts = excess st) ->
   timed_run (map (pair i) es) (timed_spec sts s)
   = Some (mk_spec (waiting s' - (tally excess sts - excess st + excess st')) (sem_val (c_cond s')))) ->
  timed_explained (<[i:=st']> sts) w' (h ++ map (pair i) es).
Proof.
  intros X Hi Hs Hs' Hso Hse' Hok' Hw HL' Hin Hn Hr.
  destruct (te_cond _ _ _ X) as (s0 & Hs0 & Hi0 & _ & HL & Hok & Hrun). rewrite Hs in Hs0. injection Hs0 as <-.
  split.
  - exists s'. split; [done|]. split; [congruence|]. split; [done|]. split; [by apply HL'|]. split.
    + intros j q Hj. destruct (decide (i = j)) as [<-|Hne].
      { rewrite list_lookup_insert_eq in Hj by (by eapply lookup_lt_Some). by simplify_eq. }
      rewrite list_lookup_insert_ne in Hj by done. pose proof (Hok j q Hj) as Hq.
      destruct Hw as [Hw|Hw]; [unfold stage_ok; by rewrite Hw|].
      destruct (lock_alone ML who holds holds_bit sts _ i st HL Hi) as (_ & _ & Hal); [unfold holds; by rewrite Hw|].
      specialize (Hal j q ltac:(lia) Hj). unfold holds in Hal. destruct (inside q) eqn:E; [lia|].
      destruct (proj1 Hq E) as [Hp Hse]. split; [done|]. intros n. by rewrite Hse.
    + rewrite timed_run_app, Hrun. simpl. rewrite Hr.
      * unfold timed_spec. by rewrite (tally_insert excess sts i st st' Hi).
      * by apply tally_nonneg, excess_bit.
      * by apply (excess_alone sts s i).
  - intros j. rewrite events_of_app, (te_events _ _ _ X j). destruct (decide (i = j)) as [<-|Hne].
    + rewrite list_lookup_insert_eq by (by eapply lookup_lt_Some). rewrite Hi, events_of_self. simpl. by rewrite Hso.
    + by rewrite list_lookup_insert_ne, events_of_other, app_nil_r by done.
  - intros j q. rewrite list_lookup_insert_Some. intros [(<- & <- & _)|[_ Hj]]; [done|]. by apply (te_roles _ _ _ X).
Qed.

(** [moves es s'] applies the lemma to a move that stands for [es] and leaves
    the condition variable [s']; what it leaves open is the lock, where it
    changes hands, and the step of the specification. *)
Ltac moves_to es s' :=
  exists es; split; [simpl; lia|];
  eapply (timed_explained_by _ _ _ _ _ _ _ _ s' es); try done;
  try (by rewrite app_nil_r); try assumption; try (by left); try (by right); try (by intros; eapply lock_keep);
  try (split; [done|]; by intros ? [=]).

Lemma timed_explained_move sts w h i st st' w' :
  timed_explained sts w h -> sts !! i = Some st -> timed_moves i st w st' w' ->
  exists es, (length es <= 1)%nat /\ timed_explained (<[i:=st']> sts) w' (h ++ map (pair i) es).
Proof.
  intros X Hi Hmv. destruct (te_cond _ _ _ X) as (s & Hs & _ & Hn & _ & Hok & _).
  pose proof (Hok i st Hi) as Hst. pose proof (te_roles _ _ _ X i st Hi) as Hro.
  inversion Hmv; subst; match goal with H : at_ cnd w = Some ?s0 |- _ => rewrite Hs in H; injection H as <- end.
  - moves_to (@nil timed_event) s. intros _ _. simpl. unfold timed_spec. do 2 f_equal. lia.
  - moves_to (@nil timed_event) s.
    intros _ _. simpl. unfold timed_spec, excess. simpl. do 2 f_equal. lia.
  - moves_to [Plain Notify] s. intros Hx _. simpl. test_false (0 <? waiting s - tally excess sts).
    unfold timed_spec, excess. match goal with H : posted st = 0%nat |- _ => rewrite H end.
    simpl. do 2 f_equal. lia.
  - moves_to (@nil timed_event) (set_c_mux x s).
    + intros HL. by eapply (lock_acquire ML who holds who_task who_inj holds_bit).
    + intros _ _. simpl. unfold timed_spec, excess. simpl. do 2 f_equal. lia.
  - moves_to (@nil timed_event) (set_c_mux (mut_unlock (task_cur (who i)) (c_mux s)) s).
    + intros HL. by eapply (lock_release ML who holds holds_bit).
    + intros _ _. simpl. unfold timed_spec, excess. simpl. do 2 f_equal. lia.
  - rewrite <- (proj2 Hst n eq_refl) in *. moves_to [Plain Register] (set_waiting (waiting s + 1) s).
    intros _ _. unfold timed_spec, excess. simpl. do 2 f_equal. lia.
  - rewrite <- (proj2 Hst n eq_refl) in *. moves_to [Leave] (set_waiting (waiting s - 1) s).
    intros _ _. unfold timed_spec, excess. simpl. do 2 f_equal. lia.
  - rewrite <- (proj2 Hst n eq_refl) in *. match goal with H : grants ?e ?k _ |- _ => rename H into Hg end.
    moves_to [Plain e] (set_c_cond x s).
    + simpl. lia.
    + intros _ Hx. specialize (Hx eq_refl). unfold timed_spec. simpl. rewrite Hx. unfold excess. cbn [posted within].
      change (Z.of_nat 0) with 0.
      destruct Hg as [(-> & -> & Hlt)|[-> Hk]]; simpl; [test_true (0 <? waiting s - 0)|]; do 2 f_equal; lia.
  - rewrite <- (proj2 Hst n eq_refl) in *. moves_to (@nil timed_event) (set_waiting (waiting s - Z.of_nat k) s).
    intros _ Hx. simpl. unfold timed_spec, excess. simpl. do 2 f_equal. lia.
  - moves_to [Plain Wake] (set_c_cond x s); [simpl; lia|].
    intros _ _. unfold timed_spec, excess. simpl. test_true (0 <? sem_val (c_cond s)). simpl. do 2 f_equal; lia.
Qed.

(** A broadcast is inside the condition variable while [waiting] is
    negative. *)
Definition broadcast_overdrawn (c : pool world Z) : Prop :=
  exists i s, is_Some (c.1 !! i) /\ roles i = Broadcaster /\ at_ cnd c.2 = Some s
    /\ mut_own (c_mux s) = task_cur (who i) /\ waiting s < 0.

(** The pool [c] is where the history [h] leads. *)
Definition timed_explained_pool (c : pool world Z) h : Prop :=
  exists sts, staged timed_knows timed_moves (fun _ _ _ => True) (fun _ _ => True) timed_ends c.1 sts
    /\ timed_explained sts c.2 h.

Lemma timed_explained_start n w s :
  at_ cnd w = Some s -> fresh_cond s -> (forall i, (i < n)%nat -> timed_role_ok (roles i)) ->
  timed_explained_pool (timed_callers n, w) [].
Proof.
  intros Hs (Hi & Hm & Hc & Hw) Hok. exists (replicate n (outside [])). cbn [fst snd]. split.
  - unfold timed_callers. split; [by rewrite length_map, length_seq, length_replicate|].
    intros i p st Hp Hst. apply lookup_replicate in Hst as [-> _].
    apply list_lookup_fmap_Some in Hp as (j & -> & Hj). apply lookup_seq in Hj as [-> Hlt].
    by apply runs_timed_call, Hok.
  - split.
    + exists s. split; [done|]. split; [done|]. split; [lia|]. split; [|split].
      * left. split; [done|]. by rewrite tally_replicate, Z.mul_0_r.
      * intros i st Hst. apply lookup_replicate in Hst as [-> _]. by split.
      * simpl. unfold timed_spec, spec_init. rewrite tally_replicate, Hw, Hc. do 2 f_equal. change (excess (outside [])) with 0. lia.
    + intros i. destruct (replicate n (outside []) !! i) as [st|] eqn:Hst; [|done].
      by apply lookup_replicate in Hst as [-> _].
    + intros i st Hst. apply lookup_replicate in Hst as [-> _]. destruct (roles i); simpl; auto.
Qed.

(** A task that does not know what it relies on is a broadcaster about to
    post a negative count. *)
Lemma timed_knows_dec ts sts w h i st :
  timed_explained sts w h -> length ts = length sts -> sts !! i = Some st ->
  timed_knows i st w \/ broadcast_overdrawn (ts, w).
Proof.
  intros X Hl Hi. destruct (te_cond _ _ _ X) as (s & Hs & Hin & Hn & HL & Hok & Hrun).
  assert (cond_ok w) as Hc by (by exists s).
  destruct (roles i) eqn:Hr; [left; split; [done|by rewrite Hr]..|].
  destruct (seen st) as [n|] eqn:Hsee; [|left; split; [done|by rewrite Hsee]].
  destruct (decide (0 <= n)); [left; split; [done|by rewrite Hsee; intros _ ? [= <-]]|right].
  pose proof (Hok i st Hi) as [Hout Hw]. exists i, s. split.
  { apply lookup_lt_is_Some_2. simpl. rewrite Hl. by eapply lookup_lt_Some. }
  split; [done|]. split; [done|]. rewrite (Hw n Hsee). split; [|lia].
  destruct (lock_alone ML who holds holds_bit sts _ i st HL Hi) as (_ & Hh & _); [|by apply mut_held_own].
  unfold holds. destruct (inside st); [done|]. destruct (Hout eq_refl). congruence.
Qed.

Lemma timed_explained_next c h c' :
  timed_explained_pool c h -> clocked_step c c' ->
  broadcast_overdrawn c \/ exists h', (length h' <= 1)%nat /\ timed_explained_pool c' (h ++ h').
Proof.
  intros (sts & Hst & X) Hstep.
  destruct Hstep as [[ts w] c' Hstep|ts w k _ _].
  2: { right. exists []. split; [simpl; lia|]. exists sts. rewrite app_nil_r. split; [done|]. by split; apply X. }
  destruct (staged_pick _ _ _ _ _ ts sts w c' Hst Hstep) as (i & _ & st & _ & Hi & Hm).
  destruct (timed_knows_dec ts sts w h i st X (proj1 Hst) Hi) as [Hk|Ho]; [right|by left].
  destruct (Hm Hk) as (st' & Hmv & Hst').
  destruct (timed_explained_move sts w h i st st' c'.2 X Hi Hmv) as (es & Hl & X').
  exists (map (pair i) es). split; [by rewrite length_map|]. by exists (<[i:=st']> sts).
Qed.

(** What the callers can see of it: while nobody is inside the condition
    variable, [waiting] and the tokens of the semaphore are the
    specification's; the threads that are waiting and the wake-ups are
    accounted for; every event belongs to a call of the pool that can have
    such an event next; and the calls that have returned have had the effect
    that their results announce. *)
Record timed_agrees (c : pool world Z) h s (sp : cond_spec) : Prop := {
  tm_there : at_ cnd c.2 = Some s;
  tm_run : timed_run h spec_init = Some sp;
  tm_tokens : sem_val (c_cond s) = granted sp;
  tm_waiting : mut_own (c_mux s) = 0 -> waiting s = asleep sp;
  tm_account : asleep sp + granted sp = tally (fun x => waiting_weight x.2) h;
  tm_called i : if decide (i < length c.1)%nat then timed_so_far (roles i) (events_of i h) else events_of i h = [];
  tm_returned i r : c.1 !! i = Some (Ret r) -> timed_result (roles i) (events_of i h) r
}.

Lemma timed_explained_agrees c h : timed_explained_pool c h -> exists s sp, timed_agrees c h s sp.
Proof.
  intros (sts & Hst & X). destruct (te_cond _ _ _ X) as (s & Hs & _ & _ & HL & Hok & Hr).
  exists s, (timed_spec sts s). split; [done..| | | |].
  - intros Hm. simpl. rewrite (excess_none sts s Hm HL Hok). lia.
  - rewrite (timed_account _ _ _ Hr). simpl. lia.
  - intros i. rewrite (te_events _ _ _ X i), (proj1 Hst). case_decide as Hi.
    + destruct (lookup_lt_is_Some_2 _ _ Hi) as [st Hsti]. rewrite Hsti. by apply (te_roles _ _ _ X).
    + by rewrite lookup_ge_None_2 by lia.
  - intros i r Hi. destruct (staged_lookup _ _ _ _ _ _ _ i _ Hst Hi) as (st & Hsti & _ & _ & He).
    by rewrite (te_events _ _ _ X i), Hsti.
Qed.

(** C4: Timed waits, waits, signals and broadcasts refine the condition
    variable's specification in every interleaving, while time passes,
    although a signal and a time-out may count the same thread off: every
    action of the pool is at most one event of the history, each event is one
    that the call which has it may have next (a waiter registers and then
    wakes or leaves, a signal notifies once, a broadcast once), the history is
    a run of the specification, in which a thread that times out leaves and
    the number of sleeping threads may fall below zero, and [waiting] and the
    semaphore hold the specification's counters.  So each sleeper counted too
    few is a wake-up left over, and a call that times out has left without a
    wake-up.  Only the actions taken while a broadcast owns the condition
    variable's mutex and [waiting] is negative are excepted (it is about to
    post a negative number of wake-ups, posix_pthread_cond.c:63); without
    broadcasts, or while the count is not negative, it always holds. *)
Theorem cond_timed_refines n w s :
  at_ cnd w = Some s -> fresh_cond s -> (forall i, (i < n)%nat -> timed_role_ok (roles i)) ->
  exists R : pool world Z -> timed_history -> Prop,
    R (timed_callers n, w) []
    /\ (forall c h c', R c h -> clocked_step c c' ->
         broadcast_overdrawn c \/ exists h', (length h' <= 1)%nat /\ R c' (h ++ h'))
    /\ (forall c h, R c h -> exists s' sp, timed_agrees c h s' sp).
Proof.
  intros Hs Hf Hok. exists timed_explained_pool. split; [by apply timed_explained_start with s|].
  split; [intros c h c'; apply timed_explained_next|intros c h; apply timed_explained_agrees].
Qed.
End timed.

(** ** Witness *)

Section timed_witness.
Import Sim.

(** A waiter with a deadline, one without, a broadcaster and signallers. *)
Definition timed_roles (i : nat) : timed_role :=
  match i with
  | 0%nat => Waiter 128 (Some (mk_timespec 2 0))
  | 1%nat => Waiter 128 None
  | 2%nat => Broadcaster
  | _ => Signaller
  end.

Lemma cond_timed_refines_witness :
  exists R : pool (@world sim_kernel) Z -> timed_history -> Prop,
    R (timed_callers sim_who 64 timed_roles 4, cond_world 0 0) []
    /\ (forall c h c', R c h -> clocked_step c c' ->
         broadcast_overdrawn sim_who 64 timed_roles c \/ exists h', (length h' <= 1)%nat /\ R c' (h ++ h'))
    /\ (forall c h, R c h -> exists s' sp, timed_agrees 64 timed_roles c h s' sp).
Proof.
  apply (cond_timed_refines sim_mut_laws sim_sem_laws sim_who 64 timed_roles sim_who_task sim_who_inj
    4 (cond_world 0 0) (sim_cond 0 0)).
  - reflexivity.
  - vm_compute; intuition congruence.
  - by intros [|[|[|i]]] _.
Defined.
End timed_witness.
