(* ===== verification/Monitor.v ===== *)
(** Monitors: data under a POSIX mutex, with condition variables.  Each task
    locks the mutex, works on the data, possibly waits on condition variables
    of the monitor, with or without deadlines, signals and broadcasts, and
    unlocks.  The file proves the rule by which such code is verified: if
    each critical section, taken alone, keeps an invariant [J] of the data
    from one wait to the next, then [J] holds whenever the mutex is free, the
    assertions of the sections hold, and nothing is undefined, for any number
    of tasks and any interleaving of the code of [posix_pthread_mutex.c] and
    [posix_pthread_cond.c].  As in [MutexPool], the uninitialised timeout of
    [pthread_mutex_lock] is taken to hold [WAIT]. *)
From S2P Require Import Prelude Prog Protocol Kernel World Lock SimKernel Timespec Clock Attr Mutex Cond.

(** ** Critical sections *)

Inductive critical_section `{K : Kernel} :=
| Does (b : prog world Z) (k : Z -> critical_section)      (** work on the data *)
| Awaits (cv : Z) (abstime : option timespec) (k : Z -> critical_section)
| Notifies (cv : Z) (k : Z -> critical_section)            (** [pthread_cond_signal] *)
| NotifiesAll (cv : Z) (k : Z -> critical_section)         (** [pthread_cond_broadcast] *)
| Leaves (r : Z).                                          (** unlock and return [r] *)

Section monitor.
Context `{P : Platform} `{K : Kernel} (ML : MutLaws P K).
Context (who : nat -> caller) (mtx : Z) (cvs : list Z) (secs : nat -> critical_section).
Hypothesis who_task : forall i, task_cur (who i) <> 0.
Hypothesis who_inj : forall i j, task_cur (who i) = task_cur (who j) -> i = j.
Implicit Types (w : world) (m : pthread_mutex_t) (s : pthread_cond_t).

Fixpoint section_code (c : caller) (cs : critical_section) : prog world Z :=
  match cs with
  | Does b k => let* x := b in section_code c (k x)
  | Awaits cv abstime k => let* r := pthread_cond_timedwait c cv mtx abstime in section_code c (k r)
  | Notifies cv k => let* r := pthread_cond_signal c cv in section_code c (k r)
  | NotifiesAll cv k => let* r := pthread_cond_broadcast c cv in section_code c (k r)
  | Leaves r => pthread_mutex_unlock c mtx ;; Ret r
  end.

Definition monitor_code (c : caller) (cs : critical_section) : prog world Z :=
  let* r := pthread_mutex_lock c mtx in
  if r =? 0 then section_code c cs else Ret r.

Definition monitor_tasks (n : nat) : list (prog world Z) :=
  map (fun i => monitor_code (who i) (secs i)) (seq 0 n).

(** ** Verification of a section by itself *)

(** The data are what [view] shows of the world: not the mutex, nor the
    condition variables. *)
Context {V : Type} (view : world -> V).
Hypothesis view_mutex : forall w m m', at_ mtx w = Some m -> view (put mtx m' w) = view w.
Hypothesis view_cond : forall w cv s s', cv ∈ cvs -> at_ cv w = Some s -> view (put cv s' w) = view w.
Hypothesis view_ticks : forall w n, view (with_ticks n w) = view w.

(** What the mutex protects, and what the result of a task may be. *)
Context (J : V -> Prop) (post : nat -> Z -> Prop).

Definition conds_ok w : Prop := forall cv, cv ∈ cvs -> exists s, at_ cv w = Some s /\ c_inited s <> 0.

Definition monitor_ok w : Prop :=
  garbage w = WAIT /\ (exists m, at_ mtx w = Some m /\ m_inited m <> 0) /\ conds_ok w.

(** The monitor itself is left alone. *)
Definition calm w w' : Prop :=
  garbage w' = garbage w /\ at_ (S:=pthread_mutex_t) mtx w' = at_ mtx w /\ conds_ok w'.

(** Work on the data that starts from [v] neither faults nor touches the
    monitor, and ends as [Q] says. *)
Fixpoint works (v : V) (b : prog world Z) (Q : Z -> V -> Prop) : Prop :=
  match b with
  | Ret x => Q x v
  | Act a k => forall w, monitor_ok w -> view w = v ->
      (forall e, ~ Fault e ∈ a w)
      /\ forall x w', Done x w' ∈ a w -> calm w w' /\ works (view w') (k x) Q
  end.

(** The section that starts from [v] gives the invariant up in order, at its
    waits and at its end, and relies on no more than the invariant after a
    wait. *)
Fixpoint verified (i : nat) (v : V) (cs : critical_section) : Prop :=
  match cs with
  | Does b k => works v b (fun x v' => verified i v' (k x))
  | Awaits cv _ k => cv ∈ cvs /\ J v /\ forall r v', J v' -> verified i v' (k r)
  | Notifies cv k | NotifiesAll cv k => cv ∈ cvs /\ verified i v (k 0)
  | Leaves r => J v /\ post i r
  end.

(** ** The protocol of a task *)

Inductive place := Out | In (v : V).

Definition is_in (st : place) : Z := match st with Out => 0 | In _ => 1 end.

Definition monitor_knows (i : nat) (st : place) w : Prop :=
  monitor_ok w /\ exists m, at_ mtx w = Some m
    /\ match st with
       | Out => mut_own (m_mux m) <> task_cur (who i) /\ (mut_own (m_mux m) = 0 -> J (view w))
       | In v => mut_own (m_mux m) = task_cur (who i) /\ view w = v
       end.

Inductive monitor_moves (i : nat) : place -> world -> place -> world -> Prop :=
| MnElse st w w' : calm w w' -> view w' = view w -> monitor_moves i st w st w'
| MnWork v w w' : calm w w' -> monitor_moves i (In v) w (In (view w')) w'
| MnEnter w w' m r x :
    garbage w' = garbage w -> conds_ok w' -> view w' = view w -> at_ mtx w = Some m ->
    (r, x) ∈ mut_lock (task_cur (who i)) WAIT (m_mux m) -> at_ mtx w' = Some (with_mux x m) ->
    monitor_moves i Out w (In (view w)) w'
| MnLeave v w w' m :
    garbage w' = garbage w -> conds_ok w' -> view w' = view w -> at_ mtx w = Some m -> J v ->
    at_ mtx w' = Some (with_mux (mut_unlock (task_cur (who i)) (m_mux m)) m) ->
    monitor_moves i (In v) w Out w'.

Definition monitor_ends (i : nat) (st : place) (r : Z) : Prop := st = Out /\ post i r.

(** Only the arithmetic on deadlines and on [waiting] may overflow. *)
Abbreviation runs := (follows monitor_knows monitor_moves (fun _ _ _ => True) (fun _ e => e = SignedOverflow) monitor_ends).

(** *** The actions *)

Lemma elsewhere cv w m s : at_ mtx w = Some m -> at_ cv w = Some s -> mtx <> cv.
Proof. intros Hm Hs ->. unfold at_ in *. by destruct (mem w !! cv) as [[]|]. Qed.

Lemma calm_same w : monitor_ok w -> calm w w.
Proof. by intros (_ & _ & H). Qed.

(** Writing to a condition variable. *)
Lemma calm_cond w cv s s' :
  monitor_ok w -> cv ∈ cvs -> at_ cv w = Some s -> c_inited s' = c_inited s ->
  calm w (put cv s' w) /\ view (put cv s' w) = view w.
Proof.
  intros (_ & (m & Hm & _) & Hc) Hcv Hs Hi. pose proof (elsewhere cv w m s Hm Hs) as Hne.
  split; [|by eapply view_cond]. split; [done|]. split; [by rewrite at_put_ne|].
  intros cv' Hcv'. destruct (decide (cv' = cv)) as [->|Hne'].
  - exists s'. split; [apply at_put|]. destruct (Hc cv Hcv) as (s1 & Hs1 & Hi1). congruence.
  - rewrite at_put_ne by done. by apply Hc.
Qed.

Lemma runs_calm {A} i (a : action world A) (k : A -> prog world Z) st :
  (forall w e, monitor_knows i st w -> Fault e ∈ a w -> e = SignedOverflow) ->
  (forall w x w', monitor_knows i st w -> Done x w' ∈ a w ->
     calm w w' /\ view w' = view w /\ runs i (k x) st) ->
  runs i (bind (act a) k) st.
Proof.
  intros Hf Hd. apply follows_act; [done|done|]. intros w x w' Hw Hx.
  destruct (Hd w x w' Hw Hx) as (Hc & Hv & Hk). exists st. split; [by apply MnElse|done].
Qed.

Lemma runs_any_get {A} i (f : world -> A) k st : (forall x, runs i (k x) st) -> runs i (bind (get f) k) st.
Proof.
  intros Hk. apply runs_calm; intros w x; [by intros _ ?%list_elem_of_singleton|].
  intros w' [Hok _] Hx. apply list_elem_of_singleton in Hx. simplify_eq.
  split; [by apply calm_same|]. auto.
Qed.

Lemma runs_any_lift {A} i (o : option A) k st : (forall x, runs i (k x) st) -> runs i (bind (lift o) k) st.
Proof.
  intros Hk. destruct o as [x|]; [apply Hk|]. apply runs_calm; intros w x.
  - intros _ He. apply list_elem_of_singleton in He. congruence.
  - by intros w' _ ?%list_elem_of_singleton.
Qed.

Lemma runs_get_garbage i k st : runs i (k WAIT) st -> runs i (bind (get garbage) k) st.
Proof.
  intros Hk. apply runs_calm; intros w x; [by intros _ ?%list_elem_of_singleton|].
  intros w' [Hok _] Hx. apply list_elem_of_singleton in Hx. simplify_eq.
  split; [by apply calm_same|]. split; [done|]. by rewrite (proj1 Hok).
Qed.

(** Fields of the condition variables. *)
Section cond_field.
Context {T : Type} (i : nat) (st : place) (cv : Z) (g : pthread_cond_t -> T) (set : T -> pthread_cond_t -> pthread_cond_t).
Hypothesis cv_ours : cv ∈ cvs.
Hypothesis set_inited : forall v s, c_inited (set v s) = c_inited s.

Lemma runs_cond_load k :
  (forall s, c_inited s <> 0 -> runs i (k (g s)) st) -> runs i (bind (load (fld cv g set)) k) st.
Proof.
  intros Hk. apply runs_calm; intros w x; simpl.
  - intros [(_ & _ & Hc) _]. destruct (Hc cv cv_ours) as (s & -> & _). by intros ?%list_elem_of_singleton.
  - intros w' [Hok _] Hx. destruct (proj2 (proj2 Hok) cv cv_ours) as (s & Hs & Hi). rewrite Hs in Hx.
    apply list_elem_of_singleton in Hx. simplify_eq. split; [by apply calm_same|]. auto.
Qed.

Lemma runs_cond_call {A} (f : T -> list (A * T)) (k : A -> prog world Z) :
  (forall x, runs i (k x) st) -> runs i (bind (kcall (fld cv g set) f) k) st.
Proof.
  intros Hk. apply runs_calm; intros w x; simpl.
  - intros [(_ & _ & Hc) _]. destruct (Hc cv cv_ours) as (s & -> & _). by intros (y & ? & _)%list_elem_of_fmap.
  - intros w' [Hok _] Hx. destruct (proj2 (proj2 Hok) cv cv_ours) as (s & Hs & _). rewrite Hs in Hx.
    apply list_elem_of_fmap in Hx as ([y z] & Hx & _). simplify_eq/=.
    destruct (calm_cond w cv s (set z s) Hok cv_ours Hs (set_inited z s)). auto.
Qed.

Lemma runs_cond_store v k : runs i (k tt) st -> runs i (bind (store (fld cv g set) v) k) st.
Proof.
  intros Hk. apply runs_calm; intros w x; simpl.
  - intros [(_ & _ & Hc) _]. destruct (Hc cv cv_ours) as (s & -> & _). by intros ?%list_elem_of_singleton.
  - intros w' [Hok _] Hx. destruct (proj2 (proj2 Hok) cv cv_ours) as (s & Hs & _). rewrite Hs in Hx.
    apply list_elem_of_singleton in Hx. simplify_eq/=.
    destruct (calm_cond w cv s (set v s) Hok cv_ours Hs (set_inited v s)). auto.
Qed.
End cond_field.

Lemma runs_mutex_load {T} i st (g : pthread_mutex_t -> T) set k :
  (forall w m, monitor_knows i st w -> at_ mtx w = Some m -> runs i (k (g m)) st) ->
  runs i (bind (load (fld mtx g set)) k) st.
Proof.
  intros Hk. apply runs_calm; intros w x; simpl.
  - intros [_ (m & -> & _)]. by intros ?%list_elem_of_singleton.
  - intros w' Hw Hx. destruct (proj2 Hw) as (m & Hm & _). rewrite Hm in Hx.
    apply list_elem_of_singleton in Hx. simplify_eq. split; [by apply calm_same, Hw|]. eauto.
Qed.

(** Where a task is tells who owns the mutex. *)
Lemma knows_mutex i st w m :
  monitor_knows i st w -> at_ mtx w = Some m ->
  m_inited m <> 0 /\ match st with
                     | Out => mut_own (m_mux m) <> task_cur (who i)
                     | In _ => mut_own (m_mux m) = task_cur (who i)
                     end.
Proof.
  intros ((_ & (m1 & Hm1 & Hi) & _) & m2 & Hm2 & H) Hm. rewrite Hm in Hm1, Hm2. simplify_eq.
  split; [done|]. by destruct st; destruct H.
Qed.

Ltac assoc :=
  repeat lazymatch goal with |- follows _ _ _ _ _ _ (bind (bind _ _) _) _ => apply follows_assoc end.

(** The kernel call of the lock: whoever gets the mutex finds the invariant. *)
Lemma runs_mut_lock i k :
  (forall r v, J v -> runs i (k r) (In v)) ->
  runs i (bind (kcall (mutex_mux mtx) (mut_lock (task_cur (who i)) WAIT)) k) Out.
Proof.
  intros Hk. apply follows_act; [done| |]; simpl.
  - intros w e (_ & m & -> & _). by intros (y & ? & _)%list_elem_of_fmap.
  - intros w r w' ((Hg & _ & Hc) & m & Hm & Hown & HJ) Hx. rewrite Hm in Hx.
    apply list_elem_of_fmap in Hx as ([v x] & Hx & Hin). simplify_eq/=. fold (with_mux x m).
    destruct (decide (mut_own (m_mux m) = 0)) as [H0|H0].
    + exists (In (view w)). split; [|by apply Hk, HJ]. apply (MnEnter i w _ m v x); try done.
      * intros cv Hcv. destruct (Hc cv Hcv) as (s & Hs & Hi). exists s. split; [|done].
        rewrite at_put_ne; [done|]. pose proof (elsewhere cv w m s Hm Hs). congruence.
      * by eapply view_mutex.
      * apply at_put.
    + rewrite mut_lock_wait in Hin by done. by apply not_elem_of_nil in Hin.
Qed.

Lemma runs_mut_unlock i v k :
  J v -> runs i (k tt) Out ->
  runs i (bind (kmod (mutex_mux mtx) (mut_unlock (task_cur (who i)))) k) (In v).
Proof.
  intros HJ Hk. apply follows_act; [done| |]; simpl.
  - intros w e (_ & m & -> & _). by intros ?%list_elem_of_singleton.
  - intros w r w' ((Hg & _ & Hc) & m & Hm & Hown & Hv) Hx. rewrite Hm in Hx.
    apply list_elem_of_singleton in Hx. simplify_eq/=. fold (with_mux (mut_unlock (task_cur (who i)) (m_mux m)) m).
    exists Out. split; [|done]. apply (MnLeave i (view w) w _ m); try done.
    + intros cv Hcv. destruct (Hc cv Hcv) as (s & Hs & Hi). exists s. split; [|done].
      rewrite at_put_ne; [done|]. pose proof (elsewhere cv w m s Hm Hs). congruence.
    + by eapply view_mutex.
    + apply at_put.
Qed.

(** ** The calls *)

Lemma runs_lock_call i k :
  (forall v, J v -> runs i (k 0) (In v)) -> runs i (bind (pthread_mutex_lock (who i) mtx) k) Out.
Proof.
  intros Hk. unfold pthread_mutex_lock, pthread_mutex_timedlock. assoc.
  apply runs_mutex_load. intros w m Hw Hm. destruct (knows_mutex i _ w m Hw Hm) as [Hi _].
  test_false (m_inited m =? 0). assoc. apply runs_get_garbage. cbn [bind Z.eqb]. assoc.
  apply runs_mutex_load. intros w1 m1 _ _.
  assert (forall r, r = 0 -> runs i (bind (if r =? 0 then
      kcall (mutex_mux mtx) (mut_lock (task_cur (who i)) WAIT) ;; Ret r else Ret r) k) Out) as Hlock.
  { intros r ->. cbn [Z.eqb]. assoc. apply runs_mut_lock. intros _ v HJ. by apply Hk. }
  destruct (type (m_attr m1) =? PTHREAD_MUTEX_ERRORCHECK); [|by apply Hlock].
  assoc. apply runs_mutex_load. intros w2 m2 Hw2 Hm2. destruct (knows_mutex i _ w2 m2 Hw2 Hm2) as [_ Hown].
  test_false (mut_own (m_mux m2) =? task_cur (who i)). by apply Hlock.
Qed.

Lemma runs_unlock_call i v k :
  J v -> runs i (k 0) Out -> runs i (bind (pthread_mutex_unlock (who i) mtx) k) (In v).
Proof.
  intros HJ Hk. unfold pthread_mutex_unlock. assoc.
  apply runs_mutex_load. intros w m Hw Hm. destruct (knows_mutex i _ w m Hw Hm) as [Hi _].
  test_false (m_inited m =? 0). assoc. apply runs_mutex_load. intros w1 m1 _ _.
  assert (forall r, r = 0 -> runs i (bind (if r =? 0 then
      kmod (mutex_mux mtx) (mut_unlock (task_cur (who i))) ;; Ret r else Ret r) k) (In v)) as Hunlock.
  { intros r ->. cbn [Z.eqb]. assoc. by apply runs_mut_unlock. }
  destruct ((type (m_attr m1) =? PTHREAD_MUTEX_ERRORCHECK) || (type (m_attr m1) =? PTHREAD_MUTEX_RECURSIVE));
    [|by apply Hunlock].
  assoc. apply runs_mutex_load. intros w2 m2 Hw2 Hm2. destruct (knows_mutex i _ w2 m2 Hw2 Hm2) as [_ Hown].
  rewrite Hown, Z.eqb_refl. by apply Hunlock.
Qed.

(** Walking through the code of a condition variable. *)
Ltac cond_step :=
  lazymatch goal with
  | |- follows _ _ _ _ _ _ (bind (bind _ _) _) _ => apply follows_assoc
  | |- follows _ _ _ _ _ _ (bind (Ret _) _) _ => cbn [bind]
  | |- follows _ _ _ _ _ _ (bind (load (fld _ _ _)) _) _ => apply runs_cond_load; [done|intros]
  | |- follows _ _ _ _ _ _ (bind (kcall (fld _ _ _) _) _) _ => apply runs_cond_call; [done|done|intros]
  | |- follows _ _ _ _ _ _ (bind (store (fld _ _ _) _) _) _ => apply runs_cond_store; [done|done|]
  | |- follows _ _ _ _ _ _ (bind (lift _) _) _ => apply runs_any_lift; intros
  | |- follows _ _ _ _ _ _ (bind (get _) _) _ => apply runs_any_get; intros
  end.

Ltac conds := unfold kmod, cond_inited, cond_mux, cond_cond, cond_waiting; repeat cond_step.

Lemma runs_signal_call i cv st k :
  cv ∈ cvs -> runs i (k 0) st -> runs i (bind (pthread_cond_signal (who i) cv) k) st.
Proof.
  intros Hcv Hk. unfold pthread_cond_signal. conds. test_false (c_inited s =? 0). conds.
  destruct (0 <? waiting _); [|done]. conds. destruct (0 <? waiting _); by conds.
Qed.

Lemma runs_broadcast_call i cv st k :
  cv ∈ cvs -> runs i (k 0) st -> runs i (bind (pthread_cond_broadcast (who i) cv) k) st.
Proof. intros Hcv Hk. unfold pthread_cond_broadcast. conds. test_false (c_inited s =? 0). by conds. Qed.

(** A wait gives the mutex up and comes back with it, whatever it returns. *)
Lemma runs_wait_call i cv abstime v k :
  cv ∈ cvs -> J v -> (forall r v', J v' -> runs i (k r) (In v')) ->
  runs i (bind (pthread_cond_timedwait (who i) cv mtx abstime) k) (In v).
Proof.
  intros Hcv HJ Hk. unfold pthread_cond_timedwait. conds. test_false (c_inited s =? 0).
  destruct abstime as [a|]; conds.
  1: unfold clock_gettime; conds; cbn [Z.eqb negb]; conds.
  1: match goal with |- context [bind (let '(_, _) := ?y in _)] => destruct y as [ret t] end; conds.
  1: destruct (ret =? 0) eqn:E; conds; [clear E|rewrite E; by apply Hk].
  2: cbn [Z.eqb]; conds.
  all: apply runs_unlock_call; [done|]; cbn [Z.eqb]; conds.
  all: destruct (_ =? 0); assoc; apply runs_lock_call; intros v' HJ'; [by apply Hk|conds; by apply Hk].
Qed.

(** ** A verified section follows the protocol *)

Lemma runs_works i v b k :
  works v b (fun x v' => runs i (k x) (In v')) -> runs i (bind b k) (In v).
Proof.
  revert v. induction b as [x|A a c IH]; intros v; simpl; [done|]. intros Hw w [Hok (m & _ & _ & Hv)].
  destruct (Hw w Hok Hv) as [Hno Hx]. split; [done|]. split; [by intros e ?%Hno|].
  intros x w' Hin. destruct (Hx x w' Hin) as [Hc Hk]. exists (In (view w')).
  split; [by apply MnWork|by apply IH].
Qed.

Lemma works_weaken v b (Q Q' : Z -> V -> Prop) :
  (forall x v', Q x v' -> Q' x v') -> works v b Q -> works v b Q'.
Proof.
  intros HQ. revert v. induction b as [x|A a c IH]; intros v; simpl; [apply HQ|].
  intros Hw w Hok Hv. destruct (Hw w Hok Hv) as [Hno Hx]. split; [done|].
  intros x w' Hin. destruct (Hx x w' Hin). split; [done|by apply IH].
Qed.

Lemma runs_section i v cs : verified i v cs -> runs i (section_code (who i) cs) (In v).
Proof.
  revert v. induction cs as [b k IH|cv a k IH|cv k IH|cv k IH|r]; intros v; simpl.
  - intros Hw. apply runs_works. by eapply works_weaken; [|exact Hw]; auto.
  - intros (Hcv & HJ & Hk). apply runs_wait_call; auto.
  - intros [Hcv Hk]. apply runs_signal_call; auto.
  - intros [Hcv Hk]. apply runs_broadcast_call; auto.
  - intros [HJ Hp]. by apply runs_unlock_call.
Qed.

Lemma runs_monitor i :
  (forall v, J v -> verified i v (secs i)) -> runs i (monitor_code (who i) (secs i)) Out.
Proof. intros Hs. apply runs_lock_call. intros v HJ. by apply runs_section, Hs. Qed.

(** ** Pools of tasks in the monitor *)

Implicit Types (sts : list place).

Record monitor_explained sts w : Prop := {
  mo_ok : monitor_ok w;
  mo_lock : exists m, at_ mtx w = Some m /\ lock_inv ML who is_in sts (m_mux m)
              /\ (tally is_in sts = 0 -> J (view w));
  mo_view i v : sts !! i = Some (In v) -> view w = v
}.

Lemma is_in_bit st : is_in st = 0 \/ is_in st = 1.
Proof. destruct st; auto. Qed.

Lemma monitor_explained_knows sts w : monitor_explained sts w -> known monitor_knows sts w.
Proof.
  intros X i st Hi. split; [apply X|]. destruct (mo_lock _ _ X) as (m & Hm & HL & HJ). exists m. split; [done|].
  destruct st as [|v].
  - split; [by eapply (lock_outsider ML who is_in who_task who_inj)|]. intros Hf.
    by apply HJ, (lock_nobody ML who is_in who_task sts (m_mux m)).
  - destruct (lock_alone ML who is_in is_in_bit sts _ i _ HL Hi eq_refl) as (_ & Hh & _).
    split; [by apply mut_held_own|by apply (mo_view _ _ X i)].
Qed.

Lemma calm_ok w w' : monitor_ok w -> calm w w' -> monitor_ok w'.
Proof. intros (Hg & (m & Hm & Hi) & _) (Hg' & Hm' & Hc'). split; [congruence|]. split; [|done]. exists m. by rewrite Hm'. Qed.

Lemma swapped_ok w w' m x :
  monitor_ok w -> garbage w' = garbage w -> conds_ok w' -> at_ mtx w = Some m ->
  at_ mtx w' = Some (with_mux x m) -> monitor_ok w'.
Proof.
  intros (Hg & (m1 & Hm1 & Hi) & _) Hg' Hc' Hm Hm'. rewrite Hm in Hm1. injection Hm1 as <-.
  split; [congruence|]. split; [|done]. by exists (with_mux x m).
Qed.

(** The one inside has been alone with the data. *)
Lemma others_out sts i m v j v' :
  lock_inv ML who is_in sts (m_mux m) -> sts !! i = Some (In v) -> sts !! j = Some (In v') -> j = i.
Proof.
  intros HL Hi Hj. destruct (decide (j = i)) as [|Hne]; [done|].
  destruct (lock_alone ML who is_in is_in_bit sts _ i _ HL Hi eq_refl) as (_ & _ & Hal).
  by specialize (Hal j _ Hne Hj).
Qed.

Lemma monitor_explained_move sts w i st st' w' :
  monitor_explained sts w -> sts !! i = Some st -> monitor_moves i st w st' w' ->
  monitor_explained (<[i:=st']> sts) w'.
Proof.
  intros X Hi Hmv. destruct (mo_lock _ _ X) as (m & Hm & HL & HJ). pose proof (mo_ok _ _ X) as Hok.
  pose proof (mo_view _ _ X) as Hview.
  inversion Hmv as [? ? ? Hc Hv|v ? ? Hc|? ? m1 r x Hg Hc Hv Hm1 Hx Hm'|v ? ? m1 Hg Hc Hv Hm1 HJv Hm']; subst;
    [| |rewrite Hm in Hm1; injection Hm1 as <-..].
  - rewrite (list_insert_id sts i st') by done. split; [by eapply calm_ok| |].
    + exists m. rewrite Hv. by rewrite (proj1 (proj2 Hc)).
    + intros j v Hj. rewrite Hv. by apply (Hview j).
  - split; [by eapply calm_ok| |].
    + exists m. rewrite (proj1 (proj2 Hc)). split; [done|]. split; [by eapply lock_keep|].
      intros H0. pose proof (tally_lookup is_in (<[i:=In (view w')]> sts) i (In (view w')) (in_cs_nonneg is_in is_in_bit)
        ltac:(rewrite list_lookup_insert_eq; [done|by eapply lookup_lt_Some])) as H1. simpl in H1. lia.
    + intros j v1. rewrite list_lookup_insert_Some. intros [(_ & [= ->] & _)|[Hne Hj]]; [done|].
      by destruct Hne, (others_out sts i m v j v1 HL Hi Hj).
  - destruct (lock_acquire ML who is_in who_task who_inj is_in_bit sts (m_mux m) i Out (In (view w)) WAIT r x
      HL Hi eq_refl eq_refl eq_refl Hx) as (_ & H0 & HL').
    split; [by eapply swapped_ok| |].
    + exists (with_mux x m). split; [done|]. split; [done|].
      intros H1. pose proof (tally_insert is_in sts i Out (In (view w)) Hi) as H2. simpl in H2. lia.
    + intros j v1. rewrite list_lookup_insert_Some. intros [(_ & [= <-] & _)|[Hne Hj]]; [done|].
      pose proof (tally_lookup is_in sts j _ (in_cs_nonneg is_in is_in_bit) Hj) as H1. simpl in H1. lia.
  - split; [by eapply swapped_ok| |].
    + eexists. split; [exact Hm'|]. split; [by eapply (lock_release ML who is_in is_in_bit)|].
      intros _. rewrite Hv, (Hview i v Hi). done.
    + intros j v1. rewrite list_lookup_insert_Some. intros [(_ & ? & _)|[Hne Hj]]; [done|].
      by destruct Hne, (others_out sts i m v j v1 HL Hi Hj).
Qed.

Definition monitor_pool_explained (c : pool world Z) sts : Prop :=
  staged monitor_knows monitor_moves (fun _ _ _ => True) (fun _ e => e = SignedOverflow) monitor_ends c.1 sts
  /\ monitor_explained sts c.2.

Lemma monitor_pool_start n w m :
  monitor_ok w -> at_ mtx w = Some m -> mut_own (m_mux m) = 0 -> J (view w) ->
  (forall i v, J v -> verified i v (secs i)) -> monitor_pool_explained (monitor_tasks n, w) (replicate n Out).
Proof.
  intros Hok Hm Hf HJ Hs. split.
  - split; [cbn; unfold monitor_tasks; by rewrite length_map, length_seq, length_replicate|].
    intros i p st Hp Hst. apply lookup_replicate in Hst as [-> _].
    apply list_lookup_fmap_Some in Hp as (j & -> & Hj). apply lookup_seq in Hj as [-> _].
    apply runs_monitor, Hs.
  - split; [done| |].
    + exists m. split; [done|]. split; [|done]. left. split; [done|]. by rewrite tally_replicate, Z.mul_0_r.
    + by intros i v [? _]%lookup_replicate.
Qed.

Lemma monitor_explained_tick sts w k : monitor_explained sts w -> monitor_explained sts (with_ticks k w).
Proof.
  intros X. split; [apply X| |].
  - destruct (mo_lock _ _ X) as (m & Hm & HL & HJ). exists m. by rewrite view_ticks.
  - rewrite view_ticks. apply X.
Qed.

Lemma monitor_pool_reach c c' sts :
  monitor_pool_explained c sts -> reach clocked_step c c' -> exists sts', monitor_pool_explained c' sts'.
Proof.
  intros X H. induction H as [|y z H [sts1 [Hst He]] Hs]; [by exists sts|].
  destruct Hs as [[ts w] z Hs|ts w k _ _]; [|exists sts1; split; [done|by apply monitor_explained_tick]].
  destruct (staged_step _ _ _ _ _ ts sts1 w z Hst (monitor_explained_knows _ _ He) Hs)
    as (i & st & st' & Hi & Hmv & Hst').
  exists (<[i:=st']> sts1). split; [done|]. by eapply monitor_explained_move.
Qed.

(** C5: The rule for monitors, in any number of tasks and any interleaving,
    while time passes, provided that the uninitialised timeout of
    [pthread_mutex_lock] ([sleep_ticks], posix_pthread_mutex.c:88) happens to be
    [WAIT] in every call, the lock inside the waits included (otherwise a wait
    may return without the mutex): when each critical section, verified by
    itself, gives up the invariant at its waits and at its end and assumes no
    more than the invariant when it has been woken, then no assertion of a
    section fails and nothing else is undefined but an overflow of arithmetic on
    deadlines or on [waiting]; whenever nobody owns the mutex, the invariant
    holds, in particular when all tasks have returned; and the results are as
    verified. So [pthread_cond_wait] and [pthread_cond_timedwait] give up the
    mutex as they begin to wait and own it when they return, whether they have
    been woken or have timed out. *)
Theorem monitor_rule n w m c :
  monitor_ok w -> at_ mtx w = Some m -> mut_own (m_mux m) = 0 -> J (view w) ->
  (forall i v, J v -> verified i v (secs i)) ->
  reach clocked_step (monitor_tasks n, w) c ->
  (forall e, pool_faults c e -> e = SignedOverflow)
  /\ (exists m', at_ mtx c.2 = Some m' /\ (mut_own (m_mux m') = 0 -> J (view c.2)))
  /\ (forall i r, c.1 !! i = Some (Ret r) -> post i r)
  /\ ((forall i p, c.1 !! i = Some p -> exists r, p = Ret r) -> J (view c.2)).
Proof.
  intros Hok Hm Hf HJ Hs Hr.
  destruct (monitor_pool_reach _ _ _ (monitor_pool_start n w m Hok Hm Hf HJ Hs) Hr) as (sts & Hst & X).
  destruct c as [ts v]. simpl in *. destruct (mo_lock _ _ X) as (m' & Hm' & HL & HJ').
  split; [|split; [|split]].
  - intros e He. by destruct (staged_faults _ _ _ _ _ ts sts v e Hst (monitor_explained_knows _ _ X) He) as [_ ->].
  - exists m'. split; [done|]. intros Hown. by apply HJ', (lock_nobody ML who is_in who_task sts (m_mux m')).
  - intros i r Hi. destruct (staged_lookup _ _ _ _ _ _ _ i _ Hst Hi) as (st & _ & _ & Hp). done.
  - intros Hret. apply HJ', tally_zero. intros st Hin. apply list_elem_of_lookup in Hin as [i Hi].
    destruct (lookup_lt_is_Some_2 ts i) as [p Hp]; [rewrite (proj1 Hst : length ts = _); by eapply lookup_lt_Some|].
    destruct (Hret i p Hp) as [r ->]. destruct (staged_lookup _ _ _ _ _ _ _ i _ Hst Hp) as (st' & Hst' & He).
    rewrite Hi in Hst'. injection Hst' as <-. by destruct He as [-> _].
Qed.
End monitor.

(** ** A mailbox *)

Section mailbox.
Import Sim.

(** The number of letters is the word at 64; the mutex is at 128 and the
    condition variable at 192. *)
Definition letters : ref Z := fld (S:=sem_t) 64 (fun x => x) (fun v _ => v).

Definition post_letter : critical_section :=
  Does (let* n := load letters in store letters (n + 1) ;; Ret 0) (fun _ => Notifies 192 (fun _ => Leaves 0)).

(** Taking a letter from an empty box would be a failed assertion. *)
Definition take_letter : critical_section :=
  Does (let* n := load letters in if 0 <? n then store letters (n - 1) ;; Ret 0 else raise AssertFail)
    (fun _ => Leaves 1).

(** It waits once if the box is empty, and checks again, since a wake-up may
    have been stolen. *)
Definition fetch_letter : critical_section :=
  Does (load letters) (fun n =>
    if n =? 0 then
      Awaits 192 None (fun _ => Does (load letters) (fun n => if n =? 0 then Leaves (-1) else take_letter))
    else take_letter).

Definition mailbox_tasks (i : nat) : critical_section := if decide (i = 0%nat) then fetch_letter else post_letter.

Definition box (w : world) : option Z := at_ (S:=sem_t) 64 w.

Definition box_ok (v : option Z) : Prop := exists n, v = Some n /\ 0 <= n.

Definition box_post (i : nat) (r : Z) : Prop := i = 0%nat /\ (r = 1 \/ r = -1) \/ i <> 0%nat /\ r = 0.

Definition mailbox_mem : gmap Z (@obj sim_kernel) :=
  {[ 64 := OSem 0; 128 := OMutex (@mk_mutex sim_kernel 1 (0, 0%nat) (mk_mutexattr PTHREAD_MUTEX_NORMAL));
     192 := OCond (@mk_cond sim_kernel 1 (0, 0%nat) 0 0) ]}.

Definition mailbox_world : @world sim_kernel := @mk_world sim_kernel mailbox_mem ∅ 1500 400 UINT_MAX 1 1 [] (0, 0%nat) 0 [].

Definition mailbox_pool : pool (@world sim_kernel) Z :=
  (monitor_tasks (P:=sim_platform) sim_who 128 mailbox_tasks 2, mailbox_world).

Definition mailbox_result (c : pool (@world sim_kernel) Z) : list (option Z) * option Z :=
  (results c, box c.2).

Lemma works_load n k Q :
  works 128 [192] box (Some n) (k n) Q -> works 128 [192] box (Some n) (bind (load letters) k) Q.
Proof.
  intros Hk w Hok Hv. unfold box in Hv. cbn [letters rget load fld bind act]. rewrite Hv. split; [by intros e ?%list_elem_of_singleton|].
  intros x w' Hx. apply list_elem_of_singleton in Hx. simplify_eq. split; [by eapply calm_same|].
  by rewrite <- Hv in Hk.
Qed.

Lemma works_store n v k Q :
  works 128 [192] box (Some v) (k tt) Q -> works 128 [192] box (Some n) (bind (store letters v) k) Q.
Proof.
  intros Hk w Hok Hv. unfold box in Hv. cbn [letters rget rset store fld bind act]. rewrite Hv. split; [by intros e ?%list_elem_of_singleton|].
  intros x w' Hx. apply list_elem_of_singleton in Hx. simplify_eq. split.
  - split; [done|]. split; [by rewrite at_put_ne|]. intros cv ->%list_elem_of_singleton.
    rewrite at_put_ne by done. apply (proj2 (proj2 Hok)). by left.
  - unfold box. rewrite at_put. exact Hk.
Qed.

Lemma mailbox_verified i v : box_ok v -> verified 128 [192] box box_ok box_post i v (mailbox_tasks i).
Proof.
  intros (n & -> & Hn). unfold mailbox_tasks.
  assert (forall n, i = 0%nat -> 0 < n -> verified 128 [192] box box_ok box_post i (Some n) take_letter) as Htake.
  { intros k Hi Hk. cbn [take_letter verified]. apply works_load. test_true (0 <? k). apply works_store.
    split; [exists (k - 1); split; [done|lia]|]. left. auto. }
  destruct (decide (i = 0%nat)) as [Hi|Hi].
  - cbn [fetch_letter verified]. apply (works_load n Ret). cbn [works]. destruct (n =? 0) eqn:E.
    + cbn [verified]. split; [by left|]. split; [by exists n|]. intros _ v' (k & -> & Hk).
      apply (works_load k Ret). cbn [works]. destruct (k =? 0) eqn:Ek; bool_lia; [|apply Htake; [done|lia]].
      split; [by exists k|]. left. auto.
    + bool_lia. apply Htake; [done|lia].
  - cbn [post_letter verified]. apply works_load, works_store. split; [by left|].
    split; [exists (n + 1); split; [done|lia]|]. right. auto.
Qed.

(** The box is empty and the reader waits; a letter comes and is taken. *)
Lemma monitor_rule_witness :
  exists c, reach pool_step mailbox_pool c /\ mailbox_result c = ([Some 1; Some 0], Some 0) /\ box_ok (box c.2).
Proof.
  destruct (sched_summary mailbox_result (replicate 13 0 ++ replicate 17 1 ++ replicate 11 0)%nat mailbox_pool
    ([Some 1; Some 0], Some 0)) as (c & Hr & Hc); [vm_compute; reflexivity|].
  exists c. split; [exact Hr|]. split; [exact Hc|].
  apply (monitor_rule sim_mut_laws sim_who 128 [192] mailbox_tasks sim_who_task sim_who_inj box)
    with (J := box_ok) (post := box_post) (n := 2%nat) (w := mailbox_world)
         (m := @mk_mutex sim_kernel 1 (0, 0%nat) (mk_mutexattr PTHREAD_MUTEX_NORMAL)).
  - intros w m m' _. unfold box. by rewrite at_put_ne.
  - intros w cv s s' ->%list_elem_of_singleton _. unfold box. by rewrite at_put_ne.
  - done.
  - split; [reflexivity|]. split; [eexists; split; [reflexivity|done]|].
    intros cv ->%list_elem_of_singleton. eexists. split; [reflexivity|done].
  - reflexivity.
  - reflexivity.
  - exists 0. split; [reflexivity|lia].
  - apply mailbox_verified.
  - by apply clocked_reach.
  - intros i p Hi. unfold mailbox_result in Hc. injection Hc as Hc _.
    by apply (results_all c [1; 0] Hc i).
Defined.
End mailbox.
