(* ===== verification/Mqueue.v ===== *)
(** Message queues: [src/posix_mqueue.c].  The queues are on a global list
    [allq] under the kernel mutex [allq_mux]; a descriptor is the address of
    a queue.  A C string is a [string] without a null character, of which
    [name[0] != '/'] reads the first one; the message a call sends or
    receives is the list of the words the kernel copies, and [msg_ptr] only
    its address. *)
From Stdlib Require Import Ascii.
From S2P Require Import Prelude Prog Kernel World SimKernel Timespec Clock.

Definition POSIX_MQUEUE_NAME_SZ : Z := 16.
Definition POSIX_MQUEUE_DEF_MSG_MAX : Z := 128.
Definition POSIX_MQUEUE_DEF_MSG_SZ : Z := 4.
Definition POSIX_NAME_MAX : Z := 64.

(** [(mqd_t) -1] *)
Definition MQD_ERROR : Z := UINT_MAX.

Record mq_attr := mk_mq_attr {
  mq_flags : Z;
  mq_maxmsg : Z;
  mq_msgsize : Z;
  mq_curmsgs : Z
}.

Section mqueue.
Context `{P : Platform} `{K : Kernel}.

Definition mqd_q (p : Z) : ref mq_t :=
  fld p q (fun v m => mk_mqd v (buf m) (name m) (flags m) (ll m) (open_count m) (pending_unlink m)).
Definition mqd_buf (p : Z) : ref Z :=
  fld p buf (fun v m => mk_mqd (q m) v (name m) (flags m) (ll m) (open_count m) (pending_unlink m)).
Definition mqd_name (p : Z) : ref string :=
  fld p name (fun v m => mk_mqd (q m) (buf m) v (flags m) (ll m) (open_count m) (pending_unlink m)).
Definition mqd_flags (p : Z) : ref Z :=
  fld p flags (fun v m => mk_mqd (q m) (buf m) (name m) v (ll m) (open_count m) (pending_unlink m)).
Definition mqd_ll (p : Z) : ref lle_t :=
  fld p ll (fun v m => mk_mqd (q m) (buf m) (name m) (flags m) v (open_count m) (pending_unlink m)).
Definition mqd_open_count (p : Z) : ref Z :=
  fld p open_count (fun v m => mk_mqd (q m) (buf m) (name m) (flags m) (ll m) v (pending_unlink m)).
Definition mqd_pending (p : Z) : ref Z :=
  fld p pending_unlink (fun v m => mk_mqd (q m) (buf m) (name m) (flags m) (ll m) (open_count m) v).

(** The statics. *)
Definition g_mux : ref mut_t := Ref (fun w => Some (allq_mux w)) with_allq_mux.

Definition lock_queues (c : caller) : prog world Z := kcall g_mux (mut_lock (task_cur c) WAIT).
Definition unlock_queues (c : caller) : prog world unit := kmod g_mux (mut_unlock (task_cur c)).

(** [*ptimeout] is returned; the callers initialise it with 0. *)
Definition get_tick_timeout (flags : Z) (timeout : option timespec) (ptimeout : Z)
  : prog world (Z * Z) :=
  if has_flag flags O_NONBLOCK then Ret (0, 0)
  else
    match timeout with
    | None => Ret (0, WAIT)
    | Some _ =>
        let ret := if validate_timespec timeout =? 0 then EINVAL else 0 in
        let* (ret, cur) :=
          if ret =? 0 then
            let* (r, cur) := clock_gettime CLOCK_REALTIME (Some zero_timespec) in
            Ret (if negb (r =? 0) then EINVAL else ret, cur)
          else Ret (ret, Some zero_timespec) in
        if ret =? 0 then
          let* (r, t) := lift (abs_timespec2ticks timeout cur (Some ptimeout)) in
          Ret (if negb (r =? 0) then ETIMEDOUT else ret, default ptimeout t)
        else Ret (ret, ptimeout)
    end.

(** [validate_name]: the result and, when it is 1, the length. *)
Definition validate_name (name : string) : Z * option Z :=
  match name with
  | EmptyString => (0, None)
  | String ch _ =>
      if negb (Ascii.eqb ch "/"%char) then (0, None)
      else
        let len := Z.min (Z.of_nat (String.length name)) (POSIX_NAME_MAX + 2) in
        if len =? POSIX_NAME_MAX + 2 then (0, None) else (1, Some len)
  end.

Definition mq_check_init : prog world unit :=
  let* i := get inited in
  if negb (i =? 0) then Ret tt
  else
    modify (with_allq ll_init) ;;
    kmod g_mux (fun _ => mut_init) ;;
    modify (with_inited 1).

Fixpoint extract_in (es : list Z) (_mq : Z) : Z :=
  match es with
  | [] => 0
  | mq :: es' => if mq =? _mq then mq else extract_in es' _mq
  end.

Definition mq_extract_locked (_mq : Z) : prog world Z :=
  let* l := get allq in Ret (extract_in (ll_elems l) _mq).

Fixpoint find_in (es : list Z) (nm : string) : prog world Z :=
  match es with
  | [] => Ret 0
  | mq :: es' =>
      let* n := load (mqd_name mq) in
      if String.eqb nm n then Ret mq else find_in es' nm
  end.

Definition mq_find_locked (nm : string) : prog world Z :=
  let* l := get allq in find_in (ll_elems l) nm.

Definition mq_free (mq : Z) : prog world unit :=
  let* b := load (mqd_buf mq) in
  posix_free POSIX_MQUEUE_BUF b ;;
  posix_free POSIX_MQUEUE mq.

(** [lle_del(&mq->ll)] unlinks the queue from the list it is on. *)
Definition list_del (mq : Z) : prog world unit :=
  modify (fun w => with_allq (lle_del mq (allq w)) w).

Definition mq_close (c : caller) (_mq : Z) : prog world Z :=
  mq_check_init ;;
  lock_queues c ;;
  let* mq := mq_extract_locked _mq in
  let* (ret, removed) :=
    if negb (mq =? 0) then
      let* n := load (mqd_open_count mq) in
      (if 0 <? n then store (mqd_open_count mq) (n - 1) else Ret tt) ;;
      let* n := load (mqd_open_count mq) in
      if n =? 0 then
        let* u := load (mqd_pending mq) in
        if negb (u =? 0) then list_del mq ;; Ret (0, 1)
        else store (mqd_pending mq) 1 ;; Ret (0, 0)
      else Ret (0, 0)
    else set_errno c EBADF ;; Ret (-1, 0) in
  unlock_queues c ;;
  (if negb (removed =? 0) then mq_free mq else Ret tt) ;;
  Ret ret.

Definition mq_getattr (c : caller) (_mq : Z) : prog world (Z * option mq_attr) :=
  mq_check_init ;;
  lock_queues c ;;
  let* mq := mq_extract_locked _mq in
  let* r :=
    if negb (mq =? 0) then
      let* f := load (mqd_flags mq) in
      let* k := load (mqd_q mq) in
      Ret (0, Some (mk_mq_attr f (mq_sz k) (mq_isz k) (mq_n k)))
    else set_errno c EBADF ;; Ret (-1, None) in
  unlock_queues c ;;
  Ret r.

(** [memset(p, 0, n)] on allocated memory. *)
Definition memset_raw (p n : Z) : prog world unit :=
  act (fun w => match mem w !! p with
                | Some (ORaw size) => if n <=? size then [Done tt w] else [Fault BufferOverflow]
                | _ => [Fault BadPointer]
                end).

(** [strcpy] into the array [name] of the queue. *)
Definition strcpy_name (mq : Z) (s : string) : prog world unit :=
  if Z.of_nat (String.length s) <? POSIX_MQUEUE_NAME_SZ then store (mqd_name mq) s
  else raise BufferOverflow.

Definition zero_mqd : mqd_internal_t := mk_mqd mq_zero 0 "" 0 lle_zero 0 0.

(** [(mq_msgsize + 3) >> 2], a [long] stored in an [unsigned]. *)
Definition words_of (msgsize : Z) : option Z :=
  n ← sgn 32 (msgsize + 3); Some (wrapu 32 (Z.shiftr n 2)).

(** The boolean tells whether the [goto out], which skips the unlocking, is
    taken. *)
Definition mq_open (c : caller) (nm : string) (oflag mode : Z) (attr : option mq_attr)
  : prog world Z :=
  let def_attr := mk_mq_attr 0 POSIX_MQUEUE_DEF_MSG_MAX POSIX_MQUEUE_DEF_MSG_SZ 0 in
  mq_check_init ;;
  let* mq :=
    if (validate_name nm).1 =? 0 then set_errno c EINVAL ;; Ret MQD_ERROR else Ret 0 in
  let* mq :=
    if mq =? 0 then
      match attr with
      | Some a =>
          if (mq_maxmsg a <? 0) || (mq_msgsize a <? 0)
          then set_errno c EINVAL ;; Ret MQD_ERROR else Ret mq
      | None => Ret mq
      end
    else Ret mq in
  if mq =? 0 then
    lock_queues c ;;
    let* mq := mq_find_locked nm in
    let* (mq, goto_out) :=
      if negb (mq =? 0) then
        if has_flag oflag O_EXCL && has_flag oflag O_CREAT then
          set_errno c EEXIST ;; Ret (MQD_ERROR, false)
        else
          let* n := load (mqd_open_count mq) in
          store (mqd_open_count mq) (wrapu 16 (n + 1)) ;;
          Ret (mq, false)
      else if has_flag oflag O_CREAT then
        let a := default def_attr attr in
        let def_attr := mk_mq_attr oflag (mq_maxmsg a) (mq_msgsize a) (mq_curmsgs a) in
        let* mq := posix_alloc POSIX_MQUEUE (sizeof_obj POSIX_MQUEUE) in
        if mq =? 0 then set_errno c ENOENT ;; Ret (MQD_ERROR, true)
        else
          memset_zero mq zero_mqd ;;
          let* nwords := lift (words_of (mq_msgsize def_attr)) in
          let buf_sz := wrapu 32 (mq_maxmsg def_attr * nwords) in
          let* b := posix_alloc POSIX_MQUEUE_BUF buf_sz in
          store (mqd_buf mq) b ;;
          if b =? 0 then set_errno c ENOENT ;; Ret (MQD_ERROR, true)
          else
            memset_raw b buf_sz ;;
            strcpy_name mq nm ;;
            store (mqd_flags mq) (mq_flags def_attr) ;;
            store (mqd_ll mq) lle_init ;;
            store (mqd_open_count mq) 0 ;;
            let* b := load (mqd_buf mq) in
            kmod (mqd_q mq) (fun _ => mq_init nwords b buf_sz) ;;
            Ret (mq, false)
      else set_errno c ENOENT ;; Ret (MQD_ERROR, false) in
    (if goto_out : bool then Ret tt else unlock_queues c) ;;
    Ret mq
  else Ret mq.

(** The common start of the two transfers: the checks under the lock.
    [bad_len] compares the length with [mq->q.isz].  The result is [ret], the
    queue and the timeout. *)
Definition mq_checks (c : caller) (_mq msg_ptr : Z) (bad_len : Z -> bool)
    (abstime : option timespec) : prog world (Z * Z * Z) :=
  lock_queues c ;;
  let* mq := mq_extract_locked _mq in
  let* ret := if mq =? 0 then set_errno c EBADF ;; Ret (-1) else Ret 0 in
  let* ret :=
    if negb (Z.land (wrapu 32 msg_ptr) 3 =? 0) then set_errno c EINVAL ;; Ret (-1) else Ret ret in
  let* ret :=
    if ret =? 0 then
      let* k := load (mqd_q mq) in
      if bad_len (mq_isz k) then set_errno c EMSGSIZE ;; Ret (-1) else Ret ret
    else Ret ret in
  let* (ret, timeout) :=
    if ret =? 0 then
      let* f := load (mqd_flags mq) in
      let* (timeout_ret, timeout) := get_tick_timeout f abstime 0 in
      if negb (timeout_ret =? 0) then set_errno c timeout_ret ;; Ret (-1, timeout)
      else Ret (ret, timeout)
    else Ret (ret, 0) in
  unlock_queues c ;;
  Ret (ret, mq, timeout).

(** The failed transfer sets [errno] by the flags of the queue. *)
Definition transfer_failed (c : caller) (mq : Z) : prog world Z :=
  let* f := load (mqd_flags mq) in
  (if has_flag f O_NONBLOCK then set_errno c EAGAIN else set_errno c ETIMEDOUT) ;;
  Ret (-1).

(** The result and the words written to [msg_ptr]. *)
Definition mq_timedreceive (c : caller) (_mq msg_ptr msg_len : Z) (abstime : option timespec)
  : prog world (Z * option (list Z)) :=
  let* (ret, mq, timeout) := mq_checks c _mq msg_ptr (fun isz => msg_len <? isz) abstime in
  if ret =? 0 then
    let* (r, msg) := kcall (mqd_q mq) (mq_get timeout) in
    let* ret := if negb (r =? 0) then transfer_failed c mq else Ret ret in
    if ret =? 0 then
      let* k := load (mqd_q mq) in
      Ret (wraps 32 (mq_isz k), Some msg)
    else Ret (ret, None)
  else Ret (ret, None).

Definition mq_timedsend (c : caller) (_mq msg_ptr : Z) (msg : list Z) (msg_len msg_prio : Z)
    (abstime : option timespec) : prog world Z :=
  let* (ret, mq, timeout) := mq_checks c _mq msg_ptr (fun isz => isz <? msg_len) abstime in
  if ret =? 0 then
    let* r := kcall (mqd_q mq) (mq_put timeout msg) in
    if negb (r =? 0) then transfer_failed c mq else Ret ret
  else Ret ret.

Definition mq_receive (c : caller) (mqdes msg_ptr msg_len : Z) : prog world (Z * option (list Z)) :=
  mq_timedreceive c mqdes msg_ptr msg_len None.

Definition mq_send (c : caller) (mqdes msg_ptr : Z) (msg : list Z) (msg_len msg_prio : Z)
  : prog world Z :=
  mq_timedsend c mqdes msg_ptr msg msg_len msg_prio None.

Definition mq_unlink (c : caller) (nm : string) : prog world Z :=
  mq_check_init ;;
  let* ret :=
    if (validate_name nm).1 =? 0 then set_errno c ENAMETOOLONG ;; Ret (-1) else Ret 0 in
  let* (ret, removed, mq) :=
    if ret =? 0 then
      lock_queues c ;;
      let* mq := mq_find_locked nm in
      let* (ret, removed) :=
        if negb (mq =? 0) then
          let* n := load (mqd_open_count mq) in
          if n =? 0 then list_del mq ;; Ret (ret, 1)
          else store (mqd_pending mq) 1 ;; Ret (ret, 0)
        else set_errno c ENOENT ;; Ret (-1, 0) in
      unlock_queues c ;;
      Ret (ret, removed, mq)
    else Ret (ret, 0, 0) in
  (if negb (removed =? 0) then mq_free mq else Ret tt) ;;
  Ret ret.
End mqueue.

(** ** Lemmas *)

Section mqueue_lemmas.
Context `{P : Platform} `{!PlatformOk P} `{K : Kernel} (ML : MutLaws P K).
Implicit Types (w : world) (c : caller) (m : mqd_internal_t).

(** The module is initialised and nobody is inside. *)
Definition mq_ready w : Prop := inited w <> 0 /\ mut_own (allq_mux w) = 0.

(** [p] is the address of the queue [m] on the list. *)
Definition listed w p m : Prop :=
  p <> 0 /\ p ∈ ll_elems (allq w) /\ at_ p w = Some m.

(** The queue [m] holding the kernel queue [k]. *)
Definition with_q (k : mq_t) m : mqd_internal_t :=
  mk_mqd k (buf m) (name m) (flags m) (ll m) (open_count m) (pending_unlink m).

Lemma at_allq_mux {S : Type} `{!Kind S} p x w (s : S) :
  at_ (S:=S) p w = Some s -> at_ p (with_allq_mux x w) = Some s.
Proof. done. Qed.

Lemma run_check_init {R} w (k : unit -> prog world R) :
  inited w <> 0 -> run (bind mq_check_init k) w = run (k tt) w.
Proof. intros H. apply run_call. unfold mq_check_init. step. by test_false (inited w =? 0). Qed.

Lemma run_lock w c :
  task_cur c <> 0 -> mut_own (allq_mux w) = 0 ->
  exists x, mut_held x (task_cur c)
    /\ forall R (k : Z -> prog world R),
         run (bind (lock_queues c) k) w = run (k 0) (with_allq_mux x w).
Proof.
  intros Hc Hf. destruct (mut_lock_free (allq_mux w) (task_cur c) WAIT Hc Hf) as (x & Hx & Hh).
  exists x. split; [done|]. intros R k. unfold lock_queues, kcall, g_mux.
  apply run_act. simpl. by rewrite Hx.
Qed.

Lemma run_unlock_queues {R} w c (k : unit -> prog world R) :
  run (bind (unlock_queues c) k) w
  = run (k tt) (with_allq_mux (mut_unlock (task_cur c) (allq_mux w)) w).
Proof. unfold unlock_queues, kmod, kcall, g_mux. by apply run_act. Qed.

Lemma extract_in_elem es p : p <> 0 -> (extract_in es p = p <-> p ∈ es) /\ (extract_in es p = 0 <-> p ∉ es).
Proof.
  intros Hp. induction es as [|e es [IH1 IH2]]; simpl.
  - rewrite elem_of_nil. naive_solver.
  - rewrite elem_of_cons. destruct (e =? p) eqn:E; bool_lia; naive_solver.
Qed.

Lemma run_extract {R} w p (k : Z -> prog world R) :
  run (bind (mq_extract_locked p) k) w = run (k (extract_in (ll_elems (allq w)) p)) w.
Proof. unfold mq_extract_locked. by step. Qed.

Lemma run_extract_listed {R} w p m (k : Z -> prog world R) :
  listed w p m -> run (bind (mq_extract_locked p) k) w = run (k p) w.
Proof.
  intros (Hp & Hin & _). rewrite run_extract.
  by rewrite (proj2 (proj1 (extract_in_elem (ll_elems (allq w)) p Hp)) Hin).
Qed.

(** Without a deadline, or on a non-blocking queue, no clock is read. *)
Definition no_deadline_ticks (f : Z) : Z := if has_flag f O_NONBLOCK then 0 else WAIT.

Lemma tick_timeout_none f t :
  get_tick_timeout f None t = Ret (0, no_deadline_ticks f).
Proof. unfold get_tick_timeout, no_deadline_ticks. by case_if. Qed.

(** The checks on a queue that is on the list, when the timeout is known. *)
Lemma run_checks w c p m ptr bad abstime r t :
  task_cur c <> 0 -> mq_ready w -> listed w p m -> Z.land (wrapu 32 ptr) 3 = 0 ->
  (forall x, run (get_tick_timeout (flags m) abstime 0) (with_allq_mux x w)
             = [Done (r, t) (with_allq_mux x w)]) ->
  exists y, mut_own y = 0 /\
    run (mq_checks c p ptr bad abstime) w =
    if bad (mq_isz (q m))
    then [Done (-1, p, 0) (with_allq_mux y (with_errno (task_cur c) EMSGSIZE w))]
    else if r =? 0 then [Done (0, p, t) (with_allq_mux y w)]
    else [Done (-1, p, t) (with_allq_mux y (with_errno (task_cur c) r w))].
Proof.
  intros Hc [Hi Hf] Hl Hptr Ht. destruct (run_lock w c Hc Hf) as (x & Hx & Hrun).
  exists (mut_unlock (task_cur c) x). split; [by apply mut_unlock_held|].
  unfold mq_checks. rewrite Hrun. rewrite (run_extract_listed _ p m) by done.
  destruct Hl as (Hp & _ & Hm). test_false (p =? 0). cbn [bind]. rewrite Hptr. cbn [Z.eqb negb bind].
  unfold mqd_q, mqd_flags. step. destruct (bad (mq_isz (q m))).
  - step. cbn [bind Z.eqb]. by rewrite run_unlock_queues.
  - cbn [bind Z.eqb]. step. rewrite run_assoc, (run_call _ _ _ _ _ (Ht x)).
    destruct (r =? 0) eqn:E; cbn [negb].
    + cbn [bind]. by rewrite run_unlock_queues.
    + step. cbn [bind]. by rewrite run_unlock_queues.
Qed.
End mqueue_lemmas.

(** ** Transfers *)

Section mqueue_transfers.
Context `{P : Platform} `{!PlatformOk P} `{K : Kernel} (ML : MutLaws P K) (QL : MqLaws K).
Implicit Types (w : world) (c : caller) (m : mqd_internal_t).

(** The rest of a send or a receive once the checks have passed. *)
Definition put_tail (c : caller) (p t : Z) (msg : list Z) : prog world Z :=
  let* r := kcall (mqd_q p) (mq_put t msg) in
  if negb (r =? 0) then transfer_failed c p else Ret 0.

Definition get_tail (c : caller) (p t : Z) : prog world (Z * option (list Z)) :=
  let* (r, msg) := kcall (mqd_q p) (mq_get t) in
  let* ret := if negb (r =? 0) then transfer_failed c p else Ret 0 in
  if ret =? 0 then
    let* k := load (mqd_q p) in
    Ret (wraps 32 (mq_isz k), Some msg)
  else Ret (ret, None).

Lemma run_send w c p m ptr msg len prio :
  task_cur c <> 0 -> mq_ready w -> listed w p m -> Z.land (wrapu 32 ptr) 3 = 0 ->
  exists y, mut_own y = 0 /\
    run (mq_send c p ptr msg len prio) w =
    if mq_isz (q m) <? len
    then [Done (-1) (with_allq_mux y (with_errno (task_cur c) EMSGSIZE w))]
    else run (put_tail c p (no_deadline_ticks (flags m)) msg) (with_allq_mux y w).
Proof.
  intros Hc Hr Hl Hptr.
  destruct (run_checks ML w c p m ptr (fun isz => isz <? len) None 0 (no_deadline_ticks (flags m)))
    as (y & Hy & Hrun); [done..|by rewrite tick_timeout_none|].
  exists y. split; [done|]. unfold mq_send, mq_timedsend. cbn [Z.eqb] in Hrun.
  destruct (mq_isz (q m) <? len); rewrite (run_call _ _ _ _ _ Hrun); done.
Qed.

Lemma run_receive w c p m ptr len :
  task_cur c <> 0 -> mq_ready w -> listed w p m -> Z.land (wrapu 32 ptr) 3 = 0 ->
  exists y, mut_own y = 0 /\
    run (mq_receive c p ptr len) w =
    if len <? mq_isz (q m)
    then [Done (-1, None) (with_allq_mux y (with_errno (task_cur c) EMSGSIZE w))]
    else run (get_tail c p (no_deadline_ticks (flags m))) (with_allq_mux y w).
Proof.
  intros Hc Hr Hl Hptr.
  destruct (run_checks ML w c p m ptr (fun isz => len <? isz) None 0 (no_deadline_ticks (flags m)))
    as (y & Hy & Hrun); [done..|by rewrite tick_timeout_none|].
  exists y. split; [done|]. unfold mq_receive, mq_timedreceive. cbn [Z.eqb] in Hrun.
  destruct (len <? mq_isz (q m)); rewrite (run_call _ _ _ _ _ Hrun); done.
Qed.

Lemma run_transfer_failed w c p m :
  at_ p w = Some m ->
  run (transfer_failed c p) w
  = [Done (-1) (with_errno (task_cur c) (if has_flag (flags m) O_NONBLOCK then EAGAIN else ETIMEDOUT) w)].
Proof.
  intros Hm. unfold transfer_failed, mqd_flags. step.
  destruct (has_flag (flags m) O_NONBLOCK); by step.
Qed.

(** A kernel call that fails on a non-blocking queue. *)
Lemma run_failed w c p m :
  at_ p w = Some m -> has_flag (flags m) O_NONBLOCK = true ->
  run (transfer_failed c p) (put p (with_q (q m) m) w)
  = [Done (-1) (with_errno (task_cur c) EAGAIN w)].
Proof.
  intros Hm Hnb. replace (with_q (q m) m) with m by (by destruct m).
  rewrite put_same by done. rewrite (run_transfer_failed _ c p m) by done. by rewrite Hnb.
Qed.

Lemma send_cases w c p m ptr msg len prio :
  task_cur c <> 0 -> mq_ready w -> listed w p m -> Z.land (wrapu 32 ptr) 3 = 0 ->
  mq_n (q m) <= mq_sz (q m) -> mq_n (q m) < mq_sz (q m) \/ has_flag (flags m) O_NONBLOCK = true ->
  exists y, mut_own y = 0 /\
    if mq_isz (q m) <? len then
      run (mq_send c p ptr msg len prio) w
      = [Done (-1) (with_allq_mux y (with_errno (task_cur c) EMSGSIZE w))]
    else if mq_n (q m) <? mq_sz (q m) then
      exists k, run (mq_send c p ptr msg len prio) w
                = [Done 0 (with_allq_mux y (put p (with_q k m) w))]
        /\ mq_items k = mq_items (q m) ++ [msg]
        /\ mq_sz k = mq_sz (q m) /\ mq_isz k = mq_isz (q m)
    else
      run (mq_send c p ptr msg len prio) w
      = [Done (-1) (with_allq_mux y (with_errno (task_cur c) EAGAIN w))].
Proof.
  intros Hc Hr Hl Hptr Hn Hroom.
  destruct (run_send w c p m ptr msg len prio) as (y & Hy & Hrun); [done..|].
  exists y. split; [done|]. rewrite Hrun. destruct (mq_isz (q m) <? len); [done|].
  assert (at_ p (with_allq_mux y w) = Some m) as Hm by (destruct Hl as (_ & _ & Hm); exact Hm).
  unfold put_tail, mqd_q. destruct (mq_n (q m) <? mq_sz (q m)) eqn:E.
  - destruct (mq_put_room (q m) (no_deadline_ticks (flags m)) msg ltac:(bool_lia))
      as (k & Hk & Hi & Hs & Hz).
    exists k. split; [|done]. kstep Hk. done.
  - destruct Hroom as [?|Hnb]; [bool_lia|].
    destruct (mq_put_full (q m) msg ltac:(bool_lia)) as (r & Hr0 & Hk).
    unfold no_deadline_ticks. rewrite Hnb. kstep Hk. test_false (r =? 0). cbn [negb].
    by apply run_failed.
Qed.

(** [mq_send] on a queue of the list, called with an aligned buffer.  A
    message longer than the queue's item size is refused with [EMSGSIZE]; a
    message for which there is room is appended at the end of the queue; and
    on a full non-blocking queue the call fails with [EAGAIN].  A failure
    leaves the queue as it is. *)
Theorem mq_send_spec w c p m ptr msg len prio :
  task_cur c <> 0 -> mq_ready w -> listed w p m -> Z.land (wrapu 32 ptr) 3 = 0 ->
  mq_n (q m) <= mq_sz (q m) -> mq_n (q m) < mq_sz (q m) \/ has_flag (flags m) O_NONBLOCK = true ->
  exists y, mut_own y = 0 /\
    if mq_isz (q m) <? len then
      run (mq_send c p ptr msg len prio) w
      = [Done (-1) (with_allq_mux y (with_errno (task_cur c) EMSGSIZE w))]
    else if mq_n (q m) <? mq_sz (q m) then
      exists k, run (mq_send c p ptr msg len prio) w
                = [Done 0 (with_allq_mux y (put p (with_q k m) w))]
        /\ mq_items k = mq_items (q m) ++ [msg]
        /\ mq_sz k = mq_sz (q m) /\ mq_isz k = mq_isz (q m)
    else
      run (mq_send c p ptr msg len prio) w
      = [Done (-1) (with_allq_mux y (with_errno (task_cur c) EAGAIN w))].
Proof. apply send_cases. Qed.

Lemma receive_cases w c p m ptr len :
  task_cur c <> 0 -> mq_ready w -> listed w p m -> Z.land (wrapu 32 ptr) 3 = 0 ->
  mq_items (q m) <> [] \/ has_flag (flags m) O_NONBLOCK = true ->
  0 <= mq_isz (q m) < 2 ^ 31 ->
  exists y, mut_own y = 0 /\
    if len <? mq_isz (q m) then
      run (mq_receive c p ptr len) w
      = [Done (-1, None) (with_allq_mux y (with_errno (task_cur c) EMSGSIZE w))]
    else match mq_items (q m) with
    | msg :: rest =>
        exists k, run (mq_receive c p ptr len) w
                  = [Done (mq_isz (q m), Some msg) (with_allq_mux y (put p (with_q k m) w))]
          /\ mq_items k = rest /\ mq_sz k = mq_sz (q m) /\ mq_isz k = mq_isz (q m)
    | [] =>
        run (mq_receive c p ptr len) w
        = [Done (-1, None) (with_allq_mux y (with_errno (task_cur c) EAGAIN w))]
    end.
Proof.
  intros Hc Hr Hl Hptr Hitem Hz.
  destruct (run_receive w c p m ptr len) as (y & Hy & Hrun); [done..|].
  exists y. split; [done|]. rewrite Hrun. destruct (len <? mq_isz (q m)); [done|].
  assert (at_ p (with_allq_mux y w) = Some m) as Hm by (destruct Hl as (_ & _ & Hm); exact Hm).
  unfold get_tail, mqd_q. destruct (mq_items (q m)) as [|msg rest] eqn:Ei.
  - destruct Hitem as [?|Hnb]; [done|].
    destruct (mq_get_none (q m) Ei) as (r & msg & Hr0 & Hk).
    unfold no_deadline_ticks. rewrite Hnb. kstep Hk. test_false (r =? 0). cbn [negb].
    by rewrite (run_call _ _ _ _ _ (run_failed _ c p m Hm Hnb)).
  - destruct (mq_get_item (q m) (no_deadline_ticks (flags m)) msg rest Ei) as (k & Hk & Hi & Hs & Hiz).
    exists k. split; [|done]. kstep Hk. cbn [Z.eqb negb bind]. step. cbn [q]. rewrite Hiz.
    by rewrite wraps_small by (change (32 - 1) with 31; lia).
Qed.

(** [mq_receive] on a queue of the list, called with an aligned buffer.  A
    buffer shorter than the queue's item size is refused with [EMSGSIZE]; the
    oldest message is removed from a queue that has one, and the result is
    the item size; and on an empty non-blocking queue the call fails with
    [EAGAIN].  A failure leaves the queue as it is. *)
Theorem mq_receive_spec w c p m ptr len :
  task_cur c <> 0 -> mq_ready w -> listed w p m -> Z.land (wrapu 32 ptr) 3 = 0 ->
  mq_items (q m) <> [] \/ has_flag (flags m) O_NONBLOCK = true ->
  0 <= mq_isz (q m) < 2 ^ 31 ->
  exists y, mut_own y = 0 /\
    if len <? mq_isz (q m) then
      run (mq_receive c p ptr len) w
      = [Done (-1, None) (with_allq_mux y (with_errno (task_cur c) EMSGSIZE w))]
    else match mq_items (q m) with
    | msg :: rest =>
        exists k, run (mq_receive c p ptr len) w
                  = [Done (mq_isz (q m), Some msg) (with_allq_mux y (put p (with_q k m) w))]
          /\ mq_items k = rest /\ mq_sz k = mq_sz (q m) /\ mq_isz k = mq_isz (q m)
    | [] =>
        run (mq_receive c p ptr len) w
        = [Done (-1, None) (with_allq_mux y (with_errno (task_cur c) EAGAIN w))]
    end.
Proof. apply receive_cases. Qed.

(** A producer that sends [ms] and a consumer that receives [n] messages,
    with the results of their calls. *)
Fixpoint send_all (c : caller) (p ptr len : Z) (ms : list (list Z)) : prog world (list Z) :=
  match ms with
  | [] => Ret []
  | msg :: ms' =>
      let* r := mq_send c p ptr msg len 0 in
      let* rs := send_all c p ptr len ms' in
      Ret (r :: rs)
  end.

Fixpoint receive_all (c : caller) (p ptr len : Z) (n : nat)
  : prog world (list (Z * option (list Z))) :=
  match n with
  | O => Ret []
  | S n' =>
      let* r := mq_receive c p ptr len in
      let* rs := receive_all c p ptr len n' in
      Ret (r :: rs)
  end.

Lemma ready_put w p m k y :
  mq_ready w -> listed w p m -> mut_own y = 0 ->
  mq_ready (with_allq_mux y (put p (with_q k m) w))
  /\ listed (with_allq_mux y (put p (with_q k m) w)) p (with_q k m).
Proof.
  intros [Hi _] (Hp & Hin & _) Hy. repeat split; try done.
  apply at_allq_mux, at_put.
Qed.

Lemma run_send_all c p ptr len ms w m :
  task_cur c <> 0 -> Z.land (wrapu 32 ptr) 3 = 0 -> len <= mq_isz (q m) ->
  mq_ready w -> listed w p m -> mq_n (q m) + Z.of_nat (length ms) <= mq_sz (q m) ->
  exists w' m', run (send_all c p ptr len ms) w = [Done (replicate (length ms) 0) w']
    /\ mq_ready w' /\ listed w' p m'
    /\ mq_items (q m') = mq_items (q m) ++ ms /\ mq_isz (q m') = mq_isz (q m).
Proof.
  intros Hc Hptr. revert w m. induction ms as [|msg ms IH]; intros w m Hlen Hr Hl Hn; simpl in Hn.
  - exists w, m. by rewrite app_nil_r.
  - destruct (send_cases w c p m ptr msg len 0) as (y & Hy & H); [done..|lia|lia|].
    assert ((mq_isz (q m) <? len) = false) as El by lia. rewrite El in H.
    destruct (mq_n (q m) <? mq_sz (q m)) eqn:E; [|bool_lia].
    destruct H as (k & Hrun & Hi & Hs & Hz).
    destruct (ready_put w p m k y Hr Hl Hy) as [Hr' Hl'].
    destruct (IH _ (with_q k m) ltac:(simpl; lia) Hr' Hl') as (w' & m' & Hrun' & Hr2 & Hl2 & Hi2 & Hz2).
    { simpl. rewrite mq_n_items in *. rewrite Hi, length_app, Hs. simpl. lia. }
    exists w', m'. split; [|simpl in *; rewrite Hi2, Hi, <- app_assoc, Hz2; done].
    cbn [send_all]. rewrite (run_call _ _ _ _ _ Hrun), (run_call _ _ _ _ _ Hrun'). done.
Qed.

Lemma run_receive_all c p ptr len ms w m :
  task_cur c <> 0 -> Z.land (wrapu 32 ptr) 3 = 0 -> mq_isz (q m) <= len ->
  0 <= mq_isz (q m) < 2 ^ 31 -> mq_ready w -> listed w p m -> mq_items (q m) = ms ->
  exists w', run (receive_all c p ptr len (length ms)) w
    = [Done (map (fun msg => (mq_isz (q m), Some msg)) ms) w'].
Proof.
  intros Hc Hptr. revert w m. induction ms as [|msg ms IH]; intros w m Hlen Hz Hr Hl Hi.
  - by exists w.
  - destruct (receive_cases w c p m ptr len) as (y & Hy & H); [done..| |done|].
    { left. by rewrite Hi. }
    assert ((len <? mq_isz (q m)) = false) as El by lia. rewrite El in H. rewrite Hi in H.
    destruct H as (k & Hrun & Hi' & Hs & Hz').
    destruct (ready_put w p m k y Hr Hl Hy) as [Hr' Hl'].
    destruct (IH _ (with_q k m) ltac:(simpl; lia) ltac:(simpl; lia) Hr' Hl' Hi') as (w' & Hrun').
    exists w'. cbn [receive_all length]. rewrite (run_call _ _ _ _ _ Hrun), (run_call _ _ _ _ _ Hrun').
    simpl. by rewrite Hz'.
Qed.

(** A message queue is first in, first out and loses nothing: messages
    sent to an empty queue with enough room are all accepted, and as many
    receives return them in the order in which they were sent. *)
Theorem mq_fifo w c p m ptr slen rlen ms :
  task_cur c <> 0 -> mq_ready w -> listed w p m -> Z.land (wrapu 32 ptr) 3 = 0 ->
  mq_items (q m) = [] -> Z.of_nat (length ms) <= mq_sz (q m) ->
  0 <= mq_isz (q m) < 2 ^ 31 -> slen <= mq_isz (q m) <= rlen ->
  exists w',
    run (let* sent := send_all c p ptr slen ms in
         let* got := receive_all c p ptr rlen (length ms) in
         Ret (sent, got)) w
    = [Done (replicate (length ms) 0, map (fun msg => (mq_isz (q m), Some msg)) ms) w'].
Proof.
  intros Hc Hr Hl Hptr He Hn Hz Hlen.
  destruct (run_send_all c p ptr slen ms w m) as (w1 & m1 & Hs & Hr1 & Hl1 & Hi1 & Hz1); [done|done|lia|done..| |].
  { rewrite mq_n_items, He. simpl. lia. }
  destruct (run_receive_all c p ptr rlen ms w1 m1) as [w2 H2]; [done|done|lia|lia|done|done|by rewrite Hi1, He|].
  exists w2. rewrite (run_call _ _ _ _ _ Hs), (run_call _ _ _ _ _ H2). by rewrite Hz1.
Qed.
End mqueue_transfers.

(** ** Errors *)

Section mqueue_errors.
Context `{P : Platform} `{!PlatformOk P} `{K : Kernel} (ML : MutLaws P K) (LL : LlLaws K).
Implicit Types (w : world) (c : caller) (m : mqd_internal_t).

(** The deadline is malformed, or before the current time of [w]. *)
Definition refused_deadline w (a : timespec) : Prop :=
  validate_timespec (Some a) = 0
  \/ 0 <= tv_sec a < 2 ^ 31 /\ nanos a < nanos (now_timespec w).

Definition deadline_error (a : timespec) : Z :=
  if validate_timespec (Some a) =? 0 then EINVAL else ETIMEDOUT.

Lemma tick_timeout_refused w f a :
  clock_ok w -> has_flag f O_NONBLOCK = false -> refused_deadline w a ->
  run (get_tick_timeout f (Some a) 0) w = [Done (deadline_error a, 0) w].
Proof.
  intros Hw Hf Hd. unfold get_tick_timeout, deadline_error. rewrite Hf.
  destruct (validate_timespec (Some a) =? 0) eqn:E; cbn [Z.eqb EINVAL bind]; [done|].
  destruct Hd as [Hd|[Hs Hn]]; [by rewrite Hd in E|].
  assert (valid_timespec a) as Ha.
  { apply validate_valid. destruct (validate_cases a) as [H|H]; [done|]. by rewrite H in E. }
  rewrite run_assoc, run_gettime by done. cbn [Z.eqb negb bind].
  pose proof (timespec_sub_eq a (now_timespec w) zero_timespec Ha (now_valid w) Hs (now_sec w Hw)) as Hsub.
  assert ((nanos a <? nanos (now_timespec w)) = true) as Hlt by lia. rewrite Hlt in Hsub.
  unfold abs_timespec2ticks. by rewrite Hsub.
Qed.

(** On a blocking queue a malformed deadline is refused with [EINVAL] and
    one in the past with [ETIMEDOUT], before the queue is looked at: a send
    fails although there is room and a receive although there is a message. *)
Theorem mq_deadline_refused w c p m ptr msg len prio a :
  clock_ok w -> task_cur c <> 0 -> mq_ready w -> listed w p m ->
  Z.land (wrapu 32 ptr) 3 = 0 -> has_flag (flags m) O_NONBLOCK = false -> refused_deadline w a ->
  len = mq_isz (q m) ->
  (exists y, mut_own y = 0 /\ run (mq_timedsend c p ptr msg len prio (Some a)) w
     = [Done (-1) (with_allq_mux y (with_errno (task_cur c) (deadline_error a) w))])
  /\ exists y, mut_own y = 0 /\ run (mq_timedreceive c p ptr len (Some a)) w
     = [Done (-1, None) (with_allq_mux y (with_errno (task_cur c) (deadline_error a) w))].
Proof.
  intros Hw Hc Hr Hl Hptr Hf Ha ->.
  assert (forall bad, bad (mq_isz (q m)) = false -> exists y, mut_own y = 0 /\
    run (mq_checks c p ptr bad (Some a)) w
    = [Done (-1, p, 0) (with_allq_mux y (with_errno (task_cur c) (deadline_error a) w))]) as H.
  { intros bad Hbad.
    destruct (run_checks ML w c p m ptr bad (Some a) (deadline_error a) 0) as (y & Hy & H); [done..| |].
    { intros x'. by apply tick_timeout_refused. }
    exists y. split; [done|]. rewrite H, Hbad. unfold deadline_error.
    by destruct (validate_timespec (Some a) =? 0). }
  split.
  - destruct (H (fun isz => isz <? mq_isz (q m)) (Z.ltb_irrefl _)) as (y & Hy & Hrun).
    exists y. split; [done|]. unfold mq_timedsend. by rewrite (run_call _ _ _ _ _ Hrun).
  - destruct (H (fun isz => mq_isz (q m) <? isz) (Z.ltb_irrefl _)) as (y & Hy & Hrun).
    exists y. split; [done|]. unfold mq_timedreceive. by rewrite (run_call _ _ _ _ _ Hrun).
Qed.

(** [d] is not the address of a queue on the list. *)
Definition bad_descriptor w (d : Z) : Prop := d = 0 \/ d ∉ ll_elems (allq w).

Lemma run_extract_bad {R} w d (k : Z -> prog world R) :
  bad_descriptor w d -> run (bind (mq_extract_locked d) k) w = run (k 0) w.
Proof.
  intros Hd. rewrite run_extract. destruct (decide (d = 0)) as [->|Hne].
  - f_equal. induction (ll_elems (allq w)) as [|e es IH]; [done|]. cbn [extract_in].
    destruct (e =? 0) eqn:E; [|apply IH]. by apply Z.eqb_eq in E as ->.
  - destruct Hd as [Hd|Hd]; [done|].
    by rewrite (proj2 (proj2 (extract_in_elem (ll_elems (allq w)) d Hne)) Hd).
Qed.

(** A descriptor that is not the address of a queue on the list is refused
    by every operation: they return -1 with [EBADF] in [errno] (the transfers
    given an aligned buffer), change nothing else and release the lock. *)
Theorem mq_bad_descriptor w c d ptr msg len prio abstime :
  task_cur c <> 0 -> mq_ready w -> bad_descriptor w d -> Z.land (wrapu 32 ptr) 3 = 0 ->
  exists y, mut_own y = 0 /\
    let w' := with_allq_mux y (with_errno (task_cur c) EBADF w) in
    run (mq_close c d) w = [Done (-1) w']
    /\ run (mq_getattr c d) w = [Done (-1, None) w']
    /\ run (mq_timedsend c d ptr msg len prio abstime) w = [Done (-1) w']
    /\ run (mq_timedreceive c d ptr len abstime) w = [Done (-1, None) w'].
Proof.
  intros Hc [Hi Hf] Hd Hptr. destruct (run_lock ML w c Hc Hf) as (x & Hx & Hrun).
  exists (mut_unlock (task_cur c) x). split; [by apply mut_unlock_held|]. intros w'.
  assert (forall bad, run (mq_checks c d ptr bad abstime) w = [Done (-1, 0, 0) w']) as Hck.
  { intros bad. unfold mq_checks. rewrite Hrun, run_extract_bad by done. cbn [Z.eqb]. step.
    cbn [bind]. rewrite Hptr. cbn [Z.eqb negb bind]. by rewrite run_unlock_queues. }
  split; [|split; [|split]].
  - unfold mq_close. rewrite run_check_init, Hrun, run_extract_bad by done. cbn [Z.eqb negb].
    step. cbn [bind]. by rewrite run_unlock_queues.
  - unfold mq_getattr. rewrite run_check_init, Hrun, run_extract_bad by done. cbn [Z.eqb negb].
    step. cbn [bind]. by rewrite run_unlock_queues.
  - unfold mq_timedsend. by rewrite (run_call _ _ _ _ _ (Hck _)).
  - unfold mq_timedreceive. by rewrite (run_call _ _ _ _ _ (Hck _)).
Qed.

(** A program made of calls of the module, in any order and with any
    arguments that depend on the results of the earlier ones. *)
Inductive mq_call : forall A, prog world A -> Prop :=
| CallOpen c nm oflag mode attr : mq_call Z (mq_open c nm oflag mode attr)
| CallClose c d : mq_call Z (mq_close c d)
| CallGetattr c d : mq_call _ (mq_getattr c d)
| CallReceive c d ptr len a : mq_call _ (mq_timedreceive c d ptr len a)
| CallSend c d ptr msg len prio a : mq_call _ (mq_timedsend c d ptr msg len prio a)
| CallUnlink c nm : mq_call Z (mq_unlink c nm).

Inductive mq_client : prog world Z -> Prop :=
| ClientRet r : mq_client (Ret r)
| ClientCall A (p : prog world A) k :
    mq_call A p -> (forall x, mq_client (k x)) -> mq_client (bind p k).

Definition no_queue w : Prop := ll_elems (allq w) = [].

Lemma no_queue_mem f w : no_queue w -> no_queue (with_mem f w).
Proof. done. Qed.

Lemma no_queue_fld {S T} `{!Kind S} p (g : S -> T) st v w :
  no_queue w -> no_queue (rset (fld p g st) v w).
Proof. by apply rset_fld. Qed.

Lemma no_queue_init w : no_queue (with_allq ll_init w).
Proof. apply ll_init_nil. Qed.

Lemma no_queue_del p w : no_queue w -> no_queue (with_allq (lle_del p (allq w)) w).
Proof.
  unfold no_queue. intros H. simpl. rewrite lle_del_elems; [by rewrite H|].
  rewrite H. constructor.
Qed.

Lemma keeps_memset_raw p n : keeps no_queue (memset_raw p n).
Proof.
  apply keeps_act. intros w x w' Hw H. simpl in H.
  destruct (mem w !! p) as [[size| | | | | | |]|]; try (set_solver); try case_match;
    apply list_elem_of_singleton in H; simplify_eq; done.
Qed.

Lemma keeps_find es nm : keeps no_queue (find_in es nm).
Proof.
  induction es as [|e es IH]; cbn [find_in]; keeps_tac. done.
Qed.

Ltac keeps_queue :=
  repeat first
    [ keeps_one | apply keeps_memset_raw | apply keeps_find
    | progress unfold mq_check_init, lock_queues, unlock_queues, mq_extract_locked, mq_find_locked,
        mq_free, list_del, mq_checks, get_tick_timeout, clock_gettime, transfer_failed, strcpy_name ];
  intros; first [ done | apply no_queue_init | by apply no_queue_del | by apply no_queue_fld ].

Lemma mq_call_keeps A (p : prog world A) : mq_call A p -> keeps no_queue p.
Proof.
  intros [c nm oflag mode attr|c d|c d|c d ptr len a|c d ptr msg len prio a|c nm];
    [unfold mq_open | unfold mq_close | unfold mq_getattr | unfold mq_timedreceive
    | unfold mq_timedsend | unfold mq_unlink]; cbv zeta; keeps_queue.
Qed.

(** C22: No execution of the module ever puts a queue on the list: whatever
    tasks call its operations, in whatever order and interleaving, a list
    that is empty stays empty ([mq_open] creates a queue but never links it),
    so every descriptor it returns is bad. *)
Theorem mq_never_listed ts w (c : pool world Z) :
  Forall mq_client ts -> no_queue w -> reach pool_step (ts, w) c ->
  no_queue c.2 /\ forall d, bad_descriptor c.2 d.
Proof.
  intros Hts Hw H. destruct (keeps_pool no_queue ts w c) as [_ Hc]; [|done..|].
  - eapply Forall_impl; [exact Hts|]. intros p Hp.
    induction Hp as [r|A p k Hp Hk IH]; [constructor|].
    apply keeps_bind; [by apply mq_call_keeps|done].
  - split; [done|]. intros d. right. rewrite Hc. set_solver.
Qed.
End mqueue_errors.

(** ** Opening *)

Section mqueue_open.
Context `{P : Platform} `{!PlatformOk P} `{K : Kernel} (ML : MutLaws P K) (QL : MqLaws K)
  (AL : AllocLaws K).
Implicit Types (w : world) (c : caller) (m : mqd_internal_t).

(** A queue name is valid when it is a slash followed by at most
    [POSIX_NAME_MAX] characters; the length reported counts the slash. *)
Theorem validate_name_spec nm :
  (exists s, nm = String "/"%char s /\ Z.of_nat (String.length s) <= POSIX_NAME_MAX
     /\ validate_name nm = (1, Some (Z.of_nat (String.length s) + 1)))
  \/ (forall s, nm = String "/"%char s -> POSIX_NAME_MAX < Z.of_nat (String.length s))
     /\ validate_name nm = (0, None).
Proof.
  unfold validate_name, POSIX_NAME_MAX. destruct nm as [|ch s]; [by right|].
  destruct (Ascii.eqb ch "/"%char) eqn:E; cbn [negb].
  - apply Ascii.eqb_eq in E as ->. cbn [String.length].
    case_if; bool_lia; [right|left].
    + split; [|done]. intros s' [= <-]. lia.
    + exists s. split; [done|]. split; [lia|]. do 2 f_equal. lia.
  - right. split; [|done]. intros s' [= -> ->]. done.
Qed.

(** No queue of the list has the name. *)
Definition absent w (es : list Z) (nm : string) : Prop :=
  forall e, e ∈ es -> exists m, at_ e w = Some m /\ name m <> nm.

Lemma run_find_absent {R} w es nm (k : Z -> prog world R) :
  absent w es nm -> run (bind (find_in es nm) k) w = run (k 0) w.
Proof.
  induction es as [|e es IH]; intros H; [done|]. cbn [find_in].
  destruct (H e) as (m & Hm & Hne); [by left|]. unfold mqd_name. step.
  destruct (String.eqb nm (name m)) eqn:E; [by apply String.eqb_eq in E|].
  apply IH. intros e' He'. apply H. by right.
Qed.

(** The attributes [mq_open] uses, and what it computes from them. *)
Definition attr_of (attr : option mq_attr) : mq_attr :=
  default (mk_mq_attr 0 POSIX_MQUEUE_DEF_MSG_MAX POSIX_MQUEUE_DEF_MSG_SZ 0) attr.
Definition item_words (attr : option mq_attr) : Z := (mq_msgsize (attr_of attr) + 3) / 4.
Definition buffer_size (attr : option mq_attr) : Z :=
  wrapu 32 (mq_maxmsg (attr_of attr) * item_words attr).

Definition good_attr (attr : option mq_attr) : Prop :=
  0 <= mq_maxmsg (attr_of attr) /\ 0 <= mq_msgsize (attr_of attr) < 2 ^ 31 - 3.

Lemma words_of_attr attr : good_attr attr -> words_of (mq_msgsize (attr_of attr)) = Some (item_words attr).
Proof.
  intros [_ H]. unfold words_of, item_words. rewrite sgn_in by (change (32 - 1) with 31; lia).
  cbn [mbind option_bind]. rewrite Z.shiftr_div_pow2 by done. change (2 ^ 2) with 4.
  rewrite wrapu_small; [done|]. split; [apply Z.div_pos; lia|].
  apply Z.div_lt_upper_bound; lia.
Qed.

(** What [mq_open] refuses. *)
Definition negative_attr (attr : option mq_attr) : bool :=
  match attr with
  | None => false
  | Some a => (mq_maxmsg a <? 0) || (mq_msgsize a <? 0)
  end.

Lemma attr_passes c attr :
  negative_attr attr = false ->
  match attr with
  | Some a => if (mq_maxmsg a <? 0) || (mq_msgsize a <? 0)
              then set_errno c EINVAL ;; Ret MQD_ERROR else Ret 0
  | None => Ret 0
  end = Ret 0 :> prog world Z.
Proof. destruct attr as [a|]; [|done]. simpl. by intros ->. Qed.

Lemma good_attr_passes attr : good_attr attr -> negative_attr attr = false.
Proof.
  intros [H1 H2]. destruct attr as [a|]; [|done]. simpl in *.
  test_false (mq_maxmsg a <? 0). by test_false (mq_msgsize a <? 0).
Qed.

(** The call up to the allocation of the queue. *)
Lemma run_open_prefix w c nm oflag mode attr :
  task_cur c <> 0 -> mq_ready w -> (validate_name nm).1 = 1 -> good_attr attr ->
  absent w (ll_elems (allq w)) nm -> has_flag oflag O_CREAT = true ->
  exists x, mut_held x (task_cur c) /\
    run (mq_open c nm oflag mode attr) w =
    run (let* (mq, goto_out) :=
           let* mq := posix_alloc POSIX_MQUEUE (sizeof_obj POSIX_MQUEUE) in
           if mq =? 0 then set_errno c ENOENT ;; Ret (MQD_ERROR, true)
           else
             memset_zero mq zero_mqd ;;
             let* nwords := lift (words_of (mq_msgsize (attr_of attr))) in
             let buf_sz := wrapu 32 (mq_maxmsg (attr_of attr) * nwords) in
             let* b := posix_alloc POSIX_MQUEUE_BUF buf_sz in
             store (mqd_buf mq) b ;;
             if b =? 0 then set_errno c ENOENT ;; Ret (MQD_ERROR, true)
             else
               memset_raw b buf_sz ;;
               strcpy_name mq nm ;;
               store (mqd_flags mq) oflag ;;
               store (mqd_ll mq) lle_init ;;
               store (mqd_open_count mq) 0 ;;
               let* b := load (mqd_buf mq) in
               kmod (mqd_q mq) (fun _ => mq_init nwords b buf_sz) ;;
               Ret (mq, false) in
         (if goto_out : bool then Ret tt else unlock_queues c) ;;
         Ret mq) (with_allq_mux x w).
Proof.
  intros Hc [Hi Hf] Hv Ha Habs Hcr. destruct (run_lock ML w c Hc Hf) as (x & Hx & Hrun).
  exists x. split; [done|]. unfold mq_open. cbv zeta. rewrite run_check_init by done.
  rewrite Hv. cbn [Z.eqb bind].
  rewrite attr_passes by (by apply good_attr_passes). cbn [bind Z.eqb]. rewrite Hrun. unfold mq_find_locked at 1. step.
  rewrite run_find_absent by done. cbn [Z.eqb negb]. rewrite Hcr. done.
Qed.

(** The addresses the allocator answers to [mq_open]. *)
Definition open_queue w : Z := alloc_answer w POSIX_MQUEUE (sizeof_obj POSIX_MQUEUE).
Definition open_buffer w attr : Z :=
  alloc_answer (put (open_queue w) zero_mqd w) POSIX_MQUEUE_BUF (buffer_size attr).

(** The hook is installed and has memory for both. *)
Definition enough_memory w attr : Prop :=
  hcos_posix_alloc w <> 0 /\ open_queue w <> 0 /\ open_buffer w attr <> 0.

Definition new_queue nm oflag attr b : mqd_internal_t :=
  mk_mqd (mq_init (item_words attr) b (buffer_size attr)) b nm oflag lle_init 0 0.

Lemma run_memset_raw {R} w p n (k : unit -> prog world R) :
  mem w !! p = Some (ORaw n) -> run (bind (memset_raw p n) k) w = run (k tt) w.
Proof. intros H. apply run_act. rewrite H. by rewrite Z.leb_refl. Qed.

Lemma mem_put_ne {S} `{!Kind S} p p' (s : S) w o :
  p <> p' -> mem w !! p = Some o -> mem (put p' s w) !! p = Some o.
Proof. intros Hne H. unfold put, with_mem. simpl. by rewrite lookup_insert_ne by done. Qed.

(** The buffer and the queue are fresh and distinct. *)
Lemma open_addresses w attr :
  enough_memory w attr -> mem w !! open_queue w = None
  /\ mem w !! open_buffer w attr = None /\ open_queue w <> open_buffer w attr.
Proof.
  intros (_ & Hq & Hb). pose proof (answer_fresh w _ _ AL Hq) as Hfq.
  pose proof (answer_fresh _ _ _ AL Hb) as Hfb. fold (open_queue w) in Hfq.
  fold (open_buffer w attr) in Hfb. unfold put, with_mem in Hfb. simpl in Hfb.
  apply lookup_insert_None in Hfb as [Hfb Hne]. done.
Qed.

(** The call once both are allocated, about to copy the name. *)
Lemma run_open_allocated w c nm oflag mode attr :
  task_cur c <> 0 -> mq_ready w -> (validate_name nm).1 = 1 -> good_attr attr ->
  absent w (ll_elems (allq w)) nm -> has_flag oflag O_CREAT = true -> enough_memory w attr ->
  exists x, mut_held x (task_cur c) /\
    run (mq_open c nm oflag mode attr) w =
    run (strcpy_name (open_queue w) nm ;;
         store (mqd_flags (open_queue w)) oflag ;;
         store (mqd_ll (open_queue w)) lle_init ;;
         store (mqd_open_count (open_queue w)) 0 ;;
         let* b := load (mqd_buf (open_queue w)) in
         kmod (mqd_q (open_queue w)) (fun _ => mq_init (item_words attr) b (buffer_size attr)) ;;
         unlock_queues c ;;
         Ret (open_queue w))
      (put (open_queue w) (mk_mqd mq_zero (open_buffer w attr) "" 0 lle_zero 0 0)
         (with_mem <[open_buffer w attr := ORaw (buffer_size attr)]> (with_allq_mux x w))).
Proof.
  intros Hc Hr Hv Ha Habs Hcr Hm.
  destruct (open_addresses w attr Hm) as (Hfq & Hfb & Hne). destruct Hm as (Hh & Hq & Hb).
  destruct (run_open_prefix w c nm oflag mode attr) as (x & Hx & ->); [done..|].
  exists x. split; [done|].
  rewrite run_assoc, run_alloc by done. change (alloc_answer _ POSIX_MQUEUE _) with (open_queue w).
  test_false (open_queue w =? 0). rewrite run_assoc.
  erewrite run_memset; [|done|apply lookup_insert_eq]. rewrite put_raw, words_of_attr by done.
  cbn [lift bind]. cbv zeta. fold (buffer_size attr). rewrite run_assoc, run_alloc by done.
  change (alloc_answer _ POSIX_MQUEUE_BUF _) with (open_buffer w attr). unfold mqd_buf at 1.
  assert (at_ (open_queue w) (with_mem <[open_buffer w attr := ORaw (buffer_size attr)]>
    (put (open_queue w) zero_mqd (with_allq_mux x w))) = Some zero_mqd) as Hz.
  { apply at_ne; [done|apply at_put]. }
  step. test_false (open_buffer w attr =? 0).
  rewrite run_assoc, run_memset_raw by (apply mem_put_ne; [done|apply lookup_insert_eq]).
  rewrite !run_assoc. unfold put, with_mem. simpl mem.
  rewrite (insert_insert_ne (mem w)) by done. by rewrite insert_insert_eq.
Qed.

(** C38: [mq_open] with [O_CREAT] and a new name of at most 15 characters:
    the descriptor is the address of a fresh queue with the given name,
    flags and no reference ([open_count] is 0), backed by a fresh buffer; its
    item size is [mq_msgsize] in words, rounded up.  The queue is not put on
    the list, so the descriptor is bad from the start. *)
Theorem mq_open_creates w c nm oflag mode attr :
  task_cur c <> 0 -> mq_ready w -> (validate_name nm).1 = 1 -> good_attr attr ->
  absent w (ll_elems (allq w)) nm -> has_flag oflag O_CREAT = true ->
  enough_memory w attr -> Z.of_nat (String.length nm) < POSIX_MQUEUE_NAME_SZ ->
  exists w', run (mq_open c nm oflag mode attr) w = [Done (open_queue w) w']
    /\ mem w !! open_queue w = None
    /\ at_ (open_queue w) w' = Some (new_queue nm oflag attr (open_buffer w attr))
    /\ mq_isz (q (new_queue nm oflag attr (open_buffer w attr))) = item_words attr
    /\ mem w' !! open_buffer w attr = Some (ORaw (buffer_size attr))
    /\ mq_ready w' /\ allq w' = allq w /\ bad_descriptor w' (open_queue w).
Proof.
  intros Hc Hr Hv Ha Habs Hcr Hm Hlen.
  destruct (open_addresses w attr Hm) as (Hfq & Hfb & Hne).
  destruct (run_open_allocated w c nm oflag mode attr) as (x & Hx & ->); [done..|].
  exists (with_allq_mux (mut_unlock (task_cur c) x)
            (put (open_queue w) (new_queue nm oflag attr (open_buffer w attr))
               (with_mem <[open_buffer w attr := ORaw (buffer_size attr)]> w))).
  split; [|split; [done|split; [apply at_allq_mux, at_put|]]].
  - unfold strcpy_name. assert ((Z.of_nat (String.length nm) <? POSIX_MQUEUE_NAME_SZ) = true) as -> by lia.
    unfold mqd_buf, mqd_flags, mqd_ll, mqd_open_count, mqd_q, mqd_name.
    do 6 (step; cbn [q buf name flags ll open_count pending_unlink]).
    by rewrite run_unlock_queues.
  - split; [by apply mq_init_items|]. split.
    + apply mem_put_ne; [done|]. apply lookup_insert_eq.
    + repeat split; [by destruct Hr|by apply mut_unlock_held|].
      right. simpl. intros Hin. destruct (Habs _ Hin) as (m & Hat & _).
      apply at_mem in Hat as [o Ho]. by rewrite Ho in Hfq.
Qed.

(** The calls that need the lock, by other tasks than [me]: all those of the
    module, but for [mq_open] and [mq_unlink] with a name (or attributes) that
    they refuse before. *)
Inductive needs_lock (me : Z) : forall A, prog world A -> Prop :=
| LockClose c d : task_cur c <> me -> needs_lock me _ (mq_close c d)
| LockGetattr c d : task_cur c <> me -> needs_lock me _ (mq_getattr c d)
| LockSend c d ptr msg len prio a : task_cur c <> me -> needs_lock me _ (mq_timedsend c d ptr msg len prio a)
| LockReceive c d ptr len a : task_cur c <> me -> needs_lock me _ (mq_timedreceive c d ptr len a)
| LockUnlink c nm : task_cur c <> me -> (validate_name nm).1 = 1 -> needs_lock me _ (mq_unlink c nm)
| LockOpen c nm oflag mode a :
    task_cur c <> me -> (validate_name nm).1 = 1 -> negative_attr a = false ->
    needs_lock me _ (mq_open c nm oflag mode a).

(** A task whose next call is one of them. *)
Definition at_module {R} (me : Z) (p : prog world R) : Prop :=
  exists A (q : prog world A) k, needs_lock me A q /\ p = bind q k.

Definition kept_by (me : Z) w : Prop := inited w <> 0 /\ mut_own (allq_mux w) = me.

Lemma typed_kept {R} me c Q (k : Z -> prog world R) :
  me <> 0 -> task_cur c <> me -> typed (kept_by me) (fun _ => False) Q (bind (lock_queues c) k).
Proof.
  intros Hme Hc w o [_ Ho] Hin. simpl in Hin.
  rewrite mut_lock_wait in Hin; [by apply not_elem_of_nil in Hin|congruence..].
Qed.

Lemma typed_initialised {R} me Q (k : unit -> prog world R) :
  typed (kept_by me) (fun _ => False) Q (k tt) ->
  typed (kept_by me) (fun _ => False) Q (bind mq_check_init k).
Proof.
  intros Hk. apply typed_assoc, typed_get. intros w [Hi _]. by test_false (inited w =? 0).
Qed.

Lemma at_module_typed {R} me (Q : R -> Prop) p :
  me <> 0 -> at_module me p -> typed (kept_by me) (fun _ => False) Q p.
Proof.
  intros Hme (A & q & k & Hq & ->).
  destruct Hq as [c d Hc|c d Hc|c d ptr msg len prio a Hc|c d ptr len a Hc|c nm Hc Hn|c nm oflag mode a Hc Hn Ha].
  - unfold mq_close. by apply typed_assoc, typed_initialised, typed_assoc, typed_kept.
  - unfold mq_getattr. by apply typed_assoc, typed_initialised, typed_assoc, typed_kept.
  - unfold mq_timedsend, mq_checks. by do 2 apply typed_assoc; apply typed_kept.
  - unfold mq_timedreceive, mq_checks. by do 2 apply typed_assoc; apply typed_kept.
  - unfold mq_unlink. apply typed_assoc, typed_initialised. rewrite Hn. cbn [Z.eqb bind].
    do 2 apply typed_assoc. by apply typed_kept.
  - unfold mq_open. cbv zeta. apply typed_assoc, typed_initialised. rewrite Hn. cbn [Z.eqb bind].
    rewrite attr_passes by done. cbn [Z.eqb bind]. by apply typed_assoc, typed_kept.
Qed.

(** C39: When there is no memory for the queue, [mq_open] returns -1 and
    [ENOENT], but leaves by [goto out] without unlocking: the caller still
    holds the lock of the module.  From then on, in any pool of other tasks
    that come to the module, however they are interleaved and however long
    they wait, none of their calls returns: the lock stays where it is.  (A
    call of [mq_open] or [mq_unlink] with a name or attributes that it refuses
    needs no lock and is not meant.) *)
Theorem mq_open_no_memory_deadlock w c nm oflag mode attr :
  task_cur c <> 0 -> mq_ready w -> (validate_name nm).1 = 1 -> good_attr attr ->
  absent w (ll_elems (allq w)) nm -> has_flag oflag O_CREAT = true ->
  hcos_posix_alloc w <> 0 -> open_queue w = 0 ->
  exists w', run (mq_open c nm oflag mode attr) w = [Done MQD_ERROR w']
    /\ errno_of (task_cur c) w' = ENOENT /\ mut_own (allq_mux w') = task_cur c
    /\ forall R (ts : list (prog world R)) d,
         Forall (at_module (task_cur c)) ts -> reach clocked_step (ts, w') d ->
         mut_own (allq_mux d.2) = task_cur c /\ (forall i r, d.1 !! i <> Some (Ret r))
         /\ forall e, ~ pool_faults d e.
Proof.
  intros Hc Hr Hv Ha Habs Hcr Hh Hq.
  destruct (run_open_prefix w c nm oflag mode attr) as (x & Hx & ->); [done..|].
  exists (with_errno (task_cur c) ENOENT (with_allq_mux x w)).
  pose proof (mut_held_own x _ Hx) as Ho.
  split; [|split; [by rewrite errno_set|split; [done|]]].
  - rewrite run_assoc, run_alloc_none by done. cbn [Z.eqb]. by step.
  - intros R ts d Hts Hd.
    destruct (typed_clocked (kept_by (task_cur c)) (fun _ => False) (fun _ => False) ts
      (with_errno (task_cur c) ENOENT (with_allq_mux x w)) d) as [Hw Hf]; [done| |by destruct Hr|done|].
    { eapply Forall_impl; [exact Hts|]. intros p. by apply at_module_typed. }
    split; [apply Hw|]. split.
    + intros i r Hi. exact (Forall_lookup_1 _ _ _ _ Hf Hi).
    + intros e (i & p & Hi & Hp). exact (typed_no_fault _ _ _ p d.2 e (Forall_lookup_1 _ _ _ _ Hf Hi) Hw Hp).
Qed.

(** C40: The limit [POSIX_NAME_MAX] that [mq_open] checks is 64, but a queue
    has room for 15 characters: creating a queue with a longer valid name
    writes past the end of the array [name]. *)
Theorem mq_open_long_name_overflow w c nm oflag mode attr :
  task_cur c <> 0 -> mq_ready w -> (validate_name nm).1 = 1 -> good_attr attr ->
  absent w (ll_elems (allq w)) nm -> has_flag oflag O_CREAT = true ->
  enough_memory w attr -> POSIX_MQUEUE_NAME_SZ <= Z.of_nat (String.length nm) ->
  run (mq_open c nm oflag mode attr) w = [Fault BufferOverflow].
Proof.
  intros Hc Hr Hv Ha Habs Hcr Hm Hlen.
  destruct (run_open_allocated w c nm oflag mode attr) as (x & _ & ->); [done..|].
  unfold strcpy_name. assert ((Z.of_nat (String.length nm) <? POSIX_MQUEUE_NAME_SZ) = false) as -> by lia.
  reflexivity.
Qed.
End mqueue_open.

(** ** Closing and unlinking *)

Section mqueue_close.
Context `{P : Platform} `{!PlatformOk P} `{K : Kernel} (ML : MutLaws P K) (LL : LlLaws K).
Implicit Types (w : world) (c : caller) (m : mqd_internal_t).

Definition set_refs (n u : Z) m : mqd_internal_t :=
  mk_mqd (q m) (buf m) (name m) (flags m) (ll m) n u.

(** The queue and its buffer can be released. *)
Definition owns_buffer w p m : Prop :=
  hcos_posix_free w <> 0 /\ buf m <> p /\ is_Some (mem w !! buf m).

(** The queue off the list and its memory released, nothing else changed. *)
Definition queue_released p m w : world :=
  with_mem (fun _ => delete p (delete (buf m) (mem w))) (with_allq (lle_del p (allq w)) w).

Lemma run_mq_free w p m m' :
  at_ p w = Some m -> owns_buffer w p m -> buf m' = buf m ->
  run (mq_free p) (put p m' w) = [Done tt (with_mem (fun _ => delete p (delete (buf m) (mem w))) w)].
Proof.
  intros Hm (Hh & Hne & [o Ho]) Hb. apply at_mem in Hm as [o' Ho'].
  unfold mq_free, mqd_buf. step. rewrite Hb.
  erewrite run_free; [|done|by apply mem_put_ne].
  rewrite <- run_bind_ret. erewrite run_free; [|done|].
  - simpl. unfold put, with_mem. simpl. do 3 f_equal.
    rewrite delete_insert_ne by done. by rewrite delete_insert_eq.
  - unfold put, with_mem. simpl. rewrite lookup_delete_ne by done. apply lookup_insert_eq.
Qed.

(** [mq_close] on a queue of the list drops one reference.  While
    references remain nothing else happens.  Without any, the queue is
    released if its unlinking is pending; otherwise its unlinking becomes
    pending, although nobody called [mq_unlink]. *)
Theorem mq_close_spec w c p m :
  task_cur c <> 0 -> mq_ready w -> listed w p m -> owns_buffer w p m -> 0 <= open_count m ->
  exists y, mut_own y = 0 /\
    let n := Z.max 0 (open_count m - 1) in
    run (mq_close c p) w =
    [Done 0 (with_allq_mux y
      (if (n =? 0) && negb (pending_unlink m =? 0) then queue_released p m w
       else put p (set_refs n (if n =? 0 then 1 else pending_unlink m) m) w))].
Proof.
  intros Hc [Hi Hf] Hl Hb Hn. destruct (run_lock ML w c Hc Hf) as (x & Hx & Hrun).
  exists (mut_unlock (task_cur c) x). split; [by apply mut_unlock_held|]. cbv zeta.
  pose proof Hl as (Hp & _ & Hm).
  unfold mq_close. rewrite run_check_init, Hrun, (run_extract_listed _ p m) by done.
  test_false (p =? 0). cbn [negb]. unfold mqd_open_count, mqd_pending.
  assert (forall R (k : unit -> prog world R),
    run (bind (if 0 <? open_count m then store (mqd_open_count p) (open_count m - 1) else Ret tt) k)
      (with_allq_mux x w)
    = run (k tt) (put p (set_refs (Z.max 0 (open_count m - 1)) (pending_unlink m) m) (with_allq_mux x w))) as Hdec.
  { intros R k. unfold mqd_open_count. destruct (0 <? open_count m) eqn:E; bool_lia.
    - step. by replace (Z.max 0 (open_count m - 1)) with (open_count m - 1) by lia.
    - replace (Z.max 0 (open_count m - 1)) with (open_count m) by lia.
      replace (set_refs (open_count m) (pending_unlink m) m) with m by (by destruct m).
      by rewrite put_same. }
  step. rewrite run_assoc, Hdec. step. cbn [open_count set_refs].
  destruct (Z.max 0 (open_count m - 1) =? 0) eqn:E; cbn [andb].
  - step. cbn [pending_unlink set_refs]. destruct (pending_unlink m =? 0) eqn:Eu; cbn [negb].
    + step. cbn [bind]. by rewrite run_unlock_queues.
    + unfold list_del. step. cbn [bind]. rewrite run_unlock_queues. cbn [bind Z.eqb negb].
      rewrite (run_call _ _ _ _ _ (run_mq_free
        (with_allq (lle_del p (allq w)) (with_allq_mux (mut_unlock (task_cur c) x) w)) p m
        (set_refs (Z.max 0 (open_count m - 1)) (pending_unlink m) m) Hm Hb eq_refl)).
      done.
  - cbn [bind]. by rewrite run_unlock_queues.
Qed.

(** [p] is the first queue of the list with the name. *)
Definition found w nm p m : Prop :=
  p <> 0 /\ at_ p w = Some m /\ name m = nm
  /\ exists pre post, ll_elems (allq w) = pre ++ p :: post /\ absent w pre nm.

Lemma run_find {R} w nm p m (k : Z -> prog world R) :
  found w nm p m -> run (bind (mq_find_locked nm) k) w = run (k p) w.
Proof.
  intros (Hp & Hm & Hn & pre & post & Hes & Habs). unfold mq_find_locked. step. rewrite Hes. clear Hes.
  induction pre as [|e pre IH]; cbn [find_in app]; unfold mqd_name at 1.
  - step. by rewrite Hn, String.eqb_refl.
  - destruct (Habs e) as (m' & Hm' & Hne); [by left|]. step.
    destruct (String.eqb nm (name m')) eqn:E; [by apply String.eqb_eq in E|].
    apply IH. intros e' He'. apply Habs. by right.
Qed.

(** [mq_unlink] on the name of a queue: without references the queue is
    taken off the list and released; with references it stays, and its
    unlinking is pending until the last [mq_close]. *)
Theorem mq_unlink_spec w c nm p m :
  task_cur c <> 0 -> mq_ready w -> (validate_name nm).1 = 1 -> found w nm p m -> owns_buffer w p m ->
  exists y, mut_own y = 0 /\
    run (mq_unlink c nm) w =
    [Done 0 (with_allq_mux y
      (if open_count m =? 0 then queue_released p m w
       else put p (set_refs (open_count m) 1 m) w))].
Proof.
  intros Hc [Hi Hf] Hv Hl Hb. destruct (run_lock ML w c Hc Hf) as (x & Hx & Hrun).
  exists (mut_unlock (task_cur c) x). split; [by apply mut_unlock_held|].
  pose proof Hl as (Hp & Hm & _).
  unfold mq_unlink. rewrite run_check_init by done. rewrite Hv. cbn [Z.eqb bind].
  rewrite run_assoc, Hrun, run_assoc, (run_find _ nm p m) by done.
  test_false (p =? 0). cbn [negb]. unfold mqd_open_count, mqd_pending. step.
  destruct (open_count m =? 0) eqn:E.
  - unfold list_del. step. cbn [bind]. rewrite run_assoc, run_unlock_queues. cbn [bind Z.eqb negb].
    rewrite <- (put_same p m (with_allq_mux _ _)) by exact Hm.
    rewrite (run_call _ _ _ _ _ (run_mq_free
        (with_allq (lle_del p (allq w)) (with_allq_mux (mut_unlock (task_cur c) x) w)) p m
        m Hm Hb eq_refl)).
    done.
  - step. cbn [bind]. by rewrite run_assoc, run_unlock_queues.
Qed.

(** [mq_open] on the name of a queue of the list adds a reference to it
    (modulo 2^16) and returns it, unless both [O_CREAT] and [O_EXCL] are
    given, which is refused with [EEXIST]. *)
Theorem mq_open_existing w c nm oflag mode attr p m :
  task_cur c <> 0 -> mq_ready w -> (validate_name nm).1 = 1 -> negative_attr attr = false ->
  found w nm p m ->
  exists y, mut_own y = 0 /\
    run (mq_open c nm oflag mode attr) w =
    if has_flag oflag O_EXCL && has_flag oflag O_CREAT
    then [Done MQD_ERROR (with_allq_mux y (with_errno (task_cur c) EEXIST w))]
    else [Done p (with_allq_mux y
           (put p (set_refs (wrapu 16 (open_count m + 1)) (pending_unlink m) m) w))].
Proof.
  intros Hc [Hi Hf] Hv Ha Hl. destruct (run_lock ML w c Hc Hf) as (x & Hx & Hrun).
  exists (mut_unlock (task_cur c) x). split; [by apply mut_unlock_held|].
  pose proof Hl as (Hp & Hm & _).
  unfold mq_open. cbv zeta. rewrite run_check_init by done. rewrite Hv. cbn [Z.eqb bind].
  rewrite attr_passes by done. cbn [bind Z.eqb]. rewrite Hrun, (run_find _ nm p m) by done.
  test_false (p =? 0). cbn [negb]. unfold mqd_open_count.
  destruct (has_flag oflag O_EXCL && has_flag oflag O_CREAT).
  - step. cbn [bind]. by rewrite run_unlock_queues.
  - step. step. cbn [bind]. by rewrite run_unlock_queues.
Qed.
End mqueue_close.

(** ** Witnesses *)

Section mqueue_witnesses.
Import Sim.

(** A queue named "/q" of two items of one word, at address 64, its buffer at
    address 128; [open] references, and [it] in the queue. *)
Definition sim_mqd (it : list (list Z)) (fl open pend : Z) : @mqd_internal_t sim_kernel :=
  @mk_mqd sim_kernel (SimMq 2 4 it) 128 "/q" fl tt open pend.

Definition mq_world (m : @mqd_internal_t sim_kernel) : @world sim_kernel :=
  with_inited 1 (with_allq [64] (sim_world {[ 64 := OMqd m; 128 := ORaw 8 ]})).

(** No queue at all, with the allocation hook [h]. *)
Definition mq_empty_world (h : Z) : @world sim_kernel :=
  with_inited 1 (with_hooks h 1 (sim_world ∅)).

Lemma mq_world_ready m : mq_ready (mq_world m).
Proof. done. Qed.

Lemma mq_world_listed m : listed (mq_world m) 64 m.
Proof. split; [done|]. split; [by left|done]. Qed.

Lemma mq_world_found it fl open pend : found (mq_world (sim_mqd it fl open pend)) "/q" 64 (sim_mqd it fl open pend).
Proof. do 3 (split; [done|]). exists [], []. split; [done|]. intros e He. by apply elem_of_nil in He. Qed.

Lemma mq_world_buffer it fl open pend :
  owns_buffer (mq_world (sim_mqd it fl open pend)) 64 (sim_mqd it fl open pend).
Proof. split; [done|]. split; [done|]. by eexists. Qed.

Lemma mq_send_spec_witness :
  exists y, @mut_own sim_kernel y = 0 /\
    exists k, run (mq_send task_a 64 4 [7] 4 0) (mq_world (sim_mqd [[5]] 0 1 0))
              = [Done 0 (with_allq_mux y (put 64 (with_q k (sim_mqd [[5]] 0 1 0)) (mq_world (sim_mqd [[5]] 0 1 0))))]
      /\ mq_items k = [[5]; [7]] /\ mq_sz k = 2 /\ mq_isz k = 4.
Proof.
  apply (mq_send_spec sim_mut_laws sim_mq_laws (mq_world (sim_mqd [[5]] 0 1 0)) task_a 64 (sim_mqd [[5]] 0 1 0) 4 [7] 4 0).
  - done.
  - apply mq_world_ready.
  - apply mq_world_listed.
  - reflexivity.
  - simpl. lia.
  - left. reflexivity.
Defined.

Lemma mq_receive_spec_witness :
  exists y, @mut_own sim_kernel y = 0 /\
    exists k, run (mq_receive task_a 64 4 8) (mq_world (sim_mqd [[5]; [6]] 0 1 0))
              = [Done (4, Some [5]) (with_allq_mux y (put 64 (with_q k (sim_mqd [[5]; [6]] 0 1 0)) (mq_world (sim_mqd [[5]; [6]] 0 1 0))))]
      /\ mq_items k = [[6]] /\ mq_sz k = 2 /\ mq_isz k = 4.
Proof.
  apply (mq_receive_spec sim_mut_laws sim_mq_laws (mq_world (sim_mqd [[5]; [6]] 0 1 0)) task_a 64 (sim_mqd [[5]; [6]] 0 1 0) 4 8).
  - done.
  - apply mq_world_ready.
  - apply mq_world_listed.
  - reflexivity.
  - left. done.
  - simpl. lia.
Defined.

Lemma mq_fifo_witness :
  exists w', run (let* sent := send_all task_a 64 4 4 [[5]; [6]] in
                  let* got := receive_all task_a 64 4 4 2 in
                  Ret (sent, got)) (mq_world (sim_mqd [] 0 1 0))
    = [Done ([0; 0], [(4, Some [5]); (4, Some [6])]) w'].
Proof.
  apply (mq_fifo sim_mut_laws sim_mq_laws (mq_world (sim_mqd [] 0 1 0)) task_a 64 (sim_mqd [] 0 1 0) 4 4 4 [[5]; [6]]).
  - done.
  - apply mq_world_ready.
  - apply mq_world_listed.
  - reflexivity.
  - reflexivity.
  - simpl. lia.
  - simpl. lia.
  - simpl. lia.
Defined.

Lemma mq_deadline_refused_witness :
  (exists y, @mut_own sim_kernel y = 0 /\
     run (mq_timedsend task_a 64 4 [7] 4 0 (Some (mk_timespec 1 0))) (mq_world (sim_mqd [] 0 1 0))
     = [Done (-1) (with_allq_mux y (with_errno 11 ETIMEDOUT (mq_world (sim_mqd [] 0 1 0))))])
  /\ exists y, @mut_own sim_kernel y = 0 /\
     run (mq_timedreceive task_a 64 4 4 (Some (mk_timespec 1 0))) (mq_world (sim_mqd [] 0 1 0))
     = [Done (-1, None) (with_allq_mux y (with_errno 11 ETIMEDOUT (mq_world (sim_mqd [] 0 1 0))))].
Proof.
  apply (mq_deadline_refused sim_mut_laws (mq_world (sim_mqd [] 0 1 0)) task_a 64 (sim_mqd [] 0 1 0) 4 [7] 4 0 (mk_timespec 1 0)).
  - vm_compute; intuition congruence.
  - done.
  - apply mq_world_ready.
  - apply mq_world_listed.
  - reflexivity.
  - reflexivity.
  - right. vm_compute. intuition congruence.
  - reflexivity.
Defined.

Lemma mq_bad_descriptor_witness :
  exists y, @mut_own sim_kernel y = 0 /\
    let w' := with_allq_mux y (with_errno 11 EBADF (mq_empty_world 1)) in
    run (mq_close task_a 64) (mq_empty_world 1) = [Done (-1) w']
    /\ run (mq_getattr task_a 64) (mq_empty_world 1) = [Done (-1, None) w']
    /\ run (mq_timedsend task_a 64 4 [7] 4 0 None) (mq_empty_world 1) = [Done (-1) w']
    /\ run (mq_timedreceive task_a 64 4 4 None) (mq_empty_world 1) = [Done (-1, None) w'].
Proof.
  apply (mq_bad_descriptor sim_mut_laws (mq_empty_world 1) task_a 64 4 [7] 4 0 None).
  - done.
  - done.
  - right. set_solver.
  - reflexivity.
Defined.

(** A task that creates a queue and closes it. *)
Definition open_close (c : caller) : prog (@world sim_kernel) Z :=
  let* d := mq_open c "/q" O_CREAT 0 None in
  let* r := mq_close c d in
  Ret r.

Lemma open_close_client c : mq_client (open_close c).
Proof.
  unfold open_close. apply ClientCall; [constructor|]. intros d.
  apply ClientCall; [constructor|]. intros r. constructor.
Qed.

Lemma mq_never_listed_witness :
  let c := ([open_close task_a; open_close task_b], mq_empty_world 1) in
  no_queue c.2 /\ forall d, bad_descriptor c.2 d.
Proof.
  intros c. apply (mq_never_listed sim_ll_laws [open_close task_a; open_close task_b] (mq_empty_world 1) c).
  - repeat constructor; apply open_close_client.
  - reflexivity.
  - constructor.
Defined.

Lemma mq_open_creates_witness :
  let w := mq_empty_world 1 in
  open_queue w = 4 /\ open_buffer w None = 20 /\
  exists w', run (mq_open task_a "/q" O_CREAT 0 None) w = [Done (open_queue w) w']
    /\ mem w !! open_queue w = None
    /\ at_ (open_queue w) w' = Some (new_queue "/q" O_CREAT None (open_buffer w None))
    /\ mq_isz (q (new_queue "/q" O_CREAT None (open_buffer w None))) = 1
    /\ mem w' !! open_buffer w None = Some (ORaw 128)
    /\ mq_ready w' /\ allq w' = allq w /\ bad_descriptor w' (open_queue w).
Proof.
  intros w. split; [vm_compute; reflexivity|]. split; [vm_compute; reflexivity|].
  apply (mq_open_creates sim_mut_laws sim_mq_laws sim_alloc_laws w task_a "/q" O_CREAT 0 None).
  - done.
  - done.
  - reflexivity.
  - vm_compute; intuition congruence.
  - intros e He. by apply elem_of_nil in He.
  - reflexivity.
  - vm_compute; intuition congruence.
  - reflexivity.
Defined.

Lemma mq_open_no_memory_deadlock_witness :
  let others := [let* r := mq_close task_b 64 in Ret r; let* r := mq_unlink task_b "/q" in Ret r] in
  exists w', run (mq_open task_a "/q" O_CREAT 0 None) (mq_empty_world 2) = [Done MQD_ERROR w']
    /\ errno_of 11 w' = ENOENT /\ mut_own (allq_mux w') = 11
    /\ forall d, reach clocked_step (others, w') d -> mut_own (allq_mux d.2) = 11 /\ forall i r, d.1 !! i <> Some (Ret r).
Proof.
  destruct (mq_open_no_memory_deadlock sim_mut_laws (mq_empty_world 2) task_a "/q" O_CREAT 0 None)
    as (w' & Hrun & He & Ho & Hall).
  - done.
  - done.
  - reflexivity.
  - vm_compute; intuition congruence.
  - intros e He. by apply elem_of_nil in He.
  - reflexivity.
  - done.
  - reflexivity.
  - exists w'. split; [exact Hrun|]. split; [exact He|]. split; [exact Ho|]. intros d Hd.
    destruct (Hall Z [let* r := mq_close task_b 64 in Ret r; let* r := mq_unlink task_b "/q" in Ret r] d) as (H1 & H2 & _); [|exact Hd|split; [exact H1|exact H2]].
    apply Forall_cons; split; [|apply Forall_singleton].
    + exists Z, (mq_close task_b 64), Ret. split; [by apply LockClose|reflexivity].
    + exists Z, (mq_unlink task_b "/q"), Ret. split; [by apply LockUnlink|reflexivity].
Defined.

Lemma mq_open_long_name_overflow_witness :
  run (mq_open task_a "/sixteen-letters" O_CREAT 0 None) (mq_empty_world 1) = [Fault BufferOverflow].
Proof.
  apply (mq_open_long_name_overflow sim_mut_laws sim_alloc_laws (mq_empty_world 1) task_a "/sixteen-letters" O_CREAT 0 None).
  - done.
  - done.
  - reflexivity.
  - vm_compute; intuition congruence.
  - intros e He. by apply elem_of_nil in He.
  - reflexivity.
  - vm_compute; intuition congruence.
  - vm_compute. congruence.
Defined.

(** A second [mq_close] of a queue nobody unlinked releases it. *)
Lemma mq_close_spec_witness :
  exists y, @mut_own sim_kernel y = 0
    /\ run (mq_close task_a 64) (mq_world (sim_mqd [] 0 1 1))
       = [Done 0 (with_allq_mux y (queue_released 64 (sim_mqd [] 0 1 1) (mq_world (sim_mqd [] 0 1 1))))].
Proof.
  apply (mq_close_spec sim_mut_laws (mq_world (sim_mqd [] 0 1 1)) task_a 64 (sim_mqd [] 0 1 1)).
  - done.
  - apply mq_world_ready.
  - apply mq_world_listed.
  - apply mq_world_buffer.
  - simpl. lia.
Defined.

Lemma mq_unlink_spec_witness :
  exists y, @mut_own sim_kernel y = 0
    /\ run (mq_unlink task_a "/q") (mq_world (sim_mqd [] 0 0 0))
       = [Done 0 (with_allq_mux y (queue_released 64 (sim_mqd [] 0 0 0) (mq_world (sim_mqd [] 0 0 0))))].
Proof.
  apply (mq_unlink_spec sim_mut_laws (mq_world (sim_mqd [] 0 0 0)) task_a "/q" 64 (sim_mqd [] 0 0 0)).
  - done.
  - apply mq_world_ready.
  - reflexivity.
  - apply mq_world_found.
  - apply mq_world_buffer.
Defined.

Lemma mq_open_existing_witness :
  exists y, @mut_own sim_kernel y = 0 /\
    run (mq_open task_a "/q" 0 0 None) (mq_world (sim_mqd [] 0 1 0))
    = [Done 64 (with_allq_mux y (put 64 (set_refs 2 0 (sim_mqd [] 0 1 0)) (mq_world (sim_mqd [] 0 1 0))))].
Proof.
  apply (mq_open_existing sim_mut_laws (mq_world (sim_mqd [] 0 1 0)) task_a "/q" 0 0 None 64 (sim_mqd [] 0 1 0)).
  - done.
  - apply mq_world_ready.
  - reflexivity.
  - reflexivity.
  - apply mq_world_found.
Defined.
End mqueue_witnesses.
