(* ===== verification/MqueueSpec.v ===== *)
(** What the message queues promise, and that [posix_mqueue.c] keeps it.  The
    specification is a list of abstract queues: a name, a capacity, an item
    size, flags, the messages, and the references that keep the queue alive.
    Each operation is a function on it, errors and blocking included, and the
    code refines it.  Creating a queue is not specified: the code does not put
    the new queue on the list ([mq_never_listed]). *)
From Stdlib Require Import Ascii.
From S2P Require Import Prelude Prog Kernel World SimKernel Timespec Clock Mqueue.

(** ** The specification *)

Record aqueue := mk_aqueue {
  a_name : string;
  a_cap : Z;
  a_isz : Z;
  a_flags : Z;
  a_items : list (list Z);
  a_refs : Z;
  a_pending : bool
}.

(** The queues in the order of the list, by descriptor. *)
Definition aqueues : Type := list (Z * aqueue).

Definition set_items (its : list (list Z)) (a : aqueue) : aqueue :=
  mk_aqueue (a_name a) (a_cap a) (a_isz a) (a_flags a) its (a_refs a) (a_pending a).
Definition set_life (n : Z) (u : bool) (a : aqueue) : aqueue :=
  mk_aqueue (a_name a) (a_cap a) (a_isz a) (a_flags a) (a_items a) n u.

Fixpoint queue_at (d : Z) (s : aqueues) : option aqueue :=
  match s with
  | [] => None
  | (e, a) :: s' => if e =? d then Some a else queue_at d s'
  end.

Fixpoint queue_named (nm : string) (s : aqueues) : option (Z * aqueue) :=
  match s with
  | [] => None
  | (e, a) :: s' => if String.eqb nm (a_name a) then Some (e, a) else queue_named nm s'
  end.

Fixpoint replace_at (d : Z) (a : aqueue) (s : aqueues) : aqueues :=
  match s with
  | [] => []
  | (e, b) :: s' => if e =? d then (e, a) :: s' else (e, b) :: replace_at d a s'
  end.

Fixpoint remove_at (d : Z) (s : aqueues) : aqueues :=
  match s with
  | [] => []
  | (e, b) :: s' => if e =? d then remove_at d s' else (e, b) :: remove_at d s'
  end.

(** The operations, with their arguments in C but for the calling task. *)
Inductive mq_op :=
| OpSend (d ptr : Z) (msg : list Z) (len prio : Z)
| OpReceive (d ptr len : Z)
| OpGetattr (d : Z)
| OpClose (d : Z)
| OpUnlink (nm : string)
| OpOpen (nm : string) (oflag mode : Z) (attr : option mq_attr).

(** The result in C, the message received, the attributes read. *)
Definition mq_result : Type := Z * option (list Z) * option mq_attr.

(** [Returns r e s]: the operation returns [r], sets [errno] if [e] says so,
    and leads to [s].  [Blocks]: it does not return. *)
Inductive mq_outcome :=
| Returns (r : mq_result) (e : option Z) (s : aqueues)
| Blocks
| Unspecified.

Definition fails (r e : Z) (s : aqueues) : mq_outcome := Returns (r, None, None) (Some e) s.

Definition misaligned (ptr : Z) : bool := negb (Z.land (wrapu 32 ptr) 3 =? 0).

Definition spec_send (d ptr : Z) (msg : list Z) (len : Z) (s : aqueues) : mq_outcome :=
  if misaligned ptr then fails (-1) EINVAL s
  else match queue_at d s with
  | None => fails (-1) EBADF s
  | Some a =>
      if a_isz a <? len then fails (-1) EMSGSIZE s
      else if Z.of_nat (length (a_items a)) <? a_cap a
      then Returns (0, None, None) None (replace_at d (set_items (a_items a ++ [msg]) a) s)
      else if has_flag (a_flags a) O_NONBLOCK then fails (-1) EAGAIN s else Blocks
  end.

Definition spec_receive (d ptr len : Z) (s : aqueues) : mq_outcome :=
  if misaligned ptr then fails (-1) EINVAL s
  else match queue_at d s with
  | None => fails (-1) EBADF s
  | Some a =>
      if len <? a_isz a then fails (-1) EMSGSIZE s
      else match a_items a with
      | msg :: rest => Returns (a_isz a, Some msg, None) None (replace_at d (set_items rest a) s)
      | [] => if has_flag (a_flags a) O_NONBLOCK then fails (-1) EAGAIN s else Blocks
      end
  end.

Definition spec_getattr (d : Z) (s : aqueues) : mq_outcome :=
  match queue_at d s with
  | None => fails (-1) EBADF s
  | Some a =>
      Returns (0, None, Some (mk_mq_attr (a_flags a) (a_cap a) (a_isz a) (Z.of_nat (length (a_items a)))))
        None s
  end.

(** The last reference that is dropped starts the unlinking, and drops the
    queue if it had been started. *)
Definition spec_close (d : Z) (s : aqueues) : mq_outcome :=
  match queue_at d s with
  | None => fails (-1) EBADF s
  | Some a =>
      let n := Z.max 0 (a_refs a - 1) in
      Returns (0, None, None) None
        (if (n =? 0) && a_pending a then remove_at d s
         else replace_at d (set_life n ((n =? 0) || a_pending a) a) s)
  end.

Definition valid_name (nm : string) : bool := (validate_name nm).1 =? 1.

Definition spec_unlink (nm : string) (s : aqueues) : mq_outcome :=
  if negb (valid_name nm) then fails (-1) ENAMETOOLONG s
  else match queue_named nm s with
  | None => fails (-1) ENOENT s
  | Some (d, a) =>
      Returns (0, None, None) None
        (if a_refs a =? 0 then remove_at d s else replace_at d (set_life (a_refs a) true a) s)
  end.

Definition spec_open (nm : string) (oflag : Z) (attr : option mq_attr) (s : aqueues) : mq_outcome :=
  if negb (valid_name nm) || negative_attr attr then fails MQD_ERROR EINVAL s
  else match queue_named nm s with
  | Some (d, a) =>
      if has_flag oflag O_EXCL && has_flag oflag O_CREAT then fails MQD_ERROR EEXIST s
      else Returns (d, None, None) None (replace_at d (set_life (wrapu 16 (a_refs a + 1)) (a_pending a) a) s)
  | None => if has_flag oflag O_CREAT then Unspecified else fails MQD_ERROR ENOENT s
  end.

Definition mq_spec (o : mq_op) (s : aqueues) : mq_outcome :=
  match o with
  | OpSend d ptr msg len _ => spec_send d ptr msg len s
  | OpReceive d ptr len => spec_receive d ptr len s
  | OpGetattr d => spec_getattr d s
  | OpClose d => spec_close d s
  | OpUnlink nm => spec_unlink nm s
  | OpOpen nm oflag _ attr => spec_open nm oflag attr s
  end.

(** *** Lemmas on lists of queues *)

Lemma queue_at_replace d e a s :
  queue_at e (replace_at d a s)
  = if (e =? d) && bool_decide (is_Some (queue_at d s)) then Some a else queue_at e s.
Proof.
  induction s as [|[x b] s IH]; simpl; [by rewrite andb_false_r|].
  destruct (x =? d) eqn:Ed; simpl.
  - rewrite andb_true_r. apply Z.eqb_eq in Ed as ->.
    rewrite (Z.eqb_sym e d). by destruct (d =? e).
  - rewrite IH. destruct (x =? e) eqn:Ee; [|done]. apply Z.eqb_eq in Ee as ->. by rewrite Ed.
Qed.

Lemma queue_at_remove d e s :
  queue_at e (remove_at d s) = if e =? d then None else queue_at e s.
Proof.
  induction s as [|[x b] s IH]; simpl; [by destruct (e =? d)|].
  destruct (x =? d) eqn:Ed; simpl; rewrite IH.
  - apply Z.eqb_eq in Ed as ->. rewrite (Z.eqb_sym d e). by destruct (e =? d).
  - destruct (x =? e) eqn:Ee; [|done]. apply Z.eqb_eq in Ee as ->. by rewrite Ed.
Qed.

(** The descriptors are distinct. *)
Definition distinct (s : aqueues) : Prop := NoDup (map fst s).

Lemma keys_replace d a s : map fst (replace_at d a s) = map fst s.
Proof. induction s as [|[e b] s IH]; simpl; [done|]. destruct (e =? d); simpl; [done|by rewrite IH]. Qed.

Lemma keys_remove d s : map fst (remove_at d s) = filter (fun x => x <> d) (map fst s).
Proof.
  induction s as [|[e b] s IH]; simpl; [done|].
  rewrite filter_cons. destruct (e =? d) eqn:E; simpl; rewrite IH.
  - apply Z.eqb_eq in E as ->. by rewrite decide_False by (intros H; by apply H).
  - apply Z.eqb_neq in E. by rewrite decide_True.
Qed.

Lemma queue_at_in d a s : queue_at d s = Some a -> (d, a) ∈ s.
Proof.
  induction s as [|[e b] s IH]; simpl; [done|]. destruct (e =? d) eqn:E.
  - intros [= ->]. apply Z.eqb_eq in E as ->. by left.
  - intros H. right. by apply IH.
Qed.

Lemma queue_at_distinct d a s : distinct s -> (d, a) ∈ s -> queue_at d s = Some a.
Proof.
  unfold distinct. induction s as [|[e b] s IH]; simpl; [by intros _ ?%not_elem_of_nil|].
  intros [Hn Hd]%NoDup_cons [[= -> ->]|Hin]%elem_of_cons; [by rewrite Z.eqb_refl|].
  destruct (e =? d) eqn:E; [|by apply IH]. apply Z.eqb_eq in E as ->. exfalso. apply Hn.
  apply list_elem_of_fmap. by exists (d, a).
Qed.

Lemma queue_named_in nm d a s : queue_named nm s = Some (d, a) -> (d, a) ∈ s /\ a_name a = nm.
Proof.
  induction s as [|[e b] s IH]; simpl; [done|]. destruct (String.eqb nm (a_name b)) eqn:E.
  - intros [= -> ->]. apply String.eqb_eq in E. split; [by left|done].
  - intros H. destruct (IH H). split; [by right|done].
Qed.

(** ** The refinement *)

Section refinement.
Context `{P : Platform} `{!PlatformOk P} `{K : Kernel}
  (ML : MutLaws P K) (QL : MqLaws K) (WL : MqWaitLaws P K QL) (LL : LlLaws K).
Implicit Types (w : world) (c : caller) (m : mqd_internal_t) (s : aqueues) (a : aqueue).

(** The abstract queue of a [mqd_internal_t], whose numbers are in their
    ranges. *)
Definition abstracts m a : Prop :=
  a = mk_aqueue (name m) (mq_sz (q m)) (mq_isz (q m)) (flags m) (mq_items (q m)) (open_count m)
        (negb (pending_unlink m =? 0))
  /\ 0 <= mq_isz (q m) < 2 ^ 31 /\ mq_n (q m) <= mq_sz (q m) /\ 0 <= open_count m.

(** The list and the structures of [w] are the queues [s]; their buffers are
    allocated and nobody else's. *)
Record represents w s : Prop := {
  rp_ready : mq_ready w;
  rp_keys : ll_elems (allq w) = map fst s;
  rp_distinct : distinct s;
  rp_hook : hcos_posix_free w <> 0;
  rp_queue d a : queue_at d s = Some a -> d <> 0 /\ exists m, at_ d w = Some m /\ abstracts m a;
  rp_buffer d m : d ∈ map fst s -> at_ d w = Some m ->
    is_Some (mem w !! buf m) /\ ~ (buf m ∈ map fst s)
    /\ forall d' m', d' ∈ map fst s -> at_ d' w = Some m' -> buf m' = buf m -> d' = d
}.

Lemma queue_at_key d a s : queue_at d s = Some a -> d ∈ map fst s.
Proof. intros H%queue_at_in. apply list_elem_of_fmap. by exists (d, a). Qed.

Lemma queue_at_none d s : queue_at d s = None -> d ∉ map fst s.
Proof.
  induction s as [|[e b] s IH]; simpl; [by intros _ ?%not_elem_of_nil|].
  destruct (e =? d) eqn:E; [done|]. intros H [->|Hin]%elem_of_cons; [by rewrite Z.eqb_refl in E|].
  by apply IH.
Qed.

Lemma represents_listed w s d a :
  represents w s -> queue_at d s = Some a ->
  exists m, listed w d m /\ abstracts m a /\ owns_buffer w d m.
Proof.
  intros R Ha. destruct (rp_queue _ _ R d a Ha) as (Hd & m & Hm & Hab). exists m.
  pose proof (queue_at_key d a s Ha) as Hk. destruct (rp_buffer _ _ R d m Hk Hm) as (Hb & Hn & _).
  split; [split; [done|split; [by rewrite (rp_keys _ _ R)|done]]|]. split; [done|].
  split; [apply R|]. split; [|done]. intros E. by rewrite E in Hn.
Qed.

Lemma represents_bad w s d : represents w s -> queue_at d s = None -> bad_descriptor w d.
Proof. intros R Hd. right. rewrite (rp_keys _ _ R). by apply queue_at_none. Qed.

Lemma represents_errno w s me e : represents w s -> represents (with_errno me e w) s.
Proof. intros R. split; try apply R. Qed.

Lemma represents_mux w s y : represents w s -> mut_own y = 0 -> represents (with_allq_mux y w) s.
Proof. intros R Hy. split; try apply R. split; [apply R|done]. Qed.

(** An update of one queue. *)
Lemma represents_put w s d a m m' a' :
  represents w s -> queue_at d s = Some a -> at_ d w = Some m -> abstracts m' a' -> buf m' = buf m ->
  represents (put d m' w) (replace_at d a' s).
Proof.
  intros R Ha Hm Hab Hb. pose proof (queue_at_key d a s Ha) as Hk.
  assert (forall x n, x ∈ map fst s -> at_ x (put d m' w) = Some n ->
    exists n0, at_ x w = Some n0 /\ buf n0 = buf n) as Hat.
  { intros x n Hx Hn. destruct (decide (x = d)) as [->|Hne].
    - rewrite at_put in Hn. injection Hn as <-. by exists m.
    - rewrite at_put_ne in Hn by done. by exists n. }
  split; try apply R.
  - simpl. rewrite keys_replace. apply R.
  - unfold distinct. rewrite keys_replace. apply R.
  - intros e b He. rewrite queue_at_replace, Ha, bool_decide_true, andb_true_r in He by done.
    destruct (e =? d) eqn:E.
    + apply Z.eqb_eq in E as ->. injection He as <-.
      split; [by apply (rp_queue _ _ R d a)|]. exists m'. split; [apply at_put|done].
    + apply Z.eqb_neq in E. destruct (rp_queue _ _ R e b He) as (He0 & n & Hn & Hab').
      split; [done|]. exists n. by rewrite at_put_ne.
  - rewrite keys_replace. intros x n Hx Hn. destruct (Hat x n Hx Hn) as (n0 & Hn0 & <-).
    destruct (rp_buffer _ _ R x n0 Hx Hn0) as (H1 & H2 & H3). split; [|split; [done|]].
    + unfold put, with_mem. simpl. destruct (decide (buf n0 = d)) as [->|Hne]; [by rewrite lookup_insert_eq|].
      by rewrite lookup_insert_ne.
    + intros y n' Hy Hn' E. destruct (Hat y n' Hy Hn') as (n1 & Hn1 & E1). apply (H3 y n1 Hy Hn1). congruence.
Qed.

(** The release of one. *)
Lemma represents_release w s d a m :
  represents w s -> queue_at d s = Some a -> at_ d w = Some m ->
  represents (queue_released d m w) (remove_at d s).
Proof.
  intros R Ha Hm. pose proof (queue_at_key d a s Ha) as Hk.
  destruct (rp_buffer _ _ R d m Hk Hm) as (_ & Hbn & Hbu).
  assert (forall x, x ∈ map fst (remove_at d s) -> x <> d /\ x ∈ map fst s) as Hkey.
  { intros x. rewrite keys_remove. by intros [? ?]%list_elem_of_filter. }
  assert (forall x, x ∈ map fst s -> x <> d -> at_ (S:=mqd_internal_t) x (queue_released d m w) = at_ x w) as Hat.
  { intros x Hx Hne. unfold at_, queue_released. simpl.
    rewrite lookup_delete_ne by done. rewrite lookup_delete_ne; [done|]. by intros <-. }
  split; try apply R.
  - simpl. rewrite keys_remove, lle_del_elems, (rp_keys _ _ R); [done|]. rewrite (rp_keys _ _ R). apply R.
  - unfold distinct. rewrite keys_remove. apply NoDup_filter, R.
  - intros e b He. pose proof (queue_at_key e b _ He) as [Hne Hin]%Hkey.
    rewrite queue_at_remove in He. apply Z.eqb_neq in Hne as Ee. rewrite Ee in He.
    destruct (rp_queue _ _ R e b He) as (He0 & n & Hn & Hab). split; [done|].
    exists n. by rewrite Hat.
  - intros x n [Hne Hx]%Hkey Hn. rewrite Hat in Hn by done.
    destruct (rp_buffer _ _ R x n Hx Hn) as (H1 & H2 & H3). split; [|split].
    + simpl. rewrite lookup_delete_ne by (intros E; apply H2; by rewrite <- E).
      rewrite lookup_delete_ne; [done|]. intros E. apply Hne. symmetry. by apply (H3 d m).
    + by intros [_ ?]%Hkey.
    + intros y n' [Hny Hy]%Hkey Hn' E. rewrite Hat in Hn' by done. by apply (H3 y n').
Qed.

(** *** The checks of a transfer *)

Definition check_error (ptr d : Z) (bad : Z -> bool) s : option Z :=
  if misaligned ptr then Some EINVAL
  else match queue_at d s with
  | None => Some EBADF
  | Some a => if bad (a_isz a) then Some EMSGSIZE else None
  end.

Lemma with_errno_twice me e e' w : with_errno me e (with_errno me e' w) = with_errno me e w.
Proof. unfold with_errno. simpl. by rewrite insert_insert_eq. Qed.

Lemma run_checks_spec w c s d ptr bad :
  task_cur c <> 0 -> represents w s ->
  exists y, mut_own y = 0 /\
    match check_error ptr d bad s with
    | Some e => exists mq t, run (mq_checks c d ptr bad None) w
        = [Done (-1, mq, t) (with_allq_mux y (with_errno (task_cur c) e w))]
    | None => exists a, queue_at d s = Some a /\ run (mq_checks c d ptr bad None) w
        = [Done (0, d, no_deadline_ticks (a_flags a)) (with_allq_mux y w)]
    end.
Proof.
  intros Hc R. destruct (rp_ready _ _ R) as [Hi Hf].
  unfold check_error, misaligned. destruct (Z.land (wrapu 32 ptr) 3 =? 0) eqn:Ep; cbn [negb].
  - apply Z.eqb_eq in Ep. destruct (queue_at d s) as [a|] eqn:Ha.
    + destruct (represents_listed w s d a R Ha) as (m & Hl & [-> _] & _). simpl.
      destruct (run_checks ML w c d m ptr bad None 0 (no_deadline_ticks (flags m)))
        as (y & Hy & Hrun); [done..|by rewrite tick_timeout_none|].
      exists y. split; [done|]. cbn [Z.eqb] in Hrun.
      destruct (bad (mq_isz (q m))); [by eexists _, _|by eexists].
    + destruct (run_lock ML w c Hc Hf) as (x & Hx & Hrun).
      exists (mut_unlock (task_cur c) x). split; [by apply mut_unlock_held|]. exists 0, 0.
      unfold mq_checks. rewrite Hrun, run_extract_bad by exact (represents_bad w s d R Ha).
      cbn [Z.eqb]. step. cbn [bind]. rewrite Ep. cbn [Z.eqb negb bind]. by rewrite run_unlock_queues.
  - destruct (run_lock ML w c Hc Hf) as (x & Hx & Hrun).
    exists (mut_unlock (task_cur c) x). split; [by apply mut_unlock_held|].
    unfold mq_checks. rewrite Hrun, run_extract. eexists _, _.
    destruct (extract_in _ d =? 0) eqn:E0; rewrite Ep; cbn [negb bind].
    + step. cbn [bind]. step. cbn [Z.eqb bind]. rewrite run_unlock_queues, with_errno_twice. done.
    + step. cbn [Z.eqb bind]. by rewrite run_unlock_queues.
Qed.

(** *** The operations *)

Definition mq_exec c (o : mq_op) : prog world mq_result :=
  match o with
  | OpSend d ptr msg len prio => let* r := mq_send c d ptr msg len prio in Ret (r, None, None)
  | OpReceive d ptr len => let* (r, msg) := mq_receive c d ptr len in Ret (r, msg, None)
  | OpGetattr d => let* (r, a) := mq_getattr c d in Ret (r, None, a)
  | OpClose d => let* r := mq_close c d in Ret (r, None, None)
  | OpUnlink nm => let* r := mq_unlink c nm in Ret (r, None, None)
  | OpOpen nm oflag mode attr => let* r := mq_open c nm oflag mode attr in Ret (r, None, None)
  end.

(** What the specification says of an operation is what the code does. *)
Definition meets c (o : mq_op) w (x : mq_outcome) : Prop :=
  match x with
  | Returns r e s' =>
      exists w', run (mq_exec c o) w = [Done r w'] /\ represents w' s'
        /\ forall v, e = Some v -> errno_of (task_cur c) w' = v
  | Blocks => run (mq_exec c o) w = []
  | Unspecified => True
  end.

Lemma meets_fails c o w s r e y :
  represents w s -> mut_own y = 0 ->
  run (mq_exec c o) w = [Done (r, None, None) (with_allq_mux y (with_errno (task_cur c) e w))] ->
  meets c o w (fails r e s).
Proof.
  intros R Hy Hrun. eexists. split; [exact Hrun|]. split; [by apply represents_mux, Hy; apply represents_errno|].
  intros v [= <-]. apply errno_set.
Qed.

(** Neither the capacity nor the item size of a queue changes. *)
Lemma abstracts_items m a k :
  abstracts m a -> mq_sz k = mq_sz (q m) -> mq_isz k = mq_isz (q m) -> mq_n k <= mq_sz k ->
  abstracts (with_q k m) (set_items (mq_items k) a).
Proof. intros (-> & H1 & H2 & H3) Hs Hz Hn. unfold abstracts, set_items. simpl. by rewrite Hs, Hz in *. Qed.

Lemma meets_send c w s d ptr msg len prio :
  task_cur c <> 0 -> represents w s ->
  meets c (OpSend d ptr msg len prio) w (mq_spec (OpSend d ptr msg len prio) s).
Proof.
  intros Hc R. destruct (run_checks_spec w c s d ptr (fun isz => isz <? len) Hc R) as (y & Hy & H).
  cbn [mq_spec]. unfold spec_send, check_error in *.
  assert (forall e mq t, run (mq_checks c d ptr (fun isz => isz <? len) None) w
      = [Done (-1, mq, t) (with_allq_mux y (with_errno (task_cur c) e w))] ->
    meets c (OpSend d ptr msg len prio) w (fails (-1) e s)) as Hfail.
  { intros e mq t Hrun. apply (meets_fails _ _ _ _ _ _ y R Hy).
    cbn [mq_exec]. unfold mq_send, mq_timedsend. by rewrite run_assoc, (run_call _ _ _ _ _ Hrun). }
  destruct (misaligned ptr); [destruct H as (mq & t & H); by eapply Hfail|].
  destruct (queue_at d s) as [a|] eqn:Ha; [|destruct H as (mq & t & H); by eapply Hfail].
  destruct (a_isz a <? len) eqn:El; [destruct H as (mq & t & H); by eapply Hfail|].
  destruct H as (a' & [= <-] & Hrun).
  destruct (represents_listed w s d a R Ha) as (m & Hl & Hab & _).
  assert (at_ d (with_allq_mux y w) = Some m) as Hm by apply Hl.
  assert (run (mq_exec c (OpSend d ptr msg len prio)) w
    = run (let* r := put_tail c d (no_deadline_ticks (flags m)) msg in Ret (r, None, None)) (with_allq_mux y w)) as Hput.
  { destruct Hab as [-> _]. cbn [mq_exec]. unfold mq_send, mq_timedsend.
    by rewrite run_assoc, (run_call _ _ _ _ _ Hrun). }
  pose proof Hab as (Ea & Hz & Hn & Ho). rewrite mq_n_items in Hn. rewrite Ea. simpl.
  destruct (Z.of_nat (length (mq_items (q m))) <? mq_sz (q m)) eqn:Er.
  - destruct (mq_put_room (q m) (no_deadline_ticks (flags m)) msg) as (k & Hk & Hi & Hs & Hiz);
      [rewrite mq_n_items; bool_lia|].
    exists (with_allq_mux y (put d (with_q k m) w)). split; [|split; [|done]].
    + rewrite Hput. unfold put_tail, mqd_q. rewrite run_assoc. by kstep Hk.
    + apply represents_mux; [|done]. rewrite <- Ea, <- Hi. apply (represents_put w s d a m); try done.
      apply abstracts_items; try done. rewrite mq_n_items, Hi, length_app, Hs. simpl. bool_lia.
  - destruct (has_flag (flags m) O_NONBLOCK) eqn:Ef.
    + destruct (mq_put_full (q m) msg) as (r & Hr0 & Hk); [rewrite mq_n_items; bool_lia|].
      apply (meets_fails _ _ _ _ _ _ y R Hy). rewrite Hput. unfold put_tail, mqd_q, no_deadline_ticks.
      rewrite Ef. rewrite run_assoc. kstep Hk. test_false (r =? 0). cbn [negb].
      by rewrite (run_call _ _ _ _ _ (run_failed _ c d m Hm Ef)).
    + cbn [meets]. rewrite Hput. unfold put_tail, mqd_q, no_deadline_ticks. rewrite Ef, run_assoc.
      eapply run_kcall_block; [exact Hm|]. apply mq_put_wait. rewrite mq_n_items. bool_lia.
Qed.

Lemma meets_receive c w s d ptr len :
  task_cur c <> 0 -> represents w s ->
  meets c (OpReceive d ptr len) w (mq_spec (OpReceive d ptr len) s).
Proof.
  intros Hc R. destruct (run_checks_spec w c s d ptr (fun isz => len <? isz) Hc R) as (y & Hy & H).
  cbn [mq_spec]. unfold spec_receive, check_error in *.
  assert (forall e mq t, run (mq_checks c d ptr (fun isz => len <? isz) None) w
      = [Done (-1, mq, t) (with_allq_mux y (with_errno (task_cur c) e w))] ->
    meets c (OpReceive d ptr len) w (fails (-1) e s)) as Hfail.
  { intros e mq t Hrun. apply (meets_fails _ _ _ _ _ _ y R Hy).
    cbn [mq_exec]. unfold mq_receive, mq_timedreceive. by rewrite run_assoc, (run_call _ _ _ _ _ Hrun). }
  destruct (misaligned ptr); [destruct H as (mq & t & H); by eapply Hfail|].
  destruct (queue_at d s) as [a|] eqn:Ha; [|destruct H as (mq & t & H); by eapply Hfail].
  destruct (len <? a_isz a) eqn:El; [destruct H as (mq & t & H); by eapply Hfail|].
  destruct H as (a' & [= <-] & Hrun).
  destruct (represents_listed w s d a R Ha) as (m & Hl & Hab & _).
  assert (at_ d (with_allq_mux y w) = Some m) as Hm by apply Hl.
  assert (run (mq_exec c (OpReceive d ptr len)) w
    = run (let* (r, msg) := get_tail c d (no_deadline_ticks (flags m)) in Ret (r, msg, None)) (with_allq_mux y w)) as Hget.
  { destruct Hab as [-> _]. cbn [mq_exec]. unfold mq_receive, mq_timedreceive.
    by rewrite run_assoc, (run_call _ _ _ _ _ Hrun). }
  pose proof Hab as (Ea & Hz & Hn & Ho). rewrite Ea. simpl a_items. simpl a_flags. simpl a_isz.
  destruct (mq_items (q m)) as [|msg rest] eqn:Ei.
  - destruct (has_flag (flags m) O_NONBLOCK) eqn:Ef.
    + destruct (mq_get_none (q m) Ei) as (r & msg & Hr0 & Hk).
      apply (meets_fails _ _ _ _ _ _ y R Hy). rewrite Hget. unfold get_tail, mqd_q, no_deadline_ticks.
      rewrite Ef, run_assoc. kstep Hk. test_false (r =? 0). cbn [negb]. rewrite run_assoc.
      by rewrite (run_call _ _ _ _ _ (run_failed _ c d m Hm Ef)).
    + cbn [meets]. rewrite Hget. unfold get_tail, mqd_q, no_deadline_ticks. rewrite Ef, run_assoc.
      eapply run_kcall_block; [exact Hm|]. by apply mq_get_wait.
  - destruct (mq_get_item (q m) (no_deadline_ticks (flags m)) msg rest Ei) as (k & Hk & Hi & Hs & Hiz).
    exists (with_allq_mux y (put d (with_q k m) w)). split; [|split; [|done]].
    + rewrite Hget. unfold get_tail, mqd_q. rewrite run_assoc. kstep Hk. cbn [Z.eqb negb bind].
      step. cbn [q]. rewrite Hiz. by rewrite wraps_small by (change (32 - 1) with 31; lia).
    + apply represents_mux; [|done]. rewrite <- Ea, <- Hi. apply (represents_put w s d a m); try done.
      apply abstracts_items; try done. rewrite mq_n_items in *. rewrite Hi, Hs.
      rewrite Ei in Hn. simpl in Hn. lia.
Qed.

Lemma meets_getattr c w s d :
  task_cur c <> 0 -> represents w s -> meets c (OpGetattr d) w (mq_spec (OpGetattr d) s).
Proof.
  intros Hc R. cbn [mq_spec]. unfold spec_getattr. destruct (queue_at d s) as [a|] eqn:Ha.
  - destruct (represents_listed w s d a R Ha) as (m & Hl & (-> & Hz & Hn & Ho) & _).
    destruct (rp_ready _ _ R) as [Hi Hf]. destruct (run_lock ML w c Hc Hf) as (x & Hx & Hrun).
    assert (run (mq_getattr c d) w
      = [Done (0, Some (mk_mq_attr (flags m) (mq_sz (q m)) (mq_isz (q m)) (mq_n (q m))))
           (with_allq_mux (mut_unlock (task_cur c) x) w)]) as Hget.
    { unfold mq_getattr, mqd_flags, mqd_q. rewrite run_check_init, Hrun, (run_extract_listed _ d m) by done.
      destruct Hl as (Hd & _ & Hm). test_false (d =? 0). cbn [negb]. step. step. cbn [bind].
      by rewrite run_unlock_queues. }
    eexists. split; [cbn [mq_exec]; rewrite (run_call _ _ _ _ _ Hget), mq_n_items; done|].
    split; [|done]. apply represents_mux; [done|by apply mut_unlock_held].
  - destruct (mq_bad_descriptor ML w c d 0 [] 0 0 None) as (y & Hy & _ & H & _);
      [done|apply R|by eapply represents_bad|done|].
    apply (meets_fails _ _ _ _ _ _ y R Hy). cbn [mq_exec]. by rewrite (run_call _ _ _ _ _ H).
Qed.

Lemma meets_close c w s d :
  task_cur c <> 0 -> represents w s -> meets c (OpClose d) w (mq_spec (OpClose d) s).
Proof.
  intros Hc R. cbn [mq_spec]. unfold spec_close. destruct (queue_at d s) as [a|] eqn:Ha.
  - destruct (represents_listed w s d a R Ha) as (m & Hl & Hab & Hb).
    destruct (mq_close_spec ML w c d m) as (y & Hy & Hrun); [done|apply R|done|done|apply Hab|].
    eexists. split; [cbn [mq_exec]; by rewrite (run_call _ _ _ _ _ Hrun)|]. split; [|done].
    apply represents_mux; [|done]. destruct Hab as (Ea & Hz & Hn & Ho).
    rewrite Ea at 1 2. simpl a_refs. simpl a_pending.
    destruct ((Z.max 0 (open_count m - 1) =? 0) && negb (pending_unlink m =? 0)) eqn:E.
    + by apply (represents_release w s d a m); [..|apply Hl].
    + apply (represents_put w s d a m); try done; [apply Hl|].
      rewrite Ea. unfold abstracts, set_life, set_refs. simpl.
      destruct (Z.max 0 (open_count m - 1) =? 0); (split; [done|]); repeat split; try done; lia.
  - destruct (mq_bad_descriptor ML w c d 0 [] 0 0 None) as (y & Hy & H & _);
      [done|apply R|by eapply represents_bad|done|].
    apply (meets_fails _ _ _ _ _ _ y R Hy). cbn [mq_exec]. by rewrite (run_call _ _ _ _ _ H).
Qed.

(** *** The operations on names *)

(** The first queue of the list with the name, in the code and in the
    specification. *)
Lemma named_absent w s nm :
  represents w s -> queue_named nm s = None -> absent w (ll_elems (allq w)) nm.
Proof.
  intros R Hn e He. rewrite (rp_keys _ _ R) in He. apply list_elem_of_fmap in He as ([d a] & -> & Hin).
  pose proof (queue_at_distinct d a s (rp_distinct _ _ R) Hin) as Ha.
  destruct (rp_queue _ _ R d a Ha) as (_ & m & Hm & [Ea _]). exists m. split; [done|]. intros E.
  assert (a_name a = nm) as Hnm by (by rewrite Ea). clear R Ha Ea. induction s as [|[x b] s IH]; [set_solver|].
  simpl in Hn. destruct (String.eqb nm (a_name b)) eqn:Eb; [done|].
  apply elem_of_cons in Hin as [[= <- <-]|Hin]; [|by apply IH].
  by rewrite Hnm, String.eqb_refl in Eb.
Qed.

Lemma queue_named_split nm d a s :
  queue_named nm s = Some (d, a) ->
  exists pre post, s = pre ++ (d, a) :: post /\ forall x b, (x, b) ∈ pre -> a_name b <> nm.
Proof.
  induction s as [|[x b] s IH]; simpl; [done|]. destruct (String.eqb nm (a_name b)) eqn:E.
  - intros [= -> ->]. exists [], s. split; [done|]. by intros x b' ?%not_elem_of_nil.
  - intros H. destruct (IH H) as (pre & post & -> & Hpre). exists ((x, b) :: pre), post.
    split; [done|]. intros y b' [[= -> ->]|Hin]%elem_of_cons; [|by eapply Hpre].
    intros <-. by rewrite String.eqb_refl in E.
Qed.

Lemma queue_named_found w s nm d a :
  represents w s -> queue_named nm s = Some (d, a) ->
  queue_at d s = Some a /\ exists m, found w nm d m /\ listed w d m /\ abstracts m a /\ owns_buffer w d m.
Proof.
  intros R Hn. destruct (queue_named_in nm d a s Hn) as [Hin Hnm].
  pose proof (queue_at_distinct d a s (rp_distinct _ _ R) Hin) as Ha. split; [done|].
  destruct (represents_listed w s d a R Ha) as (m & Hl & Hab & Hb). exists m. split; [|done].
  destruct Hl as (Hd & _ & Hm). split; [done|]. split; [done|].
  split; [by destruct Hab as [-> _]|]. rewrite (rp_keys _ _ R).
  destruct (queue_named_split nm d a s Hn) as (pre & post & Es & Hpre).
  exists (map fst pre), (map fst post). split; [by rewrite Es, map_app|].
  intros e He. apply list_elem_of_fmap in He as ([x b] & -> & Hx).
  assert (queue_at x s = Some b) as Hxb.
  { apply queue_at_distinct; [apply R|]. rewrite Es. apply elem_of_app. by left. }
  destruct (rp_queue _ _ R x b Hxb) as (_ & m' & Hm' & [Eb _]). exists m'. split; [done|].
  specialize (Hpre x b Hx). by rewrite Eb in Hpre.
Qed.

Lemma meets_unlink c w s nm :
  task_cur c <> 0 -> represents w s -> meets c (OpUnlink nm) w (mq_spec (OpUnlink nm) s).
Proof.
  intros Hc R. cbn [mq_spec]. unfold spec_unlink, valid_name.
  destruct (rp_ready _ _ R) as [Hi Hf].
  destruct ((validate_name nm).1 =? 1) eqn:Ev; cbn [negb].
  - apply Z.eqb_eq in Ev. destruct (queue_named nm s) as [[d a]|] eqn:Hn.
    + destruct (queue_named_found w s nm d a R Hn) as (Ha & m & Hfound & Hl & Hab & Hb).
      destruct (mq_unlink_spec ML w c nm d m) as (y & Hy & Hrun); [done|apply R|done..|].
      eexists. split; [cbn [mq_exec]; by rewrite (run_call _ _ _ _ _ Hrun)|]. split; [|done].
      apply represents_mux; [|done]. destruct Hab as (Ea & Hz & Hn' & Ho). 
      assert (a_refs a = open_count m) as -> by (by rewrite Ea).
      destruct (open_count m =? 0) eqn:E.
      * by apply (represents_release w s d a m); [..|apply Hl].
      * apply (represents_put w s d a m); try done; [apply Hl|]. rewrite Ea.
        unfold abstracts, set_life, set_refs. simpl. repeat split; try done; lia.
    + destruct (run_lock ML w c Hc Hf) as (x & Hx & Hrun).
      apply (meets_fails _ _ _ _ _ _ _ R (mut_unlock_held x _ Hx)).
      assert (run (mq_unlink c nm) w = [Done (-1) (with_allq_mux (mut_unlock (task_cur c) x)
        (with_errno (task_cur c) ENOENT w))]) as Hu.
      { unfold mq_unlink. rewrite run_check_init by done. rewrite Ev. cbn [Z.eqb bind].
        rewrite run_assoc, Hrun, run_assoc. unfold mq_find_locked. step.
        rewrite run_find_absent by exact (named_absent w s nm R Hn). cbn [Z.eqb negb].
        step. cbn [bind]. rewrite run_assoc, run_unlock_queues. done. }
      cbn [mq_exec]. by rewrite (run_call _ _ _ _ _ Hu).
  - assert (run (mq_unlink c nm) w = [Done (-1) (with_errno (task_cur c) ENAMETOOLONG w)]) as Hu.
    { unfold mq_unlink. rewrite run_check_init by done.
      assert ((validate_name nm).1 = 0) as ->.
      { revert Ev. unfold validate_name. by repeat case_match. }
      cbn [Z.eqb]. step. done. }
    eexists. split; [cbn [mq_exec]; by rewrite (run_call _ _ _ _ _ Hu)|].
    split; [by apply represents_errno|]. intros v [= <-]. apply errno_set.
Qed.

Lemma open_refused c w nm oflag mode attr :
  inited w <> 0 -> ((validate_name nm).1 =? 1) = false \/ negative_attr attr = true ->
  run (mq_open c nm oflag mode attr) w = [Done MQD_ERROR (with_errno (task_cur c) EINVAL w)].
Proof.
  intros Hi H. unfold mq_open. cbv zeta. rewrite run_check_init by done.
  destruct ((validate_name nm).1 =? 0) eqn:Ev.
  - step. cbn [bind]. by change (MQD_ERROR =? 0) with false.
  - destruct H as [H|H]; [exfalso; revert Ev H; unfold validate_name; by repeat case_match|].
    destruct attr as [a|]; [|done]. simpl in H. cbn [bind Z.eqb]. rewrite H. step.
    by change (MQD_ERROR =? 0) with false.
Qed.

Lemma meets_open c w s nm oflag mode attr :
  task_cur c <> 0 -> represents w s ->
  meets c (OpOpen nm oflag mode attr) w (mq_spec (OpOpen nm oflag mode attr) s).
Proof.
  intros Hc R. cbn [mq_spec]. unfold spec_open, valid_name.
  destruct (rp_ready _ _ R) as [Hi Hf].
  destruct (negb ((validate_name nm).1 =? 1) || negative_attr attr) eqn:Er.
  - assert (run (mq_open c nm oflag mode attr) w = [Done MQD_ERROR (with_errno (task_cur c) EINVAL w)]) as Ho.
    { apply open_refused; [done|]. apply orb_prop in Er as [E|E]; [left|by right]. by apply negb_true_iff in E. }
    eexists. split; [cbn [mq_exec]; by rewrite (run_call _ _ _ _ _ Ho)|].
    split; [by apply represents_errno|]. intros v [= <-]. apply errno_set.
  - apply orb_false_elim in Er as [Ev Ea]. apply negb_false_iff, Z.eqb_eq in Ev.
    destruct (queue_named nm s) as [[d a]|] eqn:Hn.
    + destruct (queue_named_found w s nm d a R Hn) as (Ha & m & Hfound & Hl & Hab & Hb).
      destruct (mq_open_existing ML w c nm oflag mode attr d m) as (y & Hy & Hrun); [done|apply R|done..|].
      destruct (has_flag oflag O_EXCL && has_flag oflag O_CREAT).
      * apply (meets_fails _ _ _ _ _ _ y R Hy). cbn [mq_exec]. by rewrite (run_call _ _ _ _ _ Hrun).
      * eexists. split; [cbn [mq_exec]; by rewrite (run_call _ _ _ _ _ Hrun)|]. split; [|done].
        apply represents_mux; [|done]. apply (represents_put w s d a m); try done; [apply Hl|].
        destruct Hab as (-> & Hz & Hn' & Ho). pose proof (wrapu_range 16 (open_count m + 1) ltac:(lia)).
        unfold abstracts, set_life, set_refs. simpl. repeat split; try done; lia.
    + destruct (has_flag oflag O_CREAT) eqn:Ecr; [done|].
      destruct (run_lock ML w c Hc Hf) as (x & Hx & Hrun).
      apply (meets_fails _ _ _ _ _ _ _ R (mut_unlock_held x _ Hx)).
      assert (run (mq_open c nm oflag mode attr) w = [Done MQD_ERROR (with_allq_mux (mut_unlock (task_cur c) x)
        (with_errno (task_cur c) ENOENT w))]) as Ho.
      { unfold mq_open. cbv zeta. rewrite run_check_init by done. rewrite Ev. cbn [Z.eqb bind].
        rewrite attr_passes by done. cbn [bind Z.eqb]. rewrite Hrun. unfold mq_find_locked. step.
        rewrite run_find_absent by exact (named_absent w s nm R Hn). cbn [Z.eqb negb]. rewrite Ecr.
        step. cbn [bind]. by rewrite run_unlock_queues. }
      cbn [mq_exec]. by rewrite (run_call _ _ _ _ _ Ho).
Qed.

(** C6: Every operation meets its specification: from a world that represents the
    queues [s], a call by any task returns the specified result, sets
    [errno] as specified and leads to a world that represents the specified
    queues, and it blocks exactly when the specification says so.  The
    creation of a new queue is not specified, since the code does not list
    it: so of these worlds only those without queues are reached from the
    start of the program ([mq_never_listed]). *)
Theorem mq_refines_spec c o w s :
  task_cur c <> 0 -> represents w s -> meets c o w (mq_spec o s).
Proof.
  intros Hc R. destruct o; [by apply meets_send|by apply meets_receive|by apply meets_getattr|
    by apply meets_close|by apply meets_unlink|by apply meets_open].
Qed.

End refinement.

(** ** Witness *)

Section mqueue_spec_witnesses.
Import Sim.

Definition sim_aqueue (it : list (list Z)) (open : Z) (pend : bool) : aqueue :=
  mk_aqueue "/q" 2 4 0 it open pend.

Lemma mq_world_represents it open pend :
  Z.of_nat (length it) <= 2 -> 0 <= open ->
  represents sim_mq_laws (mq_world (sim_mqd it 0 open pend)) [(64, sim_aqueue it open (negb (pend =? 0)))].
Proof.
  intros Hi Ho. split; try done.
  - apply NoDup_singleton.
  - intros d a. cbn [queue_at]. destruct (64 =? d) eqn:E; [|done]. apply Z.eqb_eq in E as <-. intros [= <-].
    split; [done|]. exists (sim_mqd it 0 open pend). split; [done|].
    unfold abstracts. simpl. repeat split; try done; lia.
  - intros d m Hd%list_elem_of_singleton Hm. simpl in Hd. subst d.
    assert (at_ 64 (mq_world (sim_mqd it 0 open pend)) = Some (sim_mqd it 0 open pend)) as Hat by done.
    rewrite Hat in Hm. injection Hm as <-.
    split; [by eexists|]. split; [by intros ?%list_elem_of_singleton|].
    intros d' m' Hd' _ _. by apply list_elem_of_singleton in Hd'.
Qed.

Lemma mq_refines_spec_witness :
  meets sim_mq_laws task_a (OpSend 64 4 [7] 4 0) (mq_world (sim_mqd [[5]] 0 1 0))
    (Returns (0, None, None) None [(64, sim_aqueue [[5]; [7]] 1 false)]).
Proof.
  apply (mq_refines_spec sim_mut_laws sim_mq_laws sim_mq_wait_laws sim_ll_laws task_a (OpSend 64 4 [7] 4 0)
    (mq_world (sim_mqd [[5]] 0 1 0)) [(64, sim_aqueue [[5]] 1 false)]).
  - done.
  - apply mq_world_represents; [simpl; lia|lia].
Defined.

End mqueue_spec_witnesses.
