(* ===== verification/MqueuePool.v ===== *)
(** Concurrent use of one message queue: any number of tasks that call any of
    the operations on it -- send and receive, with or without deadlines, ask
    for its attributes, open it by its name, close a descriptor, unlink it --
    as long as one descriptor stays open.  Each call takes effect at one
    instant or not at all, the calls that succeed are the operations of a
    bounded queue in the order of these instants, and where nothing can
    happen the calls that have not returned are senders to a full queue or
    receivers from an empty one.  Without the condition a queue may be freed
    under a transfer, which uses it after giving up the lock.  The condition
    is one on the state the calls find: as the module stands, [mq_open] never
    links a queue ([Mqueue.mq_never_listed]) and does not count its first
    descriptor, so that no execution reaches it; the theorems are about what
    the code of the operations does with the queues it is written for. *)
From S2P Require Import Prelude Prog Protocol Kernel World Lock SimKernel Timespec Clock Mqueue.

(** ** The specification *)

Inductive fifo_event :=
| Put (msg : list Z)
| Got (msg : list Z)
| Counted (n : Z)       (** somebody learns the number of messages *)
| Opened                (** a descriptor is opened *)
| Dropped               (** and closed *)
| Marked.               (** the queue is unlinked *)

(** A queue of at most [cap] messages; [None]: the event cannot happen. *)
Definition fifo_step (cap : Z) (e : fifo_event) (items : list (list Z)) : option (list (list Z)) :=
  match e with
  | Put msg => if Z.of_nat (length items) <? cap then Some (items ++ [msg]) else None
  | Got msg => match items with x :: rest => if decide (x = msg) then Some rest else None | [] => None end
  | Counted n => if decide (n = Z.of_nat (length items)) then Some items else None
  | Opened | Dropped | Marked => Some items
  end.

Fixpoint fifo_run (cap : Z) (es : list fifo_event) (items : list (list Z)) : option (list (list Z)) :=
  match es with
  | [] => Some items
  | e :: es' => items' ← fifo_step cap e items; fifo_run cap es' items'
  end.

Lemma fifo_run_app cap es es' items :
  fifo_run cap (es ++ es') items = items' ← fifo_run cap es items; fifo_run cap es' items'.
Proof.
  revert items. induction es as [|e es IH]; intros items; simpl; [done|].
  destruct (fifo_step cap e items); simpl; [apply IH|done].
Qed.

Definition puts (es : list fifo_event) : list (list Z) :=
  flat_map (fun e => match e with Put msg => [msg] | _ => [] end) es.
Definition gots (es : list fifo_event) : list (list Z) :=
  flat_map (fun e => match e with Got msg => [msg] | _ => [] end) es.

(** How many more descriptors there are after [es]. *)
Definition descriptors (es : list fifo_event) : Z :=
  tally (fun e => match e with Opened => 1 | Dropped => -1 | _ => 0 end) es.

Lemma descriptors_app es es' : descriptors (es ++ es') = descriptors es + descriptors es'.
Proof. apply tally_app. Qed.

(** Whether the queue is unlinked in [es]. *)
Definition marks (es : list fifo_event) : bool := existsb (fun e => match e with Marked => true | _ => false end) es.

(** Such a run is first in, first out, and loses and invents nothing. *)
Lemma fifo_conserves cap es items items' :
  fifo_run cap es items = Some items' -> items ++ puts es = gots es ++ items'.
Proof.
  revert items. induction es as [|[msg|msg|k| | |] es IH]; intros items; simpl.
  - intros [= <-]. by rewrite app_nil_r.
  - destruct (_ <? _); [|done]. simpl. intros H%IH. by rewrite <- H, <- app_assoc.
  - destruct items as [|x rest]; [done|]. destruct (decide (x = msg)) as [->|]; [|done]. simpl. intros H%IH. by rewrite H.
  - destruct (decide _); [|done]. apply IH.
  - apply IH.
  - apply IH.
  - apply IH.
Qed.

(** ** The calls *)

Inductive transfer :=
| Sends (ptr : Z) (msg : list Z) (len prio : Z) (abstime : option timespec)
| Receives (ptr len : Z) (abstime : option timespec)
| Asks                                                    (** [mq_getattr] *)
| Opens (oflag mode : Z) (attr : option mq_attr)
| Drops                                                   (** [mq_close] *)
| Unlinks.

(** The calls that take the name of the queue. *)
Definition by_name (t : transfer) : bool := match t with Opens _ _ _ | Unlinks => true | _ => false end.

(** What a call is going to do to the descriptors. *)
Inductive intent := Stays | Joins | Parts.

Definition intent_of (t : transfer) : intent :=
  match t with Opens _ _ _ => Joins | Drops => Parts | _ => Stays end.

(** What a call returns: the C result and the message received, or the number
    of messages. *)
Definition transfer_result : Type := Z * option (list Z).

(** [transferred d isz t es r]: the events [es] explain the result [r] of [t]
    on the queue at [d] with items of [isz] words. *)
Definition transferred (d isz : Z) (t : transfer) (es : list fifo_event) (r : transfer_result) : Prop :=
  match t with
  | Sends _ msg _ _ _ => es = [Put msg] /\ r = (0, None) \/ es = [] /\ r = (-1, None)
  | Receives _ _ _ =>
      (exists msg, es = [Got msg] /\ r = (wraps 32 isz, Some msg)) \/ es = [] /\ r = (-1, None)
  | Asks => (exists n, es = [Counted n] /\ r = (0, Some [n])) \/ es = [] /\ r = (-1, None)
  | Opens _ _ _ => es = [Opened] /\ r = (d, None) \/ es = [] /\ r = (MQD_ERROR, None)
  | Drops => es = [Dropped] /\ r = (0, None) \/ es = [] /\ r = (-1, None)
  | Unlinks => es = [Marked] /\ r = (0, None) \/ es = [] /\ r = (-1, None)
  end.

Section transfers.
Context `{P : Platform} `{K : Kernel} (ML : MutLaws P K) (QL : MqLaws K) (QB : MqBusyLaws K QL).
Context (who : nat -> caller) (d isz : Z) (nm : string) (ops : nat -> transfer).
Hypothesis who_task : forall i, task_cur (who i) <> 0.
Hypothesis who_inj : forall i j, task_cur (who i) = task_cur (who j) -> i = j.
Implicit Types (w : world) (m : mqd_internal_t) (es : list fifo_event).

Definition transfer_code (c : caller) (t : transfer) : prog world transfer_result :=
  match t with
  | Sends ptr msg len prio abstime => let* r := mq_timedsend c d ptr msg len prio abstime in Ret (r, None)
  | Receives ptr len abstime => mq_timedreceive c d ptr len abstime
  | Asks => let* r := mq_getattr c d in Ret (r.1, option_map (fun a => [mq_curmsgs a]) r.2)
  | Opens oflag mode attr => let* r := mq_open c nm oflag mode attr in Ret (r, None)
  | Drops => let* r := mq_close c d in Ret (r, None)
  | Unlinks => let* r := mq_unlink c nm in Ret (r, None)
  end.

Definition transfers (n : nat) : list (prog world transfer_result) :=
  map (fun i => transfer_code (who i) (ops i)) (seq 0 n).

(** ** The protocol of a call *)

(** [b]: what the call is still going to do to the descriptors; [seen]: the
    number of descriptors it has read under the lock. *)
Inductive stage :=
| Before (b : intent)                                                  (** about to lock the module *)
| Inside (b : intent) (seen : option Z) (es : list fifo_event)         (** under the lock *)
| After (es : list fifo_event).                                        (** unlocked *)

Definition holding (st : stage) : Z := match st with Inside _ _ _ => 1 | _ => 0 end.
Definition stage_events (st : stage) : list fifo_event :=
  match st with Before _ => [] | Inside _ _ es | After es => es end.
Definition intends (st : stage) : intent :=
  match st with Before b | Inside b _ _ => b | After _ => Stays end.
Definition claims (st : stage) : Z := match intends st with Parts => 1 | _ => 0 end.
Definition wants (st : stage) : Z := match intends st with Joins => 1 | _ => 0 end.

(** What a stage knows of the descriptors of the queue [m]: the counter does
    not wrap. *)
Definition stage_knows (st : stage) m : Prop :=
  claims st < open_count m < 2 ^ 16 - wants st
  /\ match st with Inside _ (Some n) _ => n = open_count m | _ => True end.

(** The queue can be found by its name, if a call does so. *)
Definition queue_named w m : Prop :=
  (exists i, by_name (ops i) = true) -> d <> 0 /\ name m = nm /\ exists rest, ll_elems (allq w) = d :: rest.

(** The module is initialised and the queue at [d] is there, with items of
    [isz] words, and not over-full. *)
Definition queue_fits w m : Prop :=
  inited w <> 0 /\ at_ d w = Some m /\ mq_isz (q m) = isz /\ mq_n (q m) <= mq_sz (q m) /\ queue_named w m.

Definition transfer_knows (_ : nat) (st : stage) w : Prop := exists m, queue_fits w m /\ stage_knows st m.

Definition same_globals w w' : Prop := inited w' = inited w /\ allq w' = allq w.

(** The events [es] make the queue [m'] of [m]. *)
Definition comes_from m es m' : Prop :=
  mq_sz (q m') = mq_sz (q m) /\ open_count m' = open_count m + descriptors es
  /\ pending_unlink m' = (if marks es then 1 else pending_unlink m)
  /\ fifo_run (mq_sz (q m)) es (mq_items (q m)) = Some (mq_items (q m')).

Lemma comes_from_refl m : comes_from m [] m.
Proof. split; [done|]. split; [cbn; lia|done]. Qed.

Lemma comes_from_app m es m1 es' m2 : comes_from m es m1 -> comes_from m1 es' m2 -> comes_from m (es ++ es') m2.
Proof.
  intros (S1 & O1 & P1 & R1) (S2 & O2 & P2 & R2). split; [congruence|]. split; [rewrite descriptors_app; lia|].
  split; [|by rewrite fifo_run_app, R1; simpl; rewrite <- S1].
  rewrite P2, P1. unfold marks. rewrite existsb_app. by destruct (existsb _ es), (existsb _ es').
Qed.

(** The events [es] lead from [w] to [w']. *)
Definition effected es w w' : Prop :=
  same_globals w w'
  /\ exists m m', at_ d w = Some m /\ at_ d w' = Some m' /\ mq_isz (q m') = mq_isz (q m) /\ name m' = name m
    /\ comes_from m es m'.

(** The events that happen under the lock, and what is left to do. *)
Definition locked_event (e : fifo_event) (b b' : intent) : Prop :=
  match e with
  | Opened => b = Joins /\ b' = Stays
  | Dropped => b = Parts /\ b' = Stays
  | Counted _ | Marked => b' = b
  | Put _ | Got _ => False
  end.

Inductive transfer_moves (i : nat) : stage -> world -> stage -> world -> Prop :=
| MvQuiet st w w' : allq_mux w' = allq_mux w -> effected [] w w' -> transfer_moves i st w st w'
| MvLock w w' r b :
    (r, allq_mux w') ∈ mut_lock (task_cur (who i)) WAIT (allq_mux w) -> effected [] w w' ->
    transfer_moves i (Before b) w (Inside b None []) w'
| MvUnlock w w' b o es :
    allq_mux w' = mut_unlock (task_cur (who i)) (allq_mux w) -> effected [] w w' ->
    transfer_moves i (Inside b o es) w (After es) w'
| MvSee w w' m b o es :
    at_ d w = Some m -> allq_mux w' = allq_mux w -> effected [] w w' ->
    transfer_moves i (Inside b o es) w (Inside b (Some (open_count m)) es) w'
| MvEvent e w w' b b' o :
    locked_event e b b' -> allq_mux w' = allq_mux w -> effected [e] w w' ->
    transfer_moves i (Inside b o []) w (Inside b' None [e]) w'
| MvTransfer es w w' :
    (length es <= 1)%nat -> descriptors es = 0 -> allq_mux w' = allq_mux w -> effected es w w' ->
    transfer_moves i (After []) w (After es) w'.

Definition transfer_waits (i : nat) (st : stage) w : Prop :=
  match st with
  | Before _ => mut_lock (task_cur (who i)) WAIT (allq_mux w) = []
  | After _ => exists m, at_ d w = Some m
      /\ match ops i with
         | Sends _ _ _ _ _ => mq_n (q m) = mq_sz (q m)
         | Receives _ _ _ => mq_items (q m) = []
         | _ => False
         end
  | _ => False
  end.

Definition transfer_ends (i : nat) (st : stage) (r : transfer_result) : Prop :=
  match st with
  | Inside _ _ _ => False
  | _ => transferred d isz (ops i) (stage_events st) r
  end.

(** Only the conversion of a deadline may overflow. *)
Definition has_deadline (t : transfer) : bool :=
  match t with
  | Sends _ _ _ _ (Some _) | Receives _ _ (Some _) => true
  | _ => false
  end.

Definition transfer_faults (i : nat) (e : fault) : Prop := e = SignedOverflow /\ has_deadline (ops i) = true.

Abbreviation runs := (follows transfer_knows transfer_moves transfer_waits transfer_faults transfer_ends).

(** *** The actions *)

Lemma effected_same i st w w' :
  transfer_knows i st w -> same_globals w w' -> at_ (S:=mqd_internal_t) d w' = at_ d w -> effected [] w w'.
Proof.
  intros (m & (_ & Hm & _) & _) Hi H. split; [done|]. exists m, m. rewrite H. do 4 (split; [done|]).
  apply comes_from_refl.
Qed.

Lemma runs_quiet {A} i (a : action world A) k st :
  (forall w, transfer_knows i st w -> a w <> []) ->
  (forall w e, transfer_knows i st w -> Fault e ∈ a w -> transfer_faults i e) ->
  (forall w x w', transfer_knows i st w -> Done x w' ∈ a w ->
     same_globals w w' /\ allq_mux w' = allq_mux w /\ at_ (S:=mqd_internal_t) d w' = at_ d w /\ runs i (k x) st) ->
  runs i (bind (act a) k) st.
Proof.
  intros Hne Hf Hq. apply follows_act; [intros w Hw E; by apply Hne in E|done|].
  intros w x w' Hw Hx. destruct (Hq w x w' Hw Hx) as (Hi & Hm & Ha & Hk). exists st. split; [|done].
  apply MvQuiet; [done|by eapply effected_same].
Qed.

Lemma runs_get {A} i (f : world -> A) k st :
  (forall w, transfer_knows i st w -> runs i (k (f w)) st) -> runs i (bind (get f) k) st.
Proof.
  intros Hk. apply runs_quiet; [done|by intros w e _ ?%list_elem_of_singleton|].
  intros w x w' Hw Hx. apply list_elem_of_singleton in Hx.
  simplify_eq. repeat (split; [done|]). auto.
Qed.

Lemma runs_load {T} i (g : mqd_internal_t -> T) set k st :
  (forall m, mq_isz (q m) = isz -> 0 < open_count m -> (by_name (ops i) = true -> name m = nm) -> runs i (k (g m)) st) ->
  runs i (bind (load (fld d g set)) k) st.
Proof.
  intros Hk. apply runs_quiet.
  - intros w (m & (_ & Hm & _) & _). simpl. by rewrite Hm.
  - intros w e (m & (_ & Hm & _) & _). simpl. rewrite Hm. by intros ?%list_elem_of_singleton.
  - intros w x w' (m & (_ & Hm & Hi & _ & Hnm) & Hc & _) Hx. simpl in Hx. rewrite Hm in Hx.
    apply list_elem_of_singleton in Hx. simplify_eq. repeat (split; [done|]). apply Hk; [done| |].
    + unfold claims in Hc. case_match; lia.
    + intros Hb. by apply Hnm; exists i.
Qed.

(** An action on the queue that moves the call. *)
Lemma runs_on_queue {A} i (a : action world A) k st :
  (forall w m, queue_fits w m -> stage_knows st m -> exists x w' st',
     a w = [Done x w'] /\ (transfer_knows i st w -> transfer_moves i st w st' w') /\ runs i (k x) st') ->
  runs i (bind (act a) k) st.
Proof.
  intros H. apply follows_act; intros w.
  - intros (m & Hf & Hs). destruct (H w m Hf Hs) as (x & w' & st' & Ha & _). by rewrite Ha.
  - intros e (m & Hf & Hs). destruct (H w m Hf Hs) as (x & w' & st' & Ha & _). rewrite Ha. by intros ?%list_elem_of_singleton.
  - intros x w' Hg. pose proof Hg as (m & Hf & Hs). destruct (H w m Hf Hs) as (x1 & w1 & st' & Ha & Hm & Hk).
    rewrite Ha. intros Hx. apply list_elem_of_singleton in Hx. injection Hx as -> ->. exists st'. by split; [apply Hm|].
Qed.

(** Reading the number of descriptors in order to change it, *)
Lemma runs_descriptors i k b es :
  (forall n, 0 < n -> claims (Inside b None es) < n < 2 ^ 16 - wants (Inside b None es) ->
     runs i (k n) (Inside b (Some n) es)) ->
  runs i (bind (load (mqd_open_count d)) k) (Inside b None es).
Proof.
  intros Hk. apply runs_on_queue. intros w m (_ & Hm & _) [Hc _]. simpl. rewrite Hm. do 3 eexists. split; [done|].
  split; [|apply Hk; [unfold claims in Hc; case_match; lia|exact Hc]].
  intros Hg. apply MvSee; [done|done|by eapply effected_same].
Qed.

Lemma event_put i w m m' e b b' o :
  at_ d w = Some m -> locked_event e b b' -> mq_isz (q m') = mq_isz (q m) -> name m' = name m ->
  comes_from m [e] m' -> transfer_moves i (Inside b o []) w (Inside b' None [e]) (put d m' w).
Proof.
  intros Hm He Hz Hn Hc. apply MvEvent; [done|done|]. split; [done|]. exists m, m'. by rewrite at_put.
Qed.

(** doing so, *)
Lemma runs_count_to i k b b' e n v :
  locked_event e b b' -> e = Opened /\ v = n + 1 \/ e = Dropped /\ v = n - 1 ->
  runs i (k tt) (Inside b' None [e]) ->
  runs i (bind (store (mqd_open_count d) v) k) (Inside b (Some n) []).
Proof.
  intros He Hv Hk. apply runs_on_queue. intros w m (_ & Hm & _) [_ Hn]. simpl. rewrite Hm. do 3 eexists. split; [done|].
  split; [|exact Hk]. intros _. eapply event_put; [done..|]. subst n.
  destruct Hv as [[-> ->]|[-> ->]]; (split; [done|]; split; [cbn; lia|done]).
Qed.

(** marking the queue, *)
Lemma runs_mark i k b o :
  runs i (k tt) (Inside b None [Marked]) -> runs i (bind (store (mqd_pending d) 1) k) (Inside b o []).
Proof.
  intros Hk. apply runs_on_queue. intros w m (_ & Hm & _) _. simpl. rewrite Hm. do 3 eexists. split; [done|].
  split; [|exact Hk]. intros _. eapply event_put; [done..|]. split; [done|]. split; [cbn; lia|done].
Qed.

(** and reading the number of messages. *)
Lemma runs_count i k b :
  (forall q, runs i (k q) (Inside b None [Counted (mq_n q)])) ->
  runs i (bind (load (mqd_q d)) k) (Inside b None []).
Proof.
  intros Hk. apply runs_on_queue. intros w m (_ & Hm & _) _. simpl. rewrite Hm. do 3 eexists. split; [done|].
  split; [|apply Hk]. intros _. apply MvEvent; [done|done|]. split; [done|]. exists m, m. do 4 (split; [done|]).
  split; [done|]. split; [cbn; lia|]. split; [done|]. cbn. by rewrite decide_True by apply mq_n_items.
Qed.

Lemma runs_errno i c e k st : runs i (k tt) st -> runs i (bind (set_errno c e) k) st.
Proof.
  intros Hk. apply runs_quiet; [done|by intros w f _ ?%list_elem_of_singleton|].
  intros w x w' Hw Hx. apply list_elem_of_singleton in Hx.
  by simplify_eq.
Qed.

Lemma runs_lift {A} i (o : option A) k st :
  has_deadline (ops i) = true -> (forall x, runs i (k x) st) -> runs i (bind (lift o) k) st.
Proof.
  intros Hd Hk. destruct o; [apply Hk|]. apply runs_quiet; [done| |].
  - intros w e _ He. apply list_elem_of_singleton in He. by injection He as ->.
  - intros w x w' Hw Hx. by apply list_elem_of_singleton in Hx.
Qed.

Lemma runs_ready i k st : runs i (k tt) st -> runs i (bind mq_check_init k) st.
Proof.
  intros Hk. apply follows_assoc, runs_get. intros w (m & (Hi & _) & _). by test_false (inited w =? 0).
Qed.

Lemma runs_lock i k b :
  (forall x, runs i (k x) (Inside b None [])) -> runs i (bind (lock_queues (who i)) k) (Before b).
Proof.
  intros Hk. apply follows_act; simpl.
  - intros w _ H. by apply map_eq_nil in H.
  - by intros w e _ (x & ? & _)%list_elem_of_fmap.
  - intros w x w' Hw ([r y] & Hx & Hin)%list_elem_of_fmap. simplify_eq. eexists. split; [|apply Hk].
    apply (MvLock _ _ _ r); [done|by eapply effected_same].
Qed.

Lemma runs_unlock i k b o es :
  runs i (k tt) (After es) -> runs i (bind (unlock_queues (who i)) k) (Inside b o es).
Proof.
  intros Hk. apply follows_act; simpl; [done|by intros w e _ ?%list_elem_of_singleton|].
  intros w x w' Hw Hx. apply list_elem_of_singleton in Hx. simplify_eq. exists (After es). split; [|done].
  apply MvUnlock; [done|by eapply effected_same].
Qed.

(** The kernel's transfer, from [w] where the queue is [m], that leaves the
    kernel queue [k]. *)
Lemma transferred_put i w m k es :
  at_ d w = Some m -> (length es <= 1)%nat -> descriptors es = 0 -> marks es = false ->
  mq_isz k = mq_isz (q m) -> mq_sz k = mq_sz (q m) ->
  fifo_run (mq_sz (q m)) es (mq_items (q m)) = Some (mq_items k) ->
  transfer_moves i (After []) w (After es) (put d (with_q k m) w).
Proof.
  intros Hm Hl Hd Hk Hz Hs Hr. apply MvTransfer; [done|done|done|]. split; [done|]. exists m, (with_q k m).
  rewrite at_put. do 4 (split; [done|]). split; [done|]. split; [simpl; lia|]. by rewrite Hk.
Qed.

Lemma runs_put i ptr msg len prio abs t k :
  ops i = Sends ptr msg len prio abs ->
  runs i (k 0) (After [Put msg]) -> (forall r, r <> 0 -> runs i (k r) (After [])) ->
  runs i (bind (kcall (mqd_q d) (mq_put t msg)) k) (After []).
Proof.
  intros Hop H0 Hr. apply follows_act; simpl; intros w.
  - intros (m & (_ & Hm & _ & Hle & _) & _) E. rewrite Hm in E. apply map_eq_nil in E. exists m. rewrite Hop. split; [done|].
    destruct (decide (mq_n (q m) = mq_sz (q m))); [done|].
    destruct (mq_put_room (q m) t msg ltac:(lia)) as (k' & Hk & _). congruence.
  - intros e (m & (_ & Hm & _) & _). rewrite Hm. by intros (x & ? & _)%list_elem_of_fmap.
  - intros x w' (m & (_ & Hm & _ & Hle & _) & _) Hx. rewrite Hm in Hx.
    apply list_elem_of_fmap in Hx as ([r k'] & Hx & Hin). simplify_eq/=. fold (with_q k' m).
    destruct (decide (mq_n (q m) = mq_sz (q m))) as [Hf|Hf].
    + destruct (mq_put_busy (q m) t msg r k' Hf Hin) as [Hr0 ->]. exists (After []). split; [|auto].
      apply transferred_put; [done|simpl; lia|done..].
    + destruct (mq_put_room (q m) t msg ltac:(lia)) as (k1 & Hk & Hi & Hs & Hz). rewrite Hk in Hin.
      apply list_elem_of_singleton in Hin. simplify_eq. exists (After [Put msg]). split; [|done].
      apply transferred_put; [done|simpl; lia|done..|]. simpl. rewrite mq_n_items in *.
      test_true (Z.of_nat (length (mq_items (q m))) <? mq_sz (q m)). by rewrite Hi.
Qed.

Lemma runs_take i ptr len abs t k :
  ops i = Receives ptr len abs ->
  (forall msg, runs i (k (0, msg)) (After [Got msg])) -> (forall r msg, r <> 0 -> runs i (k (r, msg)) (After [])) ->
  runs i (bind (kcall (mqd_q d) (mq_get t)) k) (After []).
Proof.
  intros Hop H0 Hr. apply follows_act; simpl; intros w.
  - intros (m & (_ & Hm & _ & Hle & _) & _) E. rewrite Hm in E. apply map_eq_nil in E. exists m. rewrite Hop. split; [done|].
    destruct (mq_items (q m)) as [|msg rest] eqn:Ei; [done|].
    destruct (mq_get_item (q m) t msg rest Ei) as (k' & Hk & _). congruence.
  - intros e (m & (_ & Hm & _) & _). rewrite Hm. by intros (x & ? & _)%list_elem_of_fmap.
  - intros x w' (m & (_ & Hm & _ & Hle & _) & _) Hx. rewrite Hm in Hx.
    apply list_elem_of_fmap in Hx as ([[r msg] k'] & Hx & Hin). simplify_eq/=. fold (with_q k' m).
    destruct (mq_items (q m)) as [|msg' rest] eqn:Ei.
    + destruct (mq_get_busy (q m) t r msg k' Ei Hin) as [Hr0 ->]. exists (After []). split; [|auto].
      apply transferred_put; [done|simpl; lia|done..].
    + destruct (mq_get_item (q m) t msg' rest Ei) as (k1 & Hk & Hi & Hs & Hz). rewrite Hk in Hin.
      apply list_elem_of_singleton in Hin. simplify_eq. exists (After [Got msg']). split; [|done].
      apply transferred_put; [done|simpl; lia|done..|]. rewrite Ei. simpl. by rewrite decide_True.
Qed.

Lemma runs_extract i k st :
  (forall mq, mq = d \/ mq = 0 -> runs i (k mq) st) -> runs i (bind (mq_extract_locked d) k) st.
Proof.
  intros Hk. apply follows_assoc, runs_get. intros w _. apply Hk.
  induction (ll_elems (allq w)) as [|e es IH]; simpl; [by right|]. destruct (e =? d) eqn:E; [bool_lia; by left|done].
Qed.

(** Looking up the name finds the queue. *)
Lemma runs_find i k st :
  by_name (ops i) = true -> (d <> 0 -> runs i (k d) st) -> runs i (bind (mq_find_locked nm) k) st.
Proof.
  intros Hb Hk. apply follows_assoc, runs_get. intros w (m & (_ & _ & _ & _ & Hn) & _).
  destruct (Hn ltac:(by exists i)) as (Hd & _ & rest & ->). cbn [find_in]. apply follows_assoc, runs_load.
  intros m' _ _ Hnm. rewrite (Hnm Hb), String.eqb_refl. by apply Hk.
Qed.

(** Walking through a call. *)
Ltac runs_one :=
  lazymatch goal with
  | |- follows _ _ _ _ _ _ (bind (Ret _) _) _ => cbn [bind]
  | |- follows _ _ _ _ _ _ (bind (bind _ _) _) _ => apply follows_assoc
  | |- follows _ _ _ _ _ _ (bind (match ?x with _ => _ end) _) _ => destruct x eqn:?; try discriminate
  | |- follows _ _ _ _ _ _ (bind (get _) _) _ => apply runs_get; intros
  | |- follows _ _ _ _ _ _ (bind (load _) _) _ => apply runs_load; intros
  | |- follows _ _ _ _ _ _ (bind (lift _) _) _ => apply runs_lift; [match goal with H : ops _ = _ |- _ => by rewrite H end|intros]
  | |- follows _ _ _ _ _ _ (bind (set_errno _ _) _) _ => apply runs_errno
  | |- follows _ _ _ _ _ _ (bind (lock_queues _) _) _ => apply runs_lock; intros
  | |- follows _ _ _ _ _ _ (bind (unlock_queues _) _) _ => apply runs_unlock
  | |- follows _ _ _ _ _ _ (bind (mq_extract_locked _) _) _ => apply runs_extract; intros mq [->| ->]
  | |- follows _ _ _ _ _ _ (match ?x with _ => _ end) _ => destruct x eqn:?; try discriminate
  end.

Lemma runs_send i ptr msg len prio abs :
  ops i = Sends ptr msg len prio abs -> runs i (transfer_code (who i) (ops i)) (Before (intent_of (ops i))).
Proof.
  intros Hop. rewrite Hop.
  unfold transfer_code, mq_timedsend, mq_checks, get_tick_timeout, transfer_failed, clock_gettime.
  repeat runs_one; try (cbn; rewrite Hop; by right).
  all: eapply runs_put; [exact Hop|cbn; rewrite Hop; by left|].
  all: intros r Hr; test_false (r =? 0); cbn [negb]; repeat runs_one; cbn; rewrite Hop; by right.
Qed.

Lemma runs_receive i ptr len abs :
  ops i = Receives ptr len abs -> runs i (transfer_code (who i) (ops i)) (Before (intent_of (ops i))).
Proof.
  intros Hop. rewrite Hop.
  unfold transfer_code, mq_timedreceive, mq_checks, get_tick_timeout, transfer_failed, clock_gettime.
  repeat runs_one; try (cbn; rewrite Hop; by right).
  all: eapply runs_take; [exact Hop|..].
  all: try (intros r msg Hr; test_false (r =? 0); cbn [negb]; repeat runs_one; cbn; rewrite Hop; by right).
  all: intros msg; cbn [Z.eqb negb]; repeat runs_one; cbn; rewrite Hop; left; exists msg; split; congruence.
Qed.

Lemma runs_query i : ops i = Asks -> runs i (transfer_code (who i) (ops i)) (Before (intent_of (ops i))).
Proof.
  intros Hop. rewrite Hop. unfold transfer_code, mq_getattr.
  repeat lazymatch goal with
  | |- follows _ _ _ _ _ _ (bind (load (mqd_q d)) _) _ => apply runs_count; intros
  | |- follows _ _ _ _ _ _ (bind mq_check_init _) _ => apply runs_ready
  | _ => runs_one
  end; cbn; rewrite Hop; (by right) || left; by eexists.
Qed.

Lemma runs_close_claim i : ops i = Drops -> runs i (transfer_code (who i) (ops i)) (Before (intent_of (ops i))).
Proof.
  intros Hop. rewrite Hop. cbn [intent_of]. unfold transfer_code, mq_close.
  apply follows_assoc, runs_ready, follows_assoc, runs_lock. intros _.
  apply follows_assoc, runs_extract. intros mq Hmq. destruct (negb (mq =? 0)) eqn:E.
  - destruct Hmq as [->| ->]; [|done]. do 2 apply follows_assoc. apply runs_descriptors. intros n Hn _.
    test_true (0 <? n). apply follows_assoc. eapply (runs_count_to i _ Parts Stays Dropped); [done|by right|].
    apply follows_assoc, runs_load. intros m _ Hc _.
    test_false (open_count m =? 0). cbn [bind]. apply follows_assoc, runs_unlock. cbn. rewrite Hop. by left.
  - do 2 apply follows_assoc. apply runs_errno. cbn [bind]. apply follows_assoc, runs_unlock. cbn. rewrite Hop. by right.
Qed.

Lemma runs_open_name i oflag mode a :
  ops i = Opens oflag mode a -> runs i (transfer_code (who i) (ops i)) (Before (intent_of (ops i))).
Proof.
  intros Hop. rewrite Hop. cbn [intent_of]. unfold transfer_code, mq_open.
  repeat lazymatch goal with
  | |- follows _ _ _ _ _ _ (bind mq_check_init _) _ => apply runs_ready
  | |- follows _ _ _ _ _ _ (bind (mq_find_locked nm) _) _ => apply runs_find; [by rewrite Hop|intros]
  | |- follows _ _ _ _ _ _ (bind (load (mqd_open_count d)) _) _ => apply runs_descriptors; intros n Hn Hb
  | |- follows _ _ _ _ _ _ (bind (store _ _) _) _ =>
      eapply (runs_count_to i _ Joins Stays Opened);
      [done|left; cbn in Hb; by rewrite wrapu_small by lia|]
  | _ => runs_one
  end; try (cbn; rewrite Hop; by right); try (cbn; rewrite Hop; by left); bool_lia.
Qed.

Lemma runs_unlink_name i : ops i = Unlinks -> runs i (transfer_code (who i) (ops i)) (Before (intent_of (ops i))).
Proof.
  intros Hop. rewrite Hop. cbn [intent_of]. unfold transfer_code, mq_unlink.
  repeat lazymatch goal with
  | |- follows _ _ _ _ _ _ (bind mq_check_init _) _ => apply runs_ready
  | |- follows _ _ _ _ _ _ (bind (mq_find_locked nm) _) _ => apply runs_find; [by rewrite Hop|intros]
  | |- follows _ _ _ _ _ _ (bind (store _ _) _) _ => apply runs_mark
  | _ => runs_one
  end; try (cbn; rewrite Hop; by right); try (cbn; rewrite Hop; by left); bool_lia.
Qed.

Lemma runs_transfer i : runs i (transfer_code (who i) (ops i)) (Before (intent_of (ops i))).
Proof.
  destruct (ops i) eqn:Hop; rewrite <- Hop;
    [by eapply runs_send|by eapply runs_receive|by apply runs_query|by eapply runs_open_name|by apply runs_close_claim
    |by apply runs_unlink_name].
Qed.

(** ** Pools of transfers *)

(** A history is a sequence of events, each on behalf of a task. *)
Definition mq_history : Type := list (nat * fifo_event).

Lemma holding_bit st : holding st = 0 \/ holding st = 1.
Proof. destruct st; auto. Qed.

Lemma claims_bit st : 0 <= claims st.
Proof. unfold claims. by repeat case_match. Qed.

Lemma wants_bit st : 0 <= wants st.
Proof. unfold wants. by repeat case_match. Qed.

(** The history [h] explains the stages [sts] in the world [w]: its events
    are those of a queue that was [m0], of whose descriptors more are left
    than tasks are going to close; each task's stage tells its own events,
    and at most one task is inside the module. *)
Record mq_explained m0 (sts : list stage) (w : world) (h : mq_history)
  : Prop := {
  me_queue : exists m, queue_fits w m /\ comes_from m0 (map snd h) m
               /\ tally claims sts < open_count m < 2 ^ 16 - tally wants sts
               /\ forall j b n es, sts !! j = Some (Inside b (Some n) es) -> n = open_count m;
  me_lock : lock_inv ML who holding sts (allq_mux w);
  me_events i : events_of i h = default [] (stage_events <$> sts !! i)
}.

Lemma mq_explained_known m0 sts w h :
  mq_explained m0 sts w h -> known transfer_knows sts w.
Proof.
  intros X i st Hi. destruct (me_queue _ _ _ _ X) as (m & Hf & _ & Ht & Hs). exists m. split; [done|].
  split.
  - pose proof (tally_lookup claims sts i st claims_bit Hi). pose proof (tally_lookup wants sts i st wants_bit Hi). lia.
  - destruct st as [b|b [n|] es|es]; try done. by eapply Hs.
Qed.

Lemma effected_fits es w w' m :
  queue_fits w m -> (length es <= 1)%nat -> effected es w w' -> exists m', queue_fits w' m' /\ comes_from m es m'.
Proof.
  intros (Hi & Hm & Hz & Hn & Hnm) Hl ([Hi' Hq] & m1 & m' & Hm1 & Hm' & Hz' & Hnm' & Hc).
  rewrite Hm in Hm1. injection Hm1 as <-. exists m'. split; [|done]. split; [by rewrite Hi'|]. split; [done|].
  split; [congruence|]. split; [|unfold queue_named; by rewrite Hq, Hnm']. destruct Hc as (Hs & _ & _ & Hr).
  rewrite Hs, !mq_n_items in *. destruct es as [|e [|]]; simpl in Hl, Hr; [by injection Hr as <-| |lia].
  destruct e as [msg|msg|k| | |]; simpl in Hr; try by injection Hr as <-.
  - destruct (_ <? _) eqn:E; [|done]. injection Hr as <-. rewrite length_app. simpl. bool_lia.
  - destruct (mq_items (q m)) as [|x rest]; [done|]. case_decide; [|done]. injection Hr as <-. simpl in Hn. lia.
  - case_decide; [|done]. by injection Hr as <-.
Qed.

(** A task moves from [st] to [st'] by the events [es]; only a task inside
    the module changes the number of descriptors. *)
Lemma mq_explained_by m0 sts w h i st st' w' es :
  mq_explained m0 sts w h -> sts !! i = Some st -> (length es <= 1)%nat -> effected es w w' ->
  stage_events st' = stage_events st ++ es ->
  (descriptors es = 0 \/ holding st = 1) -> claims st' - claims st <= descriptors es <= wants st - wants st' ->
  (forall b n es', st' = Inside b (Some n) es' -> forall m, queue_fits w' m -> n = open_count m) ->
  lock_inv ML who holding (<[i:=st']> sts) (allq_mux w') ->
  mq_explained m0 (<[i:=st']> sts) w' (h ++ map (pair i) es).
Proof.
  intros X Hi Hl He Hev Hin Hd Hsee HL.
  destruct (me_queue _ _ _ _ X) as (m & Hf & Hc & Ht & Hn).
  destruct (effected_fits es w w' m Hf Hl He) as (m' & Hf' & Hc'). pose proof Hc' as (_ & Ho & _).
  split; [|done|].
  - exists m'. split; [done|]. split; [rewrite map_app, map_map, map_id; by eapply comes_from_app|].
    split; [rewrite (tally_insert claims sts i st st' Hi), (tally_insert wants sts i st st' Hi); lia|].
    intros j b n es' Hj. destruct (decide (i = j)) as [<-|Hne].
    + rewrite list_lookup_insert_eq in Hj by (by eapply lookup_lt_Some). injection Hj as ->. by eapply Hsee.
    + rewrite list_lookup_insert_ne in Hj by done. rewrite (Hn j b n es' Hj). destruct Hin as [Hin|Hin]; [lia|].
      destruct (lock_alone ML who holding holding_bit sts _ i st (me_lock _ _ _ _ X) Hi Hin) as (_ & _ & Hal).
      by specialize (Hal j _ ltac:(lia) Hj).
  - intros j. rewrite events_of_app, (me_events _ _ _ _ X j). destruct (decide (i = j)) as [<-|Hne].
    + rewrite list_lookup_insert_eq by (by eapply lookup_lt_Some). rewrite Hi, events_of_self. simpl. by rewrite Hev.
    + by rewrite list_lookup_insert_ne, events_of_other, app_nil_r by done.
Qed.

Lemma effected_count es w w' m m' :
  effected es w w' -> queue_fits w m -> queue_fits w' m' -> open_count m' = open_count m + descriptors es.
Proof.
  intros (_ & m1 & m1' & H1 & H1' & _ & _ & _ & Ho & _) (_ & H & _) (_ & H' & _). congruence.
Qed.

(** What a move does to the descriptors. *)
Ltac by_intent :=
  unfold claims, wants; cbn [intends];
  repeat match goal with
         | H : locked_event ?e _ _ |- _ => destruct e; cbn in H; try done; destruct_and?; simplify_eq
         end;
  cbn; repeat case_match; lia.

(** [moves es] applies the lemma to a move that stands for [es]; what the
    task has seen and the lock are left. *)
Ltac moves es :=
  exists es; split; [simpl; lia|]; eapply mq_explained_by;
  [done|done|simpl; lia|done|by rewrite ?app_nil_r|first [by left|by right]|by_intent| |].

Lemma mq_explained_move m0 sts w h i st st' w' :
  mq_explained m0 sts w h -> sts !! i = Some st -> transfer_moves i st w st' w' ->
  exists es, (length es <= 1)%nat /\ mq_explained m0 (<[i:=st']> sts) w' (h ++ map (pair i) es).
Proof.
  intros X Hi Hmv. pose proof (me_lock _ _ _ _ X) as HL.
  destruct (me_queue _ _ _ _ X) as (m & Hf & _ & _ & Hn).
  inversion Hmv as [? ? ? Hm He|? ? r b Hm He|? ? b o es Hm He|? ? m1 b o es H1 Hm He|e ? ? b b' o Hb Hm He|es ? ? Hl Hd Hm He];
    subst.
  - moves (@nil fifo_event); [|rewrite Hm; by eapply lock_keep].
    intros b n es -> m' Hf'. rewrite (effected_count _ _ _ _ _ He Hf Hf'), (Hn _ _ _ _ Hi). cbn. lia.
  - moves (@nil fifo_event); [done|]. by eapply (lock_acquire ML who holding who_task who_inj holding_bit).
  - moves (@nil fifo_event); [done|]. rewrite Hm. by eapply (lock_release ML who holding holding_bit).
  - moves (@nil fifo_event); [|rewrite Hm; by eapply lock_keep].
    intros ? ? ? [= <- <- <-] m' Hf'. rewrite (effected_count _ _ _ _ _ He Hf Hf').
    destruct Hf as (_ & Hat & _). rewrite H1 in Hat. injection Hat as ->. cbn. lia.
  - moves [e]; [done|]. rewrite Hm. by eapply lock_keep.
  - moves es; [done|]. rewrite Hm. by eapply lock_keep.
Qed.

(** The pool [c] is where the history [h] leads from a queue that held
    [items] and had [opened] descriptors. *)
Definition mq_explained_pool m0 (c : pool world transfer_result)
    (h : mq_history) : Prop :=
  exists sts, staged transfer_knows transfer_moves transfer_waits transfer_faults transfer_ends c.1 sts
    /\ mq_explained m0 sts c.2 h.

(** How many of the first [n] tasks close a descriptor, and open one. *)
Definition closers (n : nat) : Z := tally (fun i => claims (Before (intent_of (ops i)))) (seq 0 n).
Definition openers (n : nat) : Z := tally (fun i => wants (Before (intent_of (ops i)))) (seq 0 n).

Lemma mq_explained_start n w m :
  queue_fits w m -> closers n < open_count m < 2 ^ 16 - openers n -> mut_own (allq_mux w) = 0 ->
  mq_explained_pool m (transfers n, w) [].
Proof.
  intros Hf Ho Hm. set (st i := Before (intent_of (ops i))). exists (map st (seq 0 n)). cbn [fst snd].
  assert (forall f, (forall i, f (st i) = 0) -> tally f (map st (seq 0 n)) = 0) as H0.
  { intros f H. rewrite tally_map. by apply tally_zero. }
  assert (forall i x, map st (seq 0 n) !! i = Some x -> x = st i) as Hst.
  { intros i x (j & -> & Hj)%list_lookup_fmap_Some. by apply lookup_seq in Hj as [-> _]. }
  split.
  - unfold transfers. split; [by rewrite !length_map|]. intros i p x Hp ->%Hst.
    apply list_lookup_fmap_Some in Hp as (j & -> & Hj). apply lookup_seq in Hj as [-> _]. apply runs_transfer.
  - split.
    + exists m. split; [done|]. split; [split; [done|]; split; [cbn; lia|done]|].
      rewrite !tally_map. split; [exact Ho|by intros j b k es ?%Hst].
    + left. split; [done|by apply H0].
    + intros i. destruct (map st (seq 0 n) !! i) as [x|] eqn:Hx; [|done]. by apply Hst in Hx as ->.
Qed.

Lemma mq_explained_next m0 c h c' :
  mq_explained_pool m0 c h -> clocked_step c c' ->
  exists h', (length h' <= 1)%nat /\ mq_explained_pool m0 c' (h ++ h').
Proof.
  intros (sts & Hst & X) Hs. destruct Hs as [[ts w] c' Hs|ts w k _ _].
  2: { exists []. split; [simpl; lia|]. exists sts. rewrite app_nil_r. split; [done|]. by split; apply X. }
  destruct (staged_step _ _ _ _ _ ts sts w c' Hst (mq_explained_known _ _ _ _ X) Hs) as (i & st & st' & Hi & Hmv & Hst').
  destruct (mq_explained_move m0 sts w h i st st' c'.2 X Hi Hmv) as (es & Hl & X').
  exists (map (pair i) es). split; [by rewrite length_map|]. by exists (<[i:=st']> sts).
Qed.

Lemma mq_explained_reach m0 c c' h :
  mq_explained_pool m0 c h -> reach clocked_step c c' -> exists h', mq_explained_pool m0 c' h'.
Proof.
  intros X H. induction H as [|y z H [h1 IH] Hs]; [by exists h|].
  destruct (mq_explained_next _ _ _ _ IH Hs) as (h' & _ & X'). by exists (h1 ++ h').
Qed.

(** What the callers can see of it. *)
Record transfers_agree m0 (c : pool world transfer_result) (h : mq_history)
  : Prop := {
  ta_queue : exists m, at_ d c.2 = Some m /\ comes_from m0 (map snd h) m
    /\ mq_items (q m0) ++ puts (map snd h) = gots (map snd h) ++ mq_items (q m) /\ 0 < open_count m;
  ta_returned i r : c.1 !! i = Some (Ret r) -> transferred d isz (ops i) (events_of i h) r
}.

Lemma mq_explained_agrees m0 c h :
  mq_explained_pool m0 c h -> transfers_agree m0 c h.
Proof.
  intros (sts & Hst & X). split.
  - destruct (me_queue _ _ _ _ X) as (m & (_ & Hm & _) & Hc & Ht & _). exists m. split; [done|].
    split; [done|]. split; [by eapply fifo_conserves, Hc|].
    pose proof (tally_nonneg claims sts claims_bit). lia.
  - intros i r Hi. destruct (staged_lookup _ _ _ _ _ _ _ i _ Hst Hi) as (st & Hs & He).
    rewrite (me_events _ _ _ _ X i), Hs. by destruct st.
Qed.

(** C9: All the operations on an open queue are linearizable. The statement is
    about the code of the operations, given a queue on the list with more open
    descriptors than tasks that close one: as the module stands no execution
    gets there, since [mq_open] does not link the queue it creates and leaves
    its count of descriptors 0. Given such a queue, for any number of concurrent
    sends, receives (timed or not), queries, openings by name, closings and
    unlinkings (and room in the 16-bit counter for those that open one), in
    every interleaving and while time passes, each action of the code is no
    event or one event of a bounded first-in first-out queue; the kernel queue,
    the number of descriptors and the mark of [mq_unlink] are what the history
    of events leaves; and each call that has returned has taken effect by one
    event of its own if it succeeded and by none if it failed. So the messages
    in the queue at the start, followed by those sent, are those received, in
    order, followed by those still there, and the queue is never released. *)
Theorem mq_transfers_linearize n w m :
  queue_fits w m -> closers n < open_count m < 2 ^ 16 - openers n -> mut_own (allq_mux w) = 0 ->
  exists R : pool world transfer_result -> mq_history -> Prop,
    R (transfers n, w) []
    /\ (forall c h c', R c h -> clocked_step c c' -> exists h', (length h' <= 1)%nat /\ R c' (h ++ h'))
    /\ (forall c h, R c h -> transfers_agree m c h).
Proof.
  intros Hf Ho Hm. exists (mq_explained_pool m).
  split; [by apply mq_explained_start|]. split; [intros c h c'; apply mq_explained_next|apply mq_explained_agrees].
Qed.

(** In a stuck pool nobody is inside the module. *)
Lemma stuck_outside m0 sts w h :
  mq_explained m0 sts w h ->
  (forall i st, sts !! i = Some st -> transfer_waits i st w \/ holding st = 0) ->
  forall i, mut_lock (task_cur (who i)) WAIT (allq_mux w) <> [].
Proof.
  intros X Hw i. destruct (lock_progress ML who holding who_task sts (allq_mux w) i (me_lock _ _ _ _ X))
    as [(j & st & Hj & Hs)|H]; [|done].
  destruct (Hw j st Hj) as [Ht|]; [by destruct st|lia].
Qed.

(** C14: Progress of the pools of [mq_transfers_linearize], on the same
    condition (a queue on the list with open descriptors, which [mq_open] as it
    stands never provides), with or without deadlines and while time passes: the
    tasks cannot run for ever; nothing is undefined but the conversion of a
    deadline that is too far away; and where they come to rest, each call has
    returned or is a send while the queue is full or a receive while it is
    empty: nobody waits for the lock, every query, opening, closing and
    unlinking returns, and no sender and receiver wait for each other (unless
    the queue has no room at all). *)
Theorem mq_transfers_progress n w m :
  queue_fits w m -> closers n < open_count m < 2 ^ 16 - openers n -> mut_own (allq_mux w) = 0 ->
  forall c, reach clocked_step (transfers n, w) c ->
       Acc (fun y x => pool_step x y) c
       /\ (forall e, pool_faults c e -> e = SignedOverflow /\ exists i, has_deadline (ops i) = true)
       /\ (stuck pool_step c -> (forall e, ~ pool_faults c e) -> forall i p, c.1 !! i = Some p ->
            (exists r, p = Ret r)
            \/ exists m', at_ d c.2 = Some m' /\ mq_sz (q m') = mq_sz (q m)
                 /\ match ops i with
                    | Sends _ _ _ _ _ => mq_n (q m') = mq_sz (q m')
                    | Receives _ _ _ => mq_items (q m') = []
                    | _ => False
                    end).
Proof.
  intros Hf Ho Hm c Hc. split; [apply pool_wf|].
  destruct (mq_explained_reach _ _ _ _ (mq_explained_start n w m Hf Ho Hm) Hc) as (h & sts & Hst & X).
  pose proof (mq_explained_known _ _ _ _ X) as Hg. destruct c as [ts v]. simpl in *.
  split.
  { intros e He. destruct (staged_faults _ _ _ _ _ ts sts v e Hst Hg He) as (i & -> & Hi). eauto. }
  intros Hs Hno i p Hi.
  assert (forall j st, sts !! j = Some st -> transfer_waits j st v \/ holding st = 0) as Hw.
  { intros j st Hj. destruct (lookup_lt_is_Some_2 ts j) as [pj Hpj].
    { destruct Hst as [-> _]. by eapply lookup_lt_Some. }
    destruct (staged_stuck _ _ _ _ _ ts sts v j pj st Hst Hg Hs Hno Hpj Hj) as [|(r & _ & He)]; [by left|].
    right. by destruct st. }
  destruct (staged_lookup _ _ _ _ _ _ _ i p Hst Hi) as (st & Hsti & _).
  destruct (staged_stuck _ _ _ _ _ ts sts v i p st Hst Hg Hs Hno Hi Hsti) as [Hwait|(r & -> & _)];
    [right|by left; exists r].
  destruct st; simpl in Hwait; try done.
  - by destruct (stuck_outside _ _ _ _ X Hw i).
  - destruct Hwait as (m' & Hm' & Hb). destruct (me_queue _ _ _ _ X) as (m2 & (_ & Hm2 & _) & [Hs2 _] & _).
    exists m'. split; [done|]. split; [congruence|]. by destruct (ops i).
Qed.
End transfers.

(** ** Witnesses *)

Section transfer_witnesses.
Import Sim.

(** A receiver, a sender, and tasks that close a descriptor, ask, open the
    queue and unlink it, on an empty queue of two messages with two
    descriptors. *)
Definition queue_users (i : nat) : transfer :=
  match i with
  | 0%nat => Receives 4 4 None
  | 1%nat => Sends 4 [7] 4 0 None
  | 2%nat => Drops
  | 3%nat => Asks
  | 4%nat => Opens 0 0 None
  | _ => Unlinks
  end.

Definition transfer_pool : pool (@world sim_kernel) transfer_result :=
  (transfers sim_who 64 "/q" queue_users 6, mq_world (sim_mqd [] 0 2 0)).

Lemma transfer_pool_fits : queue_fits 64 4 "/q" queue_users (mq_world (sim_mqd [] 0 2 0)) (sim_mqd [] 0 2 0).
Proof.
  split; [done|]. split; [reflexivity|]. split; [reflexivity|]. split; [simpl; lia|].
  intros _. split; [done|]. split; [done|]. by exists [].
Qed.

Lemma transfer_pool_room : closers queue_users 6 < 2 < 2 ^ 16 - openers queue_users 6.
Proof. by split. Qed.

Lemma mq_transfers_linearize_witness :
  exists R : pool (@world sim_kernel) transfer_result -> mq_history -> Prop,
    R transfer_pool []
    /\ (forall c h c', R c h -> clocked_step c c' -> exists h', (length h' <= 1)%nat /\ R c' (h ++ h'))
    /\ (forall c h, R c h -> transfers_agree sim_mq_laws 64 4 queue_users (sim_mqd [] 0 2 0) c h).
Proof.
  apply (mq_transfers_linearize sim_mut_laws sim_mq_laws sim_mq_busy_laws sim_who 64 4 "/q" queue_users
    sim_who_task sim_who_inj 6 (mq_world (sim_mqd [] 0 2 0)) (sim_mqd [] 0 2 0) transfer_pool_fits transfer_pool_room eq_refl).
Defined.

(** The receiver comes first and waits; when the sender has sent, a
    descriptor has been closed, the message counted, another descriptor
    opened and the queue unlinked, it takes the message. *)
Definition transfer_results (c : pool (@world sim_kernel) transfer_result) : list (option transfer_result) :=
  results c.

Lemma mq_transfers_progress_witness :
  exists c, reach pool_step transfer_pool c
    /\ transfer_results c = [Some (4, Some [7]); Some (0, None); Some (0, None); Some (0, Some [1]); Some (64, None);
        Some (0, None)]
    /\ Acc (fun y x => pool_step x y) c.
Proof.
  destruct (sched_summary transfer_results
    (replicate 5 0 ++ replicate 6 1 ++ replicate 7 2 ++ replicate 6 3 ++ replicate 7 4 ++ replicate 7 5
     ++ replicate 2 0)%nat transfer_pool
    [Some (4, Some [7]); Some (0, None); Some (0, None); Some (0, Some [1]); Some (64, None);
        Some (0, None)]) as (c & Hr & Hc);
    [vm_compute; reflexivity|].
  exists c. split; [exact Hr|]. split; [exact Hc|].
  apply (mq_transfers_progress sim_mut_laws sim_mq_laws sim_mq_busy_laws sim_who 64 4 "/q" queue_users
    sim_who_task sim_who_inj 6 (mq_world (sim_mqd [] 0 2 0)) (sim_mqd [] 0 2 0)
    transfer_pool_fits transfer_pool_room eq_refl c (clocked_reach _ _ Hr)).
Defined.
End transfer_witnesses.
