(* ===== verification/MqueueLock.v ===== *)
(** The lock of the message-queue module: any number of tasks that call any
    operations of [src/posix_mqueue.c] on any queues at once.  The list of
    queues is changed under the lock only, and every call that returns has
    released the lock, but for [mq_open] when there is no memory: after it,
    nobody gets in again.  As long as that has not happened, no call is ever
    left waiting for the lock. *)
From S2P Require Import Prelude Prog Protocol Kernel World Lock SimKernel Timespec Clock Mqueue.

(** ** The calls *)

Inductive module_call :=
| Opens (nm : string) (oflag mode : Z) (attr : option mq_attr)
| Closes (d : Z)
| Unlinks (nm : string)
| Getattrs (d : Z)
| Sends_to (d ptr : Z) (msg : list Z) (len prio : Z) (abstime : option timespec)
| Receives_from (d ptr len : Z) (abstime : option timespec).

Definition is_open (o : module_call) : bool := match o with Opens _ _ _ _ => true | _ => false end.
Definition is_transfer (o : module_call) : bool :=
  match o with Sends_to _ _ _ _ _ _ | Receives_from _ _ _ _ => true | _ => false end.

Section discipline.
Context `{P : Platform} `{K : Kernel} (ML : MutLaws P K).
Context (who : nat -> caller) (ops : nat -> module_call).
Hypothesis who_task : forall i, task_cur (who i) <> 0.
Hypothesis who_inj : forall i j, task_cur (who i) = task_cur (who j) -> i = j.
Implicit Types (w : world).

(** The C result of each call. *)
Definition module_code (c : caller) (o : module_call) : prog world Z :=
  match o with
  | Opens nm oflag mode attr => mq_open c nm oflag mode attr
  | Closes d => mq_close c d
  | Unlinks nm => mq_unlink c nm
  | Getattrs d => let* r := mq_getattr c d in Ret r.1
  | Sends_to d ptr msg len prio abstime => mq_timedsend c d ptr msg len prio abstime
  | Receives_from d ptr len abstime => let* r := mq_timedreceive c d ptr len abstime in Ret r.1
  end.

Definition module_calls (n : nat) : list (prog world Z) := map (fun i => module_code (who i) (ops i)) (seq 0 n).

(** ** Code between locking and unlocking

    [tame b q Q]: the actions of [q] do not block, leave the lock alone and,
    unless [b], the list; its results satisfy [Q]. *)
Fixpoint tame {A} (b : bool) (q : prog world A) (Q : A -> Prop) : Prop :=
  match q with
  | Ret x => Q x
  | Act a k => (forall w, a w <> [])
      /\ forall w x w', Done x w' ∈ a w ->
           (inited w' = inited w /\ allq_mux w' = allq_mux w /\ (b = false -> allq w' = allq w)) /\ tame b (k x) Q
  end.

Lemma tame_bind {A B} b (q : prog world A) (f : A -> prog world B) Q :
  tame b q (fun x => tame b (f x) Q) -> tame b (bind q f) Q.
Proof.
  induction q as [x|C a k IH]; simpl; [done|]. intros [Hne H]. split; [done|].
  intros w x w' Hx. destruct (H w x w' Hx). split; [done|by apply IH].
Qed.

Lemma tame_weaken {A} b (q : prog world A) (Q Q' : A -> Prop) :
  (forall x, Q x -> Q' x) -> tame b q Q -> tame b q Q'.
Proof.
  intros HQ. induction q as [x|C a k IH]; simpl; [apply HQ|]. intros [Hne H]. split; [done|].
  intros w x w' Hx. destruct (H w x w' Hx). split; [done|by apply IH].
Qed.

(** Single actions. *)
Lemma tame_act {A} b (a : action world A) (Q : A -> Prop) :
  (forall w, a w <> []) ->
  (forall w x w', Done x w' ∈ a w -> inited w' = inited w /\ allq_mux w' = allq_mux w /\ allq w' = allq w) ->
  (forall x, Q x) -> tame b (act a) Q.
Proof. intros Hne H HQ. split; [done|]. intros w x w' Hx. destruct (H w x w' Hx) as (? & ? & ?). split; [done|apply HQ]. Qed.

Section tame_actions.
Context {S T : Type} `{!Kind S} (b : bool) (p : Z) (g : S -> T) (st : T -> S -> S).

Lemma tame_load (Q : T -> Prop) : (forall x, Q x) -> tame b (load (fld p g st)) Q.
Proof.
  apply tame_act; intros w; simpl; [by destruct (at_ p w)|]. intros x w'.
  by destruct (at_ p w); intros Hx; apply list_elem_of_singleton in Hx; simplify_eq.
Qed.

Lemma tame_store v (Q : unit -> Prop) : Q tt -> tame b (store (fld p g st) v) Q.
Proof.
  intros HQ. apply tame_act; [intros w; simpl; by destruct (at_ p w)| |by intros []]. intros w x w'. simpl.
  by destruct (at_ p w); intros Hx; apply list_elem_of_singleton in Hx; simplify_eq.
Qed.

Lemma tame_kmod f (Q : unit -> Prop) : Q tt -> tame b (kmod (fld p g st) f) Q.
Proof.
  intros HQ. apply tame_act; [intros w; simpl; by destruct (at_ p w)| |by intros []]. intros w x w'. simpl.
  by destruct (at_ p w); intros Hx; apply list_elem_of_singleton in Hx; simplify_eq.
Qed.
End tame_actions.

Lemma tame_get {A} b (f : world -> A) (Q : A -> Prop) : (forall x, Q x) -> tame b (get f) Q.
Proof. apply tame_act; [done|]. intros w x w' Hx. apply list_elem_of_singleton in Hx. by simplify_eq. Qed.

Lemma tame_errno b c e (Q : unit -> Prop) : Q tt -> tame b (set_errno c e) Q.
Proof.
  intros HQ. apply tame_act; [done| |by intros []].
  intros w x w' Hx. apply list_elem_of_singleton in Hx. by simplify_eq.
Qed.

Lemma tame_raise {A} b e (Q : A -> Prop) : tame b (raise e) Q.
Proof. split; [done|]. by intros w x w' ?%list_elem_of_singleton. Qed.

Lemma tame_lift {A} b (o : option A) (Q : A -> Prop) : (forall x, Q x) -> tame b (lift o) Q.
Proof. destruct o; [by intros HQ; apply HQ|intros _; apply tame_raise]. Qed.

Lemma tame_alloc b ty n (Q : Z -> Prop) : (forall x, Q x) -> tame b (posix_alloc ty n) Q.
Proof.
  apply tame_act; intros w; simpl; [by repeat case_match|]. intros x w'.
  destruct (_ =? 0); [by intros ?%list_elem_of_singleton|].
  by destruct (_ =? 0); intros Hx; apply list_elem_of_singleton in Hx; simplify_eq.
Qed.

Lemma tame_free b ty p (Q : unit -> Prop) : Q tt -> tame b (posix_free ty p) Q.
Proof.
  intros HQ. apply tame_act; [intros w; simpl; by repeat case_match| |by intros []]. intros w x w'. simpl.
  destruct (_ =? 0); [by intros ?%list_elem_of_singleton|].
  by destruct (mem w !! p); intros Hx; apply list_elem_of_singleton in Hx; simplify_eq.
Qed.

Lemma tame_memset {S} `{!Kind S} b p (s : S) (Q : unit -> Prop) : Q tt -> tame b (memset_zero p s) Q.
Proof.
  intros HQ. apply tame_act; [intros w; simpl; by repeat case_match| |by intros []]. intros w x w'. simpl.
  destruct (_ =? 0); [by intros ?%list_elem_of_singleton|].
  by destruct (mem w !! p); intros Hx; apply list_elem_of_singleton in Hx; simplify_eq.
Qed.

Lemma tame_memset_raw b p n (Q : unit -> Prop) : Q tt -> tame b (memset_raw p n) Q.
Proof.
  intros HQ. apply tame_act; [intros w; simpl; by repeat case_match| |by intros []]. intros w x w'. simpl.
  by repeat case_match; intros Hx; apply list_elem_of_singleton in Hx; simplify_eq.
Qed.

Lemma tame_list_del mq (Q : unit -> Prop) : Q tt -> tame true (list_del mq) Q.
Proof.
  intros HQ. split; [done|]. intros w x w' Hx. apply list_elem_of_singleton in Hx. by simplify_eq.
Qed.

Ltac tame :=
  repeat first
    [ exact I
    | apply tame_bind
    | apply tame_load; intros
    | apply tame_store
    | apply tame_kmod
    | apply tame_get; intros
    | apply tame_errno
    | apply tame_raise
    | apply tame_lift; intros
    | apply tame_alloc; intros
    | apply tame_free
    | apply tame_memset
    | apply tame_memset_raw
    | apply tame_list_del
    | match goal with |- tame _ (match ?x with _ => _ end) _ => destruct x end
    | progress cbn [tame] ].

Lemma tame_tick_timeout b f a t : tame b (get_tick_timeout f a t) (fun _ => True).
Proof. unfold get_tick_timeout, clock_gettime. tame. Qed.

Lemma tame_find b nm : tame b (mq_find_locked nm) (fun _ => True).
Proof.
  unfold mq_find_locked. apply tame_bind, tame_get. intros l.
  induction (ll_elems l) as [|e es IH]; cbn [find_in]; [exact I|].
  apply tame_bind, tame_load. intros x. by destruct (String.eqb nm x).
Qed.

Lemma tame_mq_free b mq : tame b (mq_free mq) (fun _ => True).
Proof. unfold mq_free. tame. Qed.

Lemma tame_failed b c mq : tame b (transfer_failed c mq) (fun _ => True).
Proof. unfold transfer_failed. tame. Qed.

(** ** The protocol of a call *)

Inductive turn := Apart | Within.

Definition within (st : turn) : Z := match st with Apart => 0 | Within => 1 end.

Inductive turn_moves (i : nat) : turn -> world -> turn -> world -> Prop :=
| TnTame st w w' :
    inited w' = inited w -> allq_mux w' = allq_mux w -> allq w' = allq w -> turn_moves i st w st w'
| TnList w w' : inited w' = inited w -> allq_mux w' = allq_mux w -> turn_moves i Within w Within w'
| TnEnter w w' r :
    inited w' = inited w -> allq w' = allq w ->
    (r, allq_mux w') ∈ mut_lock (task_cur (who i)) WAIT (allq_mux w) -> turn_moves i Apart w Within w'
| TnLeave w w' :
    inited w' = inited w -> allq w' = allq w -> allq_mux w' = mut_unlock (task_cur (who i)) (allq_mux w) ->
    turn_moves i Within w Apart w'.

(** A call is blocked by the lock, or by a queue that is full or empty. *)
Definition turn_waits (i : nat) (st : turn) w : Prop :=
  st = Apart /\ (is_transfer (ops i) = true \/ mut_lock (task_cur (who i)) WAIT (allq_mux w) = []).

Definition turn_ends (i : nat) (st : turn) (r : Z) : Prop :=
  match st with Apart => True | Within => is_open (ops i) = true /\ r = MQD_ERROR end.

Definition module_ready (_ : nat) (_ : turn) w : Prop := inited w <> 0.

Abbreviation runs := (follows module_ready turn_moves turn_waits (fun _ _ => True) turn_ends).

Lemma runs_tame {A} i (q : prog world A) (k : A -> prog world Z) st Q :
  tame (match st with Within => true | Apart => false end) q Q -> (forall x, Q x -> runs i (k x) st) ->
  runs i (bind q k) st.
Proof.
  intros Hq Hk. induction q as [x|C a c IH]; simpl; [by apply Hk|]. destruct Hq as [Hne H]. intros w _.
  split; [by intros E%Hne|]. split; [done|]. intros x w' Hx. destruct (H w x w' Hx) as ((Hi & Hm & Hl) & Hc).
  exists st. split; [|by apply IH]. destruct st; [apply TnTame; auto|by apply TnList].
Qed.

Lemma runs_enter_module i k : (forall x, runs i (k x) Within) -> runs i (bind (lock_queues (who i)) k) Apart.
Proof.
  intros Hk. apply follows_act; simpl; [|done|].
  - intros w _ E%map_eq_nil. split; [done|by right].
  - intros w x w' _ ([r y] & Hx & Hin)%list_elem_of_fmap. simplify_eq. exists Within. split; [|apply Hk].
    by apply (TnEnter i w _ r).
Qed.

Lemma runs_leave_module i k : runs i (k tt) Apart -> runs i (bind (unlock_queues (who i)) k) Within.
Proof.
  intros Hk. apply follows_act; simpl; [done|done|].
  intros w x w' _ Hx. apply list_elem_of_singleton in Hx. simplify_eq. exists Apart. split; [|done].
  by apply TnLeave.
Qed.

Lemma runs_init i k : runs i (k tt) Apart -> runs i (bind mq_check_init k) Apart.
Proof.
  intros Hk. apply follows_assoc, follows_act; [done|done|].
  intros w x w' Hw Hx. apply list_elem_of_singleton in Hx. simplify_eq. exists Apart.
  split; [by apply TnTame|]. unfold module_ready in Hw. by test_false (inited w =? 0).
Qed.

(** The transfer itself. *)
Lemma runs_kernel_queue {A} i mq (f : mq_t -> list (A * mq_t)) k :
  is_transfer (ops i) = true -> (forall x, runs i (k x) Apart) -> runs i (bind (kcall (mqd_q mq) f) k) Apart.
Proof.
  intros Ht Hk. apply follows_act; simpl; [|done|].
  - intros w _ _. split; [done|by left].
  - intros w x w' _. destruct (at_ mq w) as [m|]; [|by intros ?%list_elem_of_singleton].
    intros ([r y] & Hx & Hin)%list_elem_of_fmap. simplify_eq. exists Apart. split; [|apply Hk]. by apply TnTame.
Qed.

(** *** The calls *)

Ltac assoc :=
  repeat lazymatch goal with |- follows _ _ _ _ _ _ (bind (bind _ _) _) _ => apply follows_assoc end.

(** Code that is [tame], whatever its result. *)
Ltac pass := eapply (runs_tame _ _ _ _ (fun _ => True)); [tame|intros ? _].

Lemma runs_close i d : runs i (mq_close (who i) d) Apart.
Proof.
  unfold mq_close, mq_extract_locked. apply runs_init, runs_enter_module. intros _. pass. pass.
  destruct x0 as [ret removed]. apply runs_leave_module.
  eapply (runs_tame _ _ _ _ (fun _ => True)); [|done].
  destruct (negb (removed =? 0)); [apply tame_mq_free|exact I].
Qed.

Lemma runs_getattr i d : runs i (let* r := mq_getattr (who i) d in Ret r.1) Apart.
Proof.
  unfold mq_getattr, mq_extract_locked. assoc. apply runs_init. assoc. apply runs_enter_module. intros _. assoc. pass.
  cbn [bind]. assoc. pass. assoc. by apply runs_leave_module.
Qed.

Lemma runs_unlink i nm : runs i (mq_unlink (who i) nm) Apart.
Proof.
  unfold mq_unlink. apply runs_init. pass. destruct (_ =? 0); [|exact I].
  assoc. apply runs_enter_module. intros _. assoc.
  eapply (runs_tame _ _ _ _ (fun _ => True)); [apply tame_find|intros mq _]. assoc. pass.
  destruct x0 as [ret removed]. assoc. apply runs_leave_module. cbn [bind].
  eapply (runs_tame _ _ _ _ (fun _ => True)); [|done].
  destruct (negb (removed =? 0)); [apply tame_mq_free|exact I].
Qed.

(** [mq_open] leaves with the lock only when it reports an error. *)
Lemma runs_open i nm oflag mode a :
  ops i = Opens nm oflag mode a -> runs i (mq_open (who i) nm oflag mode a) Apart.
Proof.
  intros Hop. unfold mq_open. apply runs_init. pass. pass. destruct (x0 =? 0); [|exact I].
  apply runs_enter_module. intros _.
  eapply (runs_tame _ _ _ _ (fun _ => True)); [apply tame_find|intros mq _].
  eapply (runs_tame _ _ _ _ (fun r => r.2 = true -> r.1 = MQD_ERROR)); [unfold strcpy_name; tame; done|].
  intros [m goto_out] Hout. destruct goto_out.
  - cbn [bind]. unfold turn_ends. simpl. rewrite Hop. split; [done|by apply Hout].
  - by apply runs_leave_module.
Qed.

(** The checks of a transfer. *)
Lemma runs_checks i d ptr bad a k :
  (forall x, runs i (k x) Apart) -> runs i (bind (mq_checks (who i) d ptr bad a) k) Apart.
Proof.
  intros Hk. unfold mq_checks, mq_extract_locked. assoc. apply runs_enter_module. intros _. assoc. pass.
  cbn [bind]. assoc. pass. assoc. pass. assoc. pass. assoc.
  eapply (runs_tame _ _ _ _ (fun _ => True)).
  { tame. eapply tame_weaken; [|apply tame_tick_timeout]. intros [r t] _. tame. }
  intros [ret timeout] _. assoc. apply runs_leave_module. apply Hk.
Qed.

Lemma runs_transfer_call i d ptr msg len prio a :
  ops i = Sends_to d ptr msg len prio a -> runs i (mq_timedsend (who i) d ptr msg len prio a) Apart.
Proof.
  intros Hop. unfold mq_timedsend. apply runs_checks. intros [[ret mq] t]. destruct (ret =? 0); [|exact I].
  apply runs_kernel_queue; [by rewrite Hop|]. intros r. destruct (negb (r =? 0)); [|exact I].
  eapply follows_last, (runs_tame _ _ _ _ (fun _ => True)); [apply tame_failed|done].
Qed.

Lemma runs_receive_call i d ptr len a :
  ops i = Receives_from d ptr len a ->
  runs i (let* r := mq_timedreceive (who i) d ptr len a in Ret r.1) Apart.
Proof.
  intros Hop. unfold mq_timedreceive. assoc. apply runs_checks. intros [[ret mq] t]. destruct (ret =? 0); [|exact I].
  assoc. apply runs_kernel_queue; [by rewrite Hop|]. intros [r msg]. assoc.
  eapply (runs_tame _ _ _ _ (fun _ => True)).
  { destruct (negb (r =? 0)); [apply tame_failed|exact I]. }
  intros x _. destruct (x =? 0); [|exact I]. assoc. pass. exact I.
Qed.

Lemma runs_module_call i : runs i (module_code (who i) (ops i)) Apart.
Proof.
  destruct (ops i) eqn:Hop; cbn [module_code]; [by eapply runs_open|apply runs_close|apply runs_unlink|apply runs_getattr| |].
  - by eapply runs_transfer_call.
  - by eapply runs_receive_call.
Qed.

(** ** Pools of calls *)

Implicit Types (sts : list turn).

Definition module_explained (c : pool world Z) sts : Prop :=
  staged module_ready turn_moves turn_waits (fun _ _ => True) turn_ends c.1 sts
  /\ inited c.2 <> 0 /\ lock_inv ML who within sts (allq_mux c.2).

Lemma within_bit st : within st = 0 \/ within st = 1.
Proof. destruct st; auto. Qed.

Lemma turn_lock sts w i st st' w' :
  lock_inv ML who within sts (allq_mux w) -> sts !! i = Some st -> turn_moves i st w st' w' ->
  inited w' = inited w /\ lock_inv ML who within (<[i:=st']> sts) (allq_mux w').
Proof.
  intros HL Hi Hmv. inversion Hmv as [? ? ? Hn Hm Hq|? ? Hn Hm|? ? r Hn Hq Hx|? ? Hn Hq Hm]; subst; (split; [done|]);
    rewrite ?Hm.
  - by eapply lock_keep.
  - by eapply lock_keep.
  - by eapply (lock_acquire ML who within who_task who_inj within_bit).
  - by eapply (lock_release ML who within within_bit).
Qed.

Lemma module_explained_next c c' sts :
  module_explained c sts -> clocked_step c c' -> exists sts', module_explained c' sts'.
Proof.
  intros (Hst & Hn & HL) Hstep. destruct Hstep as [[ts w] z Hs|ts w k _ _]; [|by exists sts].
  destruct (staged_step _ _ _ _ _ ts sts w z Hst (fun _ _ _ => Hn) Hs) as (i & st & st' & Hi & Hmv & Hst').
  destruct (turn_lock sts w i st st' z.2 HL Hi Hmv) as [Hn' HL'].
  exists (<[i:=st']> sts). split; [done|]. split; [by rewrite Hn'|done].
Qed.

Lemma module_explained_reach n w c :
  inited w <> 0 -> mut_own (allq_mux w) = 0 -> reach clocked_step (module_calls n, w) c ->
  exists sts, module_explained c sts.
Proof.
  intros Hn Hf H. induction H as [|y z H [sts X] Hs]; [|by eapply module_explained_next].
  exists (replicate n Apart). split; [|split; [done|]].
  - split; [cbn; unfold module_calls; by rewrite length_map, length_seq, length_replicate|].
    intros i p st Hp Hst. apply lookup_replicate in Hst as [-> _].
    apply list_lookup_fmap_Some in Hp as (j & -> & Hj). apply lookup_seq in Hj as [-> _]. apply runs_module_call.
  - left. split; [done|]. by rewrite tally_replicate, Z.mul_0_r.
Qed.

(** C8: The lock discipline of the message-queue module, for any operations by
    any number of tasks on any queues, in any interleaving, while time passes,
    once the module is initialised: the list of queues is changed only by the
    task that owns the lock; a call that has returned does not own it, unless
    it is an [mq_open] that has failed (in the code, for want of memory, by
    the [goto] past the unlocking; the statement allows it of any failed
    [mq_open]); and where the tasks come to rest without a fault, a
    call that has not returned is a send or receive in the kernel, unless
    such an [mq_open] has kept the lock. *)
Theorem mq_lock_discipline n w c :
  inited w <> 0 -> mut_own (allq_mux w) = 0 -> reach clocked_step (module_calls n, w) c ->
  (forall c', pool_step c c' -> allq c'.2 <> allq c.2 ->
     exists i p, c'.1 = <[i:=p]> c.1 /\ mut_own (allq_mux c.2) = task_cur (who i))
  /\ (forall i r, c.1 !! i = Some (Ret r) -> mut_own (allq_mux c.2) = task_cur (who i) ->
       is_open (ops i) = true /\ r = MQD_ERROR)
  /\ (stuck pool_step c -> (forall e, ~ pool_faults c e) -> forall i p, c.1 !! i = Some p ->
       (exists r, p = Ret r) \/ is_transfer (ops i) = true
       \/ exists j, c.1 !! j = Some (Ret MQD_ERROR) /\ is_open (ops j) = true
            /\ mut_own (allq_mux c.2) = task_cur (who j)).
Proof.
  intros Hn0 Hf Hr. destruct (module_explained_reach n w c Hn0 Hf Hr) as (sts & Hst & Hn & HL).
  destruct c as [ts v]. simpl in *.
  assert (known module_ready sts v) as Hk by (by intros ? ? ?).
  assert (forall i, sts !! i = Some Within -> mut_own (allq_mux v) = task_cur (who i)) as Hown.
  { intros i Hi. apply (mut_held_own (MutLaws:=ML)).
    by destruct (lock_alone ML who within within_bit sts _ i _ HL Hi eq_refl) as (_ & Hh & _). }
  split; [|split].
  - intros c' Hs Hq. destruct (staged_mover _ _ _ _ _ ts sts v c' Hst Hk Hs) as (i & p' & st & st' & Hc & Hi & Hmv & _).
    exists i, p'. split; [done|]. apply Hown. by inversion Hmv; subst.
  - intros i r Hi Ho. destruct (staged_lookup _ _ _ _ _ _ _ i _ Hst Hi) as (st & Hsti & He).
    destruct st; [|done]. by destruct (lock_outsider ML who within who_task who_inj sts _ i _ HL Hsti eq_refl).
  - intros Hs Hno i p Hi. destruct (staged_lookup _ _ _ _ _ _ _ i _ Hst Hi) as (st & Hsti & _).
    destruct (staged_stuck _ _ _ _ _ ts sts v i p st Hst Hk Hs Hno Hi Hsti) as [[_ [Ht|Hb]]|(r & -> & _)];
      [by right; left|right; right|by left; exists r].
    destruct (lock_progress ML who within who_task sts _ i HL) as [(j & q & Hj & Hq)|]; [|done].
    destruct q; [done|]. destruct (lookup_lt_is_Some_2 ts j) as [pj Hpj].
    { rewrite (proj1 Hst : length ts = _). by eapply lookup_lt_Some. }
    destruct (staged_stuck _ _ _ _ _ ts sts v j pj _ Hst Hk Hs Hno Hpj Hj) as [[? _]|(r & -> & Ho & ->)]; [done|].
    exists j. auto.
Qed.
End discipline.

(** ** Witness *)

Section lock_witness.
Import Sim.

(** One task removes the queue "/q" while another asks for its attributes. *)
Definition remove_and_ask (i : nat) : module_call := if decide (i = 0%nat) then Unlinks "/q" else Getattrs 64.

Definition module_pool : pool (@world sim_kernel) Z :=
  (module_calls sim_who remove_and_ask 2, mq_world (sim_mqd [] 0 0 0)).

Definition module_result (c : pool (@world sim_kernel) Z) : list (option Z) * bool :=
  (results c, bool_decide (ll_elems (allq c.2) = [])).

(** The removal is inside the lock, about to take the queue off the list. *)
Lemma mq_lock_discipline_witness :
  exists c, reach pool_step module_pool c /\ module_result c = ([None; None], false)
    /\ (forall c', pool_step c c' -> allq c'.2 <> allq c.2 ->
         exists i p, c'.1 = <[i:=p]> c.1 /\ mut_own (allq_mux c.2) = task_cur (sim_who i))
    /\ (forall i r, c.1 !! i = Some (Ret r) -> mut_own (allq_mux c.2) = task_cur (sim_who i) ->
         is_open (remove_and_ask i) = true /\ r = MQD_ERROR).
Proof.
  destruct (sched_summary module_result [1; 0; 0; 0; 0; 0]%nat module_pool ([None; None], false))
    as (c & Hr & Hc); [vm_compute; reflexivity|].
  exists c. split; [exact Hr|]. split; [exact Hc|].
  destruct (mq_lock_discipline sim_mut_laws sim_who remove_and_ask sim_who_task sim_who_inj 2
    (mq_world (sim_mqd [] 0 0 0)) c) as (H1 & H2 & _); [vm_compute; congruence|reflexivity|by apply clocked_reach|].
  split; [exact H1|exact H2].
Defined.
(** Two tasks that make the first calls of the module. *)
Definition first_calls : pool (@world sim_kernel) Z :=
  (module_calls sim_who (fun _ => Closes 64) 2, sim_world ∅).

Definition lock_owner (c : pool (@world sim_kernel) Z) : Z := mut_own (allq_mux c.2).

(** C36: Before the module is initialised the discipline fails: [mq_check_init]
    tests and sets [inited] without a lock, so that of two first calls one
    can initialise the mutex while the other holds it.  Then the lock passes
    to the second task while the first one has not moved and is still inside. *)
Theorem mq_init_race :
  exists c c', reach pool_step first_calls c /\ lock_owner c = task_cur (sim_who 0)
    /\ reach pool_step c c' /\ lock_owner c' = task_cur (sim_who 1) /\ c'.1 !! 0%nat = c.1 !! 0%nat.
Proof.
  destruct (sched_summaries lock_owner [0; 1; 0; 0; 0; 0]%nat [1; 1; 1; 1]%nat first_calls 1 2)
    as (c & c' & Hc & H1 & Hc' & H2 & H3); [vm_compute; reflexivity..|].
  exists c, c'. do 4 (split; [done|]). apply H3. set_solver.
Qed.
End lock_witness.
