(* ===== verification/MqueueErrno.v ===== *)
(** The results of the message-queue module in the worlds that executions
    reach.  No queue is ever on the list ([Mqueue.mq_never_listed]), so that
    every call on a descriptor is refused; this file proves which [errno] the
    caller finds, whatever the other tasks do meanwhile, with the judgement of
    [Errno.v].  The rules for the actions of the module are stated for any
    invariant of the list, since [Api.v] uses them too. *)
From S2P Require Import Prelude Prog Kernel World SimKernel Timespec Clock Mqueue MqueueLock Errno.

(** ** The actions of the module *)

Section rules.
Context `{P : Platform} `{K : Kernel} (L : ll_t -> Prop).
Hypothesis L_init : L ll_init.
Hypothesis L_del : forall p l, L l -> L (lle_del p l).
Context {R : Type} (me : Z) (e : option Z) (Q : option Z -> R -> Prop).

Lemma tracked_lock c (k : Z -> prog world R) :
  (forall x, tracked L me (k x) e Q) -> tracked L me (bind (lock_queues c) k) e Q.
Proof.
  intros Hk. apply tracked_act. intros w x w' Hw Hx. simpl in Hx.
  apply list_elem_of_fmap in Hx as (y & Hy & _). by simplify_eq.
Qed.

Lemma tracked_unlock c (k : unit -> prog world R) :
  tracked L me (k tt) e Q -> tracked L me (bind (unlock_queues c) k) e Q.
Proof.
  intros Hk. apply tracked_act. intros w [] w' Hw Hx. apply list_elem_of_singleton in Hx. by simplify_eq.
Qed.

Lemma tracked_list_del mq (k : unit -> prog world R) :
  tracked L me (k tt) e Q -> tracked L me (bind (list_del mq) k) e Q.
Proof. apply tracked_modify; [done|]. intros w. apply L_del. Qed.

Lemma tracked_memset_raw p n (k : unit -> prog world R) :
  tracked L me (k tt) e Q -> tracked L me (bind (memset_raw p n) k) e Q.
Proof.
  intros Hk. apply tracked_act. intros w [] w' Hw Hx.
  repeat case_match; apply list_elem_of_singleton in Hx; by simplify_eq.
Qed.

Lemma tracked_check_init (k : unit -> prog world R) :
  tracked L me (k tt) e Q -> tracked L me (bind mq_check_init k) e Q.
Proof.
  intros Hk. apply tracked_assoc, tracked_get. intros w _. destruct (negb (inited w =? 0)); [done|].
  apply tracked_assoc, tracked_modify; [done|intros; apply L_init|]. apply tracked_assoc, tracked_act.
  intros v [] v' Hv Hx. apply list_elem_of_singleton in Hx. simplify_eq. split; [done|]. split; [done|].
  by apply tracked_modify.
Qed.

(** The queue found is on the list. *)
Lemma tracked_find nm (k : Z -> prog world R) :
  tracked L me (k 0) e Q ->
  (forall l x, L l -> x ∈ ll_elems l -> tracked L me (k x) e Q) ->
  tracked L me (bind (mq_find_locked nm) k) e Q.
Proof.
  intros H0 Hk. apply tracked_assoc, tracked_get. intros w Hw.
  assert (forall x, x ∈ ll_elems (allq w) -> tracked L me (k x) e Q) as H by (intros x; by apply Hk).
  clear Hk Hw. induction (ll_elems (allq w)) as [|x es IH]; [done|]. cbn [find_in].
  apply tracked_assoc, tracked_load. intros n. destruct (String.eqb nm n); [apply H; by left|].
  apply IH. intros y Hy. apply H. by right.
Qed.

Lemma tracked_gettime id t (k : _ -> prog world R) :
  (forall x, tracked L me (k x) e Q) -> tracked L me (bind (clock_gettime id t) k) e Q.
Proof. intros Hk. unfold clock_gettime. repeat tracked_one; apply Hk. Qed.

Lemma tracked_tick_timeout f a t (k : _ -> prog world R) :
  (forall x, tracked L me (k x) e Q) -> tracked L me (bind (get_tick_timeout f a t) k) e Q.
Proof.
  intros Hk. unfold get_tick_timeout.
  repeat first [apply tracked_assoc, tracked_gettime; intros|apply tracked_gettime; intros|tracked_one]; apply Hk.
Qed.

Lemma tracked_mq_free mq (k : unit -> prog world R) :
  tracked L me (k tt) e Q -> tracked L me (bind (mq_free mq) k) e Q.
Proof. intros Hk. unfold mq_free, mqd_buf. by repeat tracked_one. Qed.

Lemma tracked_strcpy mq nm (k : unit -> prog world R) :
  tracked L me (k tt) e Q -> tracked L me (bind (strcpy_name mq nm) k) e Q.
Proof. intros Hk. unfold strcpy_name, mqd_name. by repeat tracked_one. Qed.
End rules.

(** Walking through a call of the module. *)
Ltac tracked_mq_one :=
  lazymatch goal with
  | |- tracked _ _ (bind (lock_queues _) _) _ _ => apply tracked_lock; intros
  | |- tracked _ _ (bind (unlock_queues _) _) _ _ => apply tracked_unlock
  | |- tracked _ _ (bind (list_del _) _) _ _ => apply tracked_list_del; [by auto|]
  | |- tracked _ _ (bind (memset_raw _ _) _) _ _ => apply tracked_memset_raw
  | |- tracked _ _ (bind mq_check_init _) _ _ => apply tracked_check_init; [by auto|]
  | |- tracked _ _ (bind (mq_find_locked _) _) _ _ => apply tracked_find; [|intros]
  | |- tracked _ _ (bind (clock_gettime _ _) _) _ _ => apply tracked_gettime; intros
  | |- tracked _ _ (bind (get_tick_timeout _ _ _) _) _ _ => apply tracked_tick_timeout; intros
  | |- tracked _ _ (bind (mq_free _) _) _ _ => apply tracked_mq_free
  | |- tracked _ _ (bind (strcpy_name _ _) _) _ _ => apply tracked_strcpy
  | _ => tracked_one
  end.

(** ** Every call is refused *)

Section refused.
Context `{P : Platform} `{K : Kernel} (LL : LlLaws K) (AL : AllocLaws K).
Context (who : nat -> caller) (ops : nat -> module_call).
Hypothesis who_inj : forall i j, task_cur (who i) = task_cur (who j) -> i = j.

(** The error number of a call that fails when there is no queue. *)
Definition refusal (o : module_call) : Z :=
  match o with
  | Opens nm _ _ attr => if ((validate_name nm).1 =? 0) || negative_attr attr then EINVAL else ENOENT
  | Unlinks nm => if (validate_name nm).1 =? 0 then ENAMETOOLONG else ENOENT
  | Closes _ | Getattrs _ => EBADF
  | Sends_to _ ptr _ _ _ _ | Receives_from _ ptr _ _ => if Z.land (wrapu 32 ptr) 3 =? 0 then EBADF else EINVAL
  end.

(** What a call returns, and the value that it has stored in [errno], if it
    has stored one. *)
Definition refused (o : module_call) (e : option Z) (r : Z) : Prop :=
  match o with
  | Opens nm oflag _ attr =>
      r = MQD_ERROR /\ e = Some (refusal o)
      \/ r <> MQD_ERROR /\ e = None
         /\ has_flag oflag O_CREAT = true /\ (validate_name nm).1 = 1 /\ negative_attr attr = false
  | _ => r = -1 /\ e = Some (refusal o)
  end.

Definition unlisted (l : ll_t) : Prop := ll_elems l = [].

Lemma unlisted_init : unlisted ll_init.
Proof. apply ll_init_nil. Qed.

Lemma unlisted_del p l : unlisted l -> unlisted (lle_del p l).
Proof. unfold unlisted. intros H. by rewrite lle_del_elems; rewrite H; [|constructor]. Qed.

#[local] Hint Resolve unlisted_init unlisted_del : core.

Abbreviation ends c o p := (tracked unlisted (task_cur c) p None (refused o)).

(** The descriptor is not on the list. *)
Lemma tracked_bad {A} me e (Q : option Z -> A -> Prop) d (k : Z -> prog world A) :
  tracked unlisted me (k 0) e Q -> tracked unlisted me (bind (mq_extract_locked d) k) e Q.
Proof.
  intros Hk. unfold mq_extract_locked. apply tracked_assoc, tracked_get. intros w ->. done.
Qed.

Ltac walk :=
  repeat first [progress change (MQD_ERROR =? 0) with false | progress cbn [bind negb Z.eqb fst snd] | apply tracked_bad | tracked_mq_one];
  try (match goal with H : unlisted _, Hx : _ ∈ _ |- _ => rewrite H in Hx; by apply not_elem_of_nil in Hx end).

Lemma ends_close c d : ends c (Closes d) (mq_close c d).
Proof. unfold mq_close. walk. done. Qed.

Lemma ends_getattr c d : ends c (Getattrs d) (let* r := mq_getattr c d in Ret r.1).
Proof. unfold mq_getattr. walk. done. Qed.

Lemma ends_checks {A} c d ptr bad a (k : Z * Z * Z -> prog world A) Q :
  (forall e t, e = Some (if Z.land (wrapu 32 ptr) 3 =? 0 then EBADF else EINVAL) ->
     tracked unlisted (task_cur c) (k (-1, 0, t)) e Q) ->
  tracked unlisted (task_cur c) (bind (mq_checks c d ptr bad a) k) None Q.
Proof.
  intros Hk. unfold mq_checks. walk; apply Hk; by match goal with H : negb _ = _ |- _ => destruct (_ =? 0) end.
Qed.

Lemma ends_send c d ptr msg len prio a :
  ends c (Sends_to d ptr msg len prio a) (mq_timedsend c d ptr msg len prio a).
Proof. unfold mq_timedsend. apply ends_checks. by intros e t ->. Qed.

Lemma ends_receive c d ptr len a :
  ends c (Receives_from d ptr len a) (let* r := mq_timedreceive c d ptr len a in Ret r.1).
Proof. unfold mq_timedreceive. apply tracked_assoc, ends_checks. by intros e t ->. Qed.

Lemma ends_unlink c nm : ends c (Unlinks nm) (mq_unlink c nm).
Proof. unfold mq_unlink. walk; simpl; by destruct ((validate_name nm).1 =? 0). Qed.

Lemma name_verdict nm : (validate_name nm).1 = 0 \/ (validate_name nm).1 = 1.
Proof. unfold validate_name. destruct nm; simpl; repeat case_match; auto. Qed.

Lemma ends_open c nm oflag mode a : ends c (Opens nm oflag mode a) (mq_open c nm oflag mode a).
Proof.
  unfold mq_open. cbv zeta. walk; destruct (name_verdict nm) as [Hn|Hn]; rewrite Hn in *; simplify_eq/=;
    rewrite ?Hn; repeat match goal with H : (_ || _) = _ |- _ => rewrite H end; simpl;
    first [by left|right; split_and!; [unfold MQD_ERROR; lia|done..]].
Qed.

Lemma call_refused c o : ends c o (module_code c o).
Proof.
  destruct o; cbn [module_code];
    [apply ends_open|apply ends_close|apply ends_unlink|apply ends_getattr|apply ends_send|apply ends_receive].
Qed.

(** C7: What the tasks of an application see of the message-queue module.
    From any world in which no queue is on the list (the state at start, and
    every state that executions reach, since [mq_open] never links a queue),
    for any calls by different tasks on any descriptors and names, in any
    interleaving, while time passes: every close, query, send and receive
    that returns has failed with [EBADF] (a transfer with a misaligned buffer
    with [EINVAL]), every removal with [ENOENT], or with [ENAMETOOLONG] if the
    name is not valid, and its caller finds that number in its own [errno];
    an [mq_open] fails with [EINVAL] if the name or the attributes are not
    valid and else with [ENOENT], or has created a queue, which takes
    [O_CREAT], without touching [errno]; and no task's [errno] is changed by
    the calls of the others. *)
Theorem mq_all_refused n w c :
  ll_elems (allq w) = [] -> reach clocked_step (module_calls who ops n, w) c ->
  (forall i r, c.1 !! i = Some (Ret r) -> exists e, refused (ops i) e r
     /\ errnos c.2 !! task_cur (who i)
        = match e with Some z => Some z | None => errnos w !! task_cur (who i) end)
  /\ (forall t, (forall i, (i < n)%nat -> t <> task_cur (who i)) -> errnos c.2 !! t = errnos w !! t).
Proof.
  intros Hw Hr. apply (tracked_pool unlisted who (fun i => module_code (who i) (ops i)) (fun i => refused (ops i)));
    [done|done|intros; apply call_refused|done].
Qed.
End refused.

(** ** Witness *)

Section refused_witness.
Import Sim.

(** Three tasks at once, each making its first call: one creates the queue
    "/q", one sends to descriptor 64, and one removes the queue "q". *)
Definition three_calls (i : nat) : module_call :=
  match i with
  | 0%nat => Opens "/q" O_CREAT 0 None
  | 1%nat => Sends_to 64 128 [7] 4 0 None
  | _ => Unlinks "q"
  end.

Definition refused_pool : pool (@world sim_kernel) Z := (module_calls sim_who three_calls 3, sim_world ∅).

Definition refused_order : list nat := [2; 0; 2; 2; 2; 1; 1; 2; 1; 1]%nat ++ replicate 17 0%nat.

(** What they have returned, and the [errno] of each. *)
Definition refused_summary (c : pool (@world sim_kernel) Z) : list (option Z) * list (option Z) :=
  (results c, map (fun i => errnos c.2 !! task_cur (sim_who i)) [0; 1; 2]%nat).

Lemma mq_all_refused_witness :
  exists c, reach pool_step refused_pool c
    /\ refused_summary c = ([Some 4; Some (-1); Some (-1)], [None; Some EBADF; Some ENAMETOOLONG])
    /\ (forall i r, c.1 !! i = Some (Ret r) -> exists e, refused (three_calls i) e r
         /\ errnos c.2 !! task_cur (sim_who i) = match e with Some z => Some z | None => None end)
    /\ errnos c.2 !! 9 = None.
Proof.
  destruct (sched_summary refused_summary refused_order refused_pool
    ([Some 4; Some (-1); Some (-1)], [None; Some EBADF; Some ENAMETOOLONG])) as (c & Hr & Hc);
    [vm_compute; reflexivity|].
  exists c. split; [exact Hr|]. split; [exact Hc|].
  destruct (mq_all_refused sim_ll_laws sim_alloc_laws sim_who three_calls sim_who_inj 3 (sim_world ∅) c) as [H1 H2];
    [reflexivity|by apply clocked_reach|].
  split; [exact H1|]. rewrite (H2 9); [reflexivity|]. simpl. lia.
Defined.
End refused_witness.
