(* ===== verification/Thread.v ===== *)
(** Threads: creation, joining and termination in [src/posix_pthread.c].  A
    [pthread_t] is the address of a [pthread_internal_t]; the task of a
    thread has that address in its [priv] word.  The application's thread
    function is the parameter [app] of [run_thread].  The functions of a
    joiner and of the thread it joins run interleaved in a pool. *)
From S2P Require Import Prelude Prog Kernel World SimKernel Attr.

Section thread.
Context `{P : Platform} `{K : Kernel}.

Definition set_attr v (t : pthread_internal_t) :=
  mk_thread v (fun_ t) (fun_arg t) (task t) (stack t) (barrier t) (joined t) (t_mux t) (t_ret t).
Definition set_fun v (t : pthread_internal_t) :=
  mk_thread (attr t) v (fun_arg t) (task t) (stack t) (barrier t) (joined t) (t_mux t) (t_ret t).
Definition set_fun_arg v (t : pthread_internal_t) :=
  mk_thread (attr t) (fun_ t) v (task t) (stack t) (barrier t) (joined t) (t_mux t) (t_ret t).
Definition set_task v (t : pthread_internal_t) :=
  mk_thread (attr t) (fun_ t) (fun_arg t) v (stack t) (barrier t) (joined t) (t_mux t) (t_ret t).
Definition set_stack v (t : pthread_internal_t) :=
  mk_thread (attr t) (fun_ t) (fun_arg t) (task t) v (barrier t) (joined t) (t_mux t) (t_ret t).
Definition set_barrier v (t : pthread_internal_t) :=
  mk_thread (attr t) (fun_ t) (fun_arg t) (task t) (stack t) v (joined t) (t_mux t) (t_ret t).
Definition set_joined v (t : pthread_internal_t) :=
  mk_thread (attr t) (fun_ t) (fun_arg t) (task t) (stack t) (barrier t) v (t_mux t) (t_ret t).
Definition set_t_mux v (t : pthread_internal_t) :=
  mk_thread (attr t) (fun_ t) (fun_arg t) (task t) (stack t) (barrier t) (joined t) v (t_ret t).
Definition set_ret v (t : pthread_internal_t) :=
  mk_thread (attr t) (fun_ t) (fun_arg t) (task t) (stack t) (barrier t) (joined t) (t_mux t) v.

Definition th_attr (p : Z) : ref pthread_attr_t := fld p attr set_attr.
Definition th_fun (p : Z) : ref Z := fld p fun_ set_fun.
Definition th_fun_arg (p : Z) : ref Z := fld p fun_arg set_fun_arg.
Definition th_task (p : Z) : ref task_t := fld p task set_task.
Definition th_stack (p : Z) : ref Z := fld p stack set_stack.
Definition th_barrier (p : Z) : ref sem_t := fld p barrier set_barrier.
Definition th_joined (p : Z) : ref sem_t := fld p joined set_joined.
Definition th_mux (p : Z) : ref mut_t := fld p t_mux set_t_mux.
Definition th_ret (p : Z) : ref Z := fld p t_ret set_ret.

Definition pthread_self (c : caller) : Z := priv c.

(** It returns when it has released the thread, or when [joined] was
    posted. *)
Definition exit_thread (c : caller) : prog world unit :=
  let thread := pthread_self c in
  let* a := load (th_attr thread) in
  if STATUS_JOINABLE (status a) then
    kmod (th_barrier thread) sem_post ;;
    kcall (th_joined thread) (sem_get WAIT) ;;
    Ret tt
  else
    let* s := load (th_stack thread) in
    posix_free POSIX_STACK s ;;
    posix_free POSIX_THREAD thread.

Definition run_thread (app : Z -> Z -> prog world Z) (c : caller) (pxArg : Z) : prog world unit :=
  let* f := load (th_fun pxArg) in
  let* a := load (th_fun_arg pxArg) in
  let* r := app f a in
  store (th_ret pxArg) r ;;
  exit_thread c.

Definition zero_thread : pthread_internal_t :=
  mk_thread (mk_attr 0 0) 0 0 task_zero 0 sem_zero sem_zero mut_zero 0.

(** The result and, when it is 0, what is stored in [*_thread]. *)
Definition pthread_create (c : caller) (a : option pthread_attr_t) (fn arg : Z)
  : prog world (Z * option Z) :=
  let* hook := get hcos_posix_alloc in
  let* (ret, thread) :=
    if hook =? 0 then set_errno c EAGAIN ;; Ret (-1, 0)
    else
      let* thread := posix_alloc POSIX_THREAD (sizeof_obj POSIX_THREAD) in
      memset_zero thread zero_thread ;;
      Ret (0, thread) in
  let ret := if thread =? 0 then EAGAIN else ret in
  let* sched_priority :=
    if ret =? 0 then
      store (th_attr thread) (match a with None => PTHTREAD_ATTR_DEFAULT | Some a => a end) ;;
      let* at' := load (th_attr thread) in
      let prio := STATUS_PRIORITY (status at') in
      store (th_fun_arg thread) arg ;;
      store (th_fun thread) fn ;;
      let* at' := load (th_attr thread) in
      (if STATUS_JOINABLE (status at') then
         kmod (th_mux thread) (fun _ => mut_init) ;;
         kmod (th_barrier thread) (fun _ => sem_init 1) ;;
         kmod (th_joined thread) (fun _ => sem_init 1)
       else Ret tt) ;;
      Ret prio
    else Ret HCOS_LOWEST_PRIORITY in
  let* ret :=
    if ret =? 0 then
      let* at' := load (th_attr thread) in
      let* s := posix_alloc POSIX_STACK (stack_sz at') in
      store (th_stack thread) s ;;
      let* s := load (th_stack thread) in
      if s =? 0 then posix_free POSIX_THREAD thread ;; Ret EAGAIN else Ret ret
    else Ret ret in
  if ret =? 0 then
    let* s := load (th_stack thread) in
    let* at' := load (th_attr thread) in
    let* r := kcall (th_task thread) (fun _ => task_init sched_priority s (stack_sz at') thread) in
    if negb (r =? 0) then
      let* s := load (th_stack thread) in
      posix_free POSIX_STACK s ;;
      posix_free POSIX_THREAD thread ;;
      Ret (EAGAIN, None)
    else
      emit (ESpawn thread) ;;
      Ret (ret, Some thread)
  else Ret (ret, None).

(** The result, [*policy] and [param->sched_priority]. *)
Definition pthread_getschedparam (_thread : Z) : prog world (Z * Z * Z) :=
  let* a := load (th_attr _thread) in
  Ret (0, SCHED_OTHER, STATUS_PRIORITY (status a)).

Definition pthread_exit (c : caller) (value_ptr : Z) : prog world unit :=
  let thread := pthread_self c in
  store (th_ret thread) value_ptr ;;
  exit_thread c.

(** The result and [*retval], which the caller may not ask for. *)
Definition pthread_join (c : caller) (pthread : Z) (retval : bool) : prog world (Z * option Z) :=
  let* a := load (th_attr pthread) in
  let ret := if negb (STATUS_JOINABLE (status a)) then EDEADLK else 0 in
  let* ret :=
    if ret =? 0 then
      let* r := kcall (th_mux pthread) (mut_lock (task_cur c) WAIT_NO) in
      Ret (if negb (r =? 0) then EDEADLK else ret)
    else Ret ret in
  let ret :=
    if ret =? 0 then
      if negb (pthread_equal (pthread_self c) pthread =? 0) then EDEADLK else ret
    else ret in
  if ret =? 0 then
    kcall (th_barrier pthread) (sem_get WAIT) ;;
    kmod (th_joined pthread) sem_post ;;
    kmod (th_mux pthread) (mut_unlock (task_cur c)) ;;
    let* v := if retval then let* r := load (th_ret pthread) in Ret (Some r) else Ret None in
    let* s := load (th_stack pthread) in
    posix_free POSIX_STACK s ;;
    posix_free POSIX_THREAD pthread ;;
    Ret (ret, v)
  else Ret (ret, None).

Definition pthread_setschedparam (_thread policy : Z) (param : option Z) : prog world Z :=
  let* a := load (th_attr _thread) in
  let (ret, a') := pthread_attr_setschedparam a param in
  store (th_attr _thread) a' ;;
  if ret =? 0 then
    kmod (th_task _thread) (task_pri (default 0 param)) ;;
    Ret ret
  else Ret ret.
End thread.

(** ** Creation *)

Section thread_create.
Context `{P : Platform} `{!PlatformOk P} `{K : Kernel} (AL : AllocLaws K).
Implicit Types (w : world) (c : caller) (t : pthread_internal_t).

Definition attr_used (a : option pthread_attr_t) : pthread_attr_t :=
  match a with None => PTHTREAD_ATTR_DEFAULT | Some a => a end.

(** The thread as it is before its stack is allocated. *)
Definition fresh_thread (a : option pthread_attr_t) (fn arg : Z) : pthread_internal_t :=
  let j := STATUS_JOINABLE (status (attr_used a)) in
  mk_thread (attr_used a) fn arg task_zero 0
    (if j then sem_init 1 else sem_zero) (if j then sem_init 1 else sem_zero)
    (if j then mut_init else mut_zero) 0.

(** The addresses the allocator answers. *)
Definition create_thread w : Z := alloc_answer w POSIX_THREAD (sizeof_obj POSIX_THREAD).
Definition create_stack w a fn arg : Z :=
  alloc_answer (put (create_thread w) (fresh_thread a fn arg) w) POSIX_STACK (stack_sz (attr_used a)).

(** The code from the allocation of the stack on. *)
Definition create_rest (thread prio : Z) : prog world (Z * option Z) :=
  let* ret :=
    let* at' := load (th_attr thread) in
    let* s := posix_alloc POSIX_STACK (stack_sz at') in
    store (th_stack thread) s ;;
    let* s := load (th_stack thread) in
    if s =? 0 then posix_free POSIX_THREAD thread ;; Ret EAGAIN else Ret 0 in
  if ret =? 0 then
    let* s := load (th_stack thread) in
    let* at' := load (th_attr thread) in
    let* r := kcall (th_task thread) (fun _ => task_init prio s (stack_sz at') thread) in
    if negb (r =? 0) then
      let* s := load (th_stack thread) in
      posix_free POSIX_STACK s ;;
      posix_free POSIX_THREAD thread ;;
      Ret (EAGAIN, None)
    else
      emit (ESpawn thread) ;;
      Ret (ret, Some thread)
  else Ret (ret, None).

Lemma run_create_prefix w c a fn arg :
  hcos_posix_alloc w <> 0 -> create_thread w <> 0 ->
  run (pthread_create c a fn arg) w
  = run (create_rest (create_thread w) (STATUS_PRIORITY (status (attr_used a))))
      (put (create_thread w) (fresh_thread a fn arg) w).
Proof.
  intros Hh Hp. unfold pthread_create. step. test_false (hcos_posix_alloc w =? 0).
  rewrite run_assoc, run_alloc by done. change (alloc_answer _ _ _) with (create_thread w).
  rewrite run_assoc. erewrite run_memset; [|done|apply lookup_insert_eq]. rewrite put_raw.
  cbn [bind]. test_false (create_thread w =? 0). cbn [Z.eqb]. fold (attr_used a).
  unfold th_attr, th_fun_arg, th_fun. do 5 (step; cbn [attr set_attr set_fun_arg set_fun]).
  unfold fresh_thread. destruct (STATUS_JOINABLE (status (attr_used a))).
  - unfold th_mux, th_barrier, th_joined. do 3 (step; cbn [set_t_mux set_barrier set_joined]). done.
  - done.
Qed.

Lemma create_addresses w a fn arg :
  create_thread w <> 0 -> mem w !! create_thread w = None
  /\ (create_stack w a fn arg <> 0 ->
      mem w !! create_stack w a fn arg = None /\ create_thread w <> create_stack w a fn arg).
Proof.
  intros Hp. split; [exact (answer_fresh w _ _ AL Hp)|]. intros Hs.
  exact (proj1 (lookup_insert_None _ _ _ _) (answer_fresh _ _ _ AL Hs)).
Qed.

(** The thread once its task exists, and the world it starts in. *)
Definition started_thread w a fn arg tk : pthread_internal_t :=
  set_task tk (set_stack (create_stack w a fn arg) (fresh_thread a fn arg)).
Definition created_world w a fn arg tk : world :=
  put (create_thread w) (started_thread w a fn arg tk)
    (with_mem <[create_stack w a fn arg := ORaw (stack_sz (attr_used a))]> w).

(** The call with memory for the stack, up to the kernel's answer. *)
Lemma run_create_task w c a fn arg r tk :
  hcos_posix_alloc w <> 0 -> create_thread w <> 0 -> create_stack w a fn arg <> 0 ->
  task_init (STATUS_PRIORITY (status (attr_used a))) (create_stack w a fn arg)
    (stack_sz (attr_used a)) (create_thread w) = [(r, tk)] ->
  run (pthread_create c a fn arg) w
  = run (if negb (r =? 0) then
           let* s := load (th_stack (create_thread w)) in
           posix_free POSIX_STACK s ;;
           posix_free POSIX_THREAD (create_thread w) ;;
           Ret (EAGAIN, None)
         else
           emit (ESpawn (create_thread w)) ;;
           Ret (0, Some (create_thread w))) (created_world w a fn arg tk).
Proof.
  intros Hh Hp Hs Ht. destruct (create_addresses w a fn arg Hp) as [Hfp Hfs]. destruct (Hfs Hs) as [_ Hne].
  rewrite run_create_prefix by done. unfold create_rest, th_attr. step. cbn [attr fresh_thread].
  rewrite run_assoc, run_alloc by done. change (alloc_answer _ POSIX_STACK _) with (create_stack w a fn arg).
  rewrite put_mem_comm by done. unfold th_stack, th_task.
  do 2 (step; cbn [stack set_stack]). test_false (create_stack w a fn arg =? 0). cbn [bind Z.eqb].
  do 2 (step; cbn [stack attr set_stack fresh_thread]). by kstep Ht.
Qed.

Lemma run_create_started w c a fn arg tk :
  hcos_posix_alloc w <> 0 -> create_thread w <> 0 -> create_stack w a fn arg <> 0 ->
  task_init (STATUS_PRIORITY (status (attr_used a))) (create_stack w a fn arg)
    (stack_sz (attr_used a)) (create_thread w) = [(0, tk)] ->
  run (pthread_create c a fn arg) w
  = [Done (0, Some (create_thread w)) (with_effect (ESpawn (create_thread w)) (created_world w a fn arg tk))].
Proof. intros. rewrite (run_create_task w c a fn arg 0 tk) by done. cbn [Z.eqb negb]. by step. Qed.

Lemma created_stack w a fn arg tk :
  create_thread w <> create_stack w a fn arg ->
  mem (created_world w a fn arg tk) !! create_stack w a fn arg = Some (ORaw (stack_sz (attr_used a))).
Proof. intros. simpl. rewrite lookup_insert_ne by done. apply lookup_insert_eq. Qed.

(** C29: [pthread_create] when the hooks are installed and there is memory for
    the thread.  If the stack cannot be allocated or the kernel does not
    create the task, it returns [EAGAIN] and has released everything: the
    world is as it was.  Otherwise the new thread has the given attributes
    (or the default ones), function, argument and a fresh stack, its task is
    started, and it can be joined if its attributes say so. *)
Theorem pthread_create_spec w c a fn arg r tk :
  hcos_posix_alloc w <> 0 -> hcos_posix_free w <> 0 -> create_thread w <> 0 ->
  let p := create_thread w in
  let s := create_stack w a fn arg in
  task_init (STATUS_PRIORITY (status (attr_used a))) s (stack_sz (attr_used a)) p = [(r, tk)] ->
  if (s =? 0) || negb (r =? 0) then run (pthread_create c a fn arg) w = [Done (EAGAIN, None) w]
  else exists w', run (pthread_create c a fn arg) w = [Done (0, Some p) w']
    /\ mem w !! p = None
    /\ at_ p w' = Some (set_task tk (set_stack s (fresh_thread a fn arg)))
    /\ mem w' !! s = Some (ORaw (stack_sz (attr_used a))) /\ s <> p
    /\ effects w' = effects w ++ [ESpawn p].
Proof.
  intros Hh Hf Hp p s Ht. destruct (create_addresses w a fn arg Hp) as [Hfp Hfs].
  fold p s in Hfp, Hfs. destruct (s =? 0) eqn:Es; cbn [orb].
  - rewrite run_create_prefix by done. fold p. unfold create_rest, th_attr. step. cbn [attr fresh_thread].
    rewrite run_assoc, run_alloc_none by (done || by apply Z.eqb_eq).
    unfold th_stack. step. step. cbn [stack set_stack Z.eqb]. rewrite run_assoc.
    erewrite run_free; [|done|apply lookup_insert_eq]. cbn [bind Z.eqb EAGAIN run].
    by rewrite free_fresh.
  - apply Z.eqb_neq in Es. destruct (Hfs Es) as [Hfs' Hne]. destruct (r =? 0) eqn:Er; cbn [negb].
    + apply Z.eqb_eq in Er as ->. eexists. split; [by apply run_create_started|].
      split; [done|]. split; [rewrite at_with_effect; apply at_put|].
      split; [by apply created_stack|]. done.
    + rewrite (run_create_task w c a fn arg r tk) by done. rewrite Er. cbn [negb].
      fold p. unfold th_stack, created_world. fold p s. step. cbn [stack set_stack set_task].
      change (stack (started_thread w a fn arg tk)) with s.
      erewrite run_free; [|done|by apply (created_stack w a fn arg tk)].
      erewrite run_free; [|done|simpl; rewrite lookup_delete_ne by done; apply lookup_insert_eq].
      cbn [run]. do 2 f_equal. unfold put, with_mem. simpl.
      rewrite delete_insert_ne, delete_insert_eq, delete_insert_eq by done.
      rewrite !delete_id by (done || by rewrite lookup_delete_ne). by destruct w.
Qed.

(** Without the allocation hook [pthread_create] returns [EAGAIN], also
    in [errno]; with a hook that has no memory it clears the null block
    before testing it. *)
Theorem pthread_create_no_memory w c a fn arg :
  (hcos_posix_alloc w = 0 ->
     run (pthread_create c a fn arg) w = [Done (EAGAIN, None) (with_errno (task_cur c) EAGAIN w)])
  /\ (hcos_posix_alloc w <> 0 -> create_thread w = 0 ->
     run (pthread_create c a fn arg) w = [Fault NullDeref]).
Proof.
  split.
  - intros H. unfold pthread_create. step. rewrite H. cbn [Z.eqb]. by step.
  - intros H Hp. unfold pthread_create. step. test_false (hcos_posix_alloc w =? 0).
    by rewrite run_assoc, run_alloc_none.
Qed.
End thread_create.

(** ** Joining *)

Section thread_join.
Context `{P : Platform} `{!PlatformOk P} `{K : Kernel} (ML : MutLaws P K) (SL : SemLaws P K)
  (AL : AllocLaws K).
Implicit Types (w : world) (c : caller) (t : pthread_internal_t).

(** The thread [p] and its stack are released; nothing else of the memory
    changes. *)
Definition thread_released w p t (w' : world) : Prop :=
  mem w' = delete p (delete (stack t) (mem w)).

(** The stack of [t] can be released. *)
Definition owns_stack w p t : Prop :=
  hcos_posix_free w <> 0 /\ stack t <> p /\ is_Some (mem w !! stack t).

(** Releasing the stack and the thread. *)
Lemma run_release {R} w p t t' (k : unit -> prog world R) :
  at_ p w = Some t -> owns_stack w p t ->
  run (posix_free POSIX_STACK (stack t) ;; let* x := posix_free POSIX_THREAD p in k x) (put p t' w)
  = run (k tt) (with_mem (fun _ => delete p (delete (stack t) (mem w))) w).
Proof.
  intros Hp (Hf & Hne & [o Ho]). apply at_mem in Hp as [o' Ho'].
  erewrite run_free; [|done|simpl; by rewrite lookup_insert_ne].
  erewrite run_free; [|done|simpl; rewrite lookup_delete_ne by done; apply lookup_insert_eq].
  f_equal. unfold put, with_mem. simpl. f_equal.
  rewrite delete_insert_ne by done. by rewrite delete_insert_eq.
Qed.

(** The mutex of the thread replaced. *)
Definition locked_by (c : caller) t t' : Prop :=
  exists x, mut_held x (task_cur c) /\ t' = set_t_mux x t.

Lemma run_join_lock w c p t b :
  at_ p w = Some t -> STATUS_JOINABLE (status (attr t)) = true ->
  task_cur c <> 0 -> mut_own (t_mux t) = 0 ->
  exists x, mut_held x (task_cur c) /\
    run (pthread_join c p b) w =
    if negb (pthread_equal (priv c) p =? 0) then [Done (EDEADLK, None) (put p (set_t_mux x t) w)]
    else run (kcall (th_barrier p) (sem_get WAIT) ;;
              kmod (th_joined p) sem_post ;;
              kmod (th_mux p) (mut_unlock (task_cur c)) ;;
              let* v := if b then let* r := load (th_ret p) in Ret (Some r) else Ret None in
              let* s := load (th_stack p) in
              posix_free POSIX_STACK s ;;
              posix_free POSIX_THREAD p ;;
              Ret (0, v)) (put p (set_t_mux x t) w).
Proof.
  intros Hp Hj Hc Hf. destruct (mut_lock_free (t_mux t) (task_cur c) WAIT_NO Hc Hf) as (x & Hx & Hh).
  exists x. split; [done|]. unfold pthread_join, th_attr, th_mux at 1. step. rewrite Hj. cbn [negb Z.eqb].
  rewrite run_assoc. kstep Hx. cbn [negb Z.eqb bind]. unfold pthread_self.
  by destruct (negb (pthread_equal (priv c) p =? 0)).
Qed.

Lemma join_edeadlk w c p t b :
  at_ p w = Some t ->
  STATUS_JOINABLE (status (attr t)) = false
  \/ mut_own (t_mux t) <> 0 /\ mut_own (t_mux t) <> task_cur c ->
  ensures (pthread_join c p b) w (fun r w' => r = (EDEADLK, None) /\ w' = w).
Proof.
  intros Hp H. unfold pthread_join, th_attr, th_mux. estep.
  destruct (STATUS_JOINABLE (status (attr t))) eqn:E; cbn [negb Z.eqb EDEADLK bind].
  - destruct H as [H|[H0 Hme]]; [done|]. apply ensures_bind, ensures_bind.
    eapply ensures_kcall; [done|rewrite WAIT_NO_zero; by apply mut_lock_nowait|].
    intros r x Hr. destruct (mut_lock_busy _ _ _ _ _ H0 Hme Hr) as [Hr0 ->].
    test_false (r =? 0). cbn [negb]. apply ensures_ret. cbn [Z.eqb EDEADLK]. apply ensures_ret.
    split; [done|]. replace (set_t_mux (t_mux t) t) with t by (by destruct t).
    by apply put_same.
  - by apply ensures_ret.
Qed.

(** [pthread_join] refuses with [EDEADLK] and changes nothing when the
    thread is detached or another task is joining it. *)
Theorem join_refused w c p t b :
  at_ p w = Some t ->
  STATUS_JOINABLE (status (attr t)) = false
  \/ mut_own (t_mux t) <> 0 /\ mut_own (t_mux t) <> task_cur c ->
  ensures (pthread_join c p b) w (fun r w' => r = (EDEADLK, None) /\ w' = w).
Proof. apply join_edeadlk. Qed.


Lemma join_other w c p t :
  at_ p w = Some t -> STATUS_JOINABLE (status (attr t)) = true ->
  task_cur c <> 0 -> mut_own (t_mux t) = 0 -> priv c <> p -> 0 <= sem_val (barrier t) ->
  owns_stack w p t ->
  if 0 <? sem_val (barrier t) then
    exists w', run (pthread_join c p true) w = [Done (0, Some (t_ret t)) w'] /\ thread_released w p t w'
  else run (pthread_join c p true) w = [].
Proof.
  intros Hp Hj Hc Hf Hne Hb Ho.
  destruct (run_join_lock w c p t true) as (x & Hx & Hrun); [done..|].
  rewrite Hrun.
  assert (pthread_equal (priv c) p = 0) as -> by (unfold pthread_equal; test_false (priv c =? p); by case_if).
  cbn [Z.eqb negb]. unfold th_barrier, th_joined, th_mux, th_ret, th_stack.
  destruct (0 <? sem_val (barrier t)) eqn:E.
  - destruct (sem_get_avail (barrier t) WAIT ltac:(bool_lia)) as (y & Hy & _).
    exists (with_mem (fun _ => delete p (delete (stack t) (mem w))) w). split; [|done].
    kstep Hy. step. step. step. cbn [bind]. step. cbn [stack t_ret set_t_mux set_barrier set_joined].
    rewrite (run_release w p t) by done. done.
  - eapply run_kcall_block; [apply at_put|]. apply sem_get_wait. simpl. bool_lia.
Qed.

(** C30: Joining another, joinable thread that nobody is joining: with a token
    on its [barrier] semaphore the join returns 0 and the value the thread
    left, and releases the thread and its stack; without one it blocks. *)
Theorem join_spec w c p t :
  at_ p w = Some t -> STATUS_JOINABLE (status (attr t)) = true ->
  task_cur c <> 0 -> mut_own (t_mux t) = 0 -> priv c <> p -> 0 <= sem_val (barrier t) ->
  owns_stack w p t ->
  if 0 <? sem_val (barrier t) then
    exists w', run (pthread_join c p true) w = [Done (0, Some (t_ret t)) w'] /\ thread_released w p t w'
  else run (pthread_join c p true) w = [].
Proof. apply join_other. Qed.

(** C32: [pthread_create] initialises [barrier] with a token, so
    [pthread_join] does not wait for the thread to finish: joined before it
    ran, it returns 0 with a null value and releases the thread, whose own
    code then uses the released memory. *)
Theorem join_does_not_wait w c c2 c3 a fn arg tk app :
  hcos_posix_alloc w <> 0 -> hcos_posix_free w <> 0 -> create_thread w <> 0 ->
  let p := create_thread w in
  let s := create_stack w a fn arg in
  task_init (STATUS_PRIORITY (status (attr_used a))) s (stack_sz (attr_used a)) p = [(0, tk)] ->
  s <> 0 -> STATUS_JOINABLE (status (attr_used a)) = true ->
  task_cur c2 <> 0 -> priv c2 <> p ->
  exists w1 w2, run (pthread_create c a fn arg) w = [Done (0, Some p) w1]
    /\ run (pthread_join c2 p true) w1 = [Done (0, Some 0) w2]
    /\ run (run_thread app c3 p) w2 = [Fault BadPointer].
Proof.
  intros Hh Hf Hp p s Ht Hs Hj Hc2 Hpriv. destruct (create_addresses AL w a fn arg Hp) as [_ Hfs].
  destruct (Hfs Hs) as [_ Hne]. fold p s in Hne.
  set (w1 := with_effect (ESpawn p) (created_world w a fn arg tk)).
  set (t := started_thread w a fn arg tk). exists w1.
  assert (sem_val (barrier t) = 1) as Hb.
  { unfold t, started_thread, fresh_thread. simpl. rewrite Hj. by apply sem_init_val. }
  pose proof (join_other w1 c2 p t) as Hjoin. rewrite Hb in Hjoin.
  destruct Hjoin as (w2 & Hrun & Hrel); try done.
  - unfold w1. rewrite at_with_effect. apply at_put.
  - unfold t, started_thread, fresh_thread. simpl. rewrite Hj. apply mut_init_free.
  - split; [done|]. split; [by intros E; apply Hne|]. eexists. by apply created_stack.
  - exists w2. split; [by apply run_create_started|]. split; [exact Hrun|].
    unfold run_thread, th_fun. apply run_load_bad. unfold at_. rewrite Hrel. by rewrite lookup_delete_eq.
Qed.

(** A detached thread that calls [pthread_exit] releases its stack and
    itself; a joinable one posts [barrier] for its joiner and, when its
    joiner has posted [joined] or by the token of that semaphore, ends with
    the exit value stored. *)
Theorem pthread_exit_spec w c t v :
  at_ (priv c) w = Some t -> owns_stack w (priv c) t -> 0 < sem_val (joined t) ->
  if STATUS_JOINABLE (status (attr t)) then
    exists t' w', run (pthread_exit c v) w = [Done tt w'] /\ at_ (priv c) w' = Some t'
      /\ t_ret t' = v /\ sem_val (barrier t') = sem_val (barrier t) + 1
      /\ sem_val (joined t') = sem_val (joined t) - 1
  else exists w', run (pthread_exit c v) w = [Done tt w'] /\ thread_released w (priv c) t w'.
Proof.
  intros Hp Ho Hj. unfold pthread_exit, exit_thread, pthread_self. cbv zeta.
  unfold th_ret, th_attr, th_barrier, th_joined, th_stack. do 2 (step; cbn [attr set_ret]).
  destruct (STATUS_JOINABLE (status (attr t))).
  - step. destruct (sem_get_avail (joined t) WAIT Hj) as (y & Hy & Hv). kstep Hy.
    do 2 eexists. split; [done|]. split; [apply at_put|]. simpl. by rewrite sem_post_val.
  - step. cbn [stack set_ret].
    exists (with_mem (fun _ => delete (priv c) (delete (stack t) (mem w))) w). split; [|done].
    rewrite <- run_bind_ret, run_assoc. by rewrite (run_release w (priv c) t).
Qed.

(** [pthread_setschedparam] changes the priority in the attributes and of
    the kernel task together, keeping the detach state and the stack size,
    and [pthread_getschedparam] then reports it; a priority out of range is
    refused with [ENOTSUP] and nothing changes. *)
Theorem pthread_setschedparam_spec w p t policy prio :
  at_ p w = Some t -> wf_attr (attr t) ->
  if (0 <=? prio) && (prio <=? sched_get_priority_max SCHED_OTHER) then
    exists a', run (pthread_setschedparam p policy (Some prio)) w
      = [Done 0 (put p (set_task (task_pri prio (task t)) (set_attr a' t)) w)]
      /\ stack_sz a' = stack_sz (attr t)
      /\ STATUS_JOINABLE (status a') = STATUS_JOINABLE (status (attr t))
      /\ run (pthread_getschedparam p) (put p (set_task (task_pri prio (task t)) (set_attr a' t)) w)
         = [Done (0, SCHED_OTHER, prio) (put p (set_task (task_pri prio (task t)) (set_attr a' t)) w)]
  else run (pthread_setschedparam p policy (Some prio)) w = [Done ENOTSUP w].
Proof.
  intros Hp Hwf. unfold pthread_setschedparam, th_attr, th_task. step.
  pose proof (setschedparam_cases (attr t) (Some prio) Hwf) as H. cbv beta iota in H.
  destruct (pthread_attr_setschedparam (attr t) (Some prio)) as [ret a'].
  destruct ((0 <=? prio) && (prio <=? sched_get_priority_max SCHED_OTHER)).
  - destruct H as (-> & Hg & Hd & Hs). exists a'. step. cbn [Z.eqb]. step.
    split; [done|]. split; [done|]. split.
    + unfold pthread_attr_getdetachstate in Hd. injection Hd as Hd.
      by destruct (STATUS_JOINABLE (status a')), (STATUS_JOINABLE (status (attr t))).
    + unfold pthread_attr_getschedparam in Hg. injection Hg as <-.
      unfold pthread_getschedparam, th_attr. by step.
  - destruct H as [-> ->]. step. cbn [Z.eqb ENOTSUP run]. do 2 f_equal.
    replace (set_attr (attr t) t) with t by (by destruct t). by apply put_same.
Qed.
End thread_join.

(** ** Witnesses *)

Section thread_witnesses.
Import Sim.

(** A thread at address 64 with its stack at 128. *)
Definition sim_thread (st b j : Z) (m : Z * nat) : @pthread_internal_t sim_kernel :=
  @mk_thread sim_kernel (mk_attr 1024 st) 5 6 3 128 b j m 77.
Definition joinable : Z := Z.lor MASK_DETACH 3.
Definition thread_world (t : @pthread_internal_t sim_kernel) : @world sim_kernel :=
  sim_world {[ 64 := OThread t; 128 := ORaw 1024 ]}.
(** The task of that thread. *)
Definition task_self : caller := mk_caller 33 64.
Definition no_app (f a : Z) : prog (@world sim_kernel) Z := Ret 0.

Lemma thread_world_stack st b j m : owns_stack (thread_world (sim_thread st b j m)) 64 (sim_thread st b j m).
Proof. split; [done|]. split; [done|]. by eexists. Qed.

Lemma pthread_create_spec_witness :
  let w := sim_world ∅ in let p := create_thread w in let s := create_stack w None 5 6 in
  exists w', run (pthread_create task_a None 5 6) w = [Done (0, Some p) w']
    /\ mem w !! p = None
    /\ at_ p w' = Some (set_task (6 : @Kernel.task_t sim_kernel) (set_stack s (fresh_thread None 5 6)))
    /\ mem w' !! s = Some (ORaw 1024) /\ s <> p
    /\ effects w' = effects w ++ [ESpawn p].
Proof.
  intros w p s.
  assert (create_thread w = 4 /\ s = 20) as [Hp Hs] by (vm_compute; done).
  pose proof (pthread_create_spec sim_alloc_laws w task_a None 5 6 0 6) as H.
  fold p s in H. rewrite Hs in H |- *. apply H; try done; by rewrite Hp.
Defined.

Lemma pthread_create_no_memory_witness :
  run (pthread_create task_a None 5 6) (with_hooks 2 1 (sim_world ∅)) = [Fault NullDeref].
Proof.
  apply (proj2 (pthread_create_no_memory (with_hooks 2 1 (sim_world ∅)) task_a None 5 6)); [done|reflexivity].
Defined.

Lemma join_refused_witness :
  ensures (pthread_join task_a 64 true) (thread_world (sim_thread 3 0 0 (0, 0%nat)))
    (fun r w' => r = (EDEADLK, None) /\ w' = thread_world (sim_thread 3 0 0 (0, 0%nat))).
Proof.
  apply (join_refused sim_mut_laws (thread_world (sim_thread 3 0 0 (0, 0%nat))) task_a 64 (sim_thread 3 0 0 (0, 0%nat)) true).
  - reflexivity.
  - left. reflexivity.
Defined.


Lemma join_spec_witness :
  exists w', run (pthread_join task_a 64 true) (thread_world (sim_thread joinable 1 0 (0, 0%nat)))
      = [Done (0, Some 77) w']
    /\ thread_released (thread_world (sim_thread joinable 1 0 (0, 0%nat))) 64 (sim_thread joinable 1 0 (0, 0%nat)) w'.
Proof.
  apply (join_spec sim_mut_laws sim_sem_laws (thread_world (sim_thread joinable 1 0 (0, 0%nat))) task_a 64
    (sim_thread joinable 1 0 (0, 0%nat))); try done; apply thread_world_stack.
Defined.

Lemma join_does_not_wait_witness :
  let w := sim_world ∅ in let p := create_thread w in
  exists w1 w2, run (pthread_create task_a None 5 6) w = [Done (0, Some p) w1]
    /\ run (pthread_join task_b p true) w1 = [Done (0, Some 0) w2]
    /\ run (run_thread no_app task_self p) w2 = [Fault BadPointer].
Proof.
  intros w p. assert (create_thread w = 4 /\ create_stack w None 5 6 = 20) as [Hp Hs] by (vm_compute; done).
  apply (join_does_not_wait sim_mut_laws sim_sem_laws sim_alloc_laws w task_a task_b task_self None 5 6 6 no_app);
    try done; by rewrite ?Hp, ?Hs.
Defined.

Lemma pthread_exit_spec_witness :
  exists w', run (pthread_exit task_self 9) (thread_world (sim_thread 3 0 1 (0, 0%nat))) = [Done tt w']
    /\ thread_released (thread_world (sim_thread 3 0 1 (0, 0%nat))) 64 (sim_thread 3 0 1 (0, 0%nat)) w'.
Proof.
  apply (pthread_exit_spec sim_sem_laws (thread_world (sim_thread 3 0 1 (0, 0%nat))) task_self
    (sim_thread 3 0 1 (0, 0%nat)) 9); try done; apply thread_world_stack.
Defined.

Lemma pthread_setschedparam_spec_witness :
  let w := thread_world (sim_thread joinable 0 0 (0, 0%nat)) in
  exists a', run (pthread_setschedparam 64 SCHED_OTHER (Some 5)) w
      = [Done 0 (put 64 (set_task (5 : @Kernel.task_t sim_kernel) (set_attr a' (sim_thread joinable 0 0 (0, 0%nat)))) w)]
    /\ stack_sz a' = 1024 /\ STATUS_JOINABLE (status a') = true
    /\ run (pthread_getschedparam 64) (put 64 (set_task (5 : @Kernel.task_t sim_kernel) (set_attr a' (sim_thread joinable 0 0 (0, 0%nat)))) w)
       = [Done (0, SCHED_OTHER, 5) (put 64 (set_task (5 : @Kernel.task_t sim_kernel) (set_attr a' (sim_thread joinable 0 0 (0, 0%nat)))) w)].
Proof.
  intros w. apply (pthread_setschedparam_spec (P:=sim_platform) w 64 (sim_thread joinable 0 0 (0, 0%nat)) SCHED_OTHER 5).
  - reflexivity.
  - vm_compute; intuition congruence.
Defined.
End thread_witnesses.
