(* ===== verification/ThreadPool.v ===== *)
(** Threads that end, and tasks that join a thread.  Whatever the
    interleaving, threads that end release what they own, or leave it to the
    joiner; but two tasks can join one thread, so that one uses it after the
    other has released it, and a detached thread releases the stack it runs
    on. *)
From S2P Require Import Prelude Prog Protocol Kernel World SimKernel Attr Thread.

(** ** Two joins of one thread *)

Section double_join.
Context `{P : Platform} `{!PlatformOk P} `{K : Kernel} (ML : MutLaws P K) (SL : SemLaws P K) (AL : AllocLaws K).
Implicit Types (w : world) (c : caller) (t : pthread_internal_t).

(** One thread of a pool moves while the others stand still. *)
Lemma solo_pool {R} (ts : list (prog world R)) i q q' w w' :
  ts !! i = Some q -> solo q w q' w' -> reach pool_step (ts, w) (<[i:=q']> ts, w').
Proof.
  intros Hi H. unfold solo in H. remember (q', w') as y eqn:Ey. revert q' w' Ey.
  induction H as [|[q1 w1] y H IH Hs]; intros q' w' Ey; simplify_eq.
  - rewrite list_insert_id by done. constructor.
  - eapply ReachStep; [by apply IH|].
    replace (<[i:=q']> ts) with (<[i:=q']> (<[i:=q1]> ts)) by apply list_insert_insert_eq.
    econstructor; [|exact Hs]. by apply list_lookup_insert_eq, lookup_lt_Some with q.
Qed.

Lemma solo_move {R} (q q1 q2 : prog world R) w w1 w2 :
  pstep q w = [Done q1 w1] -> solo q1 w1 q2 w2 -> solo q w q2 w2.
Proof.
  intros H. apply solo_trans. eapply ReachStep; [constructor|]. unfold solo_step. simpl. rewrite H. by left.
Qed.

Lemma solo_bind {A B} (q q' : prog world A) (f : A -> prog world B) w w' :
  solo q w q' w' -> solo (bind q f) w (bind q' f) w'.
Proof.
  unfold solo. intros H. remember (q', w') as y eqn:Ey. revert q' w' Ey.
  induction H as [|[q1 w1] y H IH Hs]; intros q' w' Ey; simplify_eq; [constructor|].
  eapply ReachStep; [by apply IH|]. unfold solo_step in *. simpl in *. destruct q1 as [r|X a k]; simpl in *.
  - by apply not_elem_of_nil in Hs.
  - apply list_elem_of_fmap in Hs as ([x v|er] & Hx & Hin); simplify_eq.
    apply list_elem_of_fmap. by eexists (Done x _).
Qed.

(** The end of a join, once it has unlocked the mutex of the thread. *)
Definition join_rest (p : Z) : prog world (Z * option Z) :=
  let* r := load (th_ret p) in
  let* s := load (th_stack p) in
  posix_free POSIX_STACK s ;;
  posix_free POSIX_THREAD p ;;
  Ret (0, Some r).

(** A join gets there if [barrier] has a token, whether or not another join
    is still to come there. *)
Lemma join_passes w c p t :
  at_ p w = Some t -> STATUS_JOINABLE (status (attr t)) = true -> task_cur c <> 0 -> priv c <> p ->
  mut_own (t_mux t) = 0 -> 0 < sem_val (barrier t) ->
  exists t', solo (pthread_join c p true) w (join_rest p) (put p t' w)
    /\ attr t' = attr t /\ stack t' = stack t /\ t_ret t' = t_ret t /\ mut_own (t_mux t') = 0
    /\ sem_val (barrier t') = sem_val (barrier t) - 1.
Proof.
  intros Hp Hj Hc Hne Hf Hb.
  destruct (mut_lock_free (t_mux t) (task_cur c) WAIT_NO Hc Hf) as (x & Hx & Hh).
  destruct (sem_get_avail (barrier t) WAIT Hb) as (y & Hy & Hv).
  assert (pthread_equal (priv c) p = 0) as Hself by (unfold pthread_equal; test_false (priv c =? p); by case_if).
  exists (set_t_mux (mut_unlock (task_cur c) x) (set_joined (sem_post (joined t)) (set_barrier y (set_t_mux x t)))).
  split; [|do 3 (split; [done|]); split; [by apply mut_unlock_held|done]].
  unfold pthread_join, th_attr, th_mux, th_barrier, th_joined.
  eapply solo_move. { simpl. rewrite Hp. reflexivity. }
  cbn beta. rewrite Hj. cbn [negb Z.eqb bind].
  eapply solo_move. { simpl. rewrite Hp. simpl. rewrite Hx. reflexivity. }
  cbn [fst snd Z.eqb negb bind]. unfold pthread_self. rewrite Hself. cbn [Z.eqb negb].
  eapply solo_move. { simpl. rewrite at_put. simpl. rewrite Hy. reflexivity. }
  eapply solo_move. { simpl. rewrite at_put. reflexivity. }
  eapply solo_move. { simpl. rewrite at_put. reflexivity. }
  rewrite !put_put. constructor.
Qed.

(** The rest of a join releases the thread; after that, another one that is
    there touches released memory. *)
Lemma join_rest_runs w p t :
  at_ p w = Some t -> owns_stack w p t ->
  exists w', run (join_rest p) w = [Done (0, Some (t_ret t)) w'] /\ thread_released w p t w'.
Proof.
  intros Hp Ho. exists (with_mem (fun _ => delete p (delete (stack t) (mem w))) w). split; [|done].
  unfold join_rest, th_ret, th_stack. step. step.
  pose proof (run_release w p t t (fun _ => Ret (0, Some (t_ret t))) Hp Ho) as Hrun.
  rewrite put_same in Hrun by done. exact Hrun.
Qed.

Lemma two_joins w p t c1 c2 :
  at_ p w = Some t -> STATUS_JOINABLE (status (attr t)) = true -> mut_own (t_mux t) = 0 ->
  2 <= sem_val (barrier t) -> owns_stack w p t ->
  task_cur c1 <> 0 -> task_cur c2 <> 0 -> priv c1 <> p -> priv c2 <> p ->
  exists d, reach pool_step ([pthread_join c1 p true; pthread_join c2 p true], w) d
    /\ d.1 !! 0%nat = Some (Ret (0, Some (t_ret t))) /\ pool_faults d BadPointer.
Proof.
  intros Hp Hj Hf Hb (Hh & Hne & Ho) Hc1 Hc2 Hp1 Hp2.
  destruct (join_passes w c1 p t) as (t1 & S1 & Ha1 & Hs1 & Hr1 & Hf1 & Hb1); [done..|lia|].
  destruct (join_passes (put p t1 w) c2 p t1) as (t2 & S2 & Ha2 & Hs2 & Hr2 & Hf2 & Hb2);
    [apply at_put|congruence|done..|lia|]. rewrite put_put in S2.
  destruct (join_rest_runs (put p t2 w) p t2) as (w' & Hrun & Hrel); [apply at_put| |].
  { split; [done|]. rewrite Hs2, Hs1. split; [done|]. simpl. by rewrite lookup_insert_ne. }
  assert (solo (join_rest p) (put p t2 w) (Ret (0, Some (t_ret t2))) w') as S3.
  { apply run_solo. rewrite Hrun. by left. }
  exists ([Ret (0, Some (t_ret t2)); join_rest p], w'). split; [|split].
  - eapply reach_trans; [exact (solo_pool [pthread_join c1 p true; pthread_join c2 p true] 0%nat _ _ _ _ eq_refl S1)|].
    eapply reach_trans; [exact (solo_pool [join_rest p; pthread_join c2 p true] 1%nat _ _ _ _ eq_refl S2)|].
    exact (solo_pool [join_rest p; join_rest p] 0%nat _ _ _ _ eq_refl S3).
  - by rewrite Hr2, Hr1.
  - exists 1%nat, (join_rest p). split; [done|]. unfold join_rest, th_ret. simpl. unfold at_. rewrite Hrel, lookup_delete_eq.
    by left.
Qed.

(** C34: A thread can be joined twice.  [pthread_create] puts a token in
    [barrier] and one in [joined], so that a joinable thread whose function
    just computes its result runs to its end without waiting to be joined and
    leaves two tokens in [barrier]; and the mutex that shall keep a second
    joiner out is unlocked before the thread is released.  Of two tasks that
    then join it, both can get past the checks; one returns 0 with the value
    of the thread and releases it, and the next action of the other one is on
    released memory. *)
Theorem join_use_after_release w c a fn arg tk app r self c1 c2 :
  hcos_posix_alloc w <> 0 -> hcos_posix_free w <> 0 -> create_thread w <> 0 ->
  let p := create_thread w in
  let s := create_stack w a fn arg in
  task_init (STATUS_PRIORITY (status (attr_used a))) s (stack_sz (attr_used a)) p = [(0, tk)] ->
  s <> 0 -> STATUS_JOINABLE (status (attr_used a)) = true -> (forall v, run (app fn arg) v = [Done r v]) -> priv self = p ->
  task_cur c1 <> 0 -> task_cur c2 <> 0 -> priv c1 <> p -> priv c2 <> p ->
  exists w1 w2 d, run (pthread_create c a fn arg) w = [Done (0, Some p) w1]
    /\ run (run_thread app self p) w1 = [Done tt w2]
    /\ reach pool_step ([pthread_join c1 p true; pthread_join c2 p true], w2) d
    /\ d.1 !! 0%nat = Some (Ret (0, Some r)) /\ pool_faults d BadPointer.
Proof.
  intros Hh Hf Hp p s Ht Hs Hj Happ Hself Hc1 Hc2 Hp1 Hp2.
  destruct (create_addresses AL w a fn arg Hp) as [_ Hfs]. destruct (Hfs Hs) as [_ Hne]. fold p s in Hne.
  set (w1 := with_effect (ESpawn p) (created_world w a fn arg tk)).
  set (t := started_thread w a fn arg tk).
  assert (at_ p w1 = Some t) as Hat by (unfold w1; rewrite at_with_effect; apply at_put).
  assert (barrier t = sem_init 1 /\ joined t = sem_init 1 /\ t_mux t = mut_init) as (Hb & Hjd & Hm).
  { unfold t, started_thread, fresh_thread. simpl. by rewrite Hj. }
  destruct (sem_get_avail (sem_init 1) WAIT) as (y & Hy & _); [by rewrite sem_init_val|].
  set (t2 := set_joined y (set_barrier (sem_post (barrier t)) (set_ret r t))).
  assert (run (run_thread app self p) w1 = [Done tt (put p t2 w1)]) as Hrun.
  { unfold run_thread, exit_thread, pthread_self, th_fun, th_fun_arg, th_ret, th_attr, th_barrier, th_joined.
    rewrite Hself. step. step. change (fun_ t) with fn. change (fun_arg t) with arg.
    rewrite (run_call _ _ _ _ _ (Happ w1)).
    step. step. change (STATUS_JOINABLE (status (attr (set_ret r t)))) with (STATUS_JOINABLE (status (attr_used a))).
    rewrite Hj. step. rewrite <- Hjd in Hy. by kstep Hy. }
  destruct (two_joins (put p t2 w1) p t2 c1 c2) as (d & Hr & H0 & Hd); try done.
  - apply at_put.
  - change (mut_own (t_mux t) = 0). rewrite Hm. apply mut_init_free.
  - change (2 <= sem_val (sem_post (barrier t))). by rewrite sem_post_val, Hb, sem_init_val.
  - split; [done|]. change (stack t2) with s. split; [by intros E; apply Hne|]. simpl. rewrite lookup_insert_ne by done.
    eexists. by apply created_stack.
  - exists w1, (put p t2 w1), d. split; [by apply run_create_started|done].
Qed.

(** C37: A detached thread gives away the stack it runs on: when its function
    has returned, [exit_thread] releases the stack of the thread, so that the
    allocator may hand it out again, and only then calls the application's
    hook a second time, still on that stack, to release the thread. *)
Theorem detached_frees_own_stack w c a fn arg tk app r self :
  hcos_posix_alloc w <> 0 -> hcos_posix_free w <> 0 -> create_thread w <> 0 ->
  let p := create_thread w in
  let s := create_stack w a fn arg in
  task_init (STATUS_PRIORITY (status (attr_used a))) s (stack_sz (attr_used a)) p = [(0, tk)] ->
  s <> 0 -> STATUS_JOINABLE (status (attr_used a)) = false ->
  (forall v, run (app fn arg) v = [Done r v]) -> priv self = p ->
  exists w1 w2, run (pthread_create c a fn arg) w = [Done (0, Some p) w1]
    /\ mem w1 !! s = Some (ORaw (stack_sz (attr_used a)))
    /\ solo (run_thread app self p) w1 (posix_free POSIX_THREAD p) w2
    /\ mem w2 !! s = None /\ is_Some (mem w2 !! p).
Proof.
  intros Hh Hf Hp p s Ht Hs Hj Happ Hself.
  destruct (create_addresses AL w a fn arg Hp) as [_ Hfs]. destruct (Hfs Hs) as [_ Hne]. fold p s in Hne.
  set (w1 := with_effect (ESpawn p) (created_world w a fn arg tk)).
  set (t := started_thread w a fn arg tk).
  assert (at_ p w1 = Some t) as Hat by (unfold w1; rewrite at_with_effect; apply at_put).
  assert (mem w1 !! s = Some (ORaw (stack_sz (attr_used a)))) as Hst by (by apply created_stack).
  exists w1, (with_mem (delete s) (put p (set_ret r t) w1)).
  split; [by apply run_create_started|]. split; [done|]. split.
  - unfold run_thread, exit_thread, pthread_self, th_fun, th_fun_arg, th_ret, th_attr, th_stack. rewrite Hself.
    eapply solo_move; [simpl; rewrite Hat; reflexivity|]. eapply solo_move; [simpl; rewrite Hat; reflexivity|].
    change (fun_ t) with fn. change (fun_arg t) with arg.
    eapply solo_trans; [apply (solo_bind _ (Ret r) _ _ w1), run_solo; rewrite Happ; by left|]. cbn [bind].
    eapply solo_move; [simpl; rewrite Hat; reflexivity|]. eapply solo_move; [simpl; rewrite at_put; reflexivity|].
    cbn beta. change (STATUS_JOINABLE (status (attr (set_ret r t)))) with (STATUS_JOINABLE (status (attr_used a))).
    rewrite Hj. eapply solo_move; [simpl; rewrite at_put; reflexivity|]. change (stack (set_ret r t)) with s.
    assert (mem (put p (set_ret r t) w1) !! s = Some (ORaw (stack_sz (attr_used a)))) as Hst'
      by (simpl; rewrite lookup_insert_ne; done).
    eapply solo_move; [|constructor]. cbn [posix_free bind act pstep]. rewrite Hst'.
    change (hcos_posix_free (put p (set_ret r t) w1)) with (hcos_posix_free w). by test_false (hcos_posix_free w =? 0).
  - split; [apply lookup_delete_eq|]. simpl. rewrite lookup_delete_ne by done. rewrite lookup_insert_eq. by eexists.
Qed.
End double_join.

(** ** Threads that end *)

Section endings.
Context `{P : Platform} `{K : Kernel}.
Context (n : nat) (who : nat -> caller) (th stk : nat -> Z) (to_join : nat -> bool) (app : Z -> Z -> prog world Z).
Hypothesis who_self : forall i, priv (who i) = th i.
Hypothesis th_inj : forall i j, (i < n)%nat -> (j < n)%nat -> th i = th j -> i = j.
Hypothesis stk_inj : forall i j, (i < n)%nat -> (j < n)%nat -> stk i = stk j -> i = j.
Hypothesis th_stk : forall i j, (i < n)%nat -> (j < n)%nat -> th i <> stk j.
Implicit Types (w : world).

(** What the application's functions rely on in the rest of the memory. *)
Context (I : world -> Prop).
Hypothesis I_put : forall i (t : pthread_internal_t) w, (i < n)%nat -> I w -> I (put (th i) t w).
Hypothesis I_delete : forall i p w, (i < n)%nat -> p = th i \/ p = stk i -> I w -> I (with_mem (delete p) w).

(** How much of a thread there is. *)
Inductive remains := Whole | Stackless | Gone.

(** Thread [i] as its stage tells. *)
Definition thread_knows (i : nat) (st : remains) w : Prop :=
  (i < n)%nat /\ (hcos_posix_free w <> 0 /\ I w)
  /\ match st with
     | Whole => (exists t, at_ (th i) w = Some t /\ STATUS_JOINABLE (status (attr t)) = to_join i /\ stack t = stk i)
                /\ is_Some (mem w !! stk i)
     | Stackless => is_Some (mem w !! th i) /\ mem w !! stk i = None /\ to_join i = false
     | Gone => mem w !! th i = None /\ mem w !! stk i = None /\ to_join i = false
     end.

(** The threads but [i] are left alone. *)
Definition spares (i : nat) w w' : Prop :=
  hcos_posix_free w' = hcos_posix_free w
  /\ forall j, (j < n)%nat -> j <> i -> mem w' !! th j = mem w !! th j /\ mem w' !! stk j = mem w !! stk j.

Definition thread_moves (i : nat) (st : remains) w (st' : remains) w' : Prop :=
  spares i w w' /\ thread_knows i st' w'.

(** Only a joinable thread may block: it waits to be joined. *)
Definition thread_waits (i : nat) (st : remains) w : Prop := to_join i = true.

(** A thread that has ended is gone if it is detached, and whole if it is
    to be joined. *)
Definition thread_ends (i : nat) (st : remains) (_ : unit) : Prop :=
  st = if to_join i then Whole else Gone.

Abbreviation runs_thread := (follows thread_knows thread_moves thread_waits (fun _ _ => False) thread_ends).

(** What the application's function may do: anything but block, fault, or
    touch the threads and their stacks. *)
Fixpoint civil (q : prog world Z) : Prop :=
  match q with
  | Ret _ => True
  | Act a k => forall w, I w ->
      a w <> [] /\ (forall e, ~ Fault e ∈ a w)
      /\ forall x w', Done x w' ∈ a w ->
           hcos_posix_free w' = hcos_posix_free w /\ I w'
           /\ (forall j, (j < n)%nat -> mem w' !! th j = mem w !! th j /\ mem w' !! stk j = mem w !! stk j)
           /\ civil (k x)
  end.

Lemma knows_unchanged i st w w' :
  thread_knows i st w -> I w' -> hcos_posix_free w' = hcos_posix_free w ->
  mem w' !! th i = mem w !! th i -> mem w' !! stk i = mem w !! stk i -> thread_knows i st w'.
Proof.
  intros (Hi & [Hh _] & H) HI Hh' Ht Hs. split; [done|]. split; [split; [congruence|done]|].
  unfold at_ in *. destruct st; by rewrite ?Ht, ?Hs.
Qed.

Lemma runs_civil i (q : prog world Z) k st :
  civil q -> (forall x, runs_thread i (k x) st) -> runs_thread i (bind q k) st.
Proof.
  intros Hq Hk. induction q as [x|A a c IH]; simpl; [apply Hk|]. simpl in Hq. intros w Hw.
  destruct (Hq w (proj2 (proj1 (proj2 Hw)))) as (Hne & Hno & Hx). split; [done|]. split; [by intros e ?%Hno|].
  intros x w' Hin. destruct (Hx x w' Hin) as (Hh & HI & Hm & Hc). exists st. split; [|by apply IH].
  destruct (Hm i (proj1 Hw)). split; [split; [done|]; intros j Hj _; by apply Hm|by eapply knows_unchanged].
Qed.

(** The fields of a whole thread. *)
Lemma whole_field {T} i (g : pthread_internal_t -> T) set w :
  thread_knows i Whole w ->
  exists t, at_ (th i) w = Some t /\ rget (fld (th i) g set) w = Some (g t)
    /\ STATUS_JOINABLE (status (attr t)) = to_join i /\ stack t = stk i.
Proof. intros (_ & _ & (t & Ht & Hj & Hs) & _). exists t. split; [done|]. by simpl; rewrite Ht. Qed.

Lemma runs_field_load {T} i (g : pthread_internal_t -> T) set k :
  (forall t, STATUS_JOINABLE (status (attr t)) = to_join i -> stack t = stk i -> runs_thread i (k (g t)) Whole) ->
  runs_thread i (bind (load (fld (th i) g set)) k) Whole.
Proof.
  intros Hk. apply follows_act; unfold load; intros w.
  - intros Hw. by destruct (whole_field i g set w Hw) as (t & _ & -> & _).
  - intros e Hw. destruct (whole_field i g set w Hw) as (t & _ & -> & _). by intros ?%list_elem_of_singleton.
  - intros x w' Hw. destruct (whole_field i g set w Hw) as (t & _ & -> & Hj & Hs).
    intros Hx. apply list_elem_of_singleton in Hx. simplify_eq. exists Whole.
    split; [by split|]. by apply Hk.
Qed.

(** Writing to a whole thread, in a field that is not its attributes or its
    stack. *)
Lemma thread_put i w t t' :
  thread_knows i Whole w -> at_ (th i) w = Some t -> attr t' = attr t -> stack t' = stack t ->
  thread_moves i Whole w Whole (put (th i) t' w).
Proof.
  intros (Hi & [Hh HI] & (t1 & Ht1 & Hj & Hs) & Hst) Ht Ha Hst'. rewrite Ht in Ht1. injection Ht1 as <-. split.
  - split; [done|]. intros j Hlt Hne. unfold put. simpl. rewrite !lookup_insert_ne; [done| |].
    + by apply th_stk.
    + intros E. by destruct Hne; apply th_inj.
  - split; [done|]. split; [split; [done|by apply I_put]|]. split.
    + exists t'. rewrite at_put. split; [done|]. rewrite Ha, Hst'. done.
    + unfold put. simpl. rewrite lookup_insert_ne by (by apply th_stk). done.
Qed.

Lemma runs_field_call {T A} i (g : pthread_internal_t -> T) set (f : T -> list (A * T)) k :
  (forall v t, attr (set v t) = attr t /\ stack (set v t) = stack t) ->
  (to_join i = false -> forall x, f x <> []) -> (forall x, runs_thread i (k x) Whole) ->
  runs_thread i (bind (kcall (fld (th i) g set) f) k) Whole.
Proof.
  intros Hset Hf Hk. apply follows_act; unfold kcall; intros w.
  - intros Hw. destruct (whole_field i g set w Hw) as (t & _ & -> & _). intros E%map_eq_nil.
    unfold thread_waits. destruct (to_join i) eqn:Hj; [done|]. by destruct (Hf eq_refl (g t)).
  - intros e Hw. destruct (whole_field i g set w Hw) as (t & _ & -> & _). by intros (y & ? & _)%list_elem_of_fmap.
  - intros x w' Hw. destruct (whole_field i g set w Hw) as (t & Ht & -> & _).
    intros ([y z] & Hx & _)%list_elem_of_fmap. simplify_eq/=. rewrite Ht. exists Whole.
    split; [|done]. destruct (Hset z t). by eapply thread_put.
Qed.

Lemma runs_field_store {T} i (g : pthread_internal_t -> T) set v k :
  (forall v t, attr (set v t) = attr t /\ stack (set v t) = stack t) -> runs_thread i (k tt) Whole ->
  runs_thread i (bind (store (fld (th i) g set) v) k) Whole.
Proof.
  intros Hset Hk. apply follows_act; unfold store; intros w.
  - intros Hw. by destruct (whole_field i g set w Hw) as (t & _ & -> & _).
  - intros e Hw. destruct (whole_field i g set w Hw) as (t & _ & -> & _). by intros ?%list_elem_of_singleton.
  - intros x w' Hw. destruct (whole_field i g set w Hw) as (t & Ht & -> & _).
    intros Hx. apply list_elem_of_singleton in Hx. simplify_eq/=. rewrite Ht. exists Whole.
    split; [|done]. destruct (Hset v t). by eapply thread_put.
Qed.

(** Releasing the stack and then the thread. *)
Lemma runs_free i ty p k st st' :
  (forall w, thread_knows i st w -> is_Some (mem w !! p)) ->
  (forall w, thread_knows i st w -> thread_moves i st w st' (with_mem (delete p) w)) ->
  runs_thread i (k tt) st' -> runs_thread i (bind (posix_free ty p) k) st.
Proof.
  intros Hp Hm Hk. apply follows_act; unfold posix_free; intros w.
  - intros Hw. destruct (Hp w Hw) as [o ->]. pose proof (proj1 (proj1 (proj2 Hw))). by test_false (hcos_posix_free w =? 0).
  - intros e Hw. destruct (Hp w Hw) as [o ->]. pose proof (proj1 (proj1 (proj2 Hw))). test_false (hcos_posix_free w =? 0).
    by intros ?%list_elem_of_singleton.
  - intros [] w' Hw. pose proof (Hm w Hw) as Hmv. destruct (Hp w Hw) as [o ->]. pose proof (proj1 (proj1 (proj2 Hw))).
    test_false (hcos_posix_free w =? 0). intros Hx. apply list_elem_of_singleton in Hx. simplify_eq. by exists st'.
Qed.

Lemma runs_free_stack i k :
  to_join i = false -> runs_thread i (k tt) Stackless -> runs_thread i (bind (posix_free POSIX_STACK (stk i)) k) Whole.
Proof.
  intros Hj. apply runs_free.
  - intros w (_ & _ & _ & H). done.
  - intros w (Hi & [Hh HI] & (t & Ht & _) & Hs). split.
    + split; [done|]. intros j Hlt Hne. simpl. rewrite !lookup_delete_ne; [done| |].
      * intros E. by destruct Hne; apply stk_inj.
      * intros E. by apply (th_stk j i).
    + split; [done|]. split; [split; [done|by apply (I_delete i); auto]|]. simpl. rewrite lookup_delete_eq, lookup_delete_ne.
      * split; [|done]. apply at_mem in Ht as [o Ho]. by exists o.
      * intros E. by apply (th_stk i i).
Qed.

Lemma runs_free_thread i k :
  runs_thread i (k tt) Gone -> runs_thread i (bind (posix_free POSIX_THREAD (th i)) k) Stackless.
Proof.
  apply runs_free.
  - intros w (_ & _ & H & _). done.
  - intros w (Hi & [Hh HI] & Ht & Hs & Hj). split.
    + split; [done|]. intros j Hlt Hne. simpl. rewrite !lookup_delete_ne; [done| |].
      * by apply th_stk.
      * intros E. by destruct Hne; apply th_inj.
    + split; [done|]. split; [split; [done|by apply (I_delete i); auto]|]. simpl. rewrite lookup_delete_eq, lookup_delete_ne by (by apply th_stk). done.
Qed.

Lemma runs_exit_thread i : runs_thread i (exit_thread (who i)) Whole.
Proof.
  unfold exit_thread, pthread_self, th_attr, th_barrier, th_joined, th_stack, kmod. rewrite who_self.
  apply runs_field_load. intros t Hj _. rewrite Hj. destruct (to_join i) eqn:E.
  - apply runs_field_call; [done|done|]. intros _. apply runs_field_call; [done|by rewrite E|].
    intros _. unfold thread_ends. simpl. by rewrite E.
  - apply runs_field_load. intros t1 _ ->. apply runs_free_stack; [done|].
    apply follows_last, runs_free_thread. simpl. unfold thread_ends. by rewrite E.
Qed.

Lemma runs_run_thread i : (forall f a, civil (app f a)) -> runs_thread i (run_thread app (who i) (th i)) Whole.
Proof.
  intros Happ. unfold run_thread, th_fun, th_fun_arg, th_ret. apply runs_field_load. intros t _ _.
  apply runs_field_load. intros t1 _ _. apply runs_civil; [apply Happ|]. intros r.
  apply runs_field_store; [done|]. apply runs_exit_thread.
Qed.

Definition endings : list (prog world unit) := map (fun i => run_thread app (who i) (th i)) (seq 0 n).

Definition ending (c : pool world unit) (sts : list remains) : Prop :=
  staged thread_knows thread_moves thread_waits (fun _ _ => False) thread_ends c.1 sts
  /\ known thread_knows sts c.2.

Lemma ending_next c c' sts : ending c sts -> pool_step c c' -> exists sts', ending c' sts'.
Proof.
  intros [Hst Hk] H. destruct c as [ts w].
  destruct (staged_step _ _ _ _ _ ts sts w c' Hst Hk H) as (i & st & st' & Hi & [[Hh Hsp] Hk'] & Hst').
  exists (<[i:=st']> sts). split; [done|]. intros j q. rewrite list_lookup_insert_Some.
  intros [(<- & <- & _)|[Hne Hj]]; [done|]. pose proof (Hk j q Hj) as Hq.
  destruct (Hsp j (proj1 Hq)) as [Ht Hs]; [done|].
  eapply knows_unchanged; try done. apply Hk'.
Qed.

(** C18: Threads that end, any number of them in any interleaving, whatever
    their functions compute, as long as these keep an invariant [I] of the rest
    of the memory on which they rely, and do not touch the threads' memory,
    block or fault: every execution is finite; no access to the objects of the
    model faults; the thread object of a detached thread is never released
    before its stack, and when the thread has ended both have been released; a
    joinable thread stays whole, with its stack, for its joiner, and is the only
    one that may be left waiting. (The stack is a block of memory here: that a
    detached thread runs on the one it releases is the subject of
    [detached_frees_own_stack].) *)
Theorem threads_end_clean w c :
  (forall f a, civil (app f a)) -> (forall i, (i < n)%nat -> thread_knows i Whole w) ->
  reach pool_step (endings, w) c ->
  Acc (fun y z => pool_step z y) c
  /\ (forall e, ~ pool_faults c e)
  /\ (forall i, (i < n)%nat -> mem c.2 !! th i = None -> mem c.2 !! stk i = None)
  /\ (forall i, c.1 !! i = Some (Ret tt) -> thread_knows i (if to_join i then Whole else Gone) c.2)
  /\ (forall i, (i < n)%nat -> to_join i = true -> thread_knows i Whole c.2)
  /\ (stuck pool_step c -> forall i q, c.1 !! i = Some q -> to_join i = false -> q = Ret tt).
Proof.
  intros Happ Hw Hr. split; [apply pool_wf|].
  assert (length c.1 = n /\ exists sts, ending c sts) as (Hn & sts & Hst & Hk).
  { induction Hr as [|y z Hr [Hn [sts X]] Hs]; [|split; [|by eapply ending_next]].
    - split; [by unfold endings; cbn; rewrite length_map, length_seq|]. exists (replicate n Whole). split.
      + unfold endings. split; [cbn; by rewrite length_map, length_seq, length_replicate|].
        intros i p st Hp Hi. apply lookup_replicate in Hi as [-> _].
        apply list_lookup_fmap_Some in Hp as (j & -> & Hj). apply lookup_seq in Hj as [-> _]. by apply runs_run_thread.
      + intros i st Hi. apply lookup_replicate in Hi as [-> Hlt]. by apply Hw.
    - destruct Hs. cbn [fst] in *. by rewrite length_insert. }
  destruct c as [ts v]. cbn [fst snd] in *.
  assert (forall e, ~ pool_faults (ts, v) e) as Hno.
  { intros e He. by destruct (staged_faults _ _ _ _ _ ts sts v e Hst Hk He). }
  assert (forall i, (i < n)%nat -> exists st, thread_knows i st v) as Hall.
  { intros i Hi. destruct (lookup_lt_is_Some_2 sts i) as [st Hsti]; [by rewrite <- (proj1 Hst), Hn|].
    exists st. by apply Hk. }
  split; [done|]. split; [|split; [|split]].
  - intros i Hi Hnone. destruct (Hall i Hi) as [[] (_ & _ & H)]; [|by destruct H as (_ & ? & _)..].
    destruct H as [(t & Ht & _) _]. apply at_mem in Ht as [o Ho]. congruence.
  - intros i Hi. destruct (staged_lookup _ _ _ _ _ _ _ i _ Hst Hi) as (st & Hsti & He).
    simpl in He. unfold thread_ends in He. rewrite <- He. by apply Hk.
  - intros i Hi Hj. destruct (Hall i Hi) as [[] H]; [done|destruct H as (_ & _ & _ & _ & ?); congruence..].
  - intros Hs i q Hi Hj. destruct (staged_lookup _ _ _ _ _ _ _ i _ Hst Hi) as (st & Hsti & _).
    destruct (staged_stuck _ _ _ _ _ ts sts v i q st Hst Hk Hs Hno Hi Hsti) as [Hwait|([] & -> & _)]; [|done].
    unfold thread_waits in Hwait. congruence.
Qed.
End endings.

(** ** Witnesses *)

Section thread_pool_witnesses.
Import Sim.

Definition joiner (i : nat) : caller := mk_caller (Z.of_nat i + 1) 0.

(** The thread's function adds the function's number and the argument. *)
Definition sum_app (f a : Z) : prog (@world sim_kernel) Z := Ret (f + a).

Lemma join_use_after_release_witness :
  let w := sim_world ∅ in let p := create_thread w in
  exists w1 w2 d, run (pthread_create task_a None 5 6) w = [Done (0, Some p) w1]
    /\ run (run_thread sum_app (mk_caller 33 4) p) w1 = [Done tt w2]
    /\ reach pool_step ([pthread_join (joiner 0) p true; pthread_join (joiner 1) p true], w2) d
    /\ d.1 !! 0%nat = Some (Ret (0, Some 11)) /\ pool_faults d BadPointer.
Proof.
  intros w p. assert (create_thread w = 4 /\ create_stack w None 5 6 = 20) as [Hp Hs] by (vm_compute; done).
  apply (join_use_after_release sim_mut_laws sim_sem_laws sim_alloc_laws w task_a None 5 6 6 sum_app 11
    (mk_caller 33 4) (joiner 0) (joiner 1)); try done; by rewrite ?Hp, ?Hs.
Defined.

(** Detached, with the lowest priority. *)
Definition detached_attr : pthread_attr_t := mk_attr 1024 3.

Lemma detached_frees_own_stack_witness :
  let w := sim_world ∅ in
  exists w1 w2, run (pthread_create task_a (Some detached_attr) 5 6) w = [Done (0, Some 4) w1]
    /\ mem w1 !! 20 = Some (ORaw 1024)
    /\ solo (run_thread sum_app (mk_caller 33 4) 4) w1 (posix_free POSIX_THREAD 4) w2
    /\ mem w2 !! 20 = None /\ is_Some (mem w2 !! 4).
Proof.
  intros w. assert (create_thread w = 4 /\ create_stack w (Some detached_attr) 5 6 = 20) as [Hp Hs] by (vm_compute; done).
  pose proof (detached_frees_own_stack sim_alloc_laws w task_a (Some detached_attr) 5 6 3 sum_app 11 (mk_caller 33 4)) as H.
  cbv zeta in H. rewrite Hp, Hs in H. by apply H.
Defined.

(** A detached thread at 64, and one at 192 that is to be joined, as
    [pthread_create] makes it. *)
Definition two_threads : @world sim_kernel :=
  sim_world {[ 64 := OThread (sim_thread 3 0 0 (0, 0%nat)); 128 := ORaw 1024;
               192 := OThread (@mk_thread sim_kernel (mk_attr 1024 joinable) 7 8 3 256 1 1 (0, 0%nat) 0);
               256 := ORaw 1024 ]}.

Definition thread_at (i : nat) : Z := 64 + 128 * Z.of_nat i.
Definition stack_at (i : nat) : Z := 128 + 128 * Z.of_nat i.
Definition self_at (i : nat) : caller := mk_caller (Z.of_nat i + 1) (thread_at i).
Definition adds (f a : Z) : prog (@world sim_kernel) Z := let* t := get tmr_ticks in Ret (f + a + t).

Lemma threads_end_clean_witness :
  exists c, reach pool_step (endings 2 self_at thread_at adds, two_threads) c
    /\ results c = [Some tt; Some tt] /\ map (fun p => bool_decide (is_Some (mem c.2 !! p))) [64; 128; 192; 256]
         = [false; false; true; true]
    /\ (forall e, ~ pool_faults c e) /\ thread_knows 2 thread_at stack_at (fun i => bool_decide (i = 1%nat)) (fun _ => True) 0 Gone c.2.
Proof.
  destruct (sched_summary (fun c : pool (@world sim_kernel) unit =>
      (results c, map (fun p => bool_decide (is_Some (mem c.2 !! p))) [64; 128; 192; 256]))
    [0; 1; 0; 1; 1; 0; 0; 1; 1; 0; 0; 1; 1; 0; 0]%nat (endings 2 self_at thread_at adds, two_threads)
    ([Some tt; Some tt], [false; false; true; true])) as (c & Hr & Hc); [vm_compute; reflexivity|].
  exists c. split; [exact Hr|]. apply pair_equal_spec in Hc as [H1 H2]. split; [exact H1|]. split; [exact H2|].
  destruct (threads_end_clean 2 self_at thread_at stack_at (fun i => bool_decide (i = 1%nat)) adds) with (I := fun _ : world => True) (w := two_threads) (c := c)
    as (_ & Hno & _ & Hend & _).
  - reflexivity.
  - unfold thread_at. intros i j _ _ ?. lia.
  - unfold stack_at. intros i j _ _ ?. lia.
  - unfold thread_at, stack_at. intros i j Hi Hj. lia.
  - done.
  - done.
  - intros f b w _. split; [done|]. split; [by intros e ?%list_elem_of_singleton|].
    intros x w' Hx. apply list_elem_of_singleton in Hx. by simplify_eq.
  - intros [|[|i]] Hi; [| |lia]; (split; [lia|]; split; [by split|]; split; [by eexists|by eexists]).
  - exact Hr.
  - split; [exact Hno|]. apply (Hend 0%nat), results_lookup. by rewrite H1.
Defined.
End thread_pool_witnesses.
