(* ===== verification/Timer.v ===== *)
(** Timers: [src/posix_timer.c].  A [timer_t] is the address of a
    [timer_internal_t], which embeds a one-shot kernel timer; [timer_do], the
    kernel's callback at expiration, arms it again for a periodic timer and
    notifies the application, by a direct call recorded as [ENotify] or by a
    new thread. *)
From S2P Require Import Prelude Prog Kernel World SimKernel Timespec Clock Attr Thread.

Definition SIGEV_NONE : Z := 0.
Definition SIGEV_SIGNAL : Z := 1.
Definition SIGEV_THREAD : Z := 2.

Definition TIMESPEC_IS_ZERO (ts : timespec) : bool := (tv_sec ts =? 0) && (tv_nsec ts =? 0).
Definition TIMESPEC_IS_NOT_ZERO (ts : timespec) : bool := negb (TIMESPEC_IS_ZERO ts).

Section timer.
Context `{P : Platform} `{K : Kernel}.

Definition set_ost v (t : timer_internal_t) := mk_timer v (event t) (period t).
Definition set_event v (t : timer_internal_t) := mk_timer (ost t) v (period t).
Definition set_period v (t : timer_internal_t) := mk_timer (ost t) (event t) v.

Definition tm_ost (p : Z) : ref tmr_t := fld p ost set_ost.
Definition tm_event (p : Z) : ref sigevent := fld p event set_event.
Definition tm_period (p : Z) : ref Z := fld p period set_period.

(** [tmr_on(&timer->ost, ticks)] counts from the tick at which the kernel is
    called. *)
Definition timer_on (timer ticks : Z) : prog world unit :=
  act (fun w => match rget (tm_ost timer) w with
                | Some o => [Done tt (rset (tm_ost timer) (tmr_on ticks (tmr_ticks w) o) w)]
                | None => [Fault BadPointer]
                end).

Definition timer_do (c : caller) (p : Z) : prog world Z :=
  let timer := p in
  (if timer =? 0 then raise AssertFail else Ret tt) ;;
  let* ev := load (tm_event timer) in
  (if sigev_notify ev =? SIGEV_SIGNAL then raise AssertFail else Ret tt) ;;
  let* per := load (tm_period timer) in
  (if 0 <? per then let* per := load (tm_period timer) in timer_on timer per else Ret tt) ;;
  let* ev := load (tm_event timer) in
  (if sigev_notify ev =? SIGEV_THREAD then
     match sigev_notify_attributes ev with
     | None => emit (ENotify (sigev_notify_function ev) (sigev_value ev))
     | Some a =>
         pthread_create c (Some a) (sigev_notify_function ev) (sigev_value ev) ;;
         Ret tt
     end
   else Ret tt) ;;
  Ret 0.

Definition zero_sigevent : sigevent := mk_sigevent 0 0 0 None.
Definition zero_timer : timer_internal_t := mk_timer tmr_zero zero_sigevent 0.

(** The result and, when it is 0, what is stored in [*timerid]. *)
Definition timer_create (c : caller) (clockid : Z) (evp : option sigevent)
  : prog world (Z * option Z) :=
  let unsupported :=
    match evp with None => true | Some e => sigev_notify e =? SIGEV_SIGNAL end in
  let* ret := if unsupported then set_errno c ENOTSUP ;; Ret (-1) else Ret 0 in
  let* hook := get hcos_posix_alloc in
  let* ret := if hook =? 0 then set_errno c EAGAIN ;; Ret (-1) else Ret ret in
  let* (ret, timer) :=
    if ret =? 0 then
      let* timer := posix_alloc POSIX_TIMER (sizeof_obj POSIX_TIMER) in
      memset_zero timer zero_timer ;;
      if timer =? 0 then set_errno c EAGAIN ;; Ret (-1, timer) else Ret (ret, timer)
    else Ret (ret, 0) in
  if ret =? 0 then
    store (tm_event timer) (default zero_sigevent evp) ;;
    store (tm_period timer) 0 ;;
    kmod (tm_ost timer) (fun _ => tmr_init timer) ;;
    Ret (ret, Some timer)
  else Ret (ret, None).

Definition timer_delete (timerid : Z) : prog world Z :=
  (if timerid =? 0 then raise AssertFail else Ret tt) ;;
  kmod (tm_ost timerid) tmr_of ;;
  posix_free POSIX_TIMER timerid ;;
  Ret 0.

Definition timer_getoverrun (timerid : Z) : prog world Z := Ret 0.

(** A number of ticks as a [struct timespec]. *)
Definition ticks2timespec (n : Z) : timespec :=
  mk_timespec (wraps time_bits (Z.quot n tmr_hz))
              (wraps 32 (Z.rem n tmr_hz * NANOSECONDS_PER_TICK)).

Definition timer_gettime (timerid : Z) : prog world (Z * itimerspec) :=
  let* o := load (tm_ost timerid) in
  let* now := get tmr_ticks in
  let next_expire := wrapu 32 (tmr_expire o - now) in
  let* period := load (tm_period timerid) in
  let* o := load (tm_ost timerid) in
  let it_value := if tmr_active o then ticks2timespec next_expire else mk_timespec 0 0 in
  Ret (0, mk_itimerspec (ticks2timespec period) it_value).

(** The result and [*ovalue], which the caller may not ask for. *)
Definition timer_settime (c : caller) (timerid flags : Z) (value : itimerspec) (ovalue : bool)
  : prog world (Z * option itimerspec) :=
  let* ret :=
    if TIMESPEC_IS_NOT_ZERO (it_value value) then
      if (validate_timespec (Some (it_interval value)) =? 0)
         || (validate_timespec (Some (it_value value)) =? 0)
      then set_errno c EINVAL ;; Ret (-1) else Ret 0
    else Ret 0 in
  let* old :=
    if ovalue then let* (_, v) := timer_gettime timerid in Ret (Some v) else Ret None in
  (if ret =? 0 then kmod (tm_ost timerid) tmr_of else Ret tt) ;;
  let* ret :=
    if (ret =? 0) && TIMESPEC_IS_NOT_ZERO (it_value value) then
      let* period :=
        if TIMESPEC_IS_NOT_ZERO (it_interval value) then
          let* (_, n) := lift (timespec2ticks (Some (it_interval value)) (Some 0)) in
          Ret (default 0 n)
        else Ret 0 in
      store (tm_period timerid) period ;;
      let* (ret, next_expire) :=
        if TIMESPEC_IS_NOT_ZERO (it_value value) then
          if Z.land flags TIMER_ABSTIME =? TIMER_ABSTIME then
            let* (r, cur) := clock_gettime CLOCK_REALTIME (Some zero_timespec) in
            let* (ret, n) :=
              if negb (r =? 0) then Ret (EINVAL, Some 0)
              else lift (abs_timespec2ticks (Some (it_value value)) cur (Some 0)) in
            if negb (ret =? 0) then Ret (if ret =? ETIMEDOUT then 0 else ret, 0)
            else Ret (ret, default 0 n)
          else
            let* (_, n) := lift (timespec2ticks (Some (it_value value)) (Some 0)) in
            Ret (ret, default 0 n)
        else Ret (ret, 0) in
      (if next_expire =? 0 then timer_do c timerid ;; Ret tt else timer_on timerid next_expire) ;;
      Ret ret
    else Ret ret in
  Ret (ret, old).
End timer.

(** ** Properties *)

Section timer_props.
Context `{P : Platform} `{!PlatformOk P} `{K : Kernel} (TL : TmrLaws K).
Implicit Types (w : world) (c : caller) (t : timer_internal_t).

Lemma run_timer_on {R} w p t n (k : unit -> prog world R) :
  at_ p w = Some t ->
  run (bind (timer_on p n) k) w = run (k tt) (put p (set_ost (tmr_on n (tmr_ticks w) (ost t)) t) w).
Proof. intros H. apply run_act. simpl. by rewrite H. Qed.

Definition create_timer w : Z := alloc_answer w POSIX_TIMER (sizeof_obj POSIX_TIMER).

(** [timer_create] refuses a null event and signal notification with
    [ENOTSUP] and works without touching the memory in that case; otherwise,
    with memory, it returns a fresh disarmed timer that is not periodic and
    has the given event.  When the hook has no memory it clears the null
    block before testing it. *)
Theorem timer_create_spec w c clk evp (AL : AllocLaws K) :
  hcos_posix_alloc w <> 0 ->
  match evp with
  | Some e =>
      if sigev_notify e =? SIGEV_SIGNAL
      then run (timer_create c clk evp) w = [Done (-1, None) (with_errno (task_cur c) ENOTSUP w)]
      else if create_timer w =? 0 then run (timer_create c clk evp) w = [Fault NullDeref]
      else mem w !! create_timer w = None /\
           exists o, run (timer_create c clk evp) w
             = [Done (0, Some (create_timer w)) (put (create_timer w) (mk_timer o e 0) w)]
             /\ tmr_active o = false
  | None => run (timer_create c clk evp) w = [Done (-1, None) (with_errno (task_cur c) ENOTSUP w)]
  end.
Proof.
  intros Hh. unfold timer_create. destruct evp as [e|].
  - destruct (sigev_notify e =? SIGEV_SIGNAL).
    + step. cbn [bind]. step. cbn [hcos_posix_alloc with_errno]. by test_false (hcos_posix_alloc w =? 0).
    + cbn [bind]. step. test_false (hcos_posix_alloc w =? 0). cbn [bind Z.eqb].
      destruct (create_timer w =? 0) eqn:E.
      * apply Z.eqb_eq in E. by rewrite run_assoc, run_alloc_none.
      * apply Z.eqb_neq in E. split; [exact (answer_fresh w _ _ AL E)|].
        exists (tmr_init (create_timer w)). split; [|apply tmr_init_off].
        rewrite run_assoc, run_alloc by done. change (alloc_answer _ _ _) with (create_timer w).
        rewrite run_assoc. erewrite run_memset; [|done|apply lookup_insert_eq]. rewrite put_raw.
        test_false (create_timer w =? 0). cbn [bind Z.eqb].
        unfold tm_event, tm_period, tm_ost. do 3 (step; cbn [ost event period set_ost set_event set_period]). done.
  - step. cbn [bind]. step. cbn [hcos_posix_alloc with_errno]. by test_false (hcos_posix_alloc w =? 0).
Qed.

(** [n] ticks last [nanos (ticks2timespec n)] nanoseconds. *)
Lemma ticks2timespec_nanos n :
  exact_rate -> 0 <= n <= UINT_MAX -> Z.quot n tmr_hz < 2 ^ 31 ->
  valid_timespec (ticks2timespec n) /\ nanos (ticks2timespec n) = n * NANOSECONDS_PER_TICK.
Proof.
  intros Hr Hn Hq. pose proof tmr_hz_range. pose proof NPT_range. pose proof time_bits_range.
  unfold exact_rate in Hr. unfold ticks2timespec, valid_timespec, nanos. cbn [tv_sec tv_nsec].
  rewrite Z.quot_div_nonneg in Hq by lia.
  rewrite Z.quot_div_nonneg, Z.rem_mod_nonneg by lia.
  assert (tmr_hz <> 0) as Hne by lia. assert (0 < tmr_hz) as Hpos by lia.
  pose proof (Z.div_mod n tmr_hz Hne) as Hdm. pose proof (Z.mod_pos_bound n tmr_hz Hpos).
  pose proof (Z.div_pos n tmr_hz (proj1 Hn) Hpos).
  set (d := n / tmr_hz) in *. set (m := n mod tmr_hz) in *.
  assert (2 ^ 31 <= 2 ^ (time_bits - 1)) as Hb by (apply pow2_le; lia).
  assert (0 <= m * NANOSECONDS_PER_TICK < NANOSECONDS_PER_SECOND) as Hm by (rewrite Hr; nia).
  rewrite (wraps_small time_bits d) by lia.
  rewrite (wraps_small 32) by (change (32 - 1) with 31; unfold NANOSECONDS_PER_SECOND in Hm; lia).
  split; [done|]. rewrite Hr, Hdm. ring.
Qed.

(** The ticks the code computes for a duration. *)
Definition ticks_of (d : timespec) : Z := ceil_div (nanos d) NANOSECONDS_PER_TICK.

Definition good_time (d : timespec) : Prop := valid_timespec d /\ 0 <= tv_sec d < 2 ^ 31.

Lemma nonzero_nanos d : good_time d -> TIMESPEC_IS_NOT_ZERO d = (0 <? nanos d).
Proof.
  intros [Hv Hs]. unfold TIMESPEC_IS_NOT_ZERO, TIMESPEC_IS_ZERO, nanos.
  unfold valid_timespec, NANOSECONDS_PER_SECOND in *.
  destruct (tv_sec d =? 0) eqn:E1, (tv_nsec d =? 0) eqn:E2; bool_lia; cbn [andb negb]; symmetry;
    first [apply Z.ltb_lt | apply Z.ltb_ge]; nia.
Qed.

Lemma ticks_of_nonneg d : good_time d -> 0 <= ticks_of d.
Proof.
  intros [Hv Hs]. pose proof NPT_range. apply Z.div_pos; [|lia].
  unfold nanos, valid_timespec, NANOSECONDS_PER_SECOND in *. lia.
Qed.

(** The converted interval is stored even when it does not fit. *)
Lemma run_interval {R} w d (k : Z -> prog world R) :
  exact_rate -> good_time d ->
  run (let* per :=
         if TIMESPEC_IS_NOT_ZERO d then
           let* (_, n) := lift (timespec2ticks (Some d) (Some 0)) in Ret (default 0 n)
         else Ret 0 in k per) w
  = run (k (wrapu 32 (ticks_of d))) w.
Proof.
  intros Hr Hd. rewrite nonzero_nanos by done. destruct Hd as [Hv Hs].
  destruct (0 <? nanos d) eqn:E.
  - rewrite run_assoc, run_ticks by done. done.
  - assert (nanos d = 0) as H0.
    { unfold nanos, valid_timespec, NANOSECONDS_PER_SECOND in *. bool_lia. }
    unfold ticks_of. rewrite H0. pose proof NPT_range.
    by rewrite (ceil_div_unique 0 NANOSECONDS_PER_TICK 0) by lia.
Qed.

(** The timer once it has been stopped and its period set. *)
Definition stopped_timer t (value : itimerspec) : timer_internal_t :=
  mk_timer (tmr_of (ost t)) (event t) (wrapu 32 (ticks_of (it_interval value))).

(** What an arming call does after that. *)
Definition arm (c : caller) (p flags : Z) (v : timespec) : prog world (Z * option itimerspec) :=
  let* (ret, next_expire) :=
    if Z.land flags TIMER_ABSTIME =? TIMER_ABSTIME then
      let* (r, cur) := clock_gettime CLOCK_REALTIME (Some zero_timespec) in
      let* (ret, n) :=
        if negb (r =? 0) then Ret (EINVAL, Some 0)
        else lift (abs_timespec2ticks (Some v) cur (Some 0)) in
      if negb (ret =? 0) then Ret (if ret =? ETIMEDOUT then 0 else ret, 0)
      else Ret (ret, default 0 n)
    else
      let* (_, n) := lift (timespec2ticks (Some v) (Some 0)) in
      Ret (0, default 0 n) in
  (if next_expire =? 0 then timer_do c p ;; Ret tt else timer_on p next_expire) ;;
  Ret (ret, None).

Lemma run_settime_arm w c p t flags value :
  exact_rate -> at_ p w = Some t -> good_time (it_value value) -> good_time (it_interval value) ->
  0 < nanos (it_value value) ->
  run (timer_settime c p flags value false) w
  = run (arm c p flags (it_value value)) (put p (stopped_timer t value) w).
Proof.
  intros Hr Hp Hv Hi Hpos. unfold timer_settime, arm.
  assert (TIMESPEC_IS_NOT_ZERO (it_value value) = true) as Hz by (rewrite nonzero_nanos by done; lia).
  rewrite !Hz. rewrite (proj1 (validate_valid _) (proj1 Hv)), (proj1 (validate_valid _) (proj1 Hi)).
  cbn [Z.eqb orb bind andb]. unfold tm_ost at 1, tm_period. step. rewrite run_assoc, run_interval by done.
  step. cbn [set_ost set_period ost event]. fold (stopped_timer t value).
  rewrite run_assoc. apply run_bind_ext. intros [ret next] v. by rewrite run_assoc.
Qed.

(** The callback of a timer that notifies directly, or not at all. *)
Definition notified t (w : world) : world :=
  if sigev_notify (event t) =? SIGEV_THREAD
  then with_effect (ENotify (sigev_notify_function (event t)) (sigev_value (event t))) w else w.

Definition rearmed w t : timer_internal_t :=
  if 0 <? period t then set_ost (tmr_on (period t) (tmr_ticks w) (ost t)) t else t.

Definition direct_event (e : sigevent) : Prop :=
  sigev_notify e <> SIGEV_SIGNAL /\ sigev_notify_attributes e = None.

Lemma run_timer_do w c p t :
  p <> 0 -> at_ p w = Some t -> direct_event (event t) ->
  run (timer_do c p) w = [Done 0 (notified t (put p (rearmed w t) w))].
Proof.
  intros H0 Hp [Hs Ha]. unfold timer_do, tm_event, tm_period. cbv zeta.
  test_false (p =? 0). cbn [bind]. step. test_false (sigev_notify (event t) =? SIGEV_SIGNAL). cbn [bind].
  step. unfold rearmed, notified. destruct (0 <? period t).
  - step. erewrite run_timer_on by done. step. cbn [event set_ost]. rewrite Ha. destruct (sigev_notify (event t) =? SIGEV_THREAD).
    + by step.
    + done.
  - cbn [bind]. step. rewrite Ha, put_same by done.
    destruct (sigev_notify (event t) =? SIGEV_THREAD); [by step|done].
Qed.

(** At its expiration a periodic timer is armed again for its period, and
    the application is notified once, by a call of its function with its
    value, if it asked for it; a timer that is not periodic stays off. *)
Theorem timer_do_spec w c p t :
  p <> 0 -> at_ p w = Some t -> direct_event (event t) -> 0 <= period t ->
  exists w', run (timer_do c p) w = [Done 0 w']
    /\ effects w' = effects w
         ++ (if sigev_notify (event t) =? SIGEV_THREAD
             then [ENotify (sigev_notify_function (event t)) (sigev_value (event t))] else [])
    /\ if period t =? 0 then at_ p w' = Some t
       else exists t', at_ p w' = Some t' /\ period t' = period t /\ event t' = event t
            /\ tmr_active (ost t') = true /\ tmr_expire (ost t') = wrapu 32 (tmr_ticks w + period t).
Proof.
  intros H0 Hp Hd Hper. eexists. split; [by apply run_timer_do|]. unfold notified, rearmed. split.
  - destruct (sigev_notify (event t) =? SIGEV_THREAD); [done|]. by rewrite app_nil_r.
  - assert (forall t', at_ p (if sigev_notify (event t) =? SIGEV_THREAD
        then with_effect (ENotify (sigev_notify_function (event t)) (sigev_value (event t))) (put p t' w)
        else put p t' w) = Some t') as Hat.
    { intros t'. case_if; [rewrite at_with_effect|]; apply at_put. }
    rewrite Hat.
    destruct (period t =? 0) eqn:E; bool_lia.
    + by test_false (0 <? period t).
    + test_true (0 <? period t). eexists. split; [done|]. cbn [period event ost set_ost].
      split; [done|]. split; [done|]. split; [apply tmr_on_active|]. apply tmr_on_expire.
Qed.

Lemma wrapu_remaining now n : 0 <= n <= UINT_MAX -> wrapu 32 (wrapu 32 (now + n) - now) = n.
Proof.
  intros H. unfold wrapu. rewrite Zminus_mod_idemp_l.
  replace (now + n - now) with n by lia. apply Z.mod_small. unfold UINT_MAX in H. lia.
Qed.

Lemma ticks_of_small d : exact_rate -> good_time d -> tv_sec d < 2 ^ 31 - 1 -> Z.quot (ticks_of d) tmr_hz < 2 ^ 31.
Proof.
  intros Hr [Hv Hs] Hb. pose proof tmr_hz_range. pose proof NPT_range.
  assert (0 <= ticks_of d) by (by apply ticks_of_nonneg).
  rewrite Z.quot_div_nonneg by lia. apply Z.div_lt_upper_bound; [lia|].
  assert (ticks_of d <= tmr_hz * (tv_sec d + 1)); [|nia].
  unfold ticks_of. rewrite <- tick_count_nanos by done. unfold tick_count.
  assert (ceil_div (tv_nsec d) NANOSECONDS_PER_TICK <= tmr_hz); [|lia].
  apply ceil_div_least; [lia|]. unfold exact_rate in Hr. unfold valid_timespec in Hv. lia.
Qed.

(** What [timer_gettime] answers for an armed timer. *)
Lemma run_gettime_armed w p t n m :
  exact_rate -> at_ p w = Some t -> 0 <= n <= UINT_MAX -> 0 <= m <= UINT_MAX ->
  Z.quot n tmr_hz < 2 ^ 31 -> Z.quot m tmr_hz < 2 ^ 31 ->
  tmr_active (ost t) = true -> tmr_expire (ost t) = wrapu 32 (tmr_ticks w + n) -> period t = m ->
  exists v, run (timer_gettime p) w = [Done (0, v) w]
    /\ valid_timespec (it_value v) /\ nanos (it_value v) = n * NANOSECONDS_PER_TICK
    /\ valid_timespec (it_interval v) /\ nanos (it_interval v) = m * NANOSECONDS_PER_TICK.
Proof.
  intros Hr Hp Hn Hm Hqn Hqm Ha He Hper.
  exists (mk_itimerspec (ticks2timespec m) (ticks2timespec n)). split.
  - unfold timer_gettime, tm_ost, tm_period. do 4 step. by rewrite Ha, He, Hper, wrapu_remaining.
  - destruct (ticks2timespec_nanos n Hr Hn Hqn). destruct (ticks2timespec_nanos m Hr Hm Hqm). done.
Qed.

(** A relative delay, in ticks modulo [2^32]. *)
Definition armed_timer w t (value : itimerspec) : timer_internal_t :=
  set_ost (tmr_on (wrapu 32 (ticks_of (it_value value))) (tmr_ticks w) (tmr_of (ost t))) (stopped_timer t value).

Lemma run_settime_relative w c p t flags value :
  exact_rate -> at_ p w = Some t -> Z.land flags TIMER_ABSTIME <> TIMER_ABSTIME ->
  good_time (it_value value) -> good_time (it_interval value) -> 0 < nanos (it_value value) ->
  wrapu 32 (ticks_of (it_value value)) <> 0 ->
  run (timer_settime c p flags value false) w = [Done (0, None) (put p (armed_timer w t value) w)].
Proof.
  intros Hr Hp Hf Hv Hi Hpos Hn. rewrite (run_settime_arm w c p t) by done. unfold arm.
  test_false (Z.land flags TIMER_ABSTIME =? TIMER_ABSTIME).
  destruct Hv as [Hv1 Hv2]. rewrite run_assoc, run_ticks by done. cbv zeta.
  fold (ticks_of (it_value value)). cbn [bind default from_option]. unfold id.
  test_false (wrapu 32 (ticks_of (it_value value)) =? 0).
  erewrite run_timer_on by find_at. by rewrite put_put.
Qed.

Lemma ticks_of_pos d : good_time d -> 0 < nanos d -> 0 < ticks_of d.
Proof.
  intros Hd Hpos. pose proof (ticks_of_nonneg _ Hd). pose proof NPT_range.
  destruct (decide (ticks_of d <= 0)) as [H'|]; [|lia]. unfold ticks_of in H'. apply ceil_div_least in H'; lia.
Qed.

(** [timer_settime] with a relative delay arms the timer for that delay
    and sets its period, both rounded up to ticks, and [timer_gettime] called
    at the same tick gives exactly these times back. *)
Theorem timer_settime_gettime w c p t flags value :
  exact_rate -> at_ p w = Some t -> Z.land flags TIMER_ABSTIME <> TIMER_ABSTIME ->
  good_time (it_value value) -> good_time (it_interval value) -> 0 < nanos (it_value value) ->
  ticks_of (it_value value) <= UINT_MAX -> ticks_of (it_interval value) <= UINT_MAX ->
  tv_sec (it_value value) < 2 ^ 31 - 1 -> tv_sec (it_interval value) < 2 ^ 31 - 1 ->
  exists w' t' v, run (timer_settime c p flags value false) w = [Done (0, None) w']
    /\ at_ p w' = Some t' /\ tmr_active (ost t') = true
    /\ tmr_expire (ost t') = wrapu 32 (tmr_ticks w + ticks_of (it_value value))
    /\ run (timer_gettime p) w' = [Done (0, v) w']
    /\ valid_timespec (it_value v)
    /\ nanos (it_value v) = ticks_of (it_value value) * NANOSECONDS_PER_TICK
    /\ valid_timespec (it_interval v)
    /\ nanos (it_interval v) = ticks_of (it_interval value) * NANOSECONDS_PER_TICK.
Proof.
  intros Hr Hp Hf Hv Hi Hpos Hn Hm Hbn Hbm.
  pose proof (ticks_of_pos _ Hv Hpos). pose proof (ticks_of_nonneg _ Hi).
  assert (forall d, 0 <= ticks_of d <= UINT_MAX -> wrapu 32 (ticks_of d) = ticks_of d) as Hsmall
    by (intros d Hd; apply wrapu_small; unfold UINT_MAX in Hd; lia).
  set (t' := armed_timer w t value).
  destruct (run_gettime_armed (put p t' w) p t' (ticks_of (it_value value)) (ticks_of (it_interval value)))
    as (v & Hrun & Hrest); try done; try lia.
  - apply at_put.
  - by apply ticks_of_small.
  - by apply ticks_of_small.
  - apply tmr_on_active.
  - unfold t', armed_timer. cbn [ost set_ost]. by rewrite tmr_on_expire, Hsmall by lia.
  - unfold t', armed_timer. cbn [period set_ost stopped_timer]. apply Hsmall. lia.
  - exists (put p t' w), t', v. split; [apply run_settime_relative; (done || rewrite Hsmall; lia)|].
    split; [apply at_put|]. split; [apply tmr_on_active|]. split; [|by split].
    unfold t', armed_timer. cbn [ost set_ost]. by rewrite tmr_on_expire, Hsmall by lia.
Qed.

(** A relative delay of [2^32] ticks or more is not refused: the result
    of the conversion is dropped, the call returns 0 and the timer is armed
    for the delay modulo [2^32], too early. *)
Theorem timer_settime_long_delay w c p t flags value :
  exact_rate -> at_ p w = Some t -> Z.land flags TIMER_ABSTIME <> TIMER_ABSTIME ->
  good_time (it_value value) -> good_time (it_interval value) ->
  UINT_MAX < ticks_of (it_value value) -> wrapu 32 (ticks_of (it_value value)) <> 0 ->
  exists w' t', run (timer_settime c p flags value false) w = [Done (0, None) w']
    /\ at_ p w' = Some t' /\ tmr_active (ost t') = true
    /\ tmr_expire (ost t') = wrapu 32 (tmr_ticks w + ticks_of (it_value value)).
Proof.
  intros Hr Hp Hf Hv Hi Hn Hw.
  assert (0 < nanos (it_value value)) as Hpos.
  { pose proof NPT_range. destruct (decide (nanos (it_value value) <= 0)) as [Hle|]; [|lia].
    assert (ticks_of (it_value value) <= 0); [|unfold UINT_MAX in Hn; lia]. apply ceil_div_least; lia. }
  exists (put p (armed_timer w t value) w), (armed_timer w t value).
  split; [by apply run_settime_relative|]. split; [apply at_put|]. split; [apply tmr_on_active|].
  unfold armed_timer. cbn [ost set_ost]. rewrite tmr_on_expire. unfold wrapu. by rewrite Zplus_mod_idemp_r.
Qed.

(** The timer has expired at once: its period counts from now and the
    application has been notified. *)
Definition fired w p t value : world :=
  notified t (put p (rearmed w (stopped_timer t value)) w).

Lemma run_fire w c p t value (ret : Z) :
  p <> 0 -> direct_event (event t) ->
  run ((timer_do c p ;; Ret tt) ;; Ret (ret, @None itimerspec)) (put p (stopped_timer t value) w)
  = [Done (ret, None) (fired w p t value)].
Proof.
  intros H0 Hd. rewrite run_assoc.
  rewrite (run_call _ _ _ _ _ (run_timer_do (put p (stopped_timer t value) w) c p (stopped_timer t value)
    H0 (at_put p _ w) Hd)).
  cbn [bind run]. unfold fired, notified. by rewrite put_put.
Qed.

(** C27: [timer_settime] with an absolute time ([TIMER_ABSTIME]), where the ticks
    divide the second exactly, the event notifies directly, and the times are
    valid and, as the clock, below 2^31 seconds.  A time that
    is now or has passed makes the timer expire at once: its callback runs in
    the call, which returns 0.  A time in the future arms the timer for the
    distance in ticks, rounded up.  When that distance does not fit in an
    [unsigned] the call returns the positive [EINVAL], and the timer expires
    at once all the same. *)
Theorem timer_settime_absolute w c p t flags value :
  exact_rate -> clock_ok w -> p <> 0 -> at_ p w = Some t -> direct_event (event t) ->
  Z.land flags TIMER_ABSTIME = TIMER_ABSTIME ->
  good_time (it_value value) -> good_time (it_interval value) -> 0 < nanos (it_value value) ->
  let d := nanos (it_value value) - nanos (now_timespec w) in
  let n := ceil_div d NANOSECONDS_PER_TICK in
  if d <=? 0 then
    run (timer_settime c p flags value false) w = [Done (0, None) (fired w p t value)]
  else if n <=? UINT_MAX then
    exists t', run (timer_settime c p flags value false) w = [Done (0, None) (put p t' w)]
      /\ tmr_active (ost t') = true /\ tmr_expire (ost t') = wrapu 32 (tmr_ticks w + n)
      /\ period t' = wrapu 32 (ticks_of (it_interval value)) /\ event t' = event t
  else
    run (timer_settime c p flags value false) w = [Done (EINVAL, None) (fired w p t value)].
Proof.
  intros Hr Hw H0 Hp Hd Hf Hv Hi Hpos d n. pose proof NPT_range.
  rewrite (run_settime_arm w c p t) by done. unfold arm. rewrite Hf, Z.eqb_refl.
  assert (clock_ok (put p (stopped_timer t value) w)) as Hw' by exact Hw.
  rewrite !run_assoc, run_gettime by done. cbn [Z.eqb negb].
  change (now_timespec (put p (stopped_timer t value) w)) with (now_timespec w).
  rewrite abs_timespec2ticks_eq by (done || apply now_valid || by apply now_sec || apply Hv).
  fold d n. destruct (nanos (it_value value) <? nanos (now_timespec w)) eqn:E.
  - cbn [lift bind Z.eqb negb ETIMEDOUT]. assert ((d <=? 0) = true) as -> by lia. by apply run_fire.
  - cbn [lift bind]. destruct (d <=? 0) eqn:E0.
    + assert (n = 0) as -> by (apply ceil_div_unique; lia). cbn [Z.eqb negb default bind].
      by apply run_fire.
    + assert (0 < n) as Hn.
      { destruct (decide (n <= 0)) as [Hle|]; [|lia]. apply ceil_div_least in Hle; lia. }
      destruct (n <=? UINT_MAX) eqn:En.
      * cbn [Z.eqb negb default from_option bind]. unfold id.
        rewrite wrapu_small by (unfold UINT_MAX in En; lia). test_false (n =? 0).
        eexists. split; [erewrite run_timer_on by find_at; by rewrite put_put|]. cbn [ost period event set_ost stopped_timer].
        split; [apply tmr_on_active|]. split; [apply tmr_on_expire|done].
      * cbn [Z.eqb negb EINVAL bind]. by apply run_fire.
Qed.

(** A zero [it_value] disarms the timer whatever the rest of the value
    is, and [timer_gettime] then reports a zero time; the period it reports
    is still the old one. *)
Theorem timer_settime_disarm w c p t flags value :
  at_ p w = Some t -> it_value value = zero_timespec ->
  let w' := put p (set_ost (tmr_of (ost t)) t) w in
  run (timer_settime c p flags value false) w = [Done (0, None) w']
  /\ run (timer_gettime p) w'
     = [Done (0, mk_itimerspec (ticks2timespec (period t)) zero_timespec) w'].
Proof.
  intros Hp Hz w'. split.
  - unfold timer_settime. rewrite Hz. cbn [TIMESPEC_IS_NOT_ZERO TIMESPEC_IS_ZERO tv_sec tv_nsec zero_timespec
      Z.eqb andb negb bind]. unfold tm_ost. by step.
  - unfold w', timer_gettime, tm_ost, tm_period. do 4 step. cbn [ost set_ost period].
    by rewrite tmr_of_off.
Qed.

(** Whole ticks are converted without rounding. *)
Lemma ticks_of_whole d n : nanos d = n * NANOSECONDS_PER_TICK -> ticks_of d = n.
Proof. intros H. pose proof NPT_range. unfold ticks_of. apply ceil_div_unique; lia. Qed.

Lemma good_whole n : exact_rate -> 0 <= n <= UINT_MAX -> Z.quot n tmr_hz < 2 ^ 31 -> good_time (ticks2timespec n).
Proof.
  intros Hr Hn Hq. split; [by apply ticks2timespec_nanos|]. pose proof tmr_hz_range. pose proof time_bits_range.
  assert (2 ^ 31 <= 2 ^ (time_bits - 1)) as Hb by (apply pow2_le; lia).
  assert (0 <= Z.quot n tmr_hz) by (apply Z.quot_pos; lia). unfold ticks2timespec. cbn [tv_sec].
  rewrite wraps_small; lia.
Qed.

(** C28: Where the ticks of the kernel divide the second exactly, and the times
    are below 2^31 seconds, a timer can be
    stopped and resumed: [timer_settime] with a zero value
    disarms it and stores in [*ovalue] the time that was left and the
    period, and this value, given to [timer_settime] at any later time, in
    whatever state the timer is by then, arms it for exactly the ticks
    that were left, with exactly the period it had. *)
Theorem timer_pause_resume w c p t n m flags :
  exact_rate -> at_ p w = Some t -> 0 < n <= UINT_MAX -> 0 <= m <= UINT_MAX ->
  Z.quot n tmr_hz < 2 ^ 31 -> Z.quot m tmr_hz < 2 ^ 31 ->
  tmr_active (ost t) = true -> tmr_expire (ost t) = wrapu 32 (tmr_ticks w + n) -> period t = m ->
  exists old, run (timer_settime c p flags (mk_itimerspec zero_timespec zero_timespec) true) w
      = [Done (0, Some old) (put p (set_ost (tmr_of (ost t)) t) w)]
    /\ forall w' t', at_ p w' = Some t' -> Z.land flags TIMER_ABSTIME <> TIMER_ABSTIME ->
         exists t2, run (timer_settime c p flags old false) w' = [Done (0, None) (put p t2 w')]
           /\ tmr_active (ost t2) = true /\ tmr_expire (ost t2) = wrapu 32 (tmr_ticks w' + n)
           /\ period t2 = m /\ event t2 = event t'.
Proof.
  intros Hr Hp Hn Hm Hqn Hqm Ha He Hper. set (old := mk_itimerspec (ticks2timespec m) (ticks2timespec n)). exists old.
  assert (ticks_of (it_value old) = n /\ ticks_of (it_interval old) = m) as [Tn Tm]
    by (split; apply ticks_of_whole, ticks2timespec_nanos; (done || lia)).
  assert (forall k, 0 <= k <= UINT_MAX -> wrapu 32 k = k) as Hw by (intros k Hk; apply wrapu_small; unfold UINT_MAX in Hk; lia).
  split.
  - unfold timer_settime. cbn [it_value it_interval TIMESPEC_IS_NOT_ZERO TIMESPEC_IS_ZERO tv_sec tv_nsec zero_timespec
      Z.eqb andb negb bind]. unfold timer_gettime, tm_ost, tm_period. rewrite run_assoc. do 4 (rewrite run_assoc; step).
    cbn [bind]. step. by rewrite Ha, He, Hper, wrapu_remaining by lia.
  - intros w' t' Hp' Hf. exists (armed_timer w' t' old). unfold armed_timer, stopped_timer. rewrite Tn, Tm, !Hw by lia.
    split; [|cbn [ost period event set_ost]; split; [apply tmr_on_active|split; [apply tmr_on_expire|done]]].
    destruct (ticks2timespec_nanos n Hr ltac:(lia) Hqn) as [_ Hnn]. pose proof NPT_range.
    rewrite (run_settime_relative w' c p t'); [|done|done|done|apply good_whole; (done || lia)..|cbn [it_value old]; nia|].
    + unfold armed_timer, stopped_timer. by rewrite Tn, Tm, !Hw by lia.
    + rewrite Tn, Hw; lia.
Qed.

(** Arming with a malformed value or interval is refused with [EINVAL] in
    [errno], and the timer is untouched. *)
Theorem timer_settime_invalid w c p flags value :
  TIMESPEC_IS_NOT_ZERO (it_value value) = true ->
  ~ valid_timespec (it_value value) \/ ~ valid_timespec (it_interval value) ->
  run (timer_settime c p flags value false) w = [Done (-1, None) (with_errno (task_cur c) EINVAL w)].
Proof.
  intros Hz Hv. unfold timer_settime. rewrite Hz.
  assert ((validate_timespec (Some (it_interval value)) =? 0)
          || (validate_timespec (Some (it_value value)) =? 0) = true) as ->.
  { destruct Hv as [Hv|Hv]; rewrite validate_valid in Hv; apply orb_true_iff; [right|left];
      apply Z.eqb_eq; by destruct (validate_cases (it_value value)), (validate_cases (it_interval value)). }
  by step.
Qed.

(** [timer_delete] releases the timer and nothing else. *)
Theorem timer_delete_spec w p t :
  p <> 0 -> at_ p w = Some t -> hcos_posix_free w <> 0 ->
  run (timer_delete p) w = [Done 0 (with_mem (delete p) w)].
Proof.
  intros H0 Hp Hf. unfold timer_delete, tm_ost. test_false (p =? 0). cbn [bind]. step.
  erewrite run_free; [|done|apply lookup_insert_eq]. cbn [run]. do 2 f_equal.
  unfold put, with_mem. simpl. by rewrite delete_insert_eq.
Qed.
End timer_props.

(** ** Witnesses *)

Section timer_witnesses.
Import Sim.

(** A timer at address 64 whose function 7 is called with 8. *)
Definition sim_timer (per : Z) : @timer_internal_t sim_kernel :=
  @mk_timer sim_kernel (true, 2000) (mk_sigevent SIGEV_THREAD 8 7 None) per.
Definition timer_world (per : Z) : @world sim_kernel := sim_world {[ 64 := OTimer (sim_timer per) ]}.
(** 2.5 ms, every second. *)
Definition sim_value : itimerspec := mk_itimerspec (mk_timespec 1 0) (mk_timespec 0 2500000).

Lemma timer_create_spec_witness :
  let w := sim_world ∅ in let e := mk_sigevent SIGEV_THREAD 8 7 None in
  create_timer w = 4 /\ mem w !! create_timer w = None /\
  exists o, run (timer_create task_a 0 (Some e)) w
      = [Done (0, Some (create_timer w)) (put (create_timer w) (mk_timer o e 0) w)]
    /\ tmr_active o = false.
Proof.
  intros w e. assert (create_timer w = 4) as E by (vm_compute; done). split; [done|].
  pose proof (timer_create_spec sim_tmr_laws w task_a 0 (Some e) sim_alloc_laws) as H.
  rewrite E in H |- *. by apply H.
Defined.

Lemma timer_do_spec_witness :
  exists w', run (timer_do task_a 64) (timer_world 10) = [Done 0 w']
    /\ effects w' = [ENotify 7 8]
    /\ exists t', at_ 64 w' = Some t' /\ period t' = 10 /\ event t' = event (sim_timer 10)
         /\ tmr_active (ost t') = true /\ tmr_expire (ost t') = 1510.
Proof.
  apply (timer_do_spec sim_tmr_laws (timer_world 10) task_a 64 (sim_timer 10)); done.
Defined.

Lemma good_sim_value : good_time (it_value sim_value) /\ good_time (it_interval sim_value).
Proof. vm_compute. intuition congruence. Qed.

Lemma timer_settime_gettime_witness :
  exists w' t' v, run (timer_settime task_a 64 0 sim_value false) (timer_world 0) = [Done (0, None) w']
    /\ at_ 64 w' = Some t' /\ tmr_active (ost t') = true /\ tmr_expire (ost t') = 1503
    /\ run (timer_gettime 64) w' = [Done (0, v) w']
    /\ valid_timespec (it_value v) /\ nanos (it_value v) = 3000000
    /\ valid_timespec (it_interval v) /\ nanos (it_interval v) = 1000000000.
Proof.
  apply (timer_settime_gettime (P:=sim_platform) sim_tmr_laws (timer_world 0) task_a 64 (sim_timer 0) 0 sim_value);
    first [ apply sim_exact_rate | apply good_sim_value | done ].
Defined.

(** 2^32 + 5 ms. *)
Definition long_value : itimerspec := mk_itimerspec zero_timespec (mk_timespec 4294967 301000000).

Lemma timer_settime_long_delay_witness :
  exists w' t', run (timer_settime task_a 64 0 long_value false) (timer_world 0) = [Done (0, None) w']
    /\ at_ 64 w' = Some t' /\ tmr_active (ost t') = true /\ tmr_expire (ost t') = 1505.
Proof.
  apply (timer_settime_long_delay (P:=sim_platform) sim_tmr_laws (timer_world 0) task_a 64 (sim_timer 0) 0 long_value);
    first [ apply sim_exact_rate | done | vm_compute; intuition congruence ].
Defined.

Lemma timer_settime_absolute_witness :
  run (timer_settime task_a 64 TIMER_ABSTIME sim_value false) (timer_world 0)
  = [Done (0, None) (fired (timer_world 0) 64 (sim_timer 0) sim_value)].
Proof.
  apply (timer_settime_absolute (P:=sim_platform) sim_tmr_laws (timer_world 0) task_a 64 (sim_timer 0) TIMER_ABSTIME sim_value);
    first [ apply sim_exact_rate | apply sim_clock_ok | apply good_sim_value | done ].
Defined.

Lemma timer_settime_disarm_witness :
  let w' := put 64 (set_ost (false, 2000) (sim_timer 9)) (timer_world 9) in
  run (timer_settime task_a 64 0 (mk_itimerspec zero_timespec zero_timespec) false) (timer_world 9)
  = [Done (0, None) w']
  /\ run (timer_gettime 64) w' = [Done (0, mk_itimerspec (ticks2timespec 9) zero_timespec) w'].
Proof.
  apply (timer_settime_disarm sim_tmr_laws (timer_world 9) task_a 64 (sim_timer 9) 0
    (mk_itimerspec zero_timespec zero_timespec)); done.
Defined.

Definition running_timer : @timer_internal_t sim_kernel :=
  @mk_timer sim_kernel (true, 2000) (mk_sigevent SIGEV_THREAD 8 7 None) 9.
Definition paused_timer : @timer_internal_t sim_kernel :=
  @mk_timer sim_kernel (false, 2000) (mk_sigevent SIGEV_THREAD 8 7 None) 9.

(** Stopped with 500 ticks left and a period of 9, and resumed in a world
    where it is running again. *)
Lemma timer_pause_resume_witness :
  exists old, run (timer_settime task_a 64 0 (mk_itimerspec zero_timespec zero_timespec) true)
      (put 64 running_timer (timer_world 9))
      = [Done (0, Some old) (put 64 paused_timer (timer_world 9))]
    /\ exists t2, run (timer_settime task_a 64 0 old false) (timer_world 3) = [Done (0, None) (put 64 t2 (timer_world 3))]
         /\ tmr_active (ost t2) = true /\ tmr_expire (ost t2) = 2000 /\ period t2 = 9.
Proof.
  destruct (timer_pause_resume (P:=sim_platform) sim_tmr_laws (put 64 running_timer (timer_world 9))
    task_a 64 running_timer 500 9 0) as (old & Hrun & Hres);
    [apply sim_exact_rate|reflexivity|by split|by split|done|done|reflexivity|reflexivity|reflexivity|].
  exists old. split; [exact Hrun|].
  destruct (Hres (timer_world 3) (sim_timer 3) eq_refl ltac:(done)) as (t2 & H1 & H2 & H3 & H4 & _).
  exists t2. split; [exact H1|]. split; [exact H2|]. split; [exact H3|exact H4].
Defined.

Lemma timer_settime_invalid_witness :
  run (timer_settime task_a 64 0 (mk_itimerspec zero_timespec (mk_timespec 0 (-1))) false) (timer_world 9)
  = [Done (-1, None) (with_errno 11 EINVAL (timer_world 9))].
Proof.
  apply (timer_settime_invalid (timer_world 9) task_a 64 0 (mk_itimerspec zero_timespec (mk_timespec 0 (-1)))).
  - done.
  - left. vm_compute. intuition congruence.
Defined.

Lemma timer_delete_spec_witness :
  run (timer_delete 64) (timer_world 9) = [Done 0 (with_mem (delete 64) (timer_world 9))].
Proof. apply (timer_delete_spec (timer_world 9) 64 (sim_timer 9)); done. Defined.
End timer_witnesses.
