(* ===== verification/TimerRun.v ===== *)
(** A timer over time.  Time passes one tick after the other; at the tick for
    which the kernel's one-shot timer is armed, the kernel stops it and calls
    [timer_do].  After [timer_settime], the application is notified after the
    delay and then after each period, for ever, and [timer_gettime] tells at
    any time how long it is to the next notification. *)
From S2P Require Import Prelude Prog Kernel World SimKernel Timespec Clock Attr Thread Timer.

(** ** The specification *)

(** The number of expirations in the first [n] ticks, with a delay of [d] and
    a period of [per] ticks (none if it is 0). *)
Definition expirations (d per n : Z) : Z :=
  if n <? d then 0 else if per =? 0 then 1 else 1 + (n - d) / per.

(** Whether another one is to come, *)
Definition alive (d per n : Z) : bool := (n <? d) || (0 <? per).

(** and when. *)
Definition next_expiration (d per n : Z) : Z := d + per * expirations d per n.

Lemma next_bounds d per n :
  0 < d -> 0 <= per -> 0 <= n -> alive d per n = true ->
  n < next_expiration d per n <= n + Z.max d per.
Proof.
  intros Hd Hp Hn Ha. unfold next_expiration, expirations, alive in *.
  destruct (n <? d) eqn:E; [bool_lia|]. assert (0 < per) as Hpos by bool_lia. test_false (per =? 0).
  pose proof (Z.div_mod (n - d) per ltac:(lia)). pose proof (Z.mod_pos_bound (n - d) per Hpos). bool_lia.
Qed.

(** One tick later. *)
Lemma expirations_step d per n :
  0 < d -> 0 <= per -> 0 <= n ->
  expirations d per (n + 1)
  = expirations d per n + (if alive d per n && (n + 1 =? next_expiration d per n) then 1 else 0).
Proof.
  intros Hd Hp Hn. pose proof (next_bounds d per n Hd Hp Hn) as Hb.
  unfold next_expiration, expirations, alive in *.
  destruct (n <? d) eqn:E; cbn [orb andb] in *.
  - rewrite Z.mul_0_r, Z.add_0_r in *. destruct (n + 1 =? d) eqn:E1; bool_lia.
    + test_false (n + 1 <? d). replace (n + 1 - d) with 0 by lia. rewrite Zdiv_0_l. by destruct (per =? 0).
    + by test_true (n + 1 <? d).
  - bool_lia. test_false (n + 1 <? d). destruct (per =? 0) eqn:E0; bool_lia.
    + subst. by test_false (0 <? 0).
    + test_true (0 <? per). cbn [andb]. specialize (Hb ltac:(lia)).
      pose proof (Z.div_mod (n - d) per ltac:(lia)). pose proof (Z.mod_pos_bound (n - d) per ltac:(lia)).
      destruct (n + 1 =? d + per * (1 + (n - d) / per)) eqn:E1; bool_lia.
      * replace (n + 1 - d) with ((1 + (n - d) / per) * per) by lia. rewrite Z.div_mul by lia. lia.
      * rewrite (Z.div_unique (n + 1 - d) per ((n - d) / per) ((n - d) mod per + 1)); [lia|left; nia|lia].
Qed.

Lemma expirations_nonneg d per n : 0 <= per -> 0 <= expirations d per n.
Proof.
  intros Hp. unfold expirations. destruct (n <? d) eqn:E; [done|]. destruct (per =? 0) eqn:E0; [done|].
  bool_lia. pose proof (Z.div_pos (n - d) per). lia.
Qed.

(** ** Time *)

Section run_time.
Context `{P : Platform} `{!PlatformOk P} `{K : Kernel} (TL : TmrLaws K).
Context (c : caller) (p : Z).
Implicit Types (w : world) (t : timer_internal_t).

Definition next_tick w : Z := wrapu 32 (tmr_ticks w + 1).

(** The counter advances; the kernel calls the timer at its tick, with its
    kernel object [o] stopped. *)
Inductive tick : world -> world -> Prop :=
| TickIdle w t :
    at_ p w = Some t -> (tmr_active (ost t) = true -> tmr_expire (ost t) <> next_tick w) ->
    tick w (with_ticks (next_tick w) w)
| TickExpire w t o r w' :
    at_ p w = Some t -> tmr_active (ost t) = true -> tmr_expire (ost t) = next_tick w ->
    tmr_active o = false ->
    Done r w' ∈ run (timer_do c p) (put p (set_ost o t) (with_ticks (next_tick w) w)) ->
    tick w w'.

(** [elapsed n w w']: after [n] ticks. *)
Fixpoint elapsed (n : nat) (w w' : world) : Prop :=
  match n with
  | O => w' = w
  | S n => exists v, elapsed n w v /\ tick v w'
  end.

(** What [k] expirations tell the application. *)
Definition notifications (e : sigevent) (k : Z) : list effect :=
  if sigev_notify e =? SIGEV_THREAD
  then replicate (Z.to_nat k) (ENotify (sigev_notify_function e) (sigev_value e)) else [].

Section armed.
Context (d per : Z) (e : sigevent) (now0 : Z) (effects0 : list effect).
Hypothesis delay_range : 0 < d <= UINT_MAX.
Hypothesis period_range : 0 <= per <= UINT_MAX.
Hypothesis direct : direct_event e.
Hypothesis timer_there : p <> 0.

(** The world [n] ticks after the timer was armed for [d] and then [per]. *)
Record timer_after (n : Z) w t : Prop := {
  ta_at : at_ p w = Some t;
  ta_event : event t = e;
  ta_period : period t = per;
  ta_ticks : tmr_ticks w = wrapu 32 (now0 + n);
  ta_effects : effects w = effects0 ++ notifications e (expirations d per n);
  ta_active : tmr_active (ost t) = alive d per n;
  ta_expire : alive d per n = true -> tmr_expire (ost t) = wrapu 32 (now0 + next_expiration d per n)
}.

Lemma wrapu_succ a : wrapu 32 (wrapu 32 a + 1) = wrapu 32 (a + 1).
Proof. unfold wrapu. apply Zplus_mod_idemp_l. Qed.

(** The counter meets the time of expiration at that tick only. *)
Lemma wrapu_meets a x y : 0 <= y - x <= UINT_MAX -> wrapu 32 (a + x) = wrapu 32 (a + y) -> x = y.
Proof.
  intros Hr H. assert (wrapu 32 (y - x) = 0) as H0.
  { unfold wrapu in *. replace (y - x) with ((a + y) - (a + x)) by lia. by rewrite Zminus_mod, H, Z.sub_diag. }
  rewrite wrapu_small in H0 by (unfold UINT_MAX in Hr; lia). lia.
Qed.

Lemma notifications_succ k :
  0 <= k ->
  notifications e (k + 1)
  = notifications e k ++ (if sigev_notify e =? SIGEV_THREAD
                          then [ENotify (sigev_notify_function e) (sigev_value e)] else []).
Proof.
  intros Hk. unfold notifications. destruct (_ =? _); [|done].
  rewrite Z2Nat.inj_add by lia. by rewrite replicate_add.
Qed.

Lemma tick_idle n w t :
  0 <= n -> timer_after n w t -> (alive d per n && (n + 1 =? next_expiration d per n)) = false ->
  timer_after (n + 1) (with_ticks (next_tick w) w) t.
Proof.
  intros Hn A Hno. pose proof (expirations_step d per n ltac:(lia) ltac:(lia) Hn) as Hs.
  rewrite Hno, Z.add_0_r in Hs.
  assert (alive d per (n + 1) = alive d per n) as Hal.
  { unfold alive, next_expiration, expirations in *. destruct (0 <? per); [by rewrite !orb_true_r|].
    rewrite !orb_false_r in *. destruct (n <? d) eqn:E; cbn [andb] in Hno.
    - rewrite Z.mul_0_r, Z.add_0_r in Hno. apply Z.ltb_lt in E. apply Z.eqb_neq in Hno. by test_true (n + 1 <? d).
    - apply Z.ltb_ge in E. by test_false (n + 1 <? d). }
  split; try apply A.
  - cbn [tmr_ticks with_ticks]. unfold next_tick. rewrite (ta_ticks _ _ _ A), wrapu_succ. f_equal. lia.
  - cbn [effects with_ticks]. by rewrite Hs, (ta_effects _ _ _ A).
  - by rewrite Hal, (ta_active _ _ _ A).
  - rewrite Hal. intros Ha. unfold next_expiration. rewrite Hs. by apply (ta_expire _ _ _ A).
Qed.

Lemma rearmed_after u t :
  event (rearmed u t) = event t /\ period (rearmed u t) = period t
  /\ if 0 <? period t then tmr_active (ost (rearmed u t)) = true
       /\ tmr_expire (ost (rearmed u t)) = wrapu 32 (tmr_ticks u + period t)
     else rearmed u t = t.
Proof.
  unfold rearmed. destruct (0 <? period t); [|done]. cbn [event period ost set_ost].
  split; [done|]. split; [done|]. split; [apply tmr_on_active|apply tmr_on_expire].
Qed.

Lemma notified_after t u :
  effects (notified t u) = effects u
    ++ (if sigev_notify (event t) =? SIGEV_THREAD
        then [ENotify (sigev_notify_function (event t)) (sigev_value (event t))] else [])
  /\ tmr_ticks (notified t u) = tmr_ticks u /\ at_ (S:=timer_internal_t) p (notified t u) = at_ p u.
Proof. unfold notified. case_if; [done|by rewrite app_nil_r]. Qed.

Lemma alive_due n : 0 <= n -> alive d per n = true -> n + 1 = next_expiration d per n -> alive d per (n + 1) = (0 <? per).
Proof.
  intros Hn Ha He. unfold alive. assert (d <= n + 1); [|by test_false (n + 1 <? d)].
  unfold next_expiration, expirations in He. destruct (n <? d) eqn:E; bool_lia.
Qed.

Lemma tick_expire n w t o :
  0 <= n -> timer_after n w t -> alive d per n = true -> n + 1 = next_expiration d per n ->
  tmr_active o = false ->
  exists w', run (timer_do c p) (put p (set_ost o t) (with_ticks (next_tick w) w)) = [Done 0 w']
    /\ exists t', timer_after (n + 1) w' t'.
Proof.
  intros Hn A Ha He Ho. pose proof (expirations_step d per n ltac:(lia) ltac:(lia) Hn) as Hs.
  rewrite Ha, (proj2 (Z.eqb_eq _ _) He) in Hs. cbn [andb] in Hs.
  pose proof (alive_due n Hn Ha He) as Hal.
  set (v := put p (set_ost o t) (with_ticks (next_tick w) w)). set (x := set_ost o t).
  assert (tmr_ticks v = wrapu 32 (now0 + (n + 1))) as Hv.
  { cbn. unfold next_tick. rewrite (ta_ticks _ _ _ A), wrapu_succ. f_equal. lia. }
  assert (event x = e /\ period x = per) as [Hev Hpx] by (split; apply A).
  destruct (rearmed_after v x) as (R1 & R2 & R3). rewrite Hev in R1. rewrite Hpx in R2, R3.
  destruct (notified_after x (put p (rearmed v x) v)) as (N1 & N2 & N3). rewrite Hev in N1.
  exists (notified x (put p (rearmed v x) v)). split.
  { apply run_timer_do; [done|apply at_put|by rewrite Hev]. }
  exists (rearmed v x). split; [by rewrite N3, at_put|done|done|by rewrite N2| |rewrite Hal|rewrite Hal; intros Hp].
  - rewrite N1, Hs, notifications_succ by (apply expirations_nonneg; lia). rewrite app_assoc. f_equal. apply A.
  - destruct (0 <? per); [apply R3|by rewrite R3].
  - rewrite Hp in R3. destruct R3 as [_ ->]. rewrite Hv. unfold next_expiration in *. rewrite Hs.
    unfold wrapu. rewrite Zplus_mod_idemp_l. f_equal. lia.
Qed.

Lemma meets_next n w t :
  0 <= n -> timer_after n w t -> alive d per n = true ->
  (tmr_expire (ost t) = next_tick w <-> n + 1 = next_expiration d per n).
Proof.
  intros Hn A Ha. rewrite (ta_expire _ _ _ A Ha). unfold next_tick. rewrite (ta_ticks _ _ _ A), wrapu_succ.
  pose proof (next_bounds d per n ltac:(lia) ltac:(lia) Hn Ha). rewrite <- Z.add_assoc. split.
  - intros H'. apply (wrapu_meets now0); [|done]. lia.
  - by intros ->.
Qed.

(** One tick, *)
Lemma tick_after n w w' t :
  0 <= n -> timer_after n w t -> tick w w' -> exists t', timer_after (n + 1) w' t'.
Proof.
  intros Hn A H. destruct H as [w t1 Ht Hno|w t1 o r w' Ht Ha He Ho Hrun];
    (rewrite (ta_at _ _ _ A) in Ht; injection Ht as <-).
  - exists t. apply tick_idle; [done|done|]. rewrite (ta_active _ _ _ A) in Hno.
    destruct (alive d per n) eqn:Ea; [|done]. cbn [andb]. apply Z.eqb_neq. intros E.
    apply (Hno eq_refl). by apply (meets_next n).
  - rewrite (ta_active _ _ _ A) in Ha.
    destruct (tick_expire n w t o) as (w2 & Hr & Hw2); [done|done|done|by apply (meets_next n w t)|done|].
    rewrite Hr in Hrun. apply list_elem_of_singleton in Hrun. by injection Hrun as -> ->.
Qed.

(** which always comes: the callback neither blocks nor faults. *)
Lemma tick_comes n w t : 0 <= n -> timer_after n w t -> exists w', tick w w'.
Proof.
  intros Hn A. pose proof (ta_at _ _ _ A) as Ht.
  destruct (alive d per n && (n + 1 =? next_expiration d per n)) eqn:E.
  - apply andb_prop in E as [Ha E]. apply Z.eqb_eq in E.
    destruct (tick_expire n w t (tmr_of (ost t))) as (w' & Hr & _); [done|done|done|done|apply tmr_of_off|].
    exists w'. apply (TickExpire w t (tmr_of (ost t)) 0); [done| | |apply tmr_of_off|rewrite Hr; by left].
    + by rewrite (ta_active _ _ _ A).
    + by apply (meets_next n).
  - eexists. apply (TickIdle w t); [done|]. rewrite (ta_active _ _ _ A). intros Ha He. rewrite Ha in E.
    cbn [andb] in E. apply Z.eqb_neq in E. by apply E, (meets_next n w t).
Qed.

(** The timer is armed. *)
Lemma timer_starts w t :
  at_ p w = Some t -> event t = e -> period t = per -> tmr_ticks w = wrapu 32 now0 -> effects w = effects0 ->
  let t' := set_ost (tmr_on d (tmr_ticks w) (ost t)) t in timer_after 0 (put p t' w) t'.
Proof.
  intros Ht He Hp Hn Hf t'.
  assert (alive d per 0 = true) as Ha by (unfold alive; by test_true (0 <? d)).
  assert (expirations d per 0 = 0) as Hx by (unfold expirations; by test_true (0 <? d)).
  split; [apply at_put|done|done| | |by rewrite Ha; apply tmr_on_active|intros _].
  - by rewrite Z.add_0_r.
  - rewrite Hx. unfold notifications. simpl. rewrite Hf. case_if; by rewrite app_nil_r.
  - unfold next_expiration. rewrite Hx, Z.mul_0_r, Z.add_0_r. unfold t'. cbn [ost set_ost].
    rewrite tmr_on_expire, Hn. unfold wrapu. by rewrite Zplus_mod_idemp_l.
Qed.

Lemma elapsed_after n w0 t0 w : timer_after 0 w0 t0 -> elapsed n w0 w -> exists t, timer_after (Z.of_nat n) w t.
Proof.
  intros A. revert w. induction n as [|n IH]; intros w; simpl elapsed.
  - intros ->. by exists t0.
  - intros (v & Hv & Ht). destruct (IH v Hv) as [t A']. rewrite Nat2Z.inj_succ.
    apply (tick_after (Z.of_nat n) v w t); [lia|done..].
Qed.

Lemma elapsed_exists n w0 t0 : timer_after 0 w0 t0 -> exists w, elapsed n w0 w.
Proof.
  intros A. induction n as [|n [v Hv]]; [by exists w0|]. destruct (elapsed_after n w0 t0 v A Hv) as [t A'].
  destruct (tick_comes (Z.of_nat n) v t ltac:(lia) A') as [w Hw]. exists w, v. done.
Qed.

(** What [timer_gettime] answers. *)
Lemma gettime_after n w t :
  exact_rate -> 0 <= n -> timer_after n w t -> Z.quot d tmr_hz < 2 ^ 31 -> Z.quot per tmr_hz < 2 ^ 31 ->
  exists v, run (timer_gettime p) w = [Done (0, v) w]
    /\ nanos (it_value v) = (if alive d per n then next_expiration d per n - n else 0) * NANOSECONDS_PER_TICK
    /\ nanos (it_interval v) = per * NANOSECONDS_PER_TICK.
Proof.
  intros Hr Hn A Hd Hp. pose proof (ta_at _ _ _ A) as Ht. pose proof tmr_hz_range.
  destruct (alive d per n) eqn:Ea.
  - pose proof (next_bounds d per n ltac:(lia) ltac:(lia) Hn Ea) as Hb. pose proof (ta_expire _ _ _ A Ea) as He.
    assert (Z.quot (next_expiration d per n - n) tmr_hz < 2 ^ 31) as Hq.
    { destruct (Z.le_ge_cases d per).
      - apply (Z.le_lt_trans _ (Z.quot per tmr_hz)); [apply Z.quot_le_mono; lia|done].
      - apply (Z.le_lt_trans _ (Z.quot d tmr_hz)); [apply Z.quot_le_mono; lia|done]. }
    destruct (run_gettime_armed w p t (next_expiration d per n - n) per) as (v & Hv & _ & H1 & _ & H2);
      [done|done|lia|lia|done|done|by rewrite (ta_active _ _ _ A)| |apply A|by exists v].
    rewrite He, (ta_ticks _ _ _ A). unfold wrapu. rewrite Zplus_mod_idemp_l. f_equal. lia.
  - destruct (ticks2timespec_nanos per Hr ltac:(lia) Hp) as [_ Hper].
    exists (mk_itimerspec (ticks2timespec per) (mk_timespec 0 0)). split; [|done].
    unfold timer_gettime, tm_ost, tm_period. do 4 step. by rewrite (ta_active _ _ _ A), Ea, (ta_period _ _ _ A).
Qed.
End armed.

(** C19: A timer over time, where the ticks of the kernel divide the second
    exactly, the event notifies directly (not in a thread of its own), and delay
    and period are valid and fit 31 bits of seconds and 32 of ticks: after
    [timer_settime] with a relative delay, at every later tick, for ever, the
    application has been notified exactly once for each expiration that was due
    (the first after the delay, the others at intervals of the period, both
    rounded up to ticks), and [timer_gettime] tells the exact time to the next
    one, also when the tick counter wraps. Time does not stop: the callback
    always completes. *)
Theorem timer_runs w t flags value :
  exact_rate -> p <> 0 -> at_ p w = Some t -> direct_event (event t) -> 0 <= tmr_ticks w <= UINT_MAX ->
  Z.land flags TIMER_ABSTIME <> TIMER_ABSTIME ->
  good_time (it_value value) -> good_time (it_interval value) -> 0 < nanos (it_value value) ->
  ticks_of (it_value value) <= UINT_MAX -> ticks_of (it_interval value) <= UINT_MAX ->
  tv_sec (it_value value) < 2 ^ 31 - 1 -> tv_sec (it_interval value) < 2 ^ 31 - 1 ->
  let d := ticks_of (it_value value) in
  let per := ticks_of (it_interval value) in
  exists w1, run (timer_settime c p flags value false) w = [Done (0, None) w1]
    /\ forall n, (exists w2, elapsed n w1 w2) /\ forall w2, elapsed n w1 w2 ->
         effects w2 = effects w ++ notifications (event t) (expirations d per (Z.of_nat n))
         /\ exists v, run (timer_gettime p) w2 = [Done (0, v) w2]
              /\ nanos (it_value v)
                 = (if alive d per (Z.of_nat n) then next_expiration d per (Z.of_nat n) - Z.of_nat n else 0)
                   * NANOSECONDS_PER_TICK
              /\ nanos (it_interval v) = per * NANOSECONDS_PER_TICK.
Proof.
  intros Hr H0 Hp Hdir Hnow Hf Hv Hi Hpos Hn Hm Hbn Hbm d per.
  pose proof (ticks_of_pos _ Hv Hpos) as Hd. pose proof (ticks_of_nonneg _ Hi) as Hper. fold d in Hn, Hd. fold per in Hm, Hper.
  assert (wrapu 32 d = d) as Wd by (apply wrapu_small; unfold UINT_MAX in Hn; lia).
  assert (wrapu 32 per = per) as Wp by (apply wrapu_small; unfold UINT_MAX in Hm; lia).
  exists (put p (armed_timer w t value) w). split; [apply run_settime_relative; try done; fold d; lia|].
  assert (timer_after d per (event t) (tmr_ticks w) (effects w) 0 (put p (armed_timer w t value) w)
    (armed_timer w t value)) as A.
  { pose proof (timer_starts d per (event t) (tmr_ticks w) (effects w) ltac:(lia) (put p (stopped_timer t value) w)
      (stopped_timer t value)) as A. cbn zeta in A. rewrite put_put in A. unfold armed_timer. fold d. rewrite Wd.
    apply A; [apply at_put|done|done| |done]. cbn. by rewrite wrapu_small by (unfold UINT_MAX in Hnow; lia). }
  intros n. split; [by eapply elapsed_exists; [..|exact A]|]. intros w2 Hw2.
  destruct (elapsed_after d per (event t) (tmr_ticks w) (effects w) ltac:(lia) ltac:(lia) Hdir H0 n _ _ w2 A Hw2) as [t2 A2].
  split; [apply A2|]. eapply gettime_after; [done..|lia|exact A2| |]; by apply ticks_of_small.
Qed.
End run_time.

(** ** Witness *)

Section timer_run_witness.
Import Sim.

(** A delay of 3 ticks and a period of 2, on a timer that calls the
    application: in 6 ticks there are two notifications, and the next one
    comes in one tick. *)
Definition notify_event : sigevent := mk_sigevent SIGEV_THREAD 5 77 None.

Definition run_value : itimerspec :=
  mk_itimerspec (mk_timespec 0 (2 * NANOSECONDS_PER_TICK)) (mk_timespec 0 (3 * NANOSECONDS_PER_TICK)).

Definition run_world : @world sim_kernel :=
  sim_world {[ 64 := OTimer (mk_timer tmr_zero notify_event 0) ]}.

Lemma timer_runs_witness :
  exists w1 w2 v, run (timer_settime task_a 64 0 run_value false) run_world = [Done (0, None) w1]
    /\ elapsed task_a 64 6 w1 w2 /\ effects w2 = [ENotify 77 5; ENotify 77 5]
    /\ run (timer_gettime 64) w2 = [Done (0, v) w2] /\ nanos (it_value v) = NANOSECONDS_PER_TICK.
Proof.
  destruct (timer_runs sim_tmr_laws task_a 64 run_world (mk_timer tmr_zero notify_event 0) 0 run_value)
    as (w1 & Hrun & Hn).
  - apply sim_exact_rate.
  - lia.
  - reflexivity.
  - split; [done|reflexivity].
  - unfold UINT_MAX. simpl. lia.
  - done.
  - split; [vm_compute; split; congruence|vm_compute; split; congruence].
  - split; [vm_compute; split; congruence|vm_compute; split; congruence].
  - reflexivity.
  - vm_compute. congruence.
  - vm_compute. congruence.
  - reflexivity.
  - reflexivity.
  - destruct (Hn 6%nat) as [[w2 Hw2] Hall]. destruct (Hall w2 Hw2) as (He & v & Hv & Hnv & _).
    exists w1, w2, v. split; [exact Hrun|]. split; [exact Hw2|]. split; [exact He|]. split; [exact Hv|exact Hnv].
Defined.
End timer_run_witness.
