(* ===== verification/TimerPreempt.v ===== *)
(** A running timer under [timer_settime] and [timer_gettime]: time passes
    between any two actions of the call, and where the kernel's timer is due,
    the callback [timer_do] runs in between.  [timer_settime] is atomic: the
    old setting lasts to one instant and the new one begins at one later
    instant, also when the new time is absolute and has come already, so that
    the call itself runs [timer_do].  [timer_gettime] is not: it reads the
    time of expiration, the tick counter and the state of the timer one after
    the other, and may combine values from before and after an
    expiration. *)
From S2P Require Import Prelude Prog Protocol Kernel World SimKernel Timespec Clock Attr Thread Timer TimerRun.

Section preempt.
Context `{P : Platform} `{!PlatformOk P} `{K : Kernel} (TL : TmrLaws K).
Context (c cb : caller) (p : Z).
Implicit Types (w v : world) (t : timer_internal_t).

(** A call of a task while time passes; [cb] is the context of the
    callback. *)
Inductive preempted {R} : prog world R * world -> prog world R * world -> Prop :=
| PreAction q w q' w' : Done q' w' ∈ pstep q w -> preempted (q, w) (q', w')
| PreTick q w w' : tick cb p w w' -> preempted (q, w) (q, w').

(** A run of the call without interruption. *)
Lemma run_preempted {R} (q : prog world R) w r w' : Done r w' ∈ run q w -> reach preempted (q, w) (Ret r, w').
Proof.
  intros H%run_solo. unfold solo in H. induction H as [|[q1 w1] [q2 w2] _ IH Hs]; [constructor|].
  eapply ReachStep; [exact IH|by apply PreAction].
Qed.

(** ** Setting a running timer *)

Section setting.
Context (w0 : world) (t0 : timer_internal_t) (flags : Z) (value : itimerspec) (ovalue : bool).
Hypothesis rate : exact_rate.
Hypothesis timer_there : p <> 0.
Hypothesis timer_at : at_ p w0 = Some t0.
Hypothesis direct : direct_event (event t0).
Hypothesis ticks_range : 0 <= tmr_ticks w0 <= UINT_MAX.
Hypothesis good_value : good_time (it_value value).
Hypothesis good_interval : good_time (it_interval value).
Hypothesis value_fits : ticks_of (it_value value) <= UINT_MAX.
Hypothesis interval_fits : ticks_of (it_interval value) <= UINT_MAX.

(** The clock is read for an absolute time only. *)
Hypothesis clock_fits : Z.land flags TIMER_ABSTIME = TIMER_ABSTIME ->
  UINT_MAX * NANOSECONDS_PER_TICK < 2 ^ 31 * NANOSECONDS_PER_SECOND.

Definition delay : Z := ticks_of (it_value value).
Definition interval : Z := ticks_of (it_interval value).

(** The number of ticks to wait, seen from the tick [now]. *)
Definition aim (now : Z) : Z :=
  if Z.land flags TIMER_ABSTIME =? TIMER_ABSTIME then delay - now else delay.

(** The delay [d] has been computed, at some instant of the [idle] ticks that
    follow [w1]. *)
Definition aimed w1 (idle d : Z) : Prop :=
  exists since, 0 <= since <= idle /\ d = aim (wrapu 32 (tmr_ticks w1 + (idle - since))).

(** The new setting, in force since the end of these ticks.  When the time had
    come already the timer expires at once, like one that was set [soon]
    ticks before. *)
Definition soon : Z := Z.max 1 interval.

Definition set_after w1 v : Prop :=
  exists idle d n t, 0 <= idle /\ 0 <= n /\ aimed w1 idle d
  /\ (0 < d /\ timer_after p d interval (event t0) (tmr_ticks w1 + idle) (effects w1) n v t
      \/ d <= 0 /\ timer_after p soon interval (event t0) (tmr_ticks w1 + idle - soon) (effects w1) (soon + n) v t).

(** Stopped at [w1], [idle] ticks ago. *)
Record halted w1 (idle : Z) v t : Prop := {
  ht_at : at_ p v = Some t;
  ht_event : event t = event t0;
  ht_off : tmr_active (ost t) = false;
  ht_effects : effects v = effects w1;
  ht_ticks : tmr_ticks v = wrapu 32 (tmr_ticks w1 + idle)
}.

(** With a zero time the timer is disarmed. *)
Definition reset_after w1 v : Prop :=
  if 0 <? nanos (it_value value) then set_after w1 v
  else exists idle t, 0 <= idle /\ halted w1 idle v t.

Lemma delay_range : 0 <= delay <= UINT_MAX.
Proof. split; [by apply ticks_of_nonneg|done]. Qed.

Lemma interval_range : 0 <= interval <= UINT_MAX.
Proof. split; [by apply ticks_of_nonneg|done]. Qed.

Lemma soon_range : 0 < soon <= UINT_MAX.
Proof. pose proof interval_range. unfold soon, UINT_MAX in *. lia. Qed.

Lemma small_ticks n : 0 <= n <= UINT_MAX -> wrapu 32 n = n.
Proof. intros H. apply wrapu_small. unfold UINT_MAX in H. lia. Qed.

Lemma ticks_in_range n : 0 <= wrapu 32 n <= UINT_MAX.
Proof. pose proof (wrapu_range 32 n). unfold UINT_MAX. lia. Qed.

Lemma aimed_fits w1 idle d : aimed w1 idle d -> d <= UINT_MAX.
Proof.
  intros (since & _ & ->). pose proof delay_range. unfold aim.
  pose proof (ticks_in_range (tmr_ticks w1 + (idle - since))). case_if; lia.
Qed.

Lemma aimed_tick w1 idle d : aimed w1 idle d -> aimed w1 (idle + 1) d.
Proof.
  intros (since & Hs & ->). exists (since + 1). split; [lia|].
  by replace (idle + 1 - (since + 1)) with (idle - since) by lia.
Qed.

(** *** The phases of the call *)

Inductive phase :=
| Running         (** the old setting *)
| Halted          (** stopped *)
| Prepared        (** stopped, with the new period *)
| Aimed (d : Z)   (** to be started for [d] ticks *)
| Late            (** to expire at once *)
| Refiring        (** started again, to notify *)
| Restarted.      (** the new setting *)

Definition overdue w1 idle : Prop := exists d, d <= 0 /\ aimed w1 idle d.

(** What a phase knows of a timer that is stopped, *)
Definition phase_stopped (ph : phase) w1 idle t : Prop :=
  match ph with
  | Halted => True
  | Prepared => period t = interval
  | Aimed d => period t = interval /\ 0 < d /\ aimed w1 idle d
  | Late => period t = interval /\ overdue w1 idle
  | Refiring => period t = interval /\ overdue w1 idle /\ interval = 0
  | _ => False
  end.

(** and of one that runs. *)
Definition phase_running (ph : phase) w1 v : Prop :=
  match ph with
  | Running => v = w1
  | Refiring => exists idle n t, 0 <= idle /\ 0 <= n /\ overdue w1 idle /\ 0 < interval
      /\ timer_after p interval interval (event t0) (tmr_ticks w1 + idle) (effects w1) n v t
  | Restarted => set_after w1 v
  | _ => False
  end.

Definition phase_knows (ph : phase) v : Prop :=
  exists k w1, elapsed cb p k w0 w1
  /\ (phase_running ph w1 v \/ exists idle t, 0 <= idle /\ halted w1 idle v t /\ phase_stopped ph w1 idle t).

Definition phase_ends (ph : phase) (r : Z * option itimerspec) : Prop :=
  ph = (if 0 <? nanos (it_value value) then Restarted else Halted) /\ r.1 = 0.

Abbreviation runs := (follows (fun _ => phase_knows) (fun _ _ _ => phase_knows) (fun _ _ _ => False)
  (fun _ _ => False) (fun _ => phase_ends) 0).

(** *** Time *)

(** The old setting leaves the timer and its event where they are. *)
Lemma elapsed_there k w1 :
  elapsed cb p k w0 w1 -> exists t, at_ p w1 = Some t /\ event t = event t0 /\ 0 <= tmr_ticks w1 <= UINT_MAX.
Proof.
  revert w1. induction k as [|k IH]; intros w1; simpl; [intros ->; by exists t0|].
  intros (v & (t & Ht & He & _)%IH & Hs).
  assert (0 <= next_tick v <= UINT_MAX) as Hr by apply ticks_in_range.
  destruct Hs as [v t1 Ht1 _|v t1 o r w1 Ht1 _ _ _ Hrun]; [by exists t|].
  rewrite Ht in Ht1. injection Ht1 as <-.
  rewrite (run_timer_do _ cb p (set_ost o t)) in Hrun; [|done|apply at_put|by cbn; rewrite He].
  apply list_elem_of_singleton in Hrun. injection Hrun as -> ->.
  destruct (notified_after p (set_ost o t) (put p (rearmed (put p (set_ost o t) (with_ticks (next_tick v) v)) (set_ost o t))
    (put p (set_ost o t) (with_ticks (next_tick v) v)))) as (_ & N2 & N3).
  eexists. split; [rewrite N3; apply at_put|]. rewrite N2. split; [|exact Hr].
  destruct (rearmed_after TL (put p (set_ost o t) (with_ticks (next_tick v) v)) (set_ost o t)) as (R & _). by rewrite R.
Qed.

Lemma halted_tick w1 idle v v' t : halted w1 idle v t -> tick cb p v v' -> halted w1 (idle + 1) v' t.
Proof.
  intros H Hs. destruct Hs as [v t1 Ht1 _|v t1 o r w2 Ht1 Ha _ _ _].
  - split; try apply H. cbn [tmr_ticks with_ticks]. unfold next_tick. rewrite (ht_ticks _ _ _ _ H), wrapu_succ.
    f_equal. lia.
  - rewrite (ht_at _ _ _ _ H) in Ht1. injection Ht1 as <-. by rewrite (ht_off _ _ _ _ H) in Ha.
Qed.

Lemma overdue_tick w1 idle : overdue w1 idle -> overdue w1 (idle + 1).
Proof. intros (d & Hd & Ha). exists d. split; [done|by apply aimed_tick]. Qed.

Lemma stopped_tick ph w1 idle t : phase_stopped ph w1 idle t -> phase_stopped ph w1 (idle + 1) t.
Proof. pose proof aimed_tick. pose proof overdue_tick. destruct ph; simpl; intuition auto. Qed.

Lemma phase_tick ph v v' : phase_knows ph v -> tick cb p v v' -> phase_knows ph v'.
Proof.
  intros (k & w1 & He & H) Hs.
  assert (ph = Running \/ ph <> Running) as [->|Hph] by (destruct ph; auto).
  { destruct H as [->|(? & ? & _ & _ & [])]. exists (S k), v'. split; [by exists w1|by left]. }
  exists k, w1. split; [done|]. destruct H as [H|(idle & t & Hi & Hh & Hp)].
  2: { right. exists (idle + 1), t. split; [lia|]. split; [by eapply halted_tick|by apply stopped_tick]. }
  left. destruct ph; try done; simpl in *.
  - destruct H as (idle & n & t & Hi & Hn & Ho & Hpos & A).
    destruct (tick_after TL cb p interval interval (event t0) (tmr_ticks w1 + idle) (effects w1)
      ltac:(pose proof interval_range; lia) interval_range direct timer_there n v v' t Hn A Hs) as [t' A'].
    exists idle, (n + 1), t'. repeat (split; [done || lia|]). done.
  - destruct H as (idle & d & n & t & Hi & Hn & Ha & H). exists idle, d, (n + 1).
    destruct H as [[Hd A]|[Hd A]].
    + destruct (tick_after TL cb p d interval (event t0) (tmr_ticks w1 + idle) (effects w1)
        (conj Hd (aimed_fits _ _ _ Ha)) interval_range direct timer_there n v v' t Hn A Hs) as [t' A'].
      exists t'. split; [done|]. split; [lia|]. split; [done|]. by left.
    + destruct (tick_after TL cb p soon interval (event t0) (tmr_ticks w1 + idle - soon) (effects w1)
        soon_range interval_range direct timer_there (soon + n) v v' t ltac:(pose proof soon_range; lia) A Hs) as [t' A'].
      exists t'. split; [done|]. split; [lia|]. split; [done|]. right. by rewrite Z.add_assoc.
Qed.

(** *** The actions *)

Lemma phase_there ph v : phase_knows ph v -> exists t, at_ p v = Some t /\ event t = event t0.
Proof.
  intros (k & w1 & He & [H|(idle & t & _ & Hh & _)]); [|exists t; split; apply Hh].
  destruct ph; try done; simpl in H.
  - subst v. destruct (elapsed_there k w1 He) as (t & Ht & Hev & _). by exists t.
  - destruct H as (idle & n & t & _ & _ & _ & _ & A). exists t. split; apply A.
  - destruct H as (idle & d & n & t & _ & _ & _ & [[_ A]|[_ A]]); exists t; split; apply A.
Qed.

(** An action with one outcome that moves the call. *)
Lemma runs_step {A} (a : action world A) k ph :
  (forall v t, phase_knows ph v -> at_ p v = Some t -> event t = event t0 ->
     exists x v' ph', a v = [Done x v'] /\ phase_knows ph' v' /\ runs (k x) ph') ->
  runs (bind (act a) k) ph.
Proof.
  intros H. assert (forall v, phase_knows ph v -> exists x v' ph', a v = [Done x v'] /\ phase_knows ph' v' /\ runs (k x) ph') as H'.
  { intros v Hv. destruct (phase_there ph v Hv) as (t & Ht & He). by apply (H v t). }
  apply follows_act; intros v.
  - intros Hv. destruct (H' v Hv) as (x & v' & ph' & -> & _). done.
  - intros e Hv. destruct (H' v Hv) as (x & v' & ph' & -> & _). by intros ?%list_elem_of_singleton.
  - intros y u Hv. destruct (H' v Hv) as (x & v' & ph' & -> & Hk). intros Hx%list_elem_of_singleton.
    injection Hx as -> ->. by exists ph'.
Qed.

(** The call reads the timer, *)
Lemma runs_timer_see {T} (g : timer_internal_t -> T) st k ph :
  (forall v t, phase_knows ph v -> at_ p v = Some t -> event t = event t0 ->
     exists ph', phase_knows ph' v /\ runs (k (g t)) ph') ->
  runs (bind (load (fld p g st)) k) ph.
Proof.
  intros Hk. apply runs_step. intros v t Hv Ht He. destruct (Hk v t Hv Ht He) as (ph' & Hv' & Hr).
  exists (g t), v, ph'. simpl. by rewrite Ht.
Qed.

Lemma runs_timer_load {T} (g : timer_internal_t -> T) st k ph :
  (forall x, runs (k x) ph) -> runs (bind (load (fld p g st)) k) ph.
Proof. intros Hk. apply runs_timer_see. intros v t Hv _ _. by exists ph. Qed.

Lemma runs_timer_get {T} (f : world -> T) k ph : (forall x, runs (k x) ph) -> runs (bind (get f) k) ph.
Proof. intros Hk. apply runs_step. intros v t Hv _ _. by exists (f v), v, ph. Qed.

(** and acts on it. *)
Lemma runs_timer_put (a : action world unit) (f : world -> timer_internal_t -> timer_internal_t) k ph ph' :
  (forall v t, at_ p v = Some t -> a v = [Done tt (put p (f v t) v)]) ->
  (forall v t, at_ p v = Some t -> event t = event t0 -> phase_knows ph v -> phase_knows ph' (put p (f v t) v)) ->
  runs (k tt) ph' -> runs (bind (act a) k) ph.
Proof.
  intros Ha Hf Hk. apply runs_step. intros v t Hv Ht He. exists tt, (put p (f v t) v), ph'. auto.
Qed.

Lemma runs_halt k : runs (k tt) Halted -> runs (bind (kmod (tm_ost p) tmr_of) k) Running.
Proof.
  apply (runs_timer_put _ (fun _ t => set_ost (tmr_of (ost t)) t)); [intros v t Ht; simpl; by rewrite Ht|].
  intros v t Ht Hev (n & w1 & He & [->|(? & ? & _ & _ & [])]). exists n, w1. split; [done|]. right.
  exists 0, (set_ost (tmr_of (ost t)) t). split; [done|]. split; [|done].
  destruct (elapsed_there n w1 He) as (_ & _ & _ & Hr).
  split; [apply at_put|done|apply tmr_of_off|done|]. cbn. by rewrite Z.add_0_r, small_ticks.
Qed.

Lemma runs_prepare k : runs (k tt) Prepared -> runs (bind (store (tm_period p) interval) k) Halted.
Proof.
  apply (runs_timer_put _ (fun _ t => set_period interval t)); [intros v t Ht; simpl; by rewrite Ht|].
  intros v t Ht Hev (n & w1 & He & [[]|(idle & t1 & Hi & H & _)]). exists n, w1. split; [done|]. right.
  exists idle, (set_period interval t).
  rewrite (ht_at _ _ _ _ H) in Ht. injection Ht as <-. split; [done|]. split; [|done].
  split; [apply at_put|apply H..].
Qed.

(** The timer is started. *)
Definition started (d : Z) v t : timer_internal_t := set_ost (tmr_on d (tmr_ticks v) (ost t)) t.

Lemma runs_start d k ph ph' :
  (forall w1 idle v t, 0 <= idle -> phase_stopped ph w1 idle t ->
     timer_after p d interval (event t0) (tmr_ticks w1 + idle) (effects w1) 0 (put p (started d v t) v) (started d v t) ->
     phase_running ph' w1 (put p (started d v t) v)) ->
  (forall w1 v, ~ phase_running ph w1 v) -> (forall w1 idle t, phase_stopped ph w1 idle t -> period t = interval /\ 0 < d <= UINT_MAX) ->
  runs (k tt) ph' -> runs (bind (timer_on p d) k) ph.
Proof.
  intros Hs Hno Hper. apply (runs_timer_put _ (started d)); [intros v t Ht; simpl; by rewrite Ht|].
  intros v t Ht Hev (n & w1 & He & [Hr|(idle & t1 & Hi & H & Hp)]); [by destruct (Hno _ _ Hr)|].
  exists n, w1. split; [done|]. left. rewrite (ht_at _ _ _ _ H) in Ht. injection Ht as ->.
  destruct (Hper _ _ _ Hp) as [Hpt Hd]. apply (Hs w1 idle v t Hi Hp).
  apply (timer_starts TL p d interval (event t0) (tmr_ticks w1 + idle) (effects w1) Hd); try apply H. done.
Qed.

Lemma runs_restart d k : runs (k tt) Restarted -> runs (bind (timer_on p d) k) (Aimed d).
Proof.
  apply (runs_start d k (Aimed d) Restarted); [|by intros w1 v []|].
  - intros w1 idle v t Hi (_ & Hd & Ha) A. exists idle, d, 0, (started d v t). by repeat (split; [done|]); left.
  - intros w1 idle t (Hp & Hd & Ha). split; [done|]. split; [done|by eapply aimed_fits].
Qed.

Lemma runs_refire k : 0 < interval -> runs (k tt) Refiring -> runs (bind (timer_on p interval) k) Late.
Proof.
  intros Hpos. pose proof interval_range. apply (runs_start interval k Late Refiring); [|by intros w1 v []|].
  - intros w1 idle v t Hi (_ & Ho) A. exists idle, 0, (started interval v t). by repeat (split; [done|]).
  - by intros w1 idle t (Hp & _).
Qed.

(** *** The expiration in the call *)

(** The notification counts as one at the start. *)
Lemma expirations_shift n :
  0 < interval -> 0 <= n ->
  expirations interval interval (interval + n) = expirations interval interval n + 1
  /\ alive interval interval (interval + n) = alive interval interval n.
Proof.
  intros Hpos Hn. unfold expirations, alive. test_false (interval + n <? interval). test_false (interval =? 0).
  test_true (0 <? interval). rewrite !orb_true_r. split; [|done].
  replace (interval + n - interval) with n by lia. destruct (n <? interval) eqn:E; bool_lia.
  - by rewrite Z.div_small by lia.
  - replace n with (n - interval + 1 * interval) at 1 by lia. rewrite Z.div_add by lia. lia.
Qed.

Lemma notified_running n now fx v t :
  0 < interval -> 0 <= n -> timer_after p interval interval (event t0) now fx n v t ->
  timer_after p interval interval (event t0) (now - interval) fx (interval + n) (notified t0 v) t.
Proof.
  intros Hpos Hn A. destruct (expirations_shift n Hpos Hn) as [Hx Ha]. destruct (notified_after p t0 v) as (N1 & N2 & N3).
  split; try apply A.
  - rewrite N3. apply A.
  - rewrite N2, (ta_ticks _ _ _ _ _ _ _ _ _ A). f_equal. lia.
  - rewrite N1, Hx, notifications_succ, (ta_effects _ _ _ _ _ _ _ _ _ A) by (apply expirations_nonneg; lia).
    by rewrite app_assoc.
  - rewrite Ha. apply A.
  - rewrite Ha. unfold next_expiration. rewrite Hx. intros H. rewrite (ta_expire _ _ _ _ _ _ _ _ _ A H).
    unfold next_expiration. f_equal. lia.
Qed.

Lemma notified_halted w1 idle v t :
  interval = 0 -> halted w1 idle v t -> period t = interval ->
  timer_after p 1 interval (event t0) (tmr_ticks w1 + idle - 1) (effects w1) 1 (notified t0 v) t.
Proof.
  intros H0 H Hp. destruct (notified_after p t0 v) as (N1 & N2 & N3). rewrite H0 in *.
  split; [by rewrite N3; apply H|apply H|done| | |by rewrite (ht_off _ _ _ _ H)|done].
  - rewrite N2, (ht_ticks _ _ _ _ H). f_equal. lia.
  - by rewrite N1, (ht_effects _ _ _ _ H).
Qed.

(** So after the notification the new setting is in force. *)
Lemma phase_notified v : phase_knows Refiring v -> phase_knows Restarted (notified t0 v).
Proof.
  intros (k & w1 & He & [H|(idle & t & Hi & H & Hp & (d & Hd & Ha) & H0)]); exists k, w1; (split; [done|]); left; simpl in *.
  - destruct H as (idle & n & t & Hi & Hn & (d & Hd & Ha) & Hpos & A). exists idle, d, n, t.
    do 3 (split; [done|]). right. split; [done|]. replace soon with interval by (unfold soon; lia).
    by apply notified_running.
  - exists idle, d, 0, t. do 3 (split; [done|]). right. split; [done|].
    replace soon with 1 by (unfold soon; lia). by apply notified_halted.
Qed.

Lemma runs_expire k : (forall x, runs (k x) Restarted) -> runs (bind (timer_do c p) k) Late.
Proof.
  intros Hk. destruct direct as [Hs Ha]. unfold timer_do, tm_event, tm_period. cbv zeta. test_false (p =? 0).
  cbn [bind]. apply follows_assoc, runs_timer_see. intros v t Hv _ ->. exists Late. split; [done|].
  test_false (sigev_notify (event t0) =? SIGEV_SIGNAL). cbn [bind]. apply follows_assoc, runs_timer_see.
  intros v1 t1 Hv1 Ht1 _.
  assert (period t1 = interval) as ->.
  { destruct Hv1 as (n & w1 & _ & [[]|(idle & t2 & _ & H & Hp & _)]). by rewrite (ht_at _ _ _ _ H) in Ht1; injection Ht1 as <-. }
  assert (runs (
      bind (let* ev := load (fld p event set_event) in
            (if sigev_notify ev =? SIGEV_THREAD then
               match sigev_notify_attributes ev with
               | None => emit (ENotify (sigev_notify_function ev) (sigev_value ev))
               | Some a =>
                   pthread_create c (Some a) (sigev_notify_function ev) (sigev_value ev) ;;
                   Ret tt
               end
             else Ret tt) ;;
            Ret 0) k) Refiring) as Hn.
  { apply follows_assoc, runs_timer_see. intros v2 t2 Hv2 _ ->. rewrite Ha. apply phase_notified in Hv2 as Hn.
    unfold notified in Hn. destruct (sigev_notify (event t0) =? SIGEV_THREAD) eqn:E.
    - exists Refiring. split; [done|]. cbn [bind]. apply follows_assoc, runs_step. intros v3 t3 Hv3 _ _.
      exists tt, (notified t0 v3), Restarted. split; [unfold notified; by rewrite E|]. split; [by apply phase_notified|].
      apply Hk.
    - exists Restarted. split; [done|]. apply Hk. }
  destruct (0 <? interval) eqn:E; bool_lia.
  - exists Late. split; [done|]. apply follows_assoc, follows_assoc, runs_timer_see. intros v2 t2 Hv2 Ht2 _.
    assert (period t2 = interval) as ->.
    { destruct Hv2 as (n & w1 & _ & [[]|(idle & t3 & _ & H & Hp & _)]). by rewrite (ht_at _ _ _ _ H) in Ht2; injection Ht2 as <-. }
    exists Late. split; [done|]. apply runs_refire; [done|]. exact Hn.
  - exists Refiring. split; [|exact Hn]. destruct Hv1 as (n & w1 & He & [[]|(idle & t2 & Hi & H & Hp & Ho)]).
    exists n, w1. split; [done|]. right. exists idle, t2. split; [done|]. split; [done|]. split; [done|]. split; [done|].
    pose proof interval_range. lia.
Qed.

(** *** The call *)

Lemma runs_gettime k ph : (forall x, runs (k x) ph) -> runs (bind (timer_gettime p) k) ph.
Proof.
  intros Hk. unfold timer_gettime. apply follows_assoc, runs_timer_load. intros o.
  apply follows_assoc, runs_timer_get. intros now. apply follows_assoc, runs_timer_load. intros per.
  apply follows_assoc, runs_timer_load. intros o'. apply Hk.
Qed.

Lemma interval_ticks {A} (k : Z -> prog world A) :
  (let* per :=
     if TIMESPEC_IS_NOT_ZERO (it_interval value) then
       let* (_, n) := lift (timespec2ticks (Some (it_interval value)) (Some 0)) in Ret (default 0 n)
     else Ret 0 in k per) = k interval.
Proof.
  rewrite nonzero_nanos by done. pose proof interval_range as Hr. unfold interval, ticks_of in *.
  destruct (0 <? nanos (it_interval value)) eqn:E.
  - rewrite timespec2ticks_valid by (done || apply good_interval). cbn [lift bind default]. unfold id.
    by rewrite small_ticks.
  - assert (nanos (it_interval value) = 0) as ->.
    { destruct good_interval as [Hv Hs]. unfold nanos, valid_timespec, NANOSECONDS_PER_SECOND in *. bool_lia. }
    pose proof NPT_range. by rewrite (ceil_div_unique 0 NANOSECONDS_PER_TICK 0) by lia.
Qed.

(** Where the delay is computed. *)
Lemma phase_aim v :
  phase_knows Prepared v ->
  let d := aim (tmr_ticks v) in d <= UINT_MAX /\ phase_knows (if 0 <? d then Aimed d else Late) v.
Proof.
  intros (k & w1 & He & [[]|(idle & t & Hi & H & Hp)]) d.
  assert (aimed w1 idle d) as Ha.
  { exists 0. split; [lia|]. unfold d. by rewrite (ht_ticks _ _ _ _ H), Z.sub_0_r. }
  split; [by eapply aimed_fits|]. exists k, w1. split; [done|]. right. exists idle, t. split; [done|]. split; [done|].
  destruct (0 <? d) eqn:E; bool_lia; (split; [done|]); [done|by exists d].
Qed.

Lemma ceil_div_sub a b k : 0 < b -> ceil_div (a - k * b) b = ceil_div a b - k.
Proof. intros Hb. pose proof (ceil_div_spec a b Hb). apply ceil_div_unique; [done|]. lia. Qed.

Lemma phase_clock v : Z.land flags TIMER_ABSTIME = TIMER_ABSTIME -> phase_knows Prepared v -> clock_ok v.
Proof.
  intros Hf (k & w1 & He & [[]|(idle & t & Hi & H & _)]). pose proof (clock_fits Hf). pose proof NPT_range.
  pose proof (ticks_in_range (tmr_ticks w1 + idle)) as Hr. rewrite <- (ht_ticks _ _ _ _ H) in Hr.
  split; [lia|]. nia.
Qed.

(** The computation of the code for an absolute time. *)
Lemma absolute_delay v :
  clock_ok v -> delay - tmr_ticks v <= UINT_MAX ->
  abs_timespec2ticks (Some (it_value value)) (Some (now_timespec v)) (Some 0) = Some (ETIMEDOUT, Some 0)
    /\ delay <= tmr_ticks v
  \/ abs_timespec2ticks (Some (it_value value)) (Some (now_timespec v)) (Some 0) = Some (0, Some (delay - tmr_ticks v))
    /\ tmr_ticks v <= delay.
Proof.
  intros Hv Hd. pose proof NPT_range as Hn.
  rewrite abs_timespec2ticks_eq by (done || apply now_valid || by apply now_sec || apply good_value).
  rewrite now_nanos. unfold delay, ticks_of in *. set (a := nanos (it_value value)) in *.
  destruct (a <? tmr_ticks v * NANOSECONDS_PER_TICK) eqn:E; bool_lia; [left|right].
  - split; [done|]. apply ceil_div_least; lia.
  - assert (tmr_ticks v <= ceil_div a NANOSECONDS_PER_TICK) as Hle.
    { apply (Zmult_le_reg_r _ _ NANOSECONDS_PER_TICK); [lia|]. pose proof (ceil_div_spec a NANOSECONDS_PER_TICK). lia. }
    split; [|done]. rewrite ceil_div_sub by lia. cbv zeta.
    test_true (ceil_div a NANOSECONDS_PER_TICK - tmr_ticks v <=? UINT_MAX). by rewrite small_ticks by lia.
Qed.

(** What the call does once it knows the delay: it expires at once when that
    is 0. *)
Lemma runs_launch n d old :
  0 < nanos (it_value value) -> n = Z.max 0 d ->
  runs (let* ret := (if n =? 0 then timer_do c p ;; Ret tt else timer_on p n) ;; Ret 0 in Ret (ret, old))
    (if 0 <? d then Aimed d else Late).
Proof.
  intros Hpos ->. assert (runs (Ret (0, old)) Restarted) as Hend by (split; [by test_true (0 <? nanos (it_value value))|done]).
  destruct (0 <? d) eqn:E; bool_lia.
  - rewrite Z.max_r by lia. test_false (d =? 0). by apply follows_assoc, runs_restart.
  - rewrite Z.max_l by lia. cbn [Z.eqb]. by apply follows_assoc, follows_assoc, runs_expire.
Qed.

Lemma runs_know {A} (a : action world A) k ph ph' :
  (forall v, phase_knows ph v -> phase_knows ph' v) -> runs (bind (act a) k) ph' -> runs (bind (act a) k) ph.
Proof. intros Hk H v Hv. by apply H, Hk. Qed.

(** Computing it and starting the timer. *)
Lemma runs_arm old :
  0 < nanos (it_value value) ->
  runs (let* ret :=
          let* (ret, next_expire) :=
            if Z.land flags TIMER_ABSTIME =? TIMER_ABSTIME then
              let* (r, cur) := clock_gettime CLOCK_REALTIME (Some zero_timespec) in
              let* (ret, n) :=
                if negb (r =? 0) then Ret (EINVAL, Some 0)
                else lift (abs_timespec2ticks (Some (it_value value)) cur (Some 0)) in
              if negb (ret =? 0) then Ret (if ret =? ETIMEDOUT then 0 else ret, 0)
              else Ret (ret, default 0 n)
            else
              let* (_, n) := lift (timespec2ticks (Some (it_value value)) (Some 0)) in
              Ret (0, default 0 n) in
          (if next_expire =? 0 then timer_do c p ;; Ret tt else timer_on p next_expire) ;;
          Ret ret in
        Ret (ret, old)) Prepared.
Proof.
  intros Hpos. pose proof (ticks_of_pos _ good_value Hpos : 0 < delay) as Hd.
  assert (runs (Ret (0, old)) Restarted) as Hend by (split; [by test_true (0 <? nanos (it_value value))|done]).
  pose proof delay_range as Hr. destruct (Z.land flags TIMER_ABSTIME =? TIMER_ABSTIME) eqn:Ef.
  - unfold clock_gettime. do 3 apply follows_assoc. apply runs_step. intros v t Hv _ _.
    destruct (phase_aim v Hv) as [Hle Hph]. exists (tmr_ticks v), v. eexists. split; [done|]. split; [exact Hph|].
    assert (clock_ok v) as Hok by (by eapply phase_clock, Hv; bool_lia).
    pose proof Hok as [H0 H1]. pose proof NPT_range. unfold aim in *. rewrite Ef in *.
    rewrite sgn_in by (change (64 - 1) with 63; unfold NANOSECONDS_PER_SECOND in *; nia). cbn [lift bind].
    rewrite nano2timespec_eq by (unfold NANOSECONDS_PER_SECOND in *; nia). cbn [lift bind Z.eqb negb].
    fold (now_timespec v). destruct (absolute_delay v Hok Hle) as [[-> Hdue]|[-> Hdue]]; cbn [lift bind Z.eqb negb default from_option ETIMEDOUT].
    + apply (runs_launch 0); lia.
    + apply (runs_launch (delay - tmr_ticks v)); lia.
  - rewrite timespec2ticks_valid by (done || apply good_value). cbn [lift bind default from_option]. unfold id.
    change (wrapu 32 (ceil_div (nanos (it_value value)) NANOSECONDS_PER_TICK)) with (wrapu 32 delay).
    rewrite small_ticks by lia. test_false (delay =? 0). apply follows_assoc.
    apply (runs_know _ _ Prepared (Aimed delay)); [|by apply runs_restart].
    intros v Hv. destruct (phase_aim v Hv) as [_ Hph]. unfold aim in Hph. rewrite Ef in Hph.
    by rewrite (proj2 (Z.ltb_lt 0 delay) Hd) in Hph.
Qed.

Lemma runs_settime : runs (timer_settime c p flags value ovalue) Running.
Proof.
  unfold timer_settime. rewrite !(nonzero_nanos (it_value value) good_value).
  rewrite (proj1 (validate_valid _) (proj1 good_value)), (proj1 (validate_valid _) (proj1 good_interval)).
  destruct (0 <? nanos (it_value value)) eqn:E; cbn [Z.eqb orb bind andb];
    (destruct ovalue; [apply follows_assoc, runs_gettime; intros [r x]; cbn [bind]|]); apply runs_halt;
    try (rewrite interval_ticks; apply follows_assoc, runs_prepare, runs_arm; bool_lia);
    by split; [rewrite E|].
Qed.

Lemma phase_reach z :
  reach preempted (timer_settime c p flags value ovalue, w0) z ->
  exists ph, follows (fun _ => phase_knows) (fun _ _ _ => phase_knows) (fun _ _ _ => False) (fun _ _ => False)
    (fun _ => phase_ends) 0 z.1 ph /\ phase_knows ph z.2.
Proof.
  intros H. induction H as [|y z H (ph & Hf & Hk) Hs].
  - exists Running. split; [apply runs_settime|]. exists 0%nat, w0. split; [done|by left].
  - destruct Hs as [q w q' w' Hd|q w w' Ht]; cbn [fst snd] in *.
    + destruct (follows_step _ _ _ _ _ 0 q ph w q' w' Hf Hk Hd) as (ph' & Hk' & Hf'). by exists ph'.
    + exists ph. split; [done|by eapply phase_tick].
Qed.

(** C20: [timer_settime] is atomic while time passes and expirations interrupt
    it, whatever the state of the timer, with a relative, an absolute or a
    zero time, where the times are valid and fit 31 bits of seconds and 32 of
    ticks, the event notifies directly, and the ticks divide the second
    exactly: no action of it faults or blocks, and when it returns, with 0,
    there is an instant of the call up to which the timer has run with its
    old setting, without interference, and a later one from which it runs
    with the new one: the notifications, the state and the time of the next
    expiration are those of the new delay and period from there on, or at
    once when the absolute time had come already, and none with a zero time.
    In between it has been silent, and no tick is counted twice.  A timer
    is never early; one set to an absolute time is late by the ticks between
    the reading of the clock and its start. *)
Theorem timer_settime_atomic z :
  reach preempted (timer_settime c p flags value ovalue, w0) z ->
  (forall e, ~ Fault e ∈ pstep z.1 z.2)
  /\ ((exists r, z.1 = Ret r) \/ exists q' w', Done q' w' ∈ pstep z.1 z.2)
  /\ forall r, z.1 = Ret r -> r.1 = 0 /\ exists k w1, elapsed cb p k w0 w1 /\ reset_after w1 z.2.
Proof.
  intros Hz. destruct (phase_reach z Hz) as (ph & Hf & Hk). destruct z as [q v]. cbn [fst snd] in *.
  assert (forall e, ~ Fault e ∈ pstep q v) as Hno by (intros e He; exact (follows_no_fault _ _ _ _ _ 0 q ph v e Hf Hk He)).
  split; [done|]. split.
  - destruct q as [r|A a k]; [left; by exists r|right]. simpl in Hf, Hno |- *. destruct (Hf v Hk) as (Hb & _).
    destruct (a v) as [|[x w'|e] os]; simpl in *;
      [by destruct Hb|exists (k x), w'; by left|destruct (Hno e); by left].
  - intros r ->. destruct Hf as [-> Hr]. split; [done|].
    destruct Hk as (k & w1 & He & Hk). exists k, w1. split; [done|]. unfold reset_after.
    by destruct (0 <? nanos (it_value value)), Hk as [H|(idle & t & Hi & H & Ht)]; [| | |exists idle, t].
Qed.
End setting.

(** ** Reading a running timer *)

Section reading.
Context (d per : Z) (e : sigevent) (now0 : Z) (effects0 : list effect).
Hypothesis timer_there : p <> 0.
Hypothesis direct : direct_event e.
Hypothesis delay_ok : 0 < d <= UINT_MAX.
Hypothesis period_ok : 2 <= per <= UINT_MAX.

Lemma ticks_come j n w t :
  0 <= n -> timer_after p d per e now0 effects0 n w t ->
  exists w' t', elapsed cb p j w w' /\ timer_after p d per e now0 effects0 (n + Z.of_nat j) w' t'.
Proof.
  intros Hn A. induction j as [|j (v & t1 & Hv & A1)]; [exists w, t; by rewrite Z.add_0_r|].
  destruct (tick_comes TL cb p d per e now0 effects0 ltac:(lia) ltac:(lia) direct timer_there (n + Z.of_nat j) v t1 ltac:(lia) A1)
    as [w' Hw'].
  destruct (tick_after TL cb p d per e now0 effects0 ltac:(lia) ltac:(lia) direct timer_there (n + Z.of_nat j) v w' t1
    ltac:(lia) A1 Hw') as [t' A']. exists w', t'. split; [by exists v|].
  by replace (n + Z.of_nat (S j)) with (n + Z.of_nat j + 1) by lia.
Qed.

Lemma reach_elapsed {R} j w w' (q : prog world R) : elapsed cb p j w w' -> reach preempted (q, w) (q, w').
Proof.
  revert w'. induction j as [|j IH]; intros w'; simpl; [intros ->; constructor|].
  intros (v & Hv%IH & Ht). eapply ReachStep; [exact Hv|by apply PreTick].
Qed.

(** Just after the expiration that follows [n]. *)
Lemma expirations_past n :
  0 <= n -> let m := next_expiration d per n + 1 in
  alive d per m = true /\ next_expiration d per m - m = per - 1.
Proof.
  intros Hn m. pose proof (expirations_nonneg d per n ltac:(lia)) as Hx. unfold m, next_expiration, alive.
  set (x := expirations d per n) in *. assert (0 <= per * x) by nia. split; [test_true (0 <? per); by rewrite orb_true_r|].
  unfold expirations. test_false (d + per * x + 1 <? d). test_false (per =? 0).
  replace (d + per * x + 1 - d) with (1 + x * per) by lia. rewrite Z.div_add by lia. rewrite Z.div_small by lia. lia.
Qed.

(** C33: [timer_gettime] is not atomic: an expiration between its reading of
    the time of expiration and of the tick counter makes it report that the
    next expiration is [2^32 - 1] ticks away.  This can happen to every
    running periodic timer, whose period may be as short as two ticks, and
    which expires within a period. *)
Theorem timer_gettime_torn n w t :
  0 <= n -> timer_after p d per e now0 effects0 n w t ->
  exists w' n' t',
    reach preempted (timer_gettime p, w) (Ret (0, mk_itimerspec (ticks2timespec per) (ticks2timespec UINT_MAX)), w')
    /\ timer_after p d per e now0 effects0 n' w' t'
    /\ next_expiration d per n' - n' = per - 1.
Proof.
  intros Hn A. assert (alive d per n = true) as Ha by (unfold alive; test_true (0 <? per); by rewrite orb_true_r).
  pose proof (next_bounds d per n ltac:(lia) ltac:(lia) Hn Ha) as Hb.
  set (x := next_expiration d per n) in *. destruct (expirations_past n Hn) as [Ha' Hx]. fold x in Ha', Hx.
  destruct (ticks_come (Z.to_nat (x + 1 - n)) n w t Hn A) as (w' & t' & Hw & A').
  replace (n + Z.of_nat (Z.to_nat (x + 1 - n))) with (x + 1) in A' by lia.
  exists w', (x + 1), t'. split; [|done].
  assert (wrapu 32 (tmr_expire (ost t) - tmr_ticks w') = UINT_MAX) as Htorn.
  { rewrite (ta_expire _ _ _ _ _ _ _ _ _ A Ha), (ta_ticks _ _ _ _ _ _ _ _ _ A'). fold x. unfold wrapu.
    rewrite <- Zminus_mod. by replace (now0 + x - (now0 + (x + 1))) with (-1) by lia. }
  unfold timer_gettime, tm_ost, tm_period, load, get. cbn [bind act].
  eapply reach_trans; [eapply ReachStep; [constructor|apply PreAction]|].
  { simpl. rewrite (ta_at _ _ _ _ _ _ _ _ _ A). by left. }
  eapply reach_trans; [eapply reach_elapsed; exact Hw|].
  eapply reach_trans; [eapply ReachStep; [constructor|apply PreAction]|].
  { simpl. by left. }
  eapply reach_trans; [eapply ReachStep; [constructor|apply PreAction]|].
  { simpl. rewrite (ta_at _ _ _ _ _ _ _ _ _ A'). by left. }
  eapply ReachStep; [constructor|apply PreAction]. simpl. rewrite (ta_at _ _ _ _ _ _ _ _ _ A'). simpl.
  rewrite (ta_active _ _ _ _ _ _ _ _ _ A'), Ha', (ta_period _ _ _ _ _ _ _ _ _ A'), Htorn. by left.
Qed.
End reading.
End preempt.

(** ** Witnesses *)

Section preempt_witnesses.
Import Sim.

(** A timer that expires at the next tick, and then every 2 ticks. *)
Definition due_timer : @timer_internal_t sim_kernel :=
  mk_timer (tmr_on (Kernel:=sim_kernel) 1 1500 tmr_zero) notify_event 2.
Definition due_world : @world sim_kernel := sim_world {[ 64 := OTimer due_timer ]}.

(** The kernel has stopped it and calls [timer_do], *)
Definition stopped_timer_64 : @timer_internal_t sim_kernel := set_ost (tmr_of (ost due_timer)) due_timer.
Definition called_world : @world sim_kernel := put 64 stopped_timer_64 (with_ticks 1501 due_world).

(** which arms it again and notifies; *)
Definition again_timer : @timer_internal_t sim_kernel := rearmed called_world stopped_timer_64.
Definition expired_world : @world sim_kernel := notified stopped_timer_64 (put 64 again_timer called_world).

(** then the timer is set. *)
Definition reset_world : @world sim_kernel := put 64 (armed_timer expired_world again_timer run_value) expired_world.

Lemma due_tick : tick task_b 64 due_world expired_world.
Proof.
  apply (TickExpire task_b 64 due_world due_timer (tmr_of (ost due_timer)) 0); try reflexivity.
  change (next_tick due_world) with 1501. fold stopped_timer_64. fold called_world.
  rewrite (run_timer_do called_world task_b 64 stopped_timer_64); [by left|done|apply at_put|done].
Qed.

Lemma run_value_good : good_time (it_value run_value) /\ good_time (it_interval run_value).
Proof. repeat split; vm_compute; congruence. Qed.

(** 1.505 s, in 5 ticks, and then every 2 ticks. *)
Definition abs_value : itimerspec :=
  mk_itimerspec (it_interval run_value) (mk_timespec 1 505000000).

Lemma abs_value_good : good_time (it_value abs_value) /\ good_time (it_interval abs_value).
Proof. repeat split; vm_compute; congruence. Qed.

(** The timer has been stopped and given its period, and the clock been read;
    what is left starts it for 5 ticks, *)
Definition aimed_timer : @timer_internal_t sim_kernel := set_period 2 stopped_timer_64.
Definition aimed_world : @world sim_kernel := put 64 aimed_timer due_world.
(** one tick too late. *)
Definition late_world : @world sim_kernel :=
  put 64 (started 5 (with_ticks 1501 aimed_world) aimed_timer) (with_ticks 1501 aimed_world).

Lemma late_start :
  reach (preempted task_b 64) (timer_settime task_a 64 TIMER_ABSTIME abs_value false, due_world) (Ret (0, None), late_world).
Proof.
  eapply reach_trans; [eapply ReachStep; [constructor|apply PreAction]; by left|].
  eapply reach_trans; [eapply ReachStep; [constructor|apply PreAction]; by left|].
  eapply reach_trans; [eapply ReachStep; [constructor|apply PreAction]; by left|].
  eapply reach_trans; [eapply ReachStep; [constructor|apply PreTick]|].
  { eapply TickIdle with (t := aimed_timer); [reflexivity|done]. }
  apply run_preempted. by left.
Qed.

(** With a relative time and an expiration during the call: one notification,
    and the timer is then armed for the new delay of 3 ticks.  With an
    absolute time and a tick before the timer is started, it is armed for a
    tick that is one later. *)
Lemma timer_settime_atomic_witness :
  (reach (preempted task_b 64) (timer_settime task_a 64 0 run_value false, due_world) (Ret (0, None), reset_world)
   /\ effects reset_world = [ENotify 77 5]
   /\ exists k w1, elapsed task_b 64 k due_world w1 /\ reset_after 64 due_timer 0 run_value w1 reset_world)
  /\ (reach (preempted task_b 64) (timer_settime task_a 64 TIMER_ABSTIME abs_value false, due_world) (Ret (0, None), late_world)
   /\ option_map (fun t => tmr_expire (ost t)) (at_ 64 late_world) = Some 1506
   /\ exists k w1, elapsed task_b 64 k due_world w1 /\ reset_after 64 due_timer TIMER_ABSTIME abs_value w1 late_world).
Proof.
  split.
  - destruct run_value_good as [Hv Hi].
    assert (reach (preempted task_b 64) (timer_settime task_a 64 0 run_value false, due_world) (Ret (0, None), reset_world)) as H.
    { eapply reach_trans; [eapply ReachStep; [constructor|apply PreTick, due_tick]|].
      apply run_preempted. rewrite (run_settime_relative expired_world task_a 64 again_timer 0 run_value sim_exact_rate);
        [by left|reflexivity|done|exact Hv|exact Hi|reflexivity|done]. }
    split; [exact H|]. split; [reflexivity|].
    destruct (timer_settime_atomic sim_tmr_laws task_a task_b 64 due_world due_timer 0 run_value false
      sim_exact_rate ltac:(done) eq_refl ltac:(split; done) ltac:(vm_compute; split; congruence) Hv Hi
      ltac:(vm_compute; congruence) ltac:(vm_compute; congruence) ltac:(done) _ H) as (_ & _ & Hr).
    destruct (Hr (0, None) eq_refl) as (_ & Hd). exact Hd.
  - destruct abs_value_good as [Hv Hi]. split; [exact late_start|]. split; [reflexivity|].
    destruct (timer_settime_atomic sim_tmr_laws task_a task_b 64 due_world due_timer TIMER_ABSTIME abs_value false
      sim_exact_rate ltac:(done) eq_refl ltac:(split; done) ltac:(vm_compute; split; congruence) Hv Hi
      ltac:(vm_compute; congruence) ltac:(vm_compute; congruence) ltac:(done) _ late_start) as (_ & _ & Hr).
    destruct (Hr (0, None) eq_refl) as (_ & Hd). exact Hd.
Defined.

(** This timer is about to expire: two ticks during [timer_gettime]. *)
Lemma timer_gettime_torn_witness :
  exists w' n' t',
    reach (preempted task_b 64) (timer_gettime 64, due_world)
      (Ret (0, mk_itimerspec (ticks2timespec 2) (ticks2timespec UINT_MAX)), w')
    /\ timer_after 64 1 2 notify_event 1500 [] n' w' t'
    /\ next_expiration 1 2 n' - n' = 1.
Proof.
  apply (timer_gettime_torn sim_tmr_laws task_b 64 1 2 notify_event 1500 []) with (n := 0) (t := due_timer);
    done.
Defined.
End preempt_witnesses.
