(* ===== verification/Api.v ===== *)
(** The whole library: every function that works on shared memory, as one
    inductive type of calls, and the error convention of the application
    interface.  The functions of POSIX report an error in two ways: some
    return the error number and leave [errno] alone, the others return a
    failure value and store the number in the [errno] of the calling task.
    The theorem says which call does what, for any number of tasks that each
    make any sequence of calls, interleaved action by action. *)
From S2P Require Import Prelude Prog Kernel World SimKernel Timespec Clock Attr Mutex Semaphore Barrier Cond Mqueue MqueueLock Thread Timer Errno MqueueErrno.

(** ** The calls *)

Inductive api_call :=
| CallMutexInit (p : Z) (a : option pthread_mutexattr_t)
| CallMutexDestroy (p : Z)
| CallMutexLock (p : Z)
| CallMutexTimedlock (p : Z) (t : option timespec)
| CallMutexTrylock (p : Z)
| CallMutexUnlock (p : Z)
| CallSemInit (p pshared v : Z)
| CallSemDestroy (p : Z)
| CallSemGetvalue (p : Z)
| CallSemWait (p : Z)
| CallSemTimedwait (p : Z) (t : option timespec)
| CallSemTrywait (p : Z)
| CallBarrierInit (p n : Z)
| CallBarrierDestroy (p : Z)
| CallBarrierWait (p : Z)
| CallCondInit (p : Z)
| CallCondDestroy (p : Z)
| CallCondSignal (p : Z)
| CallCondBroadcast (p : Z)
| CallCondWait (p m : Z)
| CallCondTimedwait (p m : Z) (t : option timespec)
| CallMqOpen (nm : string) (oflag mode : Z) (a : option mq_attr)
| CallMqClose (d : Z)
| CallMqUnlink (nm : string)
| CallMqGetattr (d : Z)
| CallMqSend (d ptr : Z) (msg : list Z) (len prio : Z)
| CallMqTimedsend (d ptr : Z) (msg : list Z) (len prio : Z) (t : option timespec)
| CallMqReceive (d ptr len : Z)
| CallMqTimedreceive (d ptr len : Z) (t : option timespec)
| CallCreate (a : option pthread_attr_t) (fn arg : Z)
| CallJoin (p : Z) (retval : bool)
| CallExit (v : Z)
| CallGetschedparam (p : Z)
| CallSetschedparam (p policy : Z) (param : option Z)
| CallTimerCreate (clk : Z) (e : option sigevent)
| CallTimerDelete (p : Z)
| CallTimerGettime (p : Z)
| CallTimerGetoverrun (p : Z)
| CallTimerSettime (p fl : Z) (v : itimerspec) (ovalue : bool)
| CallClock
| CallGetcpuclockid
| CallGettime (clk : Z) (t : option timespec)
| CallSettime (clk : Z)
| CallClockNanosleep (clk fl : Z) (t : option timespec)
| CallNanosleep (t : option timespec)
| CallTime (t : option Z)
| CallSleep (n : Z)
| CallUsleep (n : Z)
| CallYield.

Section api.
Context `{P : Platform} `{K : Kernel}.

(** The C result; [pthread_exit] does not return, and the number of bytes
    received counts as success even where a huge item size wraps to -1. *)
Definition api_code (c : caller) (o : api_call) : prog world Z :=
  match o with
  | CallMutexInit p a => pthread_mutex_init p a
  | CallMutexDestroy p => pthread_mutex_destroy p
  | CallMutexLock p => pthread_mutex_lock c p
  | CallMutexTimedlock p t => pthread_mutex_timedlock c p t
  | CallMutexTrylock p => pthread_mutex_trylock c p
  | CallMutexUnlock p => pthread_mutex_unlock c p
  | CallSemInit p s v => sem_init_posix p s v
  | CallSemDestroy p => sem_destroy p
  | CallSemGetvalue p => let* r := sem_getvalue p in Ret r.1
  | CallSemWait p => sem_wait c p
  | CallSemTimedwait p t => sem_timedwait c p t
  | CallSemTrywait p => sem_trywait c p
  | CallBarrierInit p n => pthread_barrier_init p n
  | CallBarrierDestroy p => pthread_barrier_destroy p
  | CallBarrierWait p => pthread_barrier_wait c p
  | CallCondInit p => pthread_cond_init p
  | CallCondDestroy p => pthread_cond_destroy p
  | CallCondSignal p => pthread_cond_signal c p
  | CallCondBroadcast p => pthread_cond_broadcast c p
  | CallCondWait p m => pthread_cond_wait c p m
  | CallCondTimedwait p m t => pthread_cond_timedwait c p m t
  | CallMqOpen nm fl mode a => mq_open c nm fl mode a
  | CallMqClose d => mq_close c d
  | CallMqUnlink nm => mq_unlink c nm
  | CallMqGetattr d => let* r := mq_getattr c d in Ret r.1
  | CallMqSend d b m n pr => mq_send c d b m n pr
  | CallMqTimedsend d b m n pr t => mq_timedsend c d b m n pr t
  | CallMqReceive d b n => let* r := mq_receive c d b n in Ret (match r.2 with Some _ => 0 | None => r.1 end)
  | CallMqTimedreceive d b n t => let* r := mq_timedreceive c d b n t in Ret (match r.2 with Some _ => 0 | None => r.1 end)
  | CallCreate a fn arg => let* r := pthread_create c a fn arg in Ret r.1
  | CallJoin p v => let* r := pthread_join c p v in Ret r.1
  | CallExit v => pthread_exit c v ;; Ret 0
  | CallGetschedparam p => let* r := pthread_getschedparam p in Ret r.1.1
  | CallSetschedparam p pol v => pthread_setschedparam p pol v
  | CallTimerCreate clk e => let* r := timer_create c clk e in Ret r.1
  | CallTimerDelete p => timer_delete p
  | CallTimerGettime p => let* r := timer_gettime p in Ret r.1
  | CallTimerGetoverrun p => timer_getoverrun p
  | CallTimerSettime p fl v o => let* r := timer_settime c p fl v o in Ret r.1
  | CallClock => clock
  | CallGetcpuclockid => clock_getcpuclockid c
  | CallGettime id t => let* r := clock_gettime id t in Ret r.1
  | CallSettime id => clock_settime c id
  | CallClockNanosleep id fl t => clock_nanosleep id fl t
  | CallNanosleep t => nanosleep c t
  | CallTime t => let* r := time t in Ret r.1
  | CallSleep n => sleep n
  | CallUsleep n => usleep n
  | CallYield => sched_yield
  end.

(** A task makes its calls one after the other. *)
Fixpoint api_task (c : caller) (os : list api_call) : prog world (list Z) :=
  match os with
  | [] => Ret []
  | o :: os' => let* r := api_code c o in let* rs := api_task c os' in Ret (r :: rs)
  end.

(** ** The convention

    [e] is the [errno] of the task before the call, and [e'] after it, where
    [None] is the value it had at the start. *)
Definition reports (failed : Z) (es : list Z) (r : Z) (e e' : option Z) : Prop :=
  if r =? failed then exists z, e' = Some z /\ z ∈ es else e' = e.

Definition errno_after (o : api_call) (r : Z) (e e' : option Z) : Prop :=
  match o with
  | CallSemWait _ => reports (-1) [ETIMEDOUT] r e e'
  | CallSemTimedwait _ _ => reports (-1) [ETIMEDOUT; EINVAL] r e e'
  | CallSemTrywait _ => reports (-1) [EAGAIN; EINVAL] r e e'
  | CallMqOpen _ _ _ _ => reports MQD_ERROR [EINVAL; EEXIST; ENOENT] r e e'
  | CallMqClose _ | CallMqGetattr _ => reports (-1) [EBADF] r e e'
  | CallMqUnlink _ => reports (-1) [ENAMETOOLONG; ENOENT] r e e'
  | CallMqSend _ _ _ _ _ | CallMqTimedsend _ _ _ _ _ _
  | CallMqReceive _ _ _ | CallMqTimedreceive _ _ _ _ =>
      reports (-1) [EBADF; EINVAL; EMSGSIZE; ETIMEDOUT; EAGAIN] r e e'
  | CallTimerCreate _ _ => reports (-1) [ENOTSUP; EAGAIN] r e e'
  | CallNanosleep _ => reports (-1) [EINVAL] r e e'
  | CallGetcpuclockid | CallSettime _ => r = -1 /\ e' = Some EPERM
  | CallCreate _ _ _ => e' = e \/ r = EAGAIN /\ e' = Some EAGAIN
  | CallTimerSettime _ _ _ _ => if r =? -1 then e' = Some EINVAL else e' = e \/ e' = Some EAGAIN
  | _ => e' = e
  end.

(** One call after the other. *)
Fixpoint errno_trace (os : list api_call) (rs : list Z) (e e' : option Z) : Prop :=
  match os, rs with
  | [], [] => e' = e
  | o :: os', r :: rs' => exists e1, errno_after o r e e1 /\ errno_trace os' rs' e1 e'
  | _, _ => False
  end.
End api.

Section convention.
Context `{P : Platform} `{K : Kernel} (LL : LlLaws K) (AL : AllocLaws K).
Implicit Types (c : caller) (e : option Z).

(** [(mqd_t) -1] is not the address of a queue. *)
Definition sound_list (l : ll_t) : Prop := NoDup (ll_elems l) /\ MQD_ERROR ∉ ll_elems l.

Lemma sound_init : sound_list ll_init.
Proof. unfold sound_list. rewrite ll_init_nil. split; [constructor|apply not_elem_of_nil]. Qed.

Lemma sound_del p l : sound_list l -> sound_list (lle_del p l).
Proof.
  intros [H1 H2]. unfold sound_list. rewrite lle_del_elems by done. split; [by apply NoDup_filter|].
  intros [_ H]%list_elem_of_filter. done.
Qed.

#[local] Hint Resolve sound_init sound_del : core.

Abbreviation keeps_errno c p := (silent sound_list (task_cur c) p).

(** *** Time *)

(** Every case of a computation that may overflow. *)
Ltac all_cases :=
  repeat match goal with
         | H : (sgn ?a ?b ≫= _) = Some _ |- _ => destruct (sgn a b); cbn [mbind option_bind] in H; [|done]
         | H : ((sgn ?a ?b ≫= _) ≫= _) = Some _ |- _ => destruct (sgn a b); cbn [mbind option_bind] in H; [|done]
         | H : (if ?b then _ else _) = Some _ |- _ => destruct b
         | H : ((if ?b then _ else _) ≫= _) = Some _ |- _ => destruct b; cbn [mbind option_bind] in H
         end; simplify_eq; case_ifs; auto.

Lemma ticks_result t r ret x : timespec2ticks t r = Some (ret, x) -> ret = 0 \/ ret = EINVAL.
Proof. unfold timespec2ticks. intros H. destruct t as [t|], r; all_cases. Qed.

Lemma sub_result a b d0 s d : timespec_sub a b d0 = Some (s, d) -> s = 1 \/ s = 0 \/ s = -1.
Proof. unfold timespec_sub. intros H. destruct d0, a, b; all_cases. Qed.

Lemma abs_ticks_result t cur r ret x :
  abs_timespec2ticks t cur r = Some (ret, x) -> ret = 0 \/ ret = EINVAL \/ ret = ETIMEDOUT.
Proof.
  unfold abs_timespec2ticks. destruct t as [t|], cur as [cur|], r as [r|]; try (intros; simplify_eq; by auto).
  destruct (timespec_sub _ _ _) as [[s d]|] eqn:Es; cbn [mbind option_bind]; [|done].
  destruct (sub_result _ _ _ _ _ Es) as [->|[->| ->]]; simpl.
  - intros; simplify_eq; auto.
  - intros [?|?]%ticks_result; auto.
  - intros; simplify_eq; auto.
Qed.

(** The clock fails only for a null pointer. *)
Lemma tracked_clock {R} me e (Q : option Z -> R -> Prop) id t (k : _ -> prog world R) :
  (forall t', tracked sound_list me (k (0, Some t')) e Q) ->
  tracked sound_list me (bind (clock_gettime id (Some t)) k) e Q.
Proof. intros Hk. unfold clock_gettime. repeat tracked_one; apply Hk. Qed.

(** Walking through a function. *)
Ltac walk_one :=
  lazymatch goal with
  | |- tracked _ _ (bind (clock_gettime _ (Some _)) _) _ _ => apply tracked_clock; intros
  | |- tracked _ _ (bind (lift (abs_timespec2ticks _ _ _)) _) _ _ =>
      apply tracked_lift; let H := fresh "Hticks" in intros [? ?] H%abs_ticks_result
  | |- tracked _ _ (bind (lift (timespec2ticks _ _)) _) _ _ =>
      apply tracked_lift; let H := fresh "Hticks" in intros [? ?] H%ticks_result
  | _ => tracked_mq_one
  end.

Ltac walk := repeat first [progress cbn [bind negb Z.eqb fst snd] | walk_one].

(** *** Mutexes, barriers and condition variables *)

Lemma silent_timedlock c p t : keeps_errno c (pthread_mutex_timedlock c p t).
Proof.
  intros e. unfold pthread_mutex_timedlock, mutex_inited, mutex_type, mutex_own, mutex_mux.
  by walk.
Qed.

Lemma silent_unlock c p : keeps_errno c (pthread_mutex_unlock c p).
Proof. intros e. unfold pthread_mutex_unlock, mutex_inited, mutex_type, mutex_own, mutex_mux. by walk. Qed.

Lemma silent_cond_timedwait c p m t : keeps_errno c (pthread_cond_timedwait c p m t).
Proof.
  intros e. unfold pthread_cond_timedwait, pthread_mutex_lock, cond_inited, cond_mux, cond_cond, cond_waiting.
  repeat first [apply tracked_silent; [apply silent_unlock|intros]
    |apply tracked_silent; [apply silent_timedlock|intros]|apply silent_timedlock|progress walk]; done.
Qed.

(** The result and what is in [errno] with it. *)
Ltac leaf :=
  cbn [tracked]; unfold reports; simpl; destruct_or?; simplify_eq/=;
  first [done | eexists; split; [done|rewrite !elem_of_cons in *; naive_solver]].

(** *** Semaphores *)

Lemma timedwait_reports c p t e :
  tracked sound_list (task_cur c) (sem_timedwait c p t) e (fun e' r => reports (-1) [ETIMEDOUT; EINVAL] r e e').
Proof. unfold sem_timedwait, sem_self. walk; leaf. Qed.

Lemma wait_reports c p e :
  tracked sound_list (task_cur c) (sem_wait c p) e (fun e' r => reports (-1) [ETIMEDOUT] r e e').
Proof. unfold sem_wait, sem_timedwait, sem_self. walk; leaf. Qed.

Lemma trywait_reports c p e :
  tracked sound_list (task_cur c) (sem_trywait c p) e (fun e' r => reports (-1) [EAGAIN; EINVAL] r e e').
Proof.
  unfold sem_trywait. eapply tracked_bind; [apply timedwait_reports|]. intros e1 r. unfold reports.
  destruct (r =? -1) eqn:E; cbn [andb].
  - intros (z & -> & Hz). apply tracked_get_errno. walk; apply Z.eqb_eq in E as ->; leaf.
  - intros ->. apply tracked_get. intros w _. cbn [tracked]. by rewrite E.
Qed.

(** *** Message queues *)

Lemma close_reports c d e :
  tracked sound_list (task_cur c) (mq_close c d) e (fun e' r => reports (-1) [EBADF] r e e').
Proof. unfold mq_close, mq_extract_locked, mqd_open_count, mqd_pending. walk; leaf. Qed.

Lemma getattr_reports c d e :
  tracked sound_list (task_cur c) (let* r := mq_getattr c d in Ret r.1) e (fun e' r => reports (-1) [EBADF] r e e').
Proof. unfold mq_getattr, mq_extract_locked, mqd_q, mqd_flags. walk; leaf. Qed.

Lemma unlink_reports c nm e :
  tracked sound_list (task_cur c) (mq_unlink c nm) e (fun e' r => reports (-1) [ENAMETOOLONG; ENOENT] r e e').
Proof. unfold mq_unlink, mqd_open_count, mqd_pending. walk; leaf. Qed.

Lemma reports_other failed es r e : r <> failed -> reports failed es r e e.
Proof. intros H. unfold reports. by test_false (r =? failed). Qed.

(** A queue that is opened has another address than [(mqd_t) -1]. *)
Lemma open_reports c nm fl mode a e :
  tracked sound_list (task_cur c) (mq_open c nm fl mode a) e
    (fun e' r => reports MQD_ERROR [EINVAL; EEXIST; ENOENT] r e e').
Proof.
  unfold mq_open, mqd_open_count, mqd_flags, mqd_ll, mqd_q, mqd_buf. cbv zeta.
  repeat first [progress change (MQD_ERROR =? 0) with false | progress walk]; try leaf.
  all: apply reports_other.
  all: first [by unfold MQD_ERROR; lia|match goal with H : sound_list _ |- _ => destruct H as [_ ?] end; by intros ->].
Qed.

Lemma tracked_timeout {R} me e (Q : option Z -> R -> Prop) f a t (k : _ -> prog world R) :
  (forall ret n, ret = 0 \/ ret = EINVAL \/ ret = ETIMEDOUT -> tracked sound_list me (k (ret, n)) e Q) ->
  tracked sound_list me (bind (get_tick_timeout f a t) k) e Q.
Proof. intros Hk. unfold get_tick_timeout. walk; apply Hk; repeat case_if; auto. Qed.

Ltac walk_mq :=
  repeat first
    [ lazymatch goal with |- tracked _ _ (bind (get_tick_timeout _ _ _) _) _ _ => apply tracked_timeout; intros end
    | progress cbn [bind negb Z.eqb fst snd] | walk_one ].

(** The errors of the checks of a transfer, and of the transfer. *)
Definition check_errors : list Z := [EBADF; EINVAL; EMSGSIZE; ETIMEDOUT].
Definition transfer_errors : list Z := [EBADF; EINVAL; EMSGSIZE; ETIMEDOUT; EAGAIN].

Lemma checks_reports {A} c d ptr bad t e (k : Z * Z * Z -> prog world A) Q :
  (forall mq n, tracked sound_list (task_cur c) (k (0, mq, n)) e Q) ->
  (forall z mq n, z ∈ check_errors -> tracked sound_list (task_cur c) (k (-1, mq, n)) (Some z) Q) ->
  tracked sound_list (task_cur c) (bind (mq_checks c d ptr bad t) k) e Q.
Proof.
  intros H0 H1. unfold mq_checks, mq_extract_locked, mqd_q, mqd_flags.
  walk_mq; try apply H0; apply H1; unfold check_errors; destruct_or?; simplify_eq/=; rewrite !elem_of_cons; auto.
Qed.

Lemma failed_reports c mq e :
  tracked sound_list (task_cur c) (transfer_failed c mq) e
    (fun e' r => r = -1 /\ exists z, e' = Some z /\ (z = EAGAIN \/ z = ETIMEDOUT)).
Proof. unfold transfer_failed, mqd_flags. walk; cbn [tracked]; eauto. Qed.

Lemma send_reports c d ptr msg len prio t e :
  tracked sound_list (task_cur c) (mq_timedsend c d ptr msg len prio t) e
    (fun e' r => reports (-1) transfer_errors r e e').
Proof.
  unfold mq_timedsend, mqd_q. apply checks_reports.
  - intros mq n. walk; [|leaf]. eapply tracked_weaken; [|apply failed_reports].
    intros e' r (-> & y & -> & [->| ->]); unfold transfer_errors; leaf.
  - intros z mq n Hz. simpl. unfold check_errors, transfer_errors in *. leaf.
Qed.

Lemma receive_reports c d ptr len t e :
  tracked sound_list (task_cur c)
    (let* r := mq_timedreceive c d ptr len t in Ret (match r.2 with Some _ => 0 | None => r.1 end)) e
    (fun e' r => reports (-1) transfer_errors r e e').
Proof.
  unfold mq_timedreceive, mqd_q. apply tracked_assoc, checks_reports.
  - intros mq n. walk; [|leaf..]. eapply tracked_bind; [apply failed_reports|].
    intros e' r (-> & y & -> & [->| ->]); unfold transfer_errors; leaf.
  - intros z mq n Hz. simpl. unfold check_errors, transfer_errors in *. leaf.
Qed.

(** *** Threads *)

Ltac thread :=
  unfold th_attr, th_fun, th_fun_arg, th_task, th_stack, th_barrier, th_joined, th_mux, th_ret.

(** Only [pthread_create] touches [errno], where the allocation hook is not
    installed; what it returns is the number [EAGAIN]. *)
Lemma create_reports c a fn arg e :
  tracked sound_list (task_cur c) (pthread_create c a fn arg) e
    (fun e' r => e' = e \/ r.1 = EAGAIN /\ e' = Some EAGAIN).
Proof. unfold pthread_create. thread. walk; simpl; auto. Qed.

Lemma silent_exit_thread c : keeps_errno c (exit_thread c).
Proof. intros e. unfold exit_thread. thread. cbv zeta. walk; try done. apply tracked_last. by walk. Qed.

Lemma silent_join c p v : keeps_errno c (pthread_join c p v).
Proof. intros e. unfold pthread_join. thread. cbv zeta. by walk. Qed.

Lemma silent_setschedparam c p pol v : keeps_errno c (pthread_setschedparam p pol v).
Proof.
  intros e. unfold pthread_setschedparam. thread. apply tracked_load. intros a.
  destruct (pthread_attr_setschedparam a v). by walk.
Qed.

(** *** Timers *)

Lemma tracked_timer_on {R} me e (Q : option Z -> R -> Prop) p n (k : unit -> prog world R) :
  tracked sound_list me (k tt) e Q -> tracked sound_list me (bind (timer_on p n) k) e Q.
Proof.
  intros Hk. apply tracked_act. intros w [] w' Hw Hx. simpl in Hx.
  destruct (at_ p w); apply list_elem_of_singleton in Hx; by simplify_eq.
Qed.

Ltac walk_timer :=
  repeat first
    [ lazymatch goal with |- tracked _ _ (bind (timer_on _ _) _) _ _ => apply tracked_timer_on end
    | progress cbn [bind negb Z.eqb fst snd] | walk_one ].

(** A notification may create a thread. *)
Lemma timer_do_reports c p e :
  tracked sound_list (task_cur c) (timer_do c p) e (fun e' _ => e' = e \/ e' = Some EAGAIN).
Proof.
  unfold timer_do, tm_event, tm_period. cbv zeta. walk_timer; try (cbn [tracked]; auto).
  all: eapply tracked_bind; [apply create_reports|]; intros ? ? [->|[_ ->]]; simpl; auto.
Qed.

Lemma timer_create_reports c clk ev e :
  tracked sound_list (task_cur c) (let* r := timer_create c clk ev in Ret r.1) e
    (fun e' r => reports (-1) [ENOTSUP; EAGAIN] r e e').
Proof. unfold timer_create, tm_event, tm_period, tm_ost. cbv zeta. walk_timer; leaf. Qed.

Lemma settime_reports c p fl v o e :
  tracked sound_list (task_cur c) (let* r := timer_settime c p fl v o in Ret r.1) e
    (fun e' r => if r =? -1 then e' = Some EINVAL else e' = e \/ e' = Some EAGAIN).
Proof.
  unfold timer_settime, timer_gettime, tm_period, tm_ost.
  repeat first
    [ lazymatch goal with
      | |- tracked _ _ (bind (timer_do _ _) _) _ _ =>
          eapply tracked_bind; [apply timer_do_reports|intros ? ? [->| ->]]
      end
    | progress walk_timer ]; cbn [tracked]; destruct_or?; simplify_eq/=; auto.
Qed.

(** *** Every call *)

(** A function that leaves [errno] alone, of which only the result is used. *)
Lemma silent_result {A B} c (p : prog world A) (f : A -> B) e :
  keeps_errno c p -> tracked sound_list (task_cur c) (bind p (fun x => Ret (f x))) e (fun e' _ => e' = e).
Proof. intros Hp. by apply tracked_silent. Qed.

Lemma api_after c o e : tracked sound_list (task_cur c) (api_code c o) e (fun e' r => errno_after o r e e').
Proof.
  destruct o; cbn [api_code errno_after];
    try first
      [ exact eq_refl | apply silent_timedlock | apply silent_unlock | apply silent_cond_timedwait
      | apply silent_setschedparam | apply silent_result, silent_join | apply timedwait_reports | apply wait_reports
      | apply trywait_reports | apply close_reports | apply getattr_reports | apply unlink_reports
      | apply open_reports | apply send_reports | apply receive_reports | apply timer_create_reports
      | apply settime_reports ].
  - unfold pthread_mutex_init, mutex_type, mutex_mux, mutex_inited. cbv zeta. by walk.
  - apply silent_result, silent_timedlock.
  - unfold sem_init_posix, sem_self. by walk.
  - unfold sem_getvalue, sem_self. by walk.
  - unfold pthread_barrier_init, bar_cur, bar_threshold, bar_sem, bar_mux. cbv zeta. by walk.
  - unfold pthread_barrier_wait, bar_cur, bar_threshold, bar_sem, bar_mux. by walk.
  - unfold pthread_cond_init, cond_inited, cond_mux, cond_cond, cond_waiting. cbv zeta. by walk.
  - unfold pthread_cond_signal, cond_inited, cond_mux, cond_cond, cond_waiting. by walk.
  - unfold pthread_cond_broadcast, cond_inited, cond_mux, cond_cond, cond_waiting. by walk.
  - eapply tracked_bind; [apply create_reports|]. by intros e' [r t].
  - unfold pthread_exit. thread. cbv zeta. walk. apply tracked_silent; [apply silent_exit_thread|done].
  - unfold pthread_getschedparam. thread. by walk.
  - unfold timer_delete, tm_ost. by walk.
  - unfold timer_gettime, tm_ost, tm_period. by walk.
  - unfold clock. by walk.
  - unfold clock_getcpuclockid. by walk.
  - by walk.
  - unfold clock_settime. by walk.
  - unfold clock_nanosleep, task_sleep. cbv zeta. by walk.
  - unfold nanosleep, task_sleep. walk; leaf.
  - unfold time. by walk.
  - unfold sleep, task_sleep. by walk.
  - unfold usleep, task_sleep. by walk.
  - unfold sched_yield. by walk.
Qed.

Lemma task_after c os e :
  tracked sound_list (task_cur c) (api_task c os) e (fun e' rs => errno_trace os rs e e').
Proof.
  revert e. induction os as [|o os IH]; intros e; [done|]. cbn [api_task].
  eapply tracked_bind; [apply api_after|]. intros e1 r Hr. eapply tracked_bind; [apply IH|].
  intros e' rs Hrs. by exists e1.
Qed.

(** ** Any number of tasks *)

Context (who : nat -> caller) (calls : nat -> list api_call).
Hypothesis who_inj : forall i j, task_cur (who i) = task_cur (who j) -> i = j.

Definition api_tasks (n : nat) : list (prog world (list Z)) := map (fun i => api_task (who i) (calls i)) (seq 0 n).

(** C21: The error convention of the library.  In any interleaving of tasks
    that each make any calls one after the other, while time passes, the
    [errno] of a task that has made its calls is the result of its own calls
    alone.  The functions of queues ([mq_*]), the waits on a semaphore,
    [timer_create] and [nanosleep] set it exactly when they report failure,
    each to one of the listed numbers ([sem_trywait] never to [ETIMEDOUT]),
    and the two clock functions that are not supported always set [EPERM];
    every other function, the [pthread_*] functions but [pthread_create]
    among them, leaves it alone whatever it returns.  Two functions break the
    convention as far as stated here only: [pthread_create] may set [EAGAIN]
    besides returning it, and [timer_settime] may set [EAGAIN] although it
    does not fail, when the notification it makes at once cannot be given a
    thread. *)
Theorem errno_discipline n w (c : pool world (list Z)) :
  sound_list (allq w) -> reach clocked_step (api_tasks n, w) c ->
  (forall i rs, c.1 !! i = Some (Ret rs) -> exists e, errno_trace (calls i) rs None e
     /\ errnos c.2 !! task_cur (who i)
        = match e with Some z => Some z | None => errnos w !! task_cur (who i) end)
  /\ (forall t, (forall i, (i < n)%nat -> t <> task_cur (who i)) -> errnos c.2 !! t = errnos w !! t).
Proof.
  intros Hw Hr. apply (tracked_pool sound_list who (fun i => api_task (who i) (calls i))
    (fun i e rs => errno_trace (calls i) rs None e)); [done|done|intros; apply task_after|done].
Qed.
End convention.

(** ** Witness *)

Section api_witness.
Import Sim.

(** A task tries to take a semaphore that is 0 and then makes a mutex, while
    another one closes a descriptor that does not exist. *)
Definition two_tasks (i : nat) : list api_call :=
  if decide (i = 0%nat) then [CallSemTrywait 64; CallMutexInit 96 None] else [CallMqClose 128].

Definition api_pool : pool (@world sim_kernel) (list Z) :=
  (api_tasks sim_who two_tasks 2,
   sim_world {[ 64 := OSem (sem_init 0); 96 := OMutex (sim_mutex 0 7 0) ]}).

Definition api_summary (c : pool (@world sim_kernel) (list Z)) : list (option (list Z)) * list (option Z) :=
  (results c, map (fun i => errnos c.2 !! task_cur (sim_who i)) [0; 1]%nat).

Lemma errno_discipline_witness :
  exists c, reach pool_step api_pool c
    /\ api_summary c = ([Some [-1; 0]; Some [-1]], [Some EAGAIN; Some EBADF])
    /\ (forall i rs, c.1 !! i = Some (Ret rs) -> exists e, errno_trace (two_tasks i) rs None e
         /\ errnos c.2 !! task_cur (sim_who i) = match e with Some z => Some z | None => None end)
    /\ errnos c.2 !! 9 = None.
Proof.
  destruct (sched_summary api_summary
    [0; 1; 0; 1; 1; 0; 1; 0; 0; 1; 1; 1; 1; 0; 0; 0]%nat api_pool
    ([Some [-1; 0]; Some [-1]], [Some EAGAIN; Some EBADF])) as (c & Hr & Hc); [vm_compute; reflexivity|].
  exists c. split; [exact Hr|]. split; [exact Hc|].
  destruct (errno_discipline sim_ll_laws sim_alloc_laws sim_who two_tasks sim_who_inj 2 api_pool.2 c) as [H1 H2];
    [split; [constructor|apply not_elem_of_nil]|by apply clocked_reach|].
  split; [exact H1|]. rewrite (H2 9); [reflexivity|]. simpl. lia.
Defined.
End api_witness.
